(* ===== verification/_CoqProject ===== *)
-Q . S2P
Prelude.v
Sorting.v
GoErr.v
Sha256.v
GoTime.v
Float64.v
Json.v
Effects.v
Conc.v
Http.v
LeaseSpec.v
Lease.v
Readers.v
Queue.v
ChatMessage.v
Store.v
JsonText.v
HttpServer.v
TwitchWebhook.v
KickWebhook.v
Alchemy.v
Text.v
Url.v
UrlParse.v
Callable.v
Clients.v
Jobs.v
Fetch.v
Catalog.v
CatalogSafe.v
CatalogViewers.v
PublicHttp.v
Chat.v
YouTubeActions.v
YouTubeInfo.v
YouTube.v
Provider.v
Manager.v
TwitchIrc.v
TwitchEvents.v
WebServer.v
NetIP.v
OAuth.v
OAuthStore.v
OAuthConfig.v
AgentMain.v
SubsTypes.v
TwitchSubs.v
KickSubs.v
MigApi.v
Journal.v
MigPlan.v
Migrate.v
MigSafe.v
MigMain.v
Reporting.v
Supervisor.v
SupervisorEnds.v
