(* ===== verification/Prelude.v ===== *)
(** * Verification of the rtchat agent

    The program is the Go service under src/agent: it reads the chat of Twitch,
    Kick and YouTube channels into Firestore, receives the providers' webhooks,
    keeps their event subscriptions and OAuth tokens alive, and answers the
    app's callable requests. Many replicas run at once and share only Firestore,
    so most of what makes it correct is what a replica may do to shared state.

    ** How the program is modelled

    Data are the source's structs and tagged values as records and inductive
    types; times and durations are nanoseconds in [Z] (a time counts from Go's
    zero time); strings are byte strings; a float64 is the decimal text that
    strconv prints for it (Float64.v); errors are one inductive type with
    errors.Is and errors.As as recognisers (GoErr.v). Code that asks the world
    for something is written in one of two ways:

    - Effects.v: a state-monad program over a trace of effects, each answered by
      an environment that sees the whole history. A theorem that holds for every
      environment holds for every clock, provider, database and replica. A
      safety property is [justified]: every effect of every trace is allowed by
      the effects before it. Where the order matters it is stated with [since]:
      nested, it says what happened after what; [Store.under] is the part of a
      trace within a lease, granted and not given back.
    - Conc.v: a tree with sequencing, unbounded loops and parallel composition,
      and a step relation that interleaves goroutines in any order; used where
      goroutines share state and where loops never end (the YouTube reader).

    Components whose point is the interplay of replicas (leases, queues, the
    manager, the hedged Create, the supervisor) are step relations with reachable states.
    Executable definitions are evaluated by the examples of each file, mostly on
    the inputs of the repository's own tests.

    ** The files

    Foundations, the standard library as the code uses it: Prelude (integers,
    times, lists, tactics), Sorting, GoErr, Sha256, GoTime, Float64, Json and JsonText
    (encoding/json), Text (strings, regexp matchers), Url and UrlParse
    (net/url), NetIP (net: addresses and networks), HttpServer (incoming
    requests), Effects, Conc.

    Shared services:
    - Http: clients/client.go, clients/retry.go, subscriptions/http.go.
    - Clients: clients/client.go, clients/twitch, clients/kick, clients/youtube.
    - Store: Firestore documents, transactions and leases as effects.
    - LeaseSpec: what a lease document promises ([Leasing]) and the two abstract
      systems that are exclusive for every such document; Lease
      (subscriptionlock/lock.go), Readers (youtube/store.go, jobs/runner.go,
      ircauth/gate.go) and Provider (provider/firestore.go) are its instances.
    - ChatMessage: chatmessage, chatmetrics, webhook/message_ttl.go.

    Incoming: TwitchWebhook, KickWebhook, Alchemy (internal/webhook); Callable
    (callable/server.go, serialization.go); Chat (cmd/chat*.go); OAuth, OAuthStore
    and OAuthConfig (internal/oauthhttp); Fetch, Catalog, CatalogSafe and
    CatalogViewers (internal/catalog); PublicHttp (internal/publichttp);
    WebServer (webhook/server.go, webhook/secrets.go, and the routes, checks and
    shutdown of cmd/main.go), which sends each request to one of these;
    AgentMain puts them together: one request through the mux to its handler, as
    a program over the effects of all of them.

    Around the process: Reporting (observability/reporting.go), the zap core
    that makes error events, and Supervisor and SupervisorEnds
    (observability/supervisor.go), the process that runs the agent as a worker
    and reports its crash, as a step relation of its goroutines, the pipe and the
    worker.

    Outgoing and periodic: Queue, SubsTypes, TwitchSubs, KickSubs
    (internal/subscriptions); Provider (internal/provider); Jobs (internal/jobs
    and cmd/jobs.go); MigApi, Journal, MigPlan, Migrate, MigSafe
    (internal/eventsubmigration) and MigMain (cmd/migrate-eventsub), the command
    that runs it.

    Readers of chat: Manager (cmd/requests.go, ready.go, stuck.go, the loop of
    cmd/main.go, internal/agent); TwitchIrc and TwitchEvents (internal/handler,
    internal/cancel, auth/twitch.go, clients/twitch/irc.go); YouTubeActions,
    YouTubeInfo, YouTube (internal/youtube).

    A definition has the name of the Go function it models; the comment before
    it says where it differs in shape. Calls between packages are calls between
    files, except across an interface of the source, where the callee is an
    effect of the caller and its own theorems are in its file: a lease is an
    effect in Store.v and a transaction system in Lease.v; the hedged Create an
    effect in the webhooks and a state machine in ChatMessage.v; a provider
    token an effect of the clients and the subject of Provider.v.

    ** What the theorems show

    - Exclusion. [Lease.lock_exclusive], [Readers.reader_exclusive],
      [Readers.job_exclusive], [Provider.refresh_exclusive]: no two replicas do
      guarded work at once; [Lease.with_contract] and
      [Provider.firestore_refines] connect the code to the systems they are
      about. [Lease.lock_exclusive] assumes nothing of delays: at most one
      replica works on a lease that has not expired, and two work within their
      deadlines only when one started late, which [Lease.late_start_overlap]
      shows can happen. The other systems have hypotheses on clocks and
      heartbeats; [Readers.job_slot_repeats] shows what happens without them.
    - Authenticity. [TwitchWebhook.twitch_authentic],
      [KickWebhook.kick_authentic], [Alchemy.alchemy_authentic],
      [OAuth.oauth_authentic], [Callable.callable_contract], and
      [OAuthStore.session_once]: nothing is done for a request that is not
      signed, fresh, consumed once or verified, and only the documents the
      request maps to are written. [AgentMain.agent_effects] is about the whole
      server: everything one request causes belongs to the handler of its path
      and is allowed by that handler's contract. [OAuthConfig.peer_believed]: whose
      requests the rate limiter counts together; [OAuthConfig.oauth_configured]:
      what the OAuth server is made of.
    - Nothing is lost or destroyed. [Queue.latest_intent],
      [Queue.queue_invariant], [Manager.manager_latest],
      [Manager.ready_exactly_once], [TwitchSubs.reconcile_safe],
      [TwitchSubs.removal_only_own], [KickSubs.kick_admission],
      [MigSafe.run_safe], [MigMain.migrate_command], [Journal.checkpoint_durable],
      [Jobs.cleanup_idle_only], [Jobs.refresh_yields],
      [ChatMessage.create_sound]. Of these, [KickSubs.kick_admission] and
      [Jobs.cleanup_idle_only] fix the order of lease, reading and writing. What
      a migration does to the provider is safe, what its checkpoint says of
      deletions need not be true: [MigSafe.recorded_without_deletion] (a listing
      failed) and [MigSafe.recorded_without_first_page] (nothing failed).
    - At most once and honest about doubt. [Chat.chat_once];
      [MigApi.uncertainty_reported]: an attempt whose outcome is unknown makes
      the error uncertain, one answered with a success does not;
      [Provider.refresh_disciplined]: a rotation is sent under a lease that
      covers it by a clock read since it was granted.
    - Data. [YouTubeActions.actions_typed], [Alchemy.alchemy_calldata_roundtrip],
      [Alchemy.alchemy_id_identity], [Callable.wrappers_transparent].
    - Ends. [MigSafe.run_returns], [Provider.access_terminates],
      [Queue.retry_discipline].
    - Crashes. [SupervisorEnds.supervise_returns],
      [SupervisorEnds.worker_never_blocks], [SupervisorEnds.crash_reported] and
      [SupervisorEnds.crash_output_installed]: the supervisor returns once the
      worker is gone, never blocks its crash dump, and reports the first 128 KiB of
      it; [Reporting.report_written]: what an error event says.
    - The server. [WebServer.routes_served]: every path reaches its handler and
      registering the routes cannot panic; [WebServer.logging_transparent]: the
      request log changes nothing and tells the status that was sent.
    - Whole services. [YouTube.reader_justified] for every interleaving of the
      reader's goroutines; [TwitchIrc.join_disciplined], [TwitchIrc.join_no_leak],
      [TwitchEvents.event_recorded], [TwitchEvents.emote_sets_read].
    - Read-only services. [CatalogSafe.catalog_justified] and
      [PublicHttp.public_contract]: whose tokens a lookup uses and the one thing
      it may write; [CatalogViewers.viewer_list_complete]: a list holds every
      chatter of every page, grouped by what the provider says of each.

    ** Fuel

    Where a loop of the source is a Fixpoint, its bound is the source's own
    whenever it has one: four attempts of a request, five of a transaction, a
    hundred pages of chatters, fifty of emotes. A loop bounded by data takes that data's size:
    scanners and parsers the length of their input (each turn consumes a byte),
    chunking the length of the list; an IPv6 address has eight groups. A polling loop without a bound of its own
    takes fuel as an argument and the theorems hold for every fuel, and where it
    matters that it ends a theorem says what fuel is enough: [MigSafe.run_returns]
    bounds the turns of a migration by its plan, [Provider.access_terminates] the
    polls of AccessToken by the loads that fit in its budget of 30 seconds, [Lease.with_contract] the attempts of a
    lease. Conc.v has no fuel: its loops are unbounded and its theorems are about
    every reachable state.

    ** Not modelled

    - src/lib, src/ios, src/android, src/auxiliary, src/functions,
      src/packages: the Flutter app, its platform projects, and the TypeScript
      functions the agent replaces; other languages.
    - The rest of cmd/main.go: construction of clients, listeners and signal
      handling. agent/monitoring and the workflows: configuration. internal/twitchtest: a mock that only tests use.
    - callable/firebase.go and the secret readers of provider and catalog: they
      call the secret manager and Firebase and keep the answer. The handler that
      a callable route runs is an effect of Callable.v: the handlers are in Chat,
      Catalog, TwitchSubs and KickSubs.
    - Who else holds the writing end of the crash pipe: only the worker does,
      as its own children are not given it.
    - Log lines, metrics that are only logged, and the time a request takes
      unless a deadline of the source depends on it.
    - Third-party code (Firestore, Firebase, x/oauth2, go-twitch-irc, x/net/html,
      websocket, crypto/rsa) is an effect or an argument, never a definition. *)

From stdpp Require Import base gmap strings list pretty.
From Stdlib Require Import ZArith Lia Ascii.
#[local] Open Scope string_scope.

#[global] Open Scope Z_scope.

(** ** Machine integers *)

Definition max_int64 : Z := 9223372036854775807.
Definition min_int64 : Z := -9223372036854775808.

(** Two's complement wrap-around of [int64] arithmetic. *)
Definition wrap64 (z : Z) : Z :=
  (z + 9223372036854775808) mod 18446744073709551616 - 9223372036854775808.

Definition in_int64 (z : Z) : bool := (min_int64 <=? z) && (z <=? max_int64).

Lemma wrap64_id z : in_int64 z = true → wrap64 z = z.
Proof.
  unfold in_int64, wrap64, min_int64, max_int64. intros H.
  apply andb_true_iff in H as [H1%Z.leb_le H2%Z.leb_le].
  rewrite Z.mod_small; lia.
Qed.

Lemma wrap64_range z : in_int64 (wrap64 z) = true.
Proof.
  unfold in_int64, wrap64, min_int64, max_int64.
  pose proof (Z.mod_pos_bound (z + 9223372036854775808) 18446744073709551616).
  apply andb_true_iff; split; apply Z.leb_le; lia.
Qed.

(** ** Time

    A [time.Time] is the number of nanoseconds since Go's zero time (January 1
    of year 1, UTC), so the zero [time.Time{}] is [0]; a [time.Duration] is a
    number of nanoseconds. *)

Abbreviation time := Z (only parsing).
Abbreviation duration := Z (only parsing).

Definition zero_time : time := 0.
Definition millisecond : duration := 1000000.
Definition second : duration := 1000000000.
Definition minute : duration := 60 * second.
Definition hour : duration := 60 * minute.
Definition day : duration := 24 * hour.

(** Seconds between the zero time and the Unix epoch. *)
Definition unix_offset : Z := 62135596800.

(** [time.Unix(sec, nsec)]. *)
Definition time_unix (sec nsec : Z) : time := (sec + unix_offset) * second + nsec.

(** [t.Sub(u)] saturates at the bounds of a [time.Duration]. *)
Definition time_sub (t u : time) : duration :=
  Z.max min_int64 (Z.min max_int64 (t - u)).

Definition time_before (t u : time) : bool := t <? u.
Definition time_after (t u : time) : bool := u <? t.
Definition time_equal (t u : time) : bool := t =? u.
Definition time_is_zero (t : time) : bool := t =? zero_time.

(** [t.Truncate(d)] rounds down to a multiple of [d] since the zero time. *)
Definition time_truncate (t : time) (d : duration) : time :=
  if d <=? 0 then t else t - t mod d.

Lemma time_sub_exact t u :
  in_int64 (t - u) = true → time_sub t u = t - u.
Proof.
  unfold in_int64, time_sub. intros H.
  apply andb_true_iff in H as [H1%Z.leb_le H2%Z.leb_le]. lia.
Qed.

Lemma time_sub_pos t u : (0 <? time_sub t u) = time_after t u.
Proof.
  unfold time_sub, time_after, min_int64, max_int64.
  destruct (Z.ltb_spec u t), (Z.ltb_spec 0 (Z.max (-9223372036854775808)
    (Z.min 9223372036854775807 (t - u)))); lia.
Qed.

(** For a threshold inside the range of durations, saturation is invisible. *)
Lemma time_sub_lt t u d :
  min_int64 < d → d <= max_int64 → (time_sub t u <? d) = (t - u <? d).
Proof.
  unfold time_sub, min_int64, max_int64. intros.
  destruct (Z.ltb_spec (t - u) d), (Z.ltb_spec (Z.max (-9223372036854775808)
    (Z.min 9223372036854775807 (t - u))) d); lia.
Qed.

Lemma time_truncate_le t d : time_truncate t d <= t.
Proof.
  unfold time_truncate. destruct (Z.leb_spec d 0); [lia|].
  pose proof (Z.mod_pos_bound t d). lia.
Qed.

Lemma time_truncate_mul t d : 0 < d → time_truncate t d mod d = 0.
Proof.
  intros. unfold time_truncate. destruct (Z.leb_spec d 0); [lia|].
  rewrite Zminus_mod_idemp_r, Z.sub_diag. apply Z.mod_0_l. lia.
Qed.

(** ** Strings *)

Definition has_prefix (s p : string) : bool := String.prefix p s.

Fixpoint drop_str (n : nat) (s : string) : string :=
  match n, s with
  | S n', String _ s' => drop_str n' s'
  | _, _ => s
  end.

(** [strings.TrimPrefix]. *)
Definition trim_prefix (s p : string) : string :=
  if has_prefix s p then drop_str (String.length p) s else s.

Fixpoint contains_char (s : string) (c : Ascii.ascii) : bool :=
  match s with
  | EmptyString => false
  | String a s' => if Ascii.eqb a c then true else contains_char s' c
  end.

Fixpoint all_chars (f : Ascii.ascii → bool) (s : string) : bool :=
  match s with
  | EmptyString => true
  | String a s' => f a && all_chars f s'
  end.

Definition is_digit (a : Ascii.ascii) : bool :=
  let n := Ascii.nat_of_ascii a in (48 <=? n)%nat && (n <=? 57)%nat.

Definition is_upper (a : Ascii.ascii) : bool :=
  let n := Ascii.nat_of_ascii a in (65 <=? n)%nat && (n <=? 90)%nat.

Definition is_lower (a : Ascii.ascii) : bool :=
  let n := Ascii.nat_of_ascii a in (97 <=? n)%nat && (n <=? 122)%nat.

(** [strings.ToLower] on ASCII text. *)
Definition lower_char (a : Ascii.ascii) : Ascii.ascii :=
  if is_upper a then Ascii.ascii_of_nat (Ascii.nat_of_ascii a + 32) else a.
Fixpoint to_lower (s : string) : string :=
  match s with
  | EmptyString => EmptyString
  | String a s' => String (lower_char a) (to_lower s')
  end.

Lemma string_eqb_sym (a b : string) : String.eqb a b = String.eqb b a.
Proof. destruct (String.eqb_spec a b), (String.eqb_spec b a); congruence. Qed.

Lemma app_str_cons a (p s : string) : String a p +:+ s = String a (p +:+ s).
Proof. reflexivity. Qed.

Lemma app_str_empty (s : string) : s +:+ "" = s.
Proof. induction s as [|a s IH]; [done|]. by rewrite app_str_cons, IH. Qed.

Lemma drop_str_app p s : drop_str (String.length p) (p +:+ s) = s.
Proof. induction p; rewrite ?app_str_cons; cbn; auto. Qed.

Lemma app_str_inj (p a b : string) : p +:+ a = p +:+ b → a = b.
Proof. induction p; rewrite ?app_str_cons; cbn; [done|]. intros [= H]. auto. Qed.

Lemma has_prefix_app p s : has_prefix (p +:+ s) p = true.
Proof.
  unfold has_prefix. induction p as [|a p IH]; [by destruct s|].
  rewrite app_str_cons. cbn. by destruct (Ascii.ascii_dec a a).
Qed.

Lemma trim_prefix_app p s : trim_prefix (p +:+ s) p = s.
Proof. unfold trim_prefix. by rewrite has_prefix_app, drop_str_app. Qed.

Lemma has_prefix_split s p :
  has_prefix s p = true → s = p +:+ trim_prefix s p.
Proof.
  intros H. unfold trim_prefix. rewrite H. revert s H.
  unfold has_prefix. induction p as [|a p IH]; intros [|b s];
    rewrite ?app_str_cons; cbn; try done.
  destruct (Ascii.ascii_dec a b) as [->|]; [|done]. intros H. f_equal. by apply IH.
Qed.

(** ** Decimal numbers: [strconv] *)

Definition digit_value (a : Ascii.ascii) : Z := Z.of_nat (Ascii.nat_of_ascii a) - 48.

Fixpoint digits_value (acc : Z) (s : string) : Z :=
  match s with
  | EmptyString => acc
  | String a s' => digits_value (acc * 10 + digit_value a) s'
  end.

(** A nonempty string of ASCII digits: the regular expression [^[0-9]+$]. *)
Definition all_digits (s : string) : bool :=
  negb (String.eqb s "") && all_chars is_digit s.

(** [strconv.ParseUint(s, 10, bits)]; [None] is the error result. *)
Definition parse_uint (bits : Z) (s : string) : option Z :=
  if all_digits s then
    let n := digits_value 0 s in
    if n <? 2 ^ bits then Some n else None
  else None.

(** [strconv.ParseInt(s, 10, 64)], which [strconv.Atoi] equals on 64-bit
    platforms: an optional sign and digits, within the range of [int64]. *)
Definition parse_int (s : string) : option Z :=
  match s with
  | String a s' =>
    let neg := Ascii.eqb a "-"%char in
    let body := if neg || Ascii.eqb a "+"%char then s' else s in
    if all_digits body then
      let n := digits_value 0 body in
      let v := if neg then - n else n in
      if in_int64 v then Some v else None
    else None
  | EmptyString => None
  end.

Lemma parse_int_range s n : parse_int s = Some n → min_int64 <= n <= max_int64.
Proof.
  destruct s as [|a s']; [done|]. cbn -[all_digits digits_value].
  destruct (all_digits _); [|done]. destruct (in_int64 _) eqn:E; [|done].
  intros [= <-]. unfold in_int64 in E.
  apply andb_true_iff in E as [?%Z.leb_le ?%Z.leb_le]. lia.
Qed.

(** ** Maps with a default: [http.Header.Get] and Go map reads *)

(** A header holds one value per canonical key; an absent key reads as [""]. *)
Abbreviation header := (gmap string string) (only parsing).
Definition header_get (h : header) (k : string) : string := default "" (h !! k).

(** ** A state monad

    [M W A] is code that reads and changes a world [W] and returns an [A]. *)

Definition M (W A : Type) : Type := W → A * W.

#[export] Instance M_ret {W} : MRet (M W) := λ A a w, (a, w).
#[export] Instance M_bind {W} : MBind (M W) :=
  λ A B k m w, let '(a, w') := m w in k a w'.

Definition get_state {W} : M W W := λ w, (w, w).
Definition gets {W A} (f : W → A) : M W A := λ w, (f w, w).
Definition modify {W} (f : W → W) : M W unit := λ w, (tt, f w).

Lemma M_bind_run {W A B} (m : M W A) (k : A → M W B) w :
  (m ≫= k) w = k (m w).1 (m w).2.
Proof. unfold mbind, M_bind. by destruct (m w). Qed.

Lemma M_bind_assoc {W A B C} (m : M W A) (k : A → M W B) (l : B → M W C) w :
  ((m ≫= k) ≫= l) w = (m ≫= λ a, k a ≫= l) w.
Proof. by rewrite !M_bind_run. Qed.

(** A triple: from a world satisfying [P], [m] ends with a result and a world
    related by [Q]. Programs are total, so this is total correctness. *)
Definition triple {W A} (P : W → Prop) (m : M W A) (Q : A → W → Prop) : Prop :=
  ∀ w, P w → Q (m w).1 (m w).2.

Lemma triple_ret {W A} (P : W → Prop) (a : A) (Q : A → W → Prop) :
  (∀ w, P w → Q a w) → triple P (mret a) Q.
Proof. intros H w Hw. by apply H. Qed.

Lemma triple_bind {W A B} (P : W → Prop) (m : M W A) (R : A → W → Prop)
    (k : A → M W B) (Q : B → W → Prop) :
  triple P m R → (∀ a, triple (R a) (k a) Q) → triple P (m ≫= k) Q.
Proof.
  intros Hm Hk w Hw. rewrite M_bind_run. apply Hk. by apply Hm.
Qed.

Lemma triple_conseq {W A} (P P' : W → Prop) (m : M W A) (Q Q' : A → W → Prop) :
  triple P' m Q' → (∀ w, P w → P' w) → (∀ a w, Q' a w → Q a w) → triple P m Q.
Proof. intros H HP HQ w Hw. apply HQ, H, HP, Hw. Qed.

(** [m] keeps the predicate [I], whatever it returns. *)
Definition keeps {W A} (I : W → Prop) (m : M W A) : Prop :=
  triple I m (λ _ w, I w).

Lemma keeps_ret {W A} (I : W → Prop) (a : A) : keeps I (mret a : M W A).
Proof. intros w Hw. exact Hw. Qed.

Lemma keeps_bind {W A B} (I : W → Prop) (m : M W A) (k : A → M W B) :
  keeps I m → (∀ a, keeps I (k a)) → keeps I (m ≫= k).
Proof. intros Hm Hk. eapply triple_bind; [apply Hm|]. intros a. apply Hk. Qed.

Lemma keeps_gets {W A} (I : W → Prop) (f : W → A) : keeps I (gets f).
Proof. intros w Hw. exact Hw. Qed.

Lemma keeps_modify {W} (I : W → Prop) (f : W → W) :
  (∀ w, I w → I (f w)) → keeps I (modify f).
Proof. intros H w Hw. by apply H. Qed.

Create HintDb keeps discriminated.
#[export] Hint Constants Opaque : keeps.
#[export] Hint Resolve keeps_ret keeps_gets : keeps.

(** Walk through a program: one goal per effect that no hint closes. *)
Ltac keeps_step :=
  match goal with
  | |- keeps _ (mbind _ _) => apply keeps_bind; [|intros ?]
  | |- keeps _ (mret _) => apply keeps_ret
  | |- keeps _ (gets _) => apply keeps_gets
  | |- keeps _ (let '(_, _) := ?x in _) => destruct x
  | |- keeps _ (if ?b then _ else _) => destruct b eqn:?
  | |- keeps _ (match ?x with _ => _ end) => destruct x eqn:?
  end.
Ltac keeps_tac := repeat (first [ solve [auto with keeps] | keeps_step ]).

(** ** Parsers *)

(** A parser takes a prefix of the text. *)
Definition parser (A : Type) : Type := string → option (A * string).
#[export] Instance parser_ret : MRet parser := λ A a s, Some (a, s).
#[export] Instance parser_bind : MBind parser :=
  λ A B k p s, match p s with Some (a, s') => k a s' | None => None end.
Definition fail {A} : parser A := λ _, None.
Definition guard_ (b : bool) : parser unit := λ s, if b then Some (tt, s) else None.

Definition char (c : Ascii.ascii) : parser unit := λ s,
  match s with String a s' => if Ascii.eqb a c then Some (tt, s') else None | _ => None end.

(** ** Small automation *)

(** Turn boolean tests into propositions. *)
Create Rewrite HintDb bools.
#[export] Hint Rewrite andb_true_iff andb_false_iff orb_true_iff orb_false_iff
  negb_true_iff negb_false_iff Z.ltb_lt Z.ltb_ge Z.leb_le Z.leb_gt Z.eqb_eq
  Z.eqb_neq Nat.ltb_lt Nat.ltb_ge Nat.leb_le Nat.leb_gt Nat.eqb_eq Nat.eqb_neq
  String.eqb_eq String.eqb_neq : bools.

Ltac bools := autorewrite with bools in *.

(** Case analysis on the innermost test of the goal. *)
Ltac case_match_all := repeat (case_match; simplify_eq/=; try done).

(** ** The order of strings *)

From Stdlib Require OrderedTypeEx.

Lemma string_ltb_trans (a b c : string) :
  String.ltb a b = true → String.ltb b c = true → String.ltb a c = true.
Proof.
  unfold String.ltb. intros H1 H2.
  destruct (String.compare a b) eqn:E1; [done| |done].
  destruct (String.compare b c) eqn:E2; [done| |done].
  apply OrderedTypeEx.String_as_OT.cmp_lt in E1, E2.
  pose proof (OrderedTypeEx.String_as_OT.lt_trans _ _ _ E1 E2) as E3.
  apply OrderedTypeEx.String_as_OT.cmp_lt in E3.
  change (OrderedTypeEx.String_as_OT.cmp a c) with (String.compare a c) in E3.
  by rewrite E3.
Qed.

Lemma string_ltb_total (a b : string) :
  String.ltb a b = false → String.ltb b a = false → a = b.
Proof.
  unfold String.ltb. rewrite (String.compare_antisym b a).
  destruct (String.compare a b) eqn:E; cbn; try done.
  intros _ _. by apply String.compare_eq_iff.
Qed.

Lemma string_ltb_irrefl (a : string) : String.ltb a a = false.
Proof.
  unfold String.ltb. pose proof (String.compare_antisym a a) as H.
  by destruct (String.compare a a).
Qed.
