(* ===== verification/Sorting.v ===== *)
(** * Sorting

    Insertion sort by a strict order, in place of sort.Slice and
    sort.SliceStable: the result is a permutation, sorted, and keeps the order
    of elements that are not less than each other, which determines it. *)

From stdpp Require Import base strings list sorting.
From S2P Require Import Prelude.

Section Sort.
Context {A : Type} (less : A → A → bool).
Fixpoint insert_by (x : A) (l : list A) : list A :=
  match l with
  | [] => [x]
  | y :: l' => if less y x then y :: insert_by x l' else x :: l
  end.
Definition sort_by (l : list A) : list A := foldr insert_by [] l.

Lemma insert_by_perm x l : insert_by x l ≡ₚ x :: l.
Proof. induction l as [|y l IH]; cbn; [done|]. case_match; [|done]. rewrite IH. constructor. Qed.
Lemma sort_by_perm l : sort_by l ≡ₚ l.
Proof. induction l as [|x l IH]; cbn; [done|]. by rewrite insert_by_perm, IH. Qed.

(** Sorted: nothing later is smaller. *)
Lemma insert_by_sorted x l :
  (∀ a b, less a b = true → less b a = false) →
  (∀ a b c, less b a = false → less c b = false → less c a = false) →
  StronglySorted (λ a b, less b a = false) l →
  StronglySorted (λ a b, less b a = false) (insert_by x l).
Proof.
  intros Has Htr Hs. induction Hs as [|y l Hs IH Hall]; cbn; [repeat constructor|].
  destruct (less y x) eqn:E.
  - constructor; [done|]. rewrite insert_by_perm. constructor; [by apply Has|done].
  - constructor; [by constructor|]. constructor; [done|].
    eapply Forall_impl; [done|]. intros z Hz. by eapply Htr.
Qed.
Lemma sort_by_sorted l :
  (∀ a b, less a b = true → less b a = false) →
  (∀ a b c, less b a = false → less c b = false → less c a = false) →
  StronglySorted (λ a b, less b a = false) (sort_by l).
Proof. intros Has Htr. induction l as [|x l IH]; cbn; [constructor|]. by apply insert_by_sorted. Qed.

(** Stable: elements of which none is less than another keep their order. *)
Lemma sort_by_stable (P : A → Prop) `{HP : !∀ a, Decision (P a)} l :
  (∀ a b, P a → P b → less a b = false) → filter P (sort_by l) = filter P l.
Proof.
  intros H. assert (Hi : ∀ x l, filter P (insert_by x l) = filter P (x :: l)).
  { intros x k. induction k as [|y k IH]; cbn [insert_by]; [done|]. destruct (less y x) eqn:E; [|done].
    rewrite filter_cons, IH, !filter_cons. destruct (decide (P y)), (decide (P x)); try done.
    by rewrite H in E. }
  induction l as [|x l IH]; [done|]. cbn [sort_by foldr]. fold (sort_by l). by rewrite Hi, !filter_cons, IH.
Qed.
End Sort.

(** The order of strings as such an order. *)

Lemma string_ltb_asym a b : String.ltb a b = true → String.ltb b a = false.
Proof.
  intros H. destruct (String.ltb b a) eqn:E; [|done].
  pose proof (string_ltb_trans _ _ _ H E) as H'. by rewrite string_ltb_irrefl in H'.
Qed.
Lemma string_geb_trans a b c :
  String.ltb b a = false → String.ltb c b = false → String.ltb c a = false.
Proof.
  intros H1 H2. destruct (String.ltb c a) eqn:E; [|done].
  destruct (String.ltb a b) eqn:E'; [by rewrite (string_ltb_trans _ _ _ E E') in H2|].
  by rewrite (string_ltb_total a b) in E by done; congruence.
Qed.

