(* ===== verification/GoErr.v ===== *)
(** * Go errors

    The error values of the agent's packages as one inductive type. A Go error
    is a tree linked by [Unwrap], most often a chain; [errors.Is] and
    [errors.As] search it in depth, and so do the recognisers below. *)

From stdpp Require Import base gmap strings list.
From S2P Require Import Prelude.

(** Status codes of [google.golang.org/grpc/codes] the program distinguishes. *)
Inductive code :=
  | OK | Canceled | Unknown | DeadlineExceeded | NotFound | AlreadyExists
  | ResourceExhausted | FailedPrecondition | Aborted | Unavailable | OtherCode.

#[export] Instance code_eq_dec : EqDecision code.
Proof. solve_decision. Defined.

Inductive error :=
  | ErrMsg (msg : string)                 (* errors.New, fmt.Errorf without %w *)
  | ErrWrap (msg : string) (e : error)    (* fmt.Errorf with %w *)
  | ErrJoin (msg : string) (e1 e2 : error) (* fmt.Errorf with %w twice *)
  | ErrCanceled                           (* context.Canceled *)
  | ErrDeadline                           (* context.DeadlineExceeded *)
  | ErrStatus (c : code)                  (* a gRPC status error *)
  | ErrCallable (c msg : string)          (* *callable.Error *)
  (* *callable.Error whose Details are youtube's: the reason, and the status *)
  | ErrDetailed (c msg reason : string) (status : option Z)
  | ErrHTTP (status : Z) (explained : bool) (* *clients.HTTPError *)
  | ErrBusy                               (* subscriptionlock.ErrBusy *)
  | ErrUncertain (e : error)              (* *subscriptionlock.UncertainError *)
  | ErrBudget                             (* subscriptions.errTwitchBudget *)
  | ErrCostLimited (e : error)            (* *subscriptions.costLimitError *)
  | ErrRetry (e : error) (h : header)     (* *subscriptions.retryError *)
  | ErrNoToken                            (* provider.ErrNoToken *)
  | ErrRefreshBusy                        (* provider.ErrRefreshBusy *)
  | ErrCostLimit                          (* eventsubmigration.ErrCostLimit *)
  | ErrCostBlocked                        (* eventsubmigration.errCostBlocked *)
  | ErrCheckpoint (e : error)             (* *eventsubmigration.checkpointError *)
  | ErrChannelUnavailable                 (* handler.ErrChannelUnavailable *)
  | ErrIteratorDone                       (* iterator.Done *)
  | ErrUnrecognizedPage                   (* *youtube.unrecognizedPageError *)
  | ErrNoChannel                          (* oauthhttp.errNoChannel *)
  | ErrAPI (status : Z) (reason : string) (* *clients/youtube.APIError *)
  | ErrRaid (msg : string)                (* *clients/twitch.RaidRejected *)
  | ErrModeration (msg : string).         (* *clients/twitch.ModerationRejected *)

(** [errors.Unwrap]; an error that wraps two has none. *)
Definition unwrap (e : error) : option error :=
  match e with
  | ErrWrap _ e | ErrUncertain e | ErrCostLimited e | ErrRetry e _ | ErrCheckpoint e => Some e
  | _ => None
  end.

(** The first value of [f] in the tree: the search of [errors.As]. *)
Fixpoint errors_as {A} (f : error → option A) (e : error) : option A :=
  match f e with
  | Some a => Some a
  | None =>
    match e with
    | ErrWrap _ e | ErrUncertain e | ErrCostLimited e | ErrRetry e _ | ErrCheckpoint e =>
      errors_as f e
    | ErrJoin _ e1 e2 => match errors_as f e1 with Some a => Some a | None => errors_as f e2 end
    | _ => None
    end
  end.

Definition is_some {A} (o : option A) : bool := match o with Some _ => true | None => false end.

Definition as_http (e : error) : option (Z * bool) :=
  errors_as (λ e, match e with ErrHTTP s x => Some (s, x) | _ => None end) e.
Definition as_callable (e : error) : option (string * string) :=
  errors_as (λ e, match e with
                  | ErrCallable c m | ErrDetailed c m _ _ => Some (c, m)
                  | _ => None
                  end) e.
Definition as_api (e : error) : option (Z * string) :=
  errors_as (λ e, match e with ErrAPI s r => Some (s, r) | _ => None end) e.
Definition as_raid (e : error) : option string :=
  errors_as (λ e, match e with ErrRaid m => Some m | _ => None end) e.
Definition as_moderation (e : error) : option string :=
  errors_as (λ e, match e with ErrModeration m => Some m | _ => None end) e.
(** The wrapped error and the header of a [*retryError]. *)
Definition as_retry (e : error) : option (error * header) :=
  errors_as (λ e, match e with ErrRetry e h => Some (e, h) | _ => None end) e.
Definition is_uncertain (e : error) : bool :=
  is_some (errors_as (λ e, match e with ErrUncertain _ => Some tt | _ => None end) e).
Definition is_busy (e : error) : bool :=
  is_some (errors_as (λ e, match e with ErrBusy => Some tt | _ => None end) e).
Definition is_budget (e : error) : bool :=
  is_some (errors_as (λ e, match e with ErrBudget => Some tt | _ => None end) e).
Definition is_cost_limited (e : error) : bool :=
  is_some (errors_as (λ e, match e with ErrCostLimited _ => Some tt | _ => None end) e).
Definition is_no_token (e : error) : bool :=
  is_some (errors_as (λ e, match e with ErrNoToken => Some tt | _ => None end) e).
Definition is_cost_limit (e : error) : bool :=
  is_some (errors_as (λ e, match e with ErrCostLimit => Some tt | _ => None end) e).
Definition is_cost_blocked (e : error) : bool :=
  is_some (errors_as (λ e, match e with ErrCostBlocked => Some tt | _ => None end) e).
Definition is_checkpoint (e : error) : bool :=
  is_some (errors_as (λ e, match e with ErrCheckpoint _ => Some tt | _ => None end) e).

Definition is_channel_unavailable (e : error) : bool :=
  is_some (errors_as (λ e, match e with ErrChannelUnavailable => Some tt | _ => None end) e).
Definition is_deadline (e : error) : bool :=
  is_some (errors_as (λ e, match e with ErrDeadline => Some tt | _ => None end) e).
Definition is_iterator_done (e : error) : bool :=
  is_some (errors_as (λ e, match e with ErrIteratorDone => Some tt | _ => None end) e).
Definition is_unrecognized (e : error) : bool :=
  is_some (errors_as (λ e, match e with ErrUnrecognizedPage => Some tt | _ => None end) e).

(** [isStatus(err, code)] of subscriptions/service.go, on a non-nil error. *)
Definition is_status (e : error) (s : Z) : bool :=
  match as_http e with Some (s', _) => s' =? s | None => false end.

(** [status.Code(err)]: [nil] is [OK], an error without a status is [Unknown]. *)
Definition status_code (e : option error) : code :=
  match e with
  | None => OK
  | Some e =>
    default Unknown (errors_as (λ e, match e with ErrStatus c => Some c | _ => None end) e)
  end.

(** [cancel.IsCanceled]: errors.Is, a status, or the error of a net.OpError. *)
Definition IsCanceled (e : error) : bool :=
  is_some (errors_as (λ e, match e with ErrCanceled => Some tt | _ => None end) e) ||
  bool_decide (status_code (Some e) = Canceled).

(** A Go function returning [(value, error)], where only one is meaningful. *)
Abbreviation result A := (error + A)%type (only parsing).

Lemma errors_as_wrap {A} (f : error → option A) m e :
  f (ErrWrap m e) = None → errors_as f (ErrWrap m e) = errors_as f e.
Proof. intros H. simpl. by rewrite H. Qed.

Lemma is_uncertain_ErrUncertain e : is_uncertain (ErrUncertain e) = true.
Proof. reflexivity. Qed.

Lemma is_status_http s x : is_status (ErrHTTP s x) s = true.
Proof. apply Z.eqb_refl. Qed.
