(* ===== verification/Sha256.v ===== *)
(** * SHA-256, HMAC, hexadecimal and base64

    What the webhooks use of crypto/sha256, crypto/hmac, encoding/hex and
    encoding/base64, on
    strings of bytes. A 32-bit word is a [Z] below 2^32. *)

From stdpp Require Import base gmap strings list.
From Stdlib Require Import Ascii.
From S2P Require Import Prelude.

Definition w32 (z : Z) : Z := Z.land z 4294967295.
Definition add32 (a b : Z) : Z := w32 (a + b).
Definition rotr (n x : Z) : Z := Z.lor (Z.shiftr x n) (w32 (Z.shiftl x (32 - n))).
Definition not32 (x : Z) : Z := Z.lxor x 4294967295.

Definition K256 : list Z := [
  1116352408; 1899447441; 3049323471; 3921009573; 961987163; 1508970993; 2453635748; 2870763221;
  3624381080; 310598401; 607225278; 1426881987; 1925078388; 2162078206; 2614888103; 3248222580;
  3835390401; 4022224774; 264347078; 604807628; 770255983; 1249150122; 1555081692; 1996064986;
  2554220882; 2821834349; 2952996808; 3210313671; 3336571891; 3584528711; 113926993; 338241895;
  666307205; 773529912; 1294757372; 1396182291; 1695183700; 1986661051; 2177026350; 2456956037;
  2730485921; 2820302411; 3259730800; 3345764771; 3516065817; 3600352804; 4094571909; 275423344;
  430227734; 506948616; 659060556; 883997877; 958139571; 1322822218; 1537002063; 1747873779;
  1955562222; 2024104815; 2227730452; 2361852424; 2428436474; 2756734187; 3204031479; 3329325298].

Definition H256 : list Z := [
  1779033703; 3144134277; 1013904242; 2773480762; 1359893119; 2600822924; 528734635; 1541459225].

Fixpoint bytes_of (s : string) : list Z :=
  match s with
  | EmptyString => []
  | String a s => Z.of_nat (nat_of_ascii a) :: bytes_of s
  end.
Fixpoint string_of (l : list Z) : string :=
  match l with
  | [] => EmptyString
  | b :: l => String (ascii_of_nat (Z.to_nat b)) (string_of l)
  end.

Fixpoint be_bytes (n : nat) (z : Z) : list Z :=
  match n with
  | O => []
  | S n => Z.land (Z.shiftr z (8 * Z.of_nat n)) 255 :: be_bytes n z
  end.

Definition pad (m : list Z) : list Z :=
  let n := Z.of_nat (length m) in
  let zeros := Z.to_nat ((55 - n) mod 64) in
  m ++ [128] ++ replicate zeros 0 ++ be_bytes 8 (8 * n).

Fixpoint words (l : list Z) : list Z :=
  match l with
  | a :: b :: c :: d :: l =>
    Z.lor (Z.shiftl a 24) (Z.lor (Z.shiftl b 16) (Z.lor (Z.shiftl c 8) d)) :: words l
  | _ => []
  end.

(** The message schedule: the last sixteen words slide over the block. *)
Fixpoint schedule (n : nat) (w : list Z) : list Z :=
  match n, w with
  | S n, w0 :: rest =>
    let w1 := nth 0 rest 0 in let w9 := nth 8 rest 0 in let w14 := nth 13 rest 0 in
    let s0 := Z.lxor (rotr 7 w1) (Z.lxor (rotr 18 w1) (Z.shiftr w1 3)) in
    let s1 := Z.lxor (rotr 17 w14) (Z.lxor (rotr 19 w14) (Z.shiftr w14 10)) in
    w0 :: schedule n (rest ++ [w32 (w0 + s0 + w9 + s1)])
  | _, _ => []
  end.

Definition round256 (st : list Z) (kw : Z * Z) : list Z :=
  match st with
  | [a; b; c; d; e; f; g; h] =>
    let s1 := Z.lxor (rotr 6 e) (Z.lxor (rotr 11 e) (rotr 25 e)) in
    let ch := Z.lxor (Z.land e f) (Z.land (not32 e) g) in
    let t1 := w32 (h + s1 + ch + kw.1 + kw.2) in
    let s0 := Z.lxor (rotr 2 a) (Z.lxor (rotr 13 a) (rotr 22 a)) in
    let maj := Z.lxor (Z.land a b) (Z.lxor (Z.land a c) (Z.land b c)) in
    [add32 t1 (w32 (s0 + maj)); a; b; c; add32 d t1; e; f; g]
  | _ => st
  end.

Definition block256 (h : list Z) (block : list Z) : list Z :=
  zip_with add32 h (foldl round256 h (zip K256 (schedule 64 (words block)))).

(** The blocks of a padded message, [n] of them. *)
Fixpoint blocks256 (n : nat) (h : list Z) (m : list Z) : list Z :=
  match n with
  | O => h
  | S n => blocks256 n (block256 h (take 64 m)) (drop 64 m)
  end.

Definition sha256_bytes (m : list Z) : list Z :=
  let p := pad m in
  concat (map (be_bytes 4) (blocks256 (length p / 64) H256 p)).

Definition sha256 (s : string) : string := string_of (sha256_bytes (bytes_of s)).

Definition hmac_sha256 (key msg : string) : string :=
  let k := bytes_of key in
  let k := if (length k <=? 64)%nat then k else sha256_bytes k in
  let k := k ++ replicate (64 - length k) 0 in
  let inner := sha256_bytes (map (Z.lxor 54) k ++ bytes_of msg) in
  string_of (sha256_bytes (map (Z.lxor 92) k ++ inner)).

(** [hex.DecodeString]. *)
Definition hex_digit (a : ascii) : option Z :=
  let n := Z.of_nat (nat_of_ascii a) in
  if is_digit a then Some (n - 48)
  else if (97 <=? n) && (n <=? 102) then Some (n - 87)
  else if (65 <=? n) && (n <=? 70) then Some (n - 55)
  else None.
Fixpoint hex_decode (s : string) : option string :=
  match s with
  | EmptyString => Some EmptyString
  | String a (String b s) =>
    x ← hex_digit a; y ← hex_digit b; r ← hex_decode s;
    Some (String (ascii_of_nat (Z.to_nat (16 * x + y))) r)
  | _ => None
  end.

(** [hex.EncodeToString]. *)
Definition hex_char (n : Z) : ascii := ascii_of_nat (Z.to_nat (if n <? 10 then 48 + n else 87 + n)).
Fixpoint hex_encode (s : string) : string :=
  match s with
  | EmptyString => EmptyString
  | String a s =>
    let n := Z.of_nat (nat_of_ascii a) in
    String (hex_char (n / 16)) (String (hex_char (n mod 16)) (hex_encode s))
  end.

Example sha256_abc :
  hex_encode (sha256 "abc") = "ba7816bf8f01cfea414140de5dae2223b00361a396177a9cb410ff61f20015ad".
Proof. vm_compute. reflexivity. Qed.
(** The second test case of RFC 4231. *)
Example hmac_rfc4231 :
  hex_encode (hmac_sha256 "Jefe" "what do ya want for nothing?") =
  "5bdcc146bf60754e6a042426089575c75a003f089d2739839dec58b964ec3843".
Proof. vm_compute. reflexivity. Qed.

Lemma hex_decode_encode s : hex_decode (hex_encode s) = Some s.
Proof.
  induction s as [|a s IH]; [done|]. cbn [hex_encode hex_decode].
  assert (hex_digit (hex_char (Z.of_nat (nat_of_ascii a) / 16)) = Some (Z.of_nat (nat_of_ascii a) / 16) ∧
          hex_digit (hex_char (Z.of_nat (nat_of_ascii a) mod 16)) = Some (Z.of_nat (nat_of_ascii a) mod 16) ∧
          ascii_of_nat (Z.to_nat (16 * (Z.of_nat (nat_of_ascii a) / 16) + Z.of_nat (nat_of_ascii a) mod 16)) = a)
    as (-> & -> & Ha).
  { clear. destruct a as [[] [] [] [] [] [] [] []]; vm_compute; done. }
  rewrite IH. cbn [mbind option_bind]. by rewrite Ha.
Qed.

(** ** [base64.StdEncoding.DecodeString] *)

Definition b64_digit (a : ascii) : option Z :=
  let n := Z.of_nat (nat_of_ascii a) in
  if is_upper a then Some (n - 65)
  else if is_lower a then Some (n - 71)
  else if is_digit a then Some (n + 4)
  else if n =? 43 then Some 62
  else if n =? 47 then Some 63
  else None.

(** Line ends are skipped wherever they stand. *)
Fixpoint drop_newlines (s : string) : string :=
  match s with
  | EmptyString => EmptyString
  | String a s =>
    let n := Z.of_nat (nat_of_ascii a) in
    if (n =? 10) || (n =? 13) then drop_newlines s else String a (drop_newlines s)
  end.

Definition chr (z : Z) : ascii := ascii_of_nat (Z.to_nat (Z.land z 255)).

Fixpoint b64_quanta (s : string) : option string :=
  match s with
  | EmptyString => Some EmptyString
  | String a (String b (String c (String d s))) =>
    let pad x := Ascii.eqb x "="%char in
    w ← b64_digit a; x ← b64_digit b;
    let first := chr (w * 4 + x / 16) in
    if pad c && pad d then if String.eqb s "" then Some (String first "") else None
    else
      y ← b64_digit c;
      let second_ := chr (x * 16 + y / 4) in
      if pad d then if String.eqb s "" then Some (String first (String second_ "")) else None
      else z ← b64_digit d; r ← b64_quanta s;
           Some (String first (String second_ (String (chr (y * 64 + z)) r)))
  | _ => None
  end.

Definition b64_decode (s : string) : option string := b64_quanta (drop_newlines s).

Example b64_examples :
  b64_decode "c3VyZS4=" = Some "sure." ∧ b64_decode "c3VyZQ==" = Some "sure" ∧
  b64_decode "c3Vy" = Some "sur" ∧ b64_decode "c3VyZQ" = None ∧ b64_decode "c3Vy=" = None.
Proof. vm_compute. done. Qed.
