(* ===== verification/GoTime.v ===== *)
(** * Time stamps as text

    [time.Parse(time.RFC3339Nano, s)] of the Go library: the general parser on
    that layout (the fast path accepts a subset with the same results). An hour
    of one digit, a comma before the fraction, and more than nine digits of
    fraction (cut) are accepted. *)

From stdpp Require Import base gmap strings list pretty.
From Stdlib Require Import Ascii.
From S2P Require Import Prelude.

Definition is_leap (year : Z) : bool :=
  (year mod 4 =? 0) && (negb (year mod 100 =? 0) || (year mod 400 =? 0)).

Definition days_in (month year : Z) : Z :=
  if month =? 2 then if is_leap year then 29 else 28
  else if (month =? 4) || (month =? 6) || (month =? 9) || (month =? 11) then 30 else 31.

(** Days of the months of [year] before the [n]-th (from zero). *)
Fixpoint days_before (n : nat) (year : Z) : Z :=
  match n with
  | O => 0
  | S n => days_before n year + days_in (Z.of_nat n + 1) year
  end.

(** Days from January 1 of year 1 to the date. *)
Definition days_from (year month dom : Z) : Z :=
  let y := year - 1 in
  365 * y + y / 4 - y / 100 + y / 400 + days_before (Z.to_nat (month - 1)) year + (dom - 1).

(** [time.Date(..., time.UTC)], for values in range. *)
Definition time_date (year month dom hh mm ss ns : Z) : time :=
  (((days_from year month dom * 24 + hh) * 60 + mm) * 60 + ss) * second + ns.

(** [getnum(value, fixed)]: two digits, or one when not fixed. *)
Definition getnum (fixed : bool) : parser Z := λ s,
  match s with
  | String a s' =>
    if is_digit a then
      match s' with
      | String b s'' =>
        if is_digit b then Some (digit_value a * 10 + digit_value b, s'')
        else if fixed then None else Some (digit_value a, s')
      | EmptyString => if fixed then None else Some (digit_value a, s')
      end
    else None
  | EmptyString => None
  end.

Definition long_year : parser Z :=
  a ← getnum true; b ← getnum true; mret (100 * a + b).

(** The fraction of the second: its first nine digits as nanoseconds. *)
Fixpoint fraction (scale acc : Z) (s : string) : Z * string :=
  match s with
  | String a s' =>
    if is_digit a then fraction (scale / 10) (acc + digit_value a * scale) s' else (acc, s)
  | EmptyString => (acc, s)
  end.

Definition frac_second : parser Z := λ s,
  match s with
  | String c (String a s') =>
    if (Ascii.eqb c "."%char || Ascii.eqb c ","%char) && is_digit a
    then Some (fraction 100000000 0 (String a s')) else Some (0, s)
  | _ => Some (0, s)
  end.

(** [Z] or an offset; a zone hour of 24 and a zone minute of 60 pass. *)
Definition zone : parser Z := λ s,
  match s with
  | String a s' =>
    if Ascii.eqb a "Z"%char then Some (0, s')
    else if Ascii.eqb a "+"%char || Ascii.eqb a "-"%char then
      (hr ← getnum true; char ":"%char;; mm ← getnum true;
       guard_ ((hr <=? 24) && (mm <=? 60));;
       let off := (hr * 60 + mm) * 60 in
       mret (if Ascii.eqb a "-"%char then - off else off)) s'
    else None
  | EmptyString => None
  end.

Definition rfc3339 : parser time :=
  year ← long_year; char "-"%char;;
  month ← getnum true; guard_ ((1 <=? month) && (month <=? 12));; char "-"%char;;
  dom ← getnum true; char "T"%char;;
  hh ← getnum false; guard_ (hh <? 24);; char ":"%char;;
  mm ← getnum true; guard_ (mm <? 60);; char ":"%char;;
  ss ← getnum true; guard_ (ss <? 60);;
  ns ← frac_second;
  off ← zone;
  guard_ ((1 <=? dom) && (dom <=? days_in month year));;
  mret (time_date year month dom hh mm ss ns - off * second).

Definition parse_rfc3339 (s : string) : option time :=
  match rfc3339 s with
  | Some (t, EmptyString) => Some t
  | _ => None
  end.

Example rfc3339_epoch : parse_rfc3339 "1970-01-01T00:00:00Z" = Some (time_unix 0 0).
Proof. vm_compute. reflexivity. Qed.
Example rfc3339_zone :
  parse_rfc3339 "2024-02-29T23:30:05.123456789123-07:30" =
  parse_rfc3339 "2024-03-01T07:00:05.123456789Z" ∧
  parse_rfc3339 "2024-03-01T07:00:05.123456789Z" = Some (time_unix 1709276405 123456789) ∧
  parse_rfc3339 "2023-02-29T00:00:00Z" = None ∧ parse_rfc3339 "2023-02-28T00:00:00" = None.
Proof. vm_compute. done. Qed.

(** ** Formatting *)

(** The year of a day: at most two years past [n/366] in a cycle of 400. *)
Fixpoint find_year (fuel : nat) (y n : Z) : Z :=
  match fuel with
  | O => y
  | S fuel => if days_from (y + 1) 1 1 <=? n then find_year fuel (y + 1) n else y
  end.
Definition year_of (n : Z) : Z :=
  let q := n / 146097 in
  let r := n mod 146097 in
  400 * q + find_year 2 (1 + r / 366) r.

(** The month, from the days since January 1. *)
Fixpoint find_month (fuel : nat) (m year d : Z) : Z * Z :=
  match fuel with
  | O => (m, d)
  | S fuel => if days_in m year <=? d then find_month fuel (m + 1) year (d - days_in m year) else (m, d)
  end.

(** Year, month and day of the month of a day. *)
Definition date_of (n : Z) : Z * Z * Z :=
  let y := year_of n in
  let '(m, d) := find_month 11 1 y (n - days_from y 1 1) in
  (y, m, d + 1).

Definition digits2 (n : Z) : string := (if n <? 10 then "0" else "") +:+ pretty n.
Definition digits4 (n : Z) : string :=
  (if n <? 10 then "000" else if n <? 100 then "00" else if n <? 1000 then "0" else "") +:+ pretty n.

Definition day_length : duration := 86400 * second.

(** [t.Format("2006-01-02")] of a local clock. *)
Definition format_date (t : time) : string :=
  let '(y, m, d) := date_of (t / day_length) in digits4 y +:+ "-" +:+ digits2 m +:+ "-" +:+ digits2 d.

Definition clock_text (t : time) : string :=
  let s := (t mod day_length) / second in
  digits2 (s / 3600) +:+ ":" +:+ digits2 (s / 60 mod 60) +:+ ":" +:+ digits2 (s mod 60).

(** [t.UTC().Format(time.RFC3339)]. *)
Definition format_rfc3339 (t : time) : string := format_date t +:+ "T" +:+ clock_text t +:+ "Z".

(** Nine digits without trailing zeros. *)
Fixpoint trim_right_zeros (s : string) : string :=
  match s with
  | EmptyString => EmptyString
  | String a s' =>
    let r := trim_right_zeros s' in
    if Ascii.eqb a "0"%char && String.eqb r "" then EmptyString else String a r
  end.
Definition digits9 (n : Z) : string :=
  String.substring (String.length (pretty (1000000000 + n)) - 9) 9 (pretty (1000000000 + n)).

(** [t.UTC().Format(time.RFC3339Nano)]. *)
Definition format_rfc3339nano (t : time) : string :=
  let f := trim_right_zeros (digits9 (t mod second)) in
  format_date t +:+ "T" +:+ clock_text t +:+ (if String.eqb f "" then "" else "." +:+ f) +:+ "Z".

Example format_examples :
  format_rfc3339nano (time_unix 1709276405 123456000) = "2024-03-01T07:00:05.123456Z" ∧
  format_rfc3339 (time_unix 1709276405 123456000) = "2024-03-01T07:00:05Z" ∧
  format_rfc3339 (time_unix 951782400 0) = "2000-02-29T00:00:00Z" ∧
  format_rfc3339 zero_time = "0001-01-01T00:00:00Z" ∧
  format_date (time_unix 1735689599 0) = "2024-12-31" ∧ format_date (time_unix 1735689600 0) = "2025-01-01".
Proof. vm_compute. done. Qed.
