(* ===== verification/Float64.v ===== *)
(** * Floating-point numbers as decimal text

    A finite float64 is kept as what [strconv.FormatFloat(v, 'f', -1, 64)]
    prints: the fewest digits that read back as the same float. This file has
    [ParseFloat] on a JSON number (round to nearest, ties to even) and that
    printing, and the tests the programs make on a float. *)

From stdpp Require Import base gmap strings list pretty.
From Stdlib Require Import Ascii.
From S2P Require Import Prelude.

(** A positive float [m * 2^e] with 2^52 <= m < 2^53, or e = -1074. *)
Definition round_half_even (num den : Z) : Z :=
  let q := num / den in
  match Z.compare (2 * (num - q * den)) den with
  | Lt => q
  | Gt => q + 1
  | Eq => if Z.even q then q else q + 1
  end.

(** [num/den * 2^-e], as a fraction. *)
Definition scaled (num den e : Z) : Z * Z :=
  if 0 <=? e then (num, den * 2 ^ e) else (num * 2 ^ (- e), den).

(** The float nearest to [num/den], both positive. *)
Definition to_float (num den : Z) : Z * Z :=
  let e := Z.max (-1074) (Z.log2 num - Z.log2 den - 53) in
  let '(n, d) := scaled num den e in
  let e := if 2 ^ 53 <=? n / d then e + 1 else e in
  let '(n, d) := scaled num den e in
  let m := round_half_even n d in
  if m =? 2 ^ 53 then (2 ^ 52, e + 1) else (m, e).

(** The fraction [d * 10^p]. *)
Definition dec_fraction (d p : Z) : Z * Z :=
  if 0 <=? p then (d * 10 ^ p, 1) else (d, 10 ^ (- p)).

(** The number of decimal digits of the integral part, or minus the zeros
    after the point: the least [k] with [num/den < 10^k], searched upwards. *)
Fixpoint dec_exponent (n : nat) (k num den : Z) : Z :=
  match n with
  | O => k
  | S n =>
    let '(a, b) := dec_fraction 1 k in
    if num * b <? a * den then k else dec_exponent n (k + 1) num den
  end.

(** The nearest decimal with [n] digits, when it reads back as [f]; else one
    digit more. Seventeen digits always suffice. *)
Fixpoint shortest_digits (fuel : nat) (n k num den : Z) (f : Z * Z) : Z * Z :=
  let p := k - n in
  let '(a, b) := dec_fraction 1 p in
  let d := round_half_even (num * b) (den * a) in
  match fuel with
  | O => (d, p)
  | S fuel =>
    let '(x, y) := dec_fraction d p in
    if decide (to_float x y = f) then (d, p) else shortest_digits fuel (n + 1) k num den f
  end.

Definition shortest (f : Z * Z) : Z * Z :=
  let '(num, den) := if 0 <=? f.2 then (f.1 * 2 ^ f.2, 1) else (f.1, 2 ^ (- f.2)) in
  let k := dec_exponent 700 ((Z.log2 num - Z.log2 den - 1) * 3 / 10 - 2) num den in
  shortest_digits 16 1 k num den f.

Fixpoint zeros (n : nat) : string :=
  match n with O => EmptyString | S n => String "0" (zeros n) end.

(** [d * 10^p] without an exponent. *)
Definition plain (d p : Z) : string :=
  let s := pretty d in
  let len := Z.of_nat (String.length s) in
  if 0 <=? p then s +:+ zeros (Z.to_nat p)
  else if 0 <? len + p then
    String.substring 0 (Z.to_nat (len + p)) s +:+ "." +:+ drop_str (Z.to_nat (len + p)) s
  else "0." +:+ zeros (Z.to_nat (- (len + p))) +:+ s.

(** The digits of a text up to the first other character, and their number. *)
Fixpoint span_digits (acc n : Z) (s : string) : Z * Z * string :=
  match s with
  | String a s' => if is_digit a then span_digits (acc * 10 + digit_value a) (n + 1) s' else (acc, n, s)
  | EmptyString => (acc, n, s)
  end.

(** The exponent part, saturated well beyond the range of a float64. *)
Definition exponent_part (s : string) : Z :=
  match s with
  | String _ (String c s') =>
    let body := if Ascii.eqb c "-"%char || Ascii.eqb c "+"%char then s' else String c s' in
    let '(v, _, _) := span_digits 0 0 body in
    if Ascii.eqb c "-"%char then - v else v
  | _ => 0
  end.

(** A JSON number: its sign, the integer of its digits, a bound on their
    number, and the power of ten. *)
Definition decimal (s : string) : bool * Z * Z * Z :=
  let neg := has_prefix s "-" in
  let body := if neg then drop_str 1 s else s in
  let '(ip, ni, rest) := span_digits 0 0 body in
  let '(d, nf, rest) :=
    match rest with
    | String c rest' => if Ascii.eqb c "."%char then span_digits ip 0 rest' else (ip, 0, rest)
    | EmptyString => (ip, 0, rest)
    end in
  (neg, d, ni + nf, exponent_part rest - nf).

(** [strconv.ParseFloat] of a JSON number and [FormatFloat] of the result;
    [None] when the magnitude overflows. *)
Definition float_text (s : string) : option string :=
  let '(neg, d, n, p) := decimal s in
  let sign := if neg then "-" else "" in
  if d =? 0 then Some (sign +:+ "0")
  else if n + p <? -330 then Some (sign +:+ "0")
  else if 330 <? p then None
  else
    let '(num, den) := dec_fraction d p in
    let f := to_float num den in
    if f.1 =? 0 then Some (sign +:+ "0")
    else if 971 <? f.2 then None
    else let '(d, p) := shortest f in Some (sign +:+ plain d p).

(** ** Tests on a float *)

Definition float_is_zero (text : string) : bool := String.eqb text "0" || String.eqb text "-0".

Definition max_safe_integer : Z := 9007199254740991.

(** [int64(v)] of a float that is integral and safe ([-0] gives 0): the
    printed text of an integral float has no point. *)
Definition safe_integer (text : string) : option Z :=
  match parse_int text with
  | Some z => if Z.abs z <=? max_safe_integer then Some z else None
  | None => None
  end.

Lemma safe_integer_bound text z : safe_integer text = Some z → Z.abs z <= max_safe_integer.
Proof.
  unfold safe_integer. destruct (parse_int text) as [z'|]; [|done].
  destruct (Z.leb_spec (Z.abs z') max_safe_integer); [|done]. by intros [= <-].
Qed.

(** *** The exact value *)

(** The float a text names: its sign, and [m * 2^e]. *)
Definition float_parts (text : string) : bool * Z * Z :=
  let '(neg, d, _, p) := decimal text in
  if d =? 0 then (neg, 0, 0)
  else let '(num, den) := dec_fraction d p in let f := to_float num den in (neg, f.1, f.2).

(** [math.Ceil] of [m * 2^e] when it is not negative. *)
Definition ceil_float (m e : Z) : Z := if 0 <=? e then m * 2 ^ e else - (- m / 2 ^ (- e)).
Definition float_ceil (text : string) : Z :=
  let '(neg, m, e) := float_parts text in
  if neg then (if 0 <=? e then - (m * 2 ^ e) else - (m / 2 ^ (- e))) else ceil_float m e.

(** [math.Ceil(x / n)] of a float that is not negative; a negative one has
    none above zero. *)
Definition float_div_ceil (text : string) (n : Z) : Z :=
  let '(neg, m, e) := float_parts text in
  if neg || (m =? 0) then 0
  else
    let '(num, den) := if 0 <=? e then (m * 2 ^ e, n) else (m, n * 2 ^ (- e)) in
    let f := to_float num den in ceil_float f.1 f.2.

(** The float is integral, and between two integers. *)
Definition float_integral (text : string) : bool :=
  let '(_, m, e) := float_parts text in (0 <=? e) || (m mod 2 ^ (- e) =? 0).
Definition float_between (lo hi : Z) (text : string) : bool :=
  let '(neg, m, e) := float_parts text in
  let '(num, den) := if 0 <=? e then (m * 2 ^ e, 1) else (m, 2 ^ (- e)) in
  let num := if neg then - num else num in
  (lo * den <=? num) && (num <=? hi * den).

(** [FormatFloat(x, 'f', 0, 64)]: the nearest integer, all of its digits. *)
Definition round_text (text : string) : string :=
  let '(neg, m, e) := float_parts text in
  (if neg then "-" else "") +:+ pretty (if 0 <=? e then m * 2 ^ e else round_half_even m (2 ^ (- e))).

Example float_values :
  (float_ceil "0.5", float_ceil "-1.5", float_div_ceil "90" 60, float_div_ceil "60.00000000000001" 60,
   float_integral "1.5", float_between 1 1209600 "1209600", float_between 1 2 "0.99999", round_text "1e23",
   round_text "2.5") = (1, -1, 2, 2, false, true, false, "99999999999999991611392", "2").
Proof. vm_compute. reflexivity. Qed.

Example floats :
  map float_text ["1"; "-0"; "0.1"; "1e3"; "1.50"; "9007199254740993"; "1e21"; "123456789012345678901";
                  "5e-324"; "1e400"; "-2.5E-3"; "1e23"; "1.7976931348623157e308"; "0e999"] =
  map Some ["1"; "-0"; "0.1"; "1000"; "1.5"; "9007199254740992"; "1000000000000000000000";
            "123456789012345680000"; "0." +:+ zeros 323 +:+ "5"] ++
  [None; Some "-0.0025"; Some "100000000000000000000000";
   Some ("17976931348623157" +:+ zeros 292); Some "0"].
Proof. vm_compute. reflexivity. Qed.

(** ** [fmt.Sprint] of a float *)

Fixpoint split_point (s : string) : string * string :=
  match s with
  | EmptyString => (EmptyString, EmptyString)
  | String a s' =>
    if Ascii.eqb a "."%char then (EmptyString, s')
    else let '(i, f) := split_point s' in (String a i, f)
  end.

Fixpoint trim_zeros (s : string) : string :=
  match s with
  | EmptyString => EmptyString
  | String a s' =>
    let r := trim_zeros s' in
    if Ascii.eqb a "0"%char && String.eqb r "" then EmptyString else String a r
  end.
Fixpoint leading_zeros (s : string) : Z :=
  match s with
  | String a s' => if Ascii.eqb a "0"%char then 1 + leading_zeros s' else 0
  | EmptyString => 0
  end.

Definition two_digits (n : Z) : string := if n <? 10 then "0" +:+ pretty n else pretty n.

(** A first digit, the others after a point, and the exponent. *)
Definition scientific (ds : string) (e : Z) : string :=
  let ds := trim_zeros ds in
  String.substring 0 1 ds +:+
  (if (String.length ds <=? 1)%nat then "" else "." +:+ drop_str 1 ds) +:+
  (if e <? 0 then "e-" +:+ two_digits (- e) else "e+" +:+ two_digits e).

(** The float that prints as [text], an exponent below [-low] or from 21 written
    out. *)
Definition float_exp (low : Z) (text : string) : string :=
  let neg := has_prefix text "-" in
  let body := if neg then drop_str 1 text else text in
  let sign := if neg then "-" else "" in
  let '(i, f) := split_point body in
  if String.eqb body "0" then text
  else if String.eqb i "0" then
    let z := leading_zeros f in
    if z <? low then text else sign +:+ scientific (drop_str (Z.to_nat z) f) (- (z + 1))
  else
    let e := Z.of_nat (String.length i) - 1 in
    if e <? 21 then text else sign +:+ scientific i e.

Definition float_v : string → string := float_exp 4.

(** As encoding/json writes it: from -6, and e-09 as e-9. *)
Fixpoint json_exponent (s : string) : string :=
  match s with
  | String a (String b (String c t) as s') =>
    if Ascii.eqb a "e"%char && Ascii.eqb b "-"%char && Ascii.eqb c "0"%char
    then String a (String b t) else String a (json_exponent s')
  | String a s' => String a (json_exponent s')
  | EmptyString => EmptyString
  end.
Definition float_json (text : string) : string := json_exponent (float_exp 6 text).

Example float_json_examples :
  map float_json ["0.000001"; "0.0000001"; "-0.00000000000125"; "100000000000000000000"; "1000000000000000000000"] =
  ["0.000001"; "1e-7"; "-1.25e-12"; "100000000000000000000"; "1e+21"].
Proof. vm_compute. reflexivity. Qed.

Example float_v_examples :
  map float_v ["0"; "-0"; "12.5"; "0.0001"; "0.00001"; "-0.0000125"; "100000000000000000000";
               "1000000000000000000000"; "123450000000000000000000"] =
  ["0"; "-0"; "12.5"; "0.0001"; "1e-05"; "-1.25e-05"; "100000000000000000000"; "1e+21"; "1.2345e+23"].
Proof. vm_compute. reflexivity. Qed.
