(* ===== verification/Json.v ===== *)
(** * JSON values

    What encoding/json decodes a document into when numbers are kept as text
    (UseNumber, RawMessage), the normal form its encoder gives a value (object
    keys sorted, the last duplicate kept), and equality. *)

From stdpp Require Import base gmap strings list.
From S2P Require Import Prelude.

Inductive json :=
  | JNull
  | JBool (b : bool)
  | JNum (text : string)
  | JStr (s : string)
  | JArr (l : list json)
  | JObj (l : list (string * json)).

(** Induction with the elements of arrays and objects. *)
Section JsonInd.
Context (P : json → Prop).
Context (Hnull : P JNull) (Hbool : ∀ b, P (JBool b)) (Hnum : ∀ t, P (JNum t)) (Hstr : ∀ s, P (JStr s)).
Context (Harr : ∀ l, Forall P l → P (JArr l)) (Hobj : ∀ l, Forall (λ p, P p.2) l → P (JObj l)).

Fixpoint json_ind' (j : json) : P j :=
  match j with
  | JNull => Hnull
  | JBool b => Hbool b
  | JNum t => Hnum t
  | JStr s => Hstr s
  | JArr l => Harr l ((fix go (l : list json) : Forall P l :=
      match l with [] => Forall_nil_2 _ | j :: l => Forall_cons_2 _ _ _ (json_ind' j) (go l) end) l)
  | JObj l => Hobj l ((fix go (l : list (string * json)) : Forall (λ p, P p.2) l :=
      match l with [] => Forall_nil_2 _ | p :: l => Forall_cons_2 _ _ _ (json_ind' p.2) (go l) end) l)
  end.
End JsonInd.

Fixpoint json_eqb (a b : json) : bool :=
  match a, b with
  | JNull, JNull => true
  | JBool a, JBool b => Bool.eqb a b
  | JNum a, JNum b => String.eqb a b
  | JStr a, JStr b => String.eqb a b
  | JArr a, JArr b =>
    (fix go (a b : list json) : bool :=
       match a, b with
       | [], [] => true
       | x :: a, y :: b => json_eqb x y && go a b
       | _, _ => false
       end) a b
  | JObj a, JObj b =>
    (fix go (a b : list (string * json)) : bool :=
       match a, b with
       | [], [] => true
       | (k, x) :: a, (k', y) :: b => String.eqb k k' && json_eqb x y && go a b
       | _, _ => false
       end) a b
  | _, _ => false
  end.

Lemma json_eqb_eq a : ∀ b, json_eqb a b = true ↔ a = b.
Proof.
  induction a as [|x|x|x|l IH|l IH] using json_ind'; intros [ |y|y|y|l'|l']; try done; cbn [json_eqb].
  - rewrite Bool.eqb_true_iff. naive_solver.
  - rewrite String.eqb_eq. naive_solver.
  - rewrite String.eqb_eq. naive_solver.
  - assert (∀ l', (fix go (a b : list json) : bool :=
       match a, b with
       | [], [] => true
       | x :: a, y :: b => json_eqb x y && go a b
       | _, _ => false
       end) l l' = true ↔ l = l') as H.
    { clear l'. induction IH as [|x l Hx _ IHl]; intros [|y l']; try done.
      rewrite andb_true_iff, Hx, IHl. naive_solver. }
    rewrite H. naive_solver.
  - assert (∀ l', (fix go (a b : list (string * json)) : bool :=
       match a, b with
       | [], [] => true
       | (k, x) :: a, (k', y) :: b => String.eqb k k' && json_eqb x y && go a b
       | _, _ => false
       end) l l' = true ↔ l = l') as H.
    { clear l'. induction IH as [|[k x] l Hx _ IHl]; intros [|[k' y] l']; try done.
      rewrite !andb_true_iff, String.eqb_eq, Hx, IHl. cbn. naive_solver. }
    rewrite H. naive_solver.
Qed.

#[export] Instance json_eq_dec : EqDecision json.
Proof.
  intros a b. destruct (json_eqb a b) eqn:E; [left; by apply json_eqb_eq|].
  right. intros H%json_eqb_eq. congruence.
Defined.

(** The member [k] of an object; the last duplicate wins. *)
Fixpoint member (k : string) (l : list (string * json)) : option json :=
  match l with
  | [] => None
  | (k', v) :: l =>
    match member k l with
    | Some v' => Some v'
    | None => if String.eqb k' k then Some v else None
    end
  end.

(** Insertion by key. *)
Fixpoint insert_member (k : string) (v : json) (l : list (string * json)) : list (string * json) :=
  match l with
  | [] => [(k, v)]
  | (k', v') :: l' =>
    if String.eqb k k' then l
    else if String.ltb k k' then (k, v) :: l
    else (k', v') :: insert_member k v l'
  end.

(** What decoding and encoding again gives. *)
Fixpoint normalize (j : json) : json :=
  match j with
  | JArr l => JArr ((fix go (l : list json) :=
      match l with [] => [] | j :: l => normalize j :: go l end) l)
  | JObj l => JObj ((fix go (l : list (string * json)) :=
      match l with [] => [] | (k, v) :: l => insert_member k (normalize v) (go l) end) l)
  | _ => j
  end.
