(* ===== verification/Effects.v ===== *)
(** * Effects

    How code that talks to the world is modelled. A component lists its
    effects as an inductive family [E : Type → Type] (the type of an effect is
    the type of its answer); its programs are state-monad programs over a world
    that holds the trace of the effects so far, the latest first. The answers
    come from an environment that may depend on the whole history, so a theorem
    for every environment holds whatever the services, clocks and other
    replicas do. Also here: programs that return an error, what it means that
    every effect of a trace is justified by the effects before it, and in which
    order things happened ([since]), with the effects that do not disturb it. *)

From stdpp Require Import base gmap strings list.
From S2P Require Import Prelude GoErr.

Create HintDb effects.

Section Trace.
Context {E : Type → Type}.

Inductive ev : Type := Ev (A : Type) (op : E A) (ans : A).

(** The latest effect first. *)
Definition trace : Type := list ev.
Definition env : Type := ∀ A, trace → E A → A.

(** A world: the trace and the component's own state. *)
Record world (S : Type) : Type := World { w_tr : trace; w_st : S }.

Definition ask {S A} (η : env) (op : E A) : M (world S) A :=
  λ w, let a := η A (w_tr S w) op in (a, World S (Ev A op a :: w_tr S w) (w_st S w)).

Definition get_st {S} : M (world S) S := λ w, (w_st S w, w).
Definition put_st {S} (s : S) : M (world S) unit := λ w, (tt, World S (w_tr S w) s).
Definition modify_st {S} (f : S → S) : M (world S) unit :=
  λ w, (tt, World S (w_tr S w) (f (w_st S w))).

(** Every effect was justified, by [P], given the effects before it. *)
Fixpoint justified (P : trace → ev → Prop) (t : trace) : Prop :=
  match t with
  | [] => True
  | e :: t' => P t' e ∧ justified P t'
  end.

Lemma justified_split (P : trace → ev → Prop) t post e pre :
  justified P t → t = post ++ e :: pre → P pre e.
Proof.
  intros H ->. induction post as [|x post IH]; cbn in H; [apply H|].
  apply IH, H.
Qed.

Lemma justified_elem (P : trace → ev → Prop) t e :
  justified P t → e ∈ t → ∃ pre, P pre e ∧ pre `suffix_of` t.
Proof.
  intros H (post & pre & ->)%list_elem_of_split. exists pre. split.
  - by eapply justified_split.
  - exists (post ++ [e]). by rewrite <-app_assoc.
Qed.

Lemma justified_mono (P Q : trace → ev → Prop) t :
  (∀ t e, P t e → Q t e) → justified P t → justified Q t.
Proof. intros HPQ. induction t; cbn; naive_solver. Qed.

(** A property of traces that later effects keep. *)
Definition stable (F : trace → Prop) : Prop := ∀ e t, F t → F (e :: t).

Lemma stable_suffix F t t' : stable F → t `suffix_of` t' → F t → F t'.
Proof.
  intros HF [l ->] Ht. induction l as [|e l IH]; cbn; [done|]. by apply HF.
Qed.

(** [m] adds to the trace only effects that [P] justifies, keeps [I], and what
    it returns satisfies [Q]. *)
Definition runs {S A} (P : trace → ev → Prop) (F : trace → Prop)
    (m : M (world S) A) (Q : A → trace → Prop) : Prop :=
  triple (λ w, justified P (w_tr S w) ∧ F (w_tr S w)) m
         (λ a w, justified P (w_tr S w) ∧ Q a (w_tr S w)).

Lemma runs_ret {S A} P (F : trace → Prop) (a : A) (Q : A → trace → Prop) :
  (∀ t, F t → Q a t) → runs (S:=S) P F (mret a) Q.
Proof. intros H w [Hj Hf]. split; [done|]. by apply H. Qed.

Lemma runs_bind {S A B} P F (m : M (world S) A) R (k : A → M (world S) B) Q :
  runs P F m R → (∀ a, runs P (R a) (k a) Q) → runs P F (m ≫= k) Q.
Proof. intros Hm Hk. eapply triple_bind; [apply Hm|]. intros a. apply Hk. Qed.

Lemma runs_ask {S A} η P (F : trace → Prop) (op : E A) (Q : A → trace → Prop) :
  (∀ t, F t → P t (Ev A op (η A t op)) ∧ Q (η A t op) (Ev A op (η A t op) :: t)) →
  runs (S:=S) P F (ask η op) Q.
Proof. intros H w [Hj Hf]. destruct (H _ Hf). by repeat split. Qed.

(** An effect and what follows it. *)
Lemma runs_ask_bind {S A B} η P (F : trace → Prop) (op : E A) (k : A → M (world S) B)
    (G : A → trace → Prop) (Q : B → trace → Prop) :
  (∀ t a, F t → P t (Ev A op a) ∧ G a (Ev A op a :: t)) →
  (∀ a, runs P (G a) (k a) Q) → runs P F (ask η op ≫= k) Q.
Proof. intros H Hk. apply runs_bind with G; [|done]. apply runs_ask. intros t Ht. by apply H. Qed.

Lemma runs_conseq {S A} P (F F' : trace → Prop) (m : M (world S) A) (Q Q' : A → trace → Prop) :
  runs P F' m Q' → (∀ t, F t → F' t) → (∀ a t, Q' a t → Q a t) → runs P F m Q.
Proof.
  intros H HF HQ. eapply triple_conseq; [apply H| |]; cbn; naive_solver.
Qed.

Lemma runs_assoc {S A B C} P F (m : M (world S) A) (k : A → M (world S) B) (l : B → M (world S) C) Q :
  runs P F (m ≫= λ a, k a ≫= l) Q → runs P F ((m ≫= k) ≫= l) Q.
Proof. intros H w Hw. rewrite M_bind_assoc. by apply H. Qed.
Lemma runs_ret_bind {S A B} P F (a : A) (k : A → M (world S) B) Q :
  runs P F (k a) Q → runs P F (mret a ≫= k) Q.
Proof. intros H w Hw. by apply H. Qed.

Lemma runs_get_st {S} P F : runs (S:=S) P F get_st (λ _ t, F t).
Proof. intros w [Hj Hf]. by split. Qed.
Lemma runs_modify_st {S} P F (f : S → S) : runs P F (modify_st f) (λ _ t, F t).
Proof. intros w [Hj Hf]. by split. Qed.
Lemma runs_put_st {S} P F (s : S) : runs P F (put_st s) (λ _ t, F t).
Proof. intros w [Hj Hf]. by split. Qed.
End Trace.

Arguments ev E : clear implicits.
Arguments trace E : clear implicits.
Arguments env E : clear implicits.
Arguments world E S : clear implicits.
Arguments World {E S}.
Arguments w_tr {E S}.
Arguments w_st {E S}.
Arguments Ev {E A}.

(** ** Programs that may fail *)

(** [if err := m; err != nil { return err }; k]. *)
Definition bindE {W A B} (m : M W (result A)) (k : A → M W (result B)) : M W (result B) :=
  m ≫= λ r, match r with inl e => mret (inl e) | inr a => k a end.

Notation "x ←? m ; k" := (bindE m (λ x, k))
  (at level 20, m at level 100, k at level 200, only parsing).
Notation "m ;? k" := (bindE m (λ _, k)) (at level 100, k at level 200, only parsing).

Definition throw {W A} (e : error) : M W (result A) := mret (inl e).
Definition ok {W A} (a : A) : M W (result A) := mret (inr a).

Lemma runs_bindE {E S A B} P F (m : M (world E S) (result A)) R
    (k : A → M (world E S) (result B)) (Q : result B → trace E → Prop) :
  runs P F m R → (∀ e t, R (inl e) t → Q (inl e) t) →
  (∀ a, runs P (R (inr a)) (k a) Q) → runs P F (bindE m k) Q.
Proof.
  intros Hm He Hk. eapply runs_bind; [apply Hm|].
  intros [e|a]; [apply runs_ret, He | apply Hk].
Qed.

(** *** Walking through a program

    A stable predicate survives every effect. *)

Lemma stable_and {E} (F G : trace E → Prop) : stable F → stable G → stable (λ t, F t ∧ G t).
Proof. intros HF HG e t [? ?]. split; auto. Qed.
Lemma stable_event {E} (e : ev E) : stable (λ t, e ∈ t).
Proof. intros e' t H. by apply list_elem_of_further. Qed.
Lemma stable_const {E} (P : Prop) : stable (λ _ : trace E, P).
Proof. by intros e t. Qed.
Lemma stable_ex {E A} (F : A → trace E → Prop) : (∀ a, stable (F a)) → stable (λ t, ∃ a, F a t).
Proof. intros H e t [a Ha]. exists a. by apply H. Qed.
Lemma stable_all {E A} (F : A → trace E → Prop) : (∀ a, stable (F a)) → stable (λ t, ∀ a, F a t).
Proof. intros H e t Ha a. by apply H. Qed.
Lemma stable_or {E} (F G : trace E → Prop) : stable F → stable G → stable (λ t, F t ∨ G t).
Proof. intros HF HG e t [?|?]; [left; by apply HF|right; by apply HG]. Qed.
Lemma Forall2_stable {E A B} (R : trace E → A → B → Prop) l k :
  (∀ a b, stable (λ t, R t a b)) → stable (λ t, Forall2 (R t) l k).
Proof. intros HR e t H. eapply Forall2_impl; [done|]. intros a b. apply HR. Qed.
#[export] Hint Resolve stable_and stable_event stable_const stable_ex stable_or : effects.

(** ** What happened since

    [since e F]: [F] holds of the effects after some occurrence of [e]. Nested,
    it says in which order things happened, the outermost first. *)
Definition since {E} (e : ev E) (F : trace E → Prop) (t : trace E) : Prop :=
  ∃ post pre, t = post ++ e :: pre ∧ F post.

(** Effects that satisfy [K] keep [F]. *)
Definition kept {E} (K : ev E → Prop) (F : trace E → Prop) : Prop := ∀ e t, K e → F t → F (e :: t).

(** A place [X] for a fact about a part of the trace: what becomes true of the
    part, by effects that satisfy [K], is true of it there. *)
Record frame {E} (K : ev E → Prop) (X : (trace E → Prop) → trace E → Prop) : Prop := Frame {
  frame_mono (F G : trace E → Prop) t : (∀ u, F u → G u) → X F t → X G t;
  frame_next (F G : trace E → Prop) e t : K e → (∀ u, F u → G (e :: u)) → X F t → X G (e :: t)
}.

Lemma stable_kept {E} (K : ev E → Prop) F : stable F → kept K F.
Proof. intros HF e t _. apply HF. Qed.
Lemma kept_and {E} (K : ev E → Prop) F G : kept K F → kept K G → kept K (λ t, F t ∧ G t).
Proof. intros HF HG e t He [? ?]. split; [by apply HF|by apply HG]. Qed.
Lemma kept_ex {E A} (K : ev E → Prop) (F : A → trace E → Prop) : (∀ a, kept K (F a)) → kept K (λ t, ∃ a, F a t).
Proof. intros HF e t He [a Ha]. exists a. by apply HF. Qed.
Lemma kept_all {E A} (K : ev E → Prop) (F : A → trace E → Prop) : (∀ a, kept K (F a)) → kept K (λ t, ∀ a, F a t).
Proof. intros HF e t He Ha a. by apply HF. Qed.
Lemma frame_kept {E} (K : ev E → Prop) X F : frame K X → kept K F → kept K (X F).
Proof. intros HX HF e t He. apply (frame_next K X HX); [done|]. intros u. by apply HF. Qed.

Lemma frame_fewer {E} (K K' : ev E → Prop) X : (∀ e, K e → K' e) → frame K' X → frame K X.
Proof. intros HK [HX HX']. split; [exact HX|]. intros F G e t He. by apply HX', HK. Qed.
Lemma frame_since {E} (K : ev E → Prop) (e : ev E) : frame K (since e).
Proof.
  split.
  - intros F G t HFG (post & pre & -> & HF). exists post, pre. split; [done|by apply HFG].
  - intros F G x t _ HFG (post & pre & -> & HF). exists (x :: post), pre. split; [done|by apply HFG].
Qed.
Lemma since_here {E} (e : ev E) (F : trace E → Prop) t : F [] → since e F (e :: t).
Proof. intros HF. by exists [], t. Qed.
Lemma since_elem {E} (e : ev E) F t : since e F t → e ∈ t.
Proof. intros (post & pre & -> & _). apply elem_of_app. right. apply list_elem_of_here. Qed.

Lemma frame_comp {E} (K : ev E → Prop) X Y : frame K X → frame K Y → frame K (λ F, X (Y F)).
Proof.
  intros HX HY. split.
  - intros F G t HFG. apply (frame_mono K X HX). intros u. by apply (frame_mono K Y HY).
  - intros F G e t He HFG. apply (frame_next K X HX); [done|]. intros u. by apply (frame_next K Y HY).
Qed.
(** A fact beside the place, or about the part beside the one looked for. *)
Lemma frame_and {E} (K : ev E → Prop) (A : trace E → Prop) X :
  kept K A → frame K X → frame K (λ F t, A t ∧ X F t).
Proof.
  intros HA HX. split.
  - intros F G t HFG [Ha Hx]. split; [done|by eapply (frame_mono K X HX)].
  - intros F G e t He HFG [Ha Hx]. split; [by apply HA|by eapply (frame_next K X HX)].
Qed.
Lemma frame_ex {E A} (K : ev E → Prop) (X : A → (trace E → Prop) → trace E → Prop) :
  (∀ a, frame K (X a)) → frame K (λ F t, ∃ a, X a F t).
Proof.
  intros HX. split.
  - intros F G t HFG [a Ha]. exists a. by eapply (frame_mono K _ (HX a)).
  - intros F G e t He HFG [a Ha]. exists a. by eapply (frame_next K _ (HX a)).
Qed.
Lemma frame_id {E} (K : ev E → Prop) : frame K (λ F : trace E → Prop, F).
Proof. split; auto. Qed.
#[export] Hint Resolve stable_kept kept_and kept_ex frame_kept frame_since frame_comp frame_and frame_ex frame_id : effects.

(** An effect that keeps [base], under stable facts. *)
Lemma runs_step {E S A B} (η : env E) P (base : trace E → Prop) (op : E A) (f : A → M (world E S) B) (G : trace E → Prop) Q :
  (∀ t a, base t → G t → P t (Ev op a) ∧ base (Ev op a :: t)) → stable G →
  (∀ a, runs P (λ t, base t ∧ G t ∧ Ev op a ∈ t) (f a) Q) → runs P (λ t, base t ∧ G t) (ask η op ≫= f) Q.
Proof.
  intros HP HG Hf. eapply runs_ask_bind; [|exact Hf]. intros t a [Hb Hg]. destruct (HP t a Hb Hg).
  split_and!; [done..|by apply HG|apply list_elem_of_here].
Qed.

(** Bring the next effect of the program to its head; case analysis on what it
    tests. *)
Ltac walk_norm :=
  unfold bindE, throw, ok; cbv beta;
  repeat first
    [ apply runs_assoc; cbv beta
    | apply runs_ret_bind; cbv beta iota
    | match goal with
      | |- runs _ _ (match ?x with _ => _ end ≫= _) _ => destruct x eqn:?
      | |- runs _ _ (match ?x with _ => _ end) _ => destruct x eqn:?
      end ].

(** ** What a program returns, whatever the world *)

Definition returns {W A} (m : M W A) (X : A → Prop) : Prop := ∀ w, X (m w).1.

Lemma returns_ret {W A} (a : A) (X : A → Prop) : X a → returns (mret a : M W A) X.
Proof. by intros H w. Qed.
Lemma returns_bind {W A B} (m : M W A) (k : A → M W B) Y (X : B → Prop) :
  returns m Y → (∀ a, Y a → returns (k a) X) → returns (m ≫= k) X.
Proof. intros Hm Hk w. rewrite M_bind_run. by apply Hk. Qed.
Lemma returns_bind' {W A B} (m : M W A) (k : A → M W B) (X : B → Prop) :
  (∀ a, returns (k a) X) → returns (m ≫= k) X.
Proof. intros Hk w. rewrite M_bind_run. apply Hk. Qed.
Lemma returns_impl {W A} (m : M W A) (X Y : A → Prop) :
  returns m X → (∀ a, X a → Y a) → returns m Y.
Proof. intros H HX w. by apply HX. Qed.
Lemma runs_returns {E S A} P F (m : M (world E S) A) Q (X : A → Prop) :
  runs P F m Q → returns m X → runs P F m (λ a t, Q a t ∧ X a).
Proof. intros H HX w Hw. destruct (H w Hw). split_and!; [done..|apply HX]. Qed.

(** ** What no program takes away from the trace *)

Section Grows.
Context {E : Type → Type} {S : Type}.

Definition grows {A} (m : M (world E S) A) : Prop := ∀ w, w_tr w `suffix_of` w_tr (m w).2.

Lemma grows_ret {A} (a : A) : grows (mret a).
Proof. by intros w. Qed.
Lemma grows_ask {A} η (op : E A) : grows (ask η op).
Proof. intros w. by eexists [_]. Qed.
Lemma grows_get_st : grows get_st.
Proof. by intros w. Qed.
Lemma grows_put_st s : grows (put_st s).
Proof. by intros w. Qed.
Lemma grows_modify_st f : grows (modify_st f).
Proof. by intros w. Qed.
Lemma grows_bind {A B} (m : M (world E S) A) (k : A → M (world E S) B) :
  grows m → (∀ a, grows (k a)) → grows (m ≫= k).
Proof. intros Hm Hk w. rewrite M_bind_run. etrans; [apply Hm|apply Hk]. Qed.
Lemma grows_bindE {A B} (m : M (world E S) (result A)) (k : A → M (world E S) (result B)) :
  grows m → (∀ a, grows (k a)) → grows (bindE m k).
Proof. intros Hm Hk. apply grows_bind; [done|]. intros [e|a]; [apply grows_ret|apply Hk]. Qed.
End Grows.

#[export] Hint Resolve grows_ret grows_ask grows_get_st grows_put_st grows_modify_st : effects.

(** Programs built from the above grow the trace. *)
Ltac grows_step :=
  first [ solve [auto with effects nocore]
        | apply grows_bind; [|intros ?]
        | apply grows_bindE; [|intros ?]
        | match goal with |- grows (match ?x with _ => _ end) => destruct x end ].

(** ** Programs inside programs

    A component's program as part of a larger one: its effects are effects of
    the larger family, by [inj], and its state is a part of the larger state.
    It starts with a trace of its own, and what it adds to it continues the
    larger trace. *)

Section Embedded.
Context {E F : Type → Type} {S T : Type}.
Context (inj : ∀ A, E A → F A) (get : T → S) (put : S → T → T).

Definition embedded_ev (e : ev E) : ev F := match e with Ev op a => Ev (inj _ op) a end.
Definition embedded_env (η : env F) (t0 : trace F) : env E := λ A t op, η A (map embedded_ev t ++ t0) (inj A op).
Definition embedded {A} (η : env F) (m : env E → M (world E S) A) : M (world F T) A := λ w,
  let r := m (embedded_env η (w_tr w)) (World [] (get (w_st w))) in
  (r.1, World (map embedded_ev (w_tr r.2) ++ w_tr w) (put (w_st r.2) (w_st w))).

(** What justifies the effects of the part justifies those of the whole. *)
Lemma justified_embedded (P : trace F → ev F → Prop) (P' : trace E → ev E → Prop) t0 t :
  (∀ u e, P' u e → P (map embedded_ev u ++ t0) (embedded_ev e)) →
  justified P t0 → justified P' t → justified P (map embedded_ev t ++ t0).
Proof. intros HP H0. induction t as [|e t IH]; cbn; [done|]. intros [He Ht]. split; [by apply HP|by apply IH]. Qed.

Lemma runs_embedded {A} η (m : env E → M (world E S) A) P P' (G : trace F → Prop) :
  stable G → (∀ t u e, G t → P' u e → P (map embedded_ev u ++ t) (embedded_ev e)) →
  (∀ η' s, justified P' (w_tr (m η' (World [] s)).2)) →
  runs P G (embedded η m) (λ _ t, G t).
Proof.
  intros HG HP Hm w [Hj Hg]. unfold embedded. cbn. split; [|by eapply stable_suffix; [exact HG|eexists|]].
  eapply justified_embedded; [|done|apply Hm]. intros u e. by apply HP.
Qed.

(** The part's own trace, read back from the whole. *)
Lemma embedded_projected (proj : ev F → option (ev E)) t t0 :
  (∀ e, proj (embedded_ev e) = Some e) → omap proj (map embedded_ev t ++ t0) = t ++ omap proj t0.
Proof. intros H. induction t as [|e t IH]; [done|]. cbn. by rewrite H, IH. Qed.
End Embedded.
