(* ===== verification/Conc.v ===== *)
(** * Concurrent programs

    For components whose goroutines run side by side and for service loops
    that never return. A program is a tree of effects with sequencing, loops
    without fuel and parallel composition; its meaning is a step relation over
    the trace of effects, the latest first, in which any answer is possible
    and the goroutines interleave in any order. Also here: a logic for what
    justifies each effect, in which a goroutine is verified against arbitrary
    effects of the others, and a deterministic scheduler to run examples. *)

From stdpp Require Import base list.
From S2P Require Import Prelude GoErr Effects.

Section Programs.
Context {E : Type → Type}.

(** [Loop f p] runs [p]: [inl s] goes round again with [f s], [inr a] leaves.
    [Par p q k] joins both goroutines before [k]. *)
Inductive prog (A : Type) : Type :=
  | Ret (a : A)
  | Op (op : E A)
  | Bind (B : Type) (p : prog B) (k : B → prog A)
  | Loop (S : Type) (f : S → prog (S + A)) (p : prog (S + A))
  | Par (B C : Type) (p : prog B) (q : prog C) (k : B → C → prog A).
Arguments Ret {A}.
Arguments Op {A}.
Arguments Bind {A B}.
Arguments Loop {A S}.
Arguments Par {A B C}.

Fixpoint step {A} (p : prog A) (t : trace E) (p' : prog A) (t' : trace E) {struct p} : Prop :=
  match p with
  | Ret _ => False
  | Op op => ∃ a, p' = Ret a ∧ t' = Ev op a :: t
  | Bind p k =>
    (∃ p1, step p t p1 t' ∧ p' = Bind p1 k) ∨ (∃ a, p = Ret a ∧ p' = k a ∧ t' = t)
  | Loop f p =>
    (∃ p1, step p t p1 t' ∧ p' = Loop f p1) ∨ (∃ s, p = Ret (inl s) ∧ p' = Loop f (f s) ∧ t' = t) ∨
    (∃ a, p = Ret (inr a) ∧ p' = Ret a ∧ t' = t)
  | Par p q k =>
    (∃ p1, step p t p1 t' ∧ p' = Par p1 q k) ∨ (∃ q1, step q t q1 t' ∧ p' = Par p q1 k) ∨
    (∃ a b, p = Ret a ∧ q = Ret b ∧ p' = k a b ∧ t' = t)
  end.

(** The states of a program run on its own. *)
Inductive reachable {A} (p : prog A) : prog A → trace E → Prop :=
  | reachable_start : reachable p p []
  | reachable_step p1 t1 p2 t2 : reachable p p1 t1 → step p1 t1 p2 t2 → reachable p p2 t2.

(** ** Safety

    [safe P t p Q]: from the trace [t], whatever other goroutines do meanwhile,
    each effect of [p] is justified by [P], and a result satisfies [Q]. *)
Inductive among {A} (t : trace E) (p : prog A) : trace E → prog A → Prop :=
  | among_start : among t p t p
  | among_own t1 p1 t2 p2 : among t p t1 p1 → step p1 t1 p2 t2 → among t p t2 p2
  | among_other t1 p1 e : among t p t1 p1 → among t p (e :: t1) p1.

Variable P : trace E → ev E → Prop.

Definition fine (t t' : trace E) : Prop := t' = t ∨ ∃ e, t' = e :: t ∧ P t e.
Definition safe {A} (t : trace E) (p : prog A) (Q : A → trace E → Prop) : Prop :=
  ∀ t1 p1, among t p t1 p1 →
    (∀ p2 t2, step p1 t1 p2 t2 → fine t1 t2) ∧ (∀ a, p1 = Ret a → Q a t1).
(** From every trace that satisfies [F]. *)
Definition safe_from {A} (F : trace E → Prop) (p : prog A) (Q : A → trace E → Prop) : Prop :=
  ∀ t, F t → safe t p Q.

(** An invariant of the states shows safety. *)
Lemma safe_inv {A} (I : trace E → prog A → Prop) t p Q :
  I t p →
  (∀ t p p' t', I t p → step p t p' t' → fine t t' ∧ I t' p') →
  (∀ t p e, I t p → I (e :: t) p) → (∀ t a, I t (Ret a) → Q a t) → safe t p Q.
Proof.
  intros Hi Hs He Hr t1 p1 H. assert (I t1 p1) as Hi1.
  { induction H as [|t1 p1 t2 p2 _ IH Hstep|t1 p1 e _ IH]; [done|by eapply Hs|by apply He]. }
  split; [intros; by eapply Hs|]. intros a ->. by apply Hr.
Qed.

Lemma among_trans {A} t (p : prog A) t1 p1 t2 p2 : among t p t1 p1 → among t1 p1 t2 p2 → among t p t2 p2.
Proof.
  intros H. induction 1 as [|t2 p2 t3 p3 _ IH Hstep|t2 p2 e _ IH]; [done|by eapply among_own|by apply among_other].
Qed.
Lemma safe_own {A} t (p : prog A) t' p' Q : safe t p Q → step p t p' t' → safe t' p' Q.
Proof. intros H Hs t1 p1 H1. apply H. eapply among_trans; [|done]. by eapply among_own; [apply among_start|]. Qed.
Lemma safe_other {A} t (p : prog A) e Q : safe t p Q → safe (e :: t) p Q.
Proof. intros H t1 p1 H1. apply H. eapply among_trans; [|done]. by apply among_other, among_start. Qed.
Lemma safe_fine {A} t (p : prog A) Q p' t' : safe t p Q → step p t p' t' → fine t t'.
Proof. intros H. by apply (H t p (among_start _ _)). Qed.
Lemma safe_result {A} t (a : A) Q : safe t (Ret a) Q → Q a t.
Proof. intros H. by apply (H t _ (among_start _ _)). Qed.

Lemma safe_ret {A} (F : trace E → Prop) (a : A) (Q : A → trace E → Prop) :
  stable F → (∀ t, F t → Q a t) → safe_from F (Ret a) Q.
Proof.
  intros HF HQ t Ht. apply (safe_inv (λ t p, p = Ret a ∧ F t)); [done| |naive_solver|naive_solver].
  by intros t' p p' t2 [-> _] H.
Qed.

Lemma safe_op {A} (F : trace E → Prop) (op : E A) (Q : A → trace E → Prop) :
  stable F → (∀ a, stable (Q a)) → (∀ t a, F t → P t (Ev op a) ∧ Q a (Ev op a :: t)) →
  safe_from F (Op op) Q.
Proof.
  intros HF HQ H t Ht.
  apply (safe_inv (λ t p, (p = Op op ∧ F t) ∨ ∃ a, p = Ret a ∧ Q a t)); [by left| | |naive_solver].
  - intros t' p p' t2 [[-> Hf]|(a & -> & _)] Hs; [|done]. cbn in Hs. destruct Hs as (a & -> & ->).
    destruct (H t' a Hf). split; [right; by eexists|right; by eexists].
  - intros t' p e [[-> Hf]|(a & -> & Hq)]; [left|right]; [split; [done|by apply HF]|].
    eexists. split; [done|by apply HQ].
Qed.

Lemma safe_bind {A B} F (p : prog B) (k : B → prog A) R Q :
  safe_from F p R → (∀ b, safe_from (R b) (k b) Q) → safe_from F (Bind p k) Q.
Proof.
  intros Hp Hk t Ht.
  apply (safe_inv (λ t x, (∃ p, x = Bind p k ∧ safe t p R) ∨ safe t x Q)).
  - left. eexists. split; [done|by apply Hp].
  - intros t1 x x' t2 [(p1 & -> & Hs)|Hs] Hst.
    + cbn in Hst. destruct Hst as [(p2 & Hst & ->)|(b & -> & -> & ->)].
      * split; [by eapply safe_fine|]. left. eexists. split; [done|by eapply safe_own].
      * split; [by left|]. right. by apply Hk, safe_result.
    + split; [by eapply safe_fine|right; by eapply safe_own].
  - intros t1 x e [(p1 & -> & Hs)|Hs]; [left; eexists; split; [done|]|right]; by apply safe_other.
  - intros t1 a [(p1 & [=] & _)|Hs]. by apply safe_result.
Qed.

Lemma safe_loop {A S} (I : S → trace E → Prop) (f : S → prog (S + A)) p F Q :
  (∀ s, safe_from (I s) (f s) (λ r t, match r with inl s => I s t | inr a => Q a t end)) →
  (∀ a, stable (Q a)) →
  safe_from F p (λ r t, match r with inl s => I s t | inr a => Q a t end) → safe_from F (Loop f p) Q.
Proof.
  intros Hf HQ Hp t Ht. set (R (r : S + A) t := match r with inl s => I s t | inr a => Q a t end).
  apply (safe_inv (λ t x, (∃ p, x = Loop f p ∧ safe t p R) ∨ (∃ a, x = Ret a ∧ Q a t))).
  - left. eexists. split; [done|by apply Hp].
  - intros t1 x x' t2 [(p1 & -> & Hs)|(a & -> & _)] Hst; [|done].
    cbn in Hst. destruct Hst as [(p2 & Hst & ->)|[(s & -> & -> & ->)|(a & -> & -> & ->)]].
    + split; [by eapply safe_fine|]. left. eexists. split; [done|by eapply safe_own].
    + split; [by left|]. left. eexists. split; [done|]. apply safe_result in Hs. by apply Hf.
    + split; [by left|]. right. eexists. split; [done|]. by apply safe_result in Hs.
  - intros t1 x e [(p1 & -> & Hs)|(a & -> & Hq)]; [left|right]; eexists; (split; [done|]);
      [by apply safe_other|by apply HQ].
  - intros t1 a [(p1 & [=] & _)|(a' & [= ->] & Hq)]; done.
Qed.

(** Goroutines that are each safe among others are safe side by side. *)
Lemma safe_par {A B C} F (p : prog B) (q : prog C) (k : B → C → prog A) R1 R2 Q :
  safe_from F p R1 → safe_from F q R2 →
  (∀ b c, safe_from (λ t, R1 b t ∧ R2 c t) (k b c) Q) → safe_from F (Par p q k) Q.
Proof.
  intros Hp Hq Hk t Ht.
  assert (Hext : ∀ X (x : prog X) R t1 t2, safe t1 x R → fine t1 t2 → safe t2 x R).
  { intros X x R t1 t2 H [->|(e & -> & _)]; [done|by apply safe_other]. }
  apply (safe_inv (λ t x, (∃ p q, x = Par p q k ∧ safe t p R1 ∧ safe t q R2) ∨ safe t x Q)).
  - left. eexists _, _. split; [done|]. split; [by apply Hp|by apply Hq].
  - intros t1 x x' t2 [(p1 & q1 & -> & Hs1 & Hs2)|Hs] Hst.
    + cbn in Hst. destruct Hst as [(p2 & Hst & ->)|[(q2 & Hst & ->)|(b & c & -> & -> & -> & ->)]].
      * pose proof (safe_fine _ _ _ _ _ Hs1 Hst). split; [done|]. left. eexists _, _. split; [done|].
        split; [by eapply safe_own|by eapply Hext].
      * pose proof (safe_fine _ _ _ _ _ Hs2 Hst). split; [done|]. left. eexists _, _. split; [done|].
        split; [by eapply Hext|by eapply safe_own].
      * split; [by left|]. right. apply Hk. split; by apply safe_result.
    + split; [by eapply safe_fine|right; by eapply safe_own].
  - intros t1 x e [(p1 & q1 & -> & Hs1 & Hs2)|Hs]; [left|right]; [|by apply safe_other].
    eexists _, _. split; [done|]. split; by apply safe_other.
  - intros t1 a [(p1 & q1 & [=] & _)|Hs]. by apply safe_result.
Qed.

Lemma safe_conseq {A} (F F' : trace E → Prop) (p : prog A) (Q Q' : A → trace E → Prop) :
  safe_from F' p Q' → (∀ t, F t → F' t) → (∀ a t, Q' a t → Q a t) → safe_from F p Q.
Proof.
  intros H HF HQ t Ht t1 p1 Ha. destruct (H t (HF _ Ht) t1 p1 Ha) as [H1 H2].
  split; [done|]. intros a Hp. by apply HQ, H2.
Qed.

(** A stable fact is kept. *)
Lemma step_trace {A} (p : prog A) t p' t' : step p t p' t' → t' = t ∨ ∃ e, t' = e :: t.
Proof.
  revert t p' t'. induction p as [A a|A op|A B p IH k _|A S f _ p IH|A B C p IHp q IHq k _]; intros t p' t'; cbn.
  - done.
  - intros (a & _ & ->). right. by eexists.
  - intros [(p1 & H & _)|(a & _ & _ & ->)]; [by eapply IH|by left].
  - intros [(p1 & H & _)|[(s & _ & _ & ->)|(a & _ & _ & ->)]]; [by eapply IH|by left|by left].
  - intros [(p1 & H & _)|[(q1 & H & _)|(a & b & _ & _ & _ & ->)]]; [by eapply IHp|by eapply IHq|by left].
Qed.
Lemma safe_frame {A} (F G : trace E → Prop) (p : prog A) Q :
  stable G → safe_from F p Q → safe_from (λ t, F t ∧ G t) p (λ a t, Q a t ∧ G t).
Proof.
  intros HG H t [Hf Hg] t1 p1 Ha. destruct (H t Hf t1 p1 Ha) as [H1 H2]. split; [done|].
  intros a Hp. split; [by apply H2|]. clear -HG Hg Ha.
  induction Ha as [|t1 p1 t2 p2 _ IH Hst|t1 p1 e _ IH]; [done| |by apply HG].
  destruct (step_trace _ _ _ _ Hst) as [->|[e ->]]; [done|by apply HG].
Qed.

(** A part that needs less than what is known. *)
Lemma safe_then {A B} F (F' : trace E → Prop) (p : prog B) (k : B → prog A) R Q :
  safe_from F' p R → (∀ t, F t → F' t) → (∀ b, safe_from (R b) (k b) Q) → safe_from F (Bind p k) Q.
Proof. intros Hp HF Hk. apply safe_bind with R; [|done]. by eapply safe_conseq. Qed.

(** A program that is safe from the start justifies its whole trace. *)
Lemma safe_justified {A} (p p' : prog A) Q t : safe [] p Q → reachable p p' t → justified P t.
Proof.
  intros H Hr.
  assert (among [] p t p' ∧ justified P t) as [_ ?]; [|done].
  induction Hr as [|p1 t1 p2 t2 _ [IH Hj] Hst]; [split; [apply among_start|done]|].
  split; [by eapply among_own|]. destruct (H _ _ IH) as [Hf _].
  destruct (Hf _ _ Hst) as [->|(e & -> & He)]; [done|by split].
Qed.

(** ** Running *)

Fixpoint next {A} (η : env E) (p : prog A) (t : trace E) : option (prog A * trace E) :=
  match p with
  | Ret _ => None
  | Op op => let a := η _ t op in Some (Ret a, Ev op a :: t)
  | Bind p k =>
    match next η p t with
    | Some (p, t) => Some (Bind p k, t)
    | None => match p with Ret a => Some (k a, t) | _ => None end
    end
  | Loop f p =>
    match next η p t with
    | Some (p, t) => Some (Loop f p, t)
    | None => match p with Ret (inl s) => Some (Loop f (f s), t) | Ret (inr a) => Some (Ret a, t) | _ => None end
    end
  | Par p q k =>
    match next η p t with
    | Some (p, t) => Some (Par p q k, t)
    | None =>
      match next η q t with
      | Some (q, t) => Some (Par p q k, t)
      | None => match p, q with Ret a, Ret b => Some (k a b, t) | _, _ => None end
      end
    end
  end.

Lemma next_step {A} η (p : prog A) : ∀ t p' t', next η p t = Some (p', t') → step p t p' t'.
Proof.
  induction p as [A a|A op|A B p IH k _|A S f _ p IH|A B C p IHp q IHq k _]; intros t p' t'; cbn.
  - done.
  - intros [= <- <-]. by eexists.
  - destruct (next η p t) as [[p1 t1]|] eqn:Ep.
    + intros [= <- <-]. left. eauto.
    + destruct p; try done. intros [= <- <-]. right. eauto.
  - destruct (next η p t) as [[p1 t1]|] eqn:Ep.
    + intros [= <- <-]. left. eauto.
    + destruct p as [[s|a]| | | |]; try done; intros [= <- <-]; right; eauto.
  - destruct (next η p t) as [[p1 t1]|] eqn:Ep; [|destruct (next η q t) as [[q1 t1]|] eqn:Eq].
    + intros [= <- <-]. left. eauto.
    + intros [= <- <-]. right. left. eauto.
    + destruct p; try done. destruct q; try done. intros [= <- <-]. right. right. by eexists _, _.
Qed.

(** [n] steps, the first goroutine first. *)
Fixpoint drive {A} (n : nat) (η : env E) (x : prog A * trace E) : prog A * trace E :=
  match n with
  | O => x
  | S n => match next η x.1 x.2 with Some y => drive n η y | None => x end
  end.

Lemma drive_reachable {A} n η (p : prog A) : reachable p (drive n η (p, [])).1 (drive n η (p, [])).2.
Proof.
  enough (∀ x, reachable p x.1 x.2 → reachable p (drive n η x).1 (drive n η x).2) as H.
  { apply H, reachable_start. }
  induction n as [|n IH]; intros [q t] Hx; cbn; [done|].
  destruct (next η q t) as [[q' t']|] eqn:E1; [|done]. apply IH. cbn.
  eapply reachable_step; [exact Hx|]. by eapply next_step.
Qed.
End Programs.

Arguments prog E A : clear implicits.
Arguments Ret {E A}.
Arguments Op {E A}.
Arguments Bind {E A B}.
Arguments Loop {E A S}.
Arguments Par {E A B C}.

Notation "x ←! p ; k" := (Bind p (λ x, k)) (at level 20, p at level 100, k at level 200, only parsing).
Notation "p ;! k" := (Bind p (λ _, k)) (at level 100, k at level 200, only parsing).

(** [for { body }] from [s]. *)
Definition loop {E A S} (f : S → prog E (S + A)) (s : S) : prog E A := Loop f (f s).
Definition again {E A S} (s : S) : prog E (S + A) := Ret (inl s).
Definition leave {E A S} (a : A) : prog E (S + A) := Ret (inr a).

Lemma safe_loop_from {E A S} P (I : S → trace E → Prop) (f : S → prog E (S + A)) s Q :
  (∀ a, stable (Q a)) →
  (∀ s, safe_from P (I s) (f s) (λ r t, match r with inl s => I s t | inr a => Q a t end)) →
  safe_from P (I s) (loop f s) Q.
Proof. intros HQ Hf. by apply safe_loop with I. Qed.

(** An effect and what follows it, under stable facts. *)
Lemma safe_step {E A B} P (op : E B) (k : B → prog E A) (F : trace E → Prop) Q :
  stable F → (∀ t a, F t → P t (Ev op a)) →
  (∀ a, safe_from P (λ t, F t ∧ Ev op a ∈ t) (k a) Q) → safe_from P F (Bind (Op op) k) Q.
Proof.
  intros HF HP Hk. apply safe_bind with (λ a t, F t ∧ Ev op a ∈ t); [|done].
  apply safe_op; [done|intros; by apply stable_and, stable_event|].
  intros t a Ht. split_and!; [by apply HP|by apply HF|apply list_elem_of_here].
Qed.
