(* ===== verification/Http.v ===== *)
(** * Requests to providers

    Models agent/internal/clients/client.go and retry.go (a response, its
    error, decoding, Get, RetryDelay) and agent/internal/subscriptions/http.go
    (requestOnce, request): which answers are retried, and which leave a
    mutation uncertain. Encoding a request and reading the bytes of a response
    are I/O; a response carries its decoded body, [None] when it does not
    decode. *)

From stdpp Require Import base gmap strings list.
From S2P Require Import Prelude GoErr Effects.

Inductive method := GET | POST | DELETE.

#[export] Instance method_eq_dec : EqDecision method.
Proof. solve_decision. Defined.

Record response (B : Type) := Response {
  StatusCode : Z;
  Header : header;
  Explained : bool;       (* explained(Body): a message field that is not blank *)
  Body : option B         (* the body decoded into the caller's type *)
}.
Arguments Response {B}.
Arguments StatusCode {B}.
Arguments Header {B}.
Arguments Explained {B}.
Arguments Body {B}.

(** What [out] is: nil, or a variable of type [B]. *)
Inductive target : Type → Type :=
  | Discard : target unit
  | Into (B : Type) : target B.

(** [Response.Err]. *)
Definition response_err {B} (r : response B) : option error :=
  if (StatusCode r <? 200) || (300 <=? StatusCode r)
  then Some (ErrHTTP (StatusCode r) (Explained r)) else None.

(** [Response.Decode]. *)
Definition decode {B} (t : target B) : response B → result B :=
  match t in target B return response B → result B with
  | Discard => λ _, inr tt
  | Into B => λ r, match Body r with
                   | Some b => inr b
                   | None => inl (ErrMsg "invalid provider response")
                   end
  end.

(** [requestOnce] on the answer of [client.Do]. *)
Definition classify {B} (m : method) (t : target B) (r : result (response B)) : result B :=
  match r with
  | inl e => inl (if decide (m = GET) then e else ErrUncertain e)
  | inr r =>
    match response_err r with
    | None => decode t r
    | Some e =>
      let left_ := header_get (Header r) "Ratelimit-Remaining" in
      if (StatusCode r =? 429) && negb (String.eqb left_ "") && negb (String.eqb left_ "0")
      then inl (ErrCostLimited e)
      else if (StatusCode r =? 429) || (bool_decide (m = GET) && (500 <=? StatusCode r))
      then inl (ErrRetry e (Header r))
      else if negb (bool_decide (m = GET)) && (500 <=? StatusCode r)
      then inl (ErrUncertain e)
      else inl e
    end
  end.

Section Requests.
Context {E : Type → Type} {S : Type} (η : env E).
(** [time.Now], and [clients.Wait]: the error when the context ends first. *)
Context (Now : E time) (Sleep : duration → E (option error)).
(** [http.ParseTime]. *)
Variable http_date : string → option time.
Local Abbreviation M := (M (world E S)).

(** [requestOnce]. *)
Definition requestOnce {B} (m : method) (t : target B) (send : M (result (response B)))
    (observe : header → M unit) : M (result B) :=
  r ← send;
  match r with inr r => observe (Header r) | inl _ => mret tt end ;;
  mret (classify m t r).

(** [time.Until(at)]. *)
Definition until (at_ : time) : M duration :=
  now ← ask η Now; mret (time_sub at_ now).

(** [if time.Until(at) > delay { delay = time.Until(at) }]. *)
Definition at_least (at_ : option time) (delay : duration) : M duration :=
  match at_ with
  | None => mret delay
  | Some at_ =>
    d ← until at_;
    if delay <? d then until at_ else mret delay
  end.

Definition RetryDelay (h : header) (attempt : Z) : M duration :=
  let delay := wrap64 (Z.shiftl 1 attempt * second) in
  let delay := match parse_int (header_get h "Retry-After") with
               | Some s => if 0 <? s then wrap64 (s * second) else delay
               | None => delay
               end in
  delay ← at_least (http_date (header_get h "Retry-After")) delay;
  at_least ((λ r, time_unix r 0) <$> parse_int (header_get h "Ratelimit-Reset")) delay.

(** The loop of [request], from attempt [attempt] with [n] attempts left. *)
Fixpoint request_from {B} (n : nat) (attempt : Z) (m : method) (t : target B)
    (send : M (result (response B))) : M (result B) :=
  match n with
  | O => throw (ErrMsg "provider retry limit reached")
  | Datatypes.S n =>
    r ← requestOnce m t send (λ _, mret tt);
    match r with
    | inr b => ok b
    | inl e =>
      match as_retry e with
      | None => throw e
      | Some (e, h) =>
        delay ← RetryDelay h attempt;
        if (attempt =? 2) || (30 * second <? delay) then throw e
        else
          w ← ask η (Sleep delay);
          match w with
          | Some e => throw e
          | None => request_from n (attempt + 1) m t send
          end
      end
    end
  end.

Definition request {B} : method → target B → M (result (response B)) → M (result B) :=
  request_from 3 0.

(** [Client.Get] retries 5xx up to three times. *)
Fixpoint get_from {B} (n : nat) (attempt : Z) (t : target B)
    (send : M (result (response B))) : M (result B) :=
  match n with
  | O => throw (ErrMsg "unreachable")
  | Datatypes.S n =>
    r ← send;
    match r with
    | inl e => throw e
    | inr r =>
      if (500 <=? StatusCode r) && (StatusCode r <? 600) && (attempt <? 3) then
        d ← RetryDelay (Header r) attempt;
        w ← ask η (Sleep d);
        match w with
        | Some e => throw e
        | None => get_from n (attempt + 1) t send
        end
      else match response_err r with
           | Some e => throw e
           | None => mret (decode t r)
           end
    end
  end.

Definition Get {B} : target B → M (result (response B)) → M (result B) := get_from 4 0.

(** ** Reasoning about requests *)

(** A clock read or a pause neither needs a justification nor matters to [F]. *)
Definition quiet (P : trace E → ev E → Prop) (F : trace E → Prop) : Prop :=
  ∀ t, F t → (∀ a, P t (Ev Now a) ∧ F (Ev Now a :: t)) ∧
             (∀ d a, P t (Ev (Sleep d) a) ∧ F (Ev (Sleep d) a :: t)).

Lemma runs_now P F : quiet P F → runs (S:=S) P F (ask η Now) (λ _ t, F t).
Proof. intros H. apply runs_ask. intros t Ht. by apply (proj1 (H t Ht)). Qed.
Lemma runs_sleep P F d : quiet P F → runs (S:=S) P F (ask η (Sleep d)) (λ _ t, F t).
Proof. intros H. apply runs_ask. intros t Ht. by apply (proj2 (H t Ht)). Qed.

Lemma runs_until P F at_ : quiet P F → runs (S:=S) P F (until at_) (λ _ t, F t).
Proof.
  intros H. eapply runs_bind; [by apply runs_now|]. intros. by apply runs_ret.
Qed.

Lemma runs_at_least P F at_ d : quiet P F → runs P F (at_least at_ d) (λ _ t, F t).
Proof.
  intros H. destruct at_; cbn; [|by apply runs_ret].
  eapply runs_bind; [by apply runs_until|]. intros x.
  destruct (d <? x); [by apply runs_until | by apply runs_ret].
Qed.

Lemma runs_RetryDelay P F h n : quiet P F → runs P F (RetryDelay h n) (λ _ t, F t).
Proof.
  intros H. unfold RetryDelay. eapply runs_bind; [by apply runs_at_least|].
  intros. by apply runs_at_least.
Qed.

(** Requests keep what each send, clock read and pause keeps. *)
Lemma keeps_at_least (I : world E S → Prop) at_ d : keeps I (ask η Now) → keeps I (at_least at_ d).
Proof. intros H. unfold at_least, until. keeps_tac; done. Qed.
Lemma keeps_RetryDelay (I : world E S → Prop) h n : keeps I (ask η Now) → keeps I (RetryDelay h n).
Proof. intros H. unfold RetryDelay. keeps_tac; by apply keeps_at_least. Qed.
Lemma keeps_request {B} (I : world E S → Prop) m (t : target B) send :
  keeps I (ask η Now) → (∀ d, keeps I (ask η (Sleep d))) → keeps I send →
  keeps I (request m t send).
Proof.
  intros Hn Hs Hk. unfold request. generalize 0. generalize 3%nat as n.
  induction n as [|n IH]; intros a; cbn [request_from]; [apply keeps_ret|].
  unfold requestOnce, throw, ok. keeps_tac; first [apply IH | by apply keeps_RetryDelay | done | apply Hs].
Qed.

(** [request] sends from worlds satisfying [F], and again only after a
    retryable answer; [R r] holds once [r] answered. *)
Lemma runs_request {B} P F (R : result B → trace E → Prop) Q m (t : target B) send :
  quiet P F →
  runs P F send (λ r, R (classify m t r)) →
  (∀ e e' h t, as_retry e = Some (e', h) → R (inl e) t → F t) →
  (∀ r t, R r t → Q r t) →
  (∀ e t, F t → Q (inl e) t) →
  runs P F (request m t send) Q.
Proof.
  intros HF Hs HRF HQ Hlim. unfold request. generalize 0 at 1. generalize 3%nat as n.
  induction n as [|n IH]; intros a; cbn [request_from].
  { apply runs_ret. intros. by apply Hlim. }
  apply runs_bind with R.
  { unfold requestOnce. eapply runs_bind; [apply Hs|]. intros r.
    eapply (runs_bind _ _ _ (λ _ t0, R (classify m t r) t0)).
    - destruct r; by apply runs_ret.
    - intros. by apply runs_ret. }
  intros [e|b]; [|apply runs_ret; by auto].
  destruct (as_retry e) as [[e' h]|] eqn:Ee; [|apply runs_ret; by auto].
  apply runs_conseq with F (λ r t0, Q r t0); [|eauto|done].
  eapply runs_bind; [by apply runs_RetryDelay|]. intros d.
  case_match; [by apply runs_ret; eauto|].
  eapply runs_bind; [by apply runs_sleep|]. intros [x|]; [|apply IH].
  apply runs_ret; by eauto.
Qed.

(** [Get] keeps what each send, clock read and pause keeps. *)
Lemma runs_Get {B} P F (t : target B) send :
  quiet P F → runs P F send (λ _, F) → runs P F (Get t send) (λ _, F).
Proof.
  intros HF Hs. unfold Get. generalize 0. generalize 4%nat as n.
  induction n as [|n IH]; intros a; cbn [get_from]; [by apply runs_ret|].
  eapply runs_bind; [apply Hs|]. intros [e|r]; [by apply runs_ret|].
  destruct (_ && _).
  - eapply runs_bind; [by apply runs_RetryDelay|]. intros d.
    eapply runs_bind; [by apply runs_sleep|]. intros [e|]; [by apply runs_ret|apply IH].
  - destruct (response_err r); by apply runs_ret.
Qed.
End Requests.

(** ** What an answer means *)

Lemma decode_error {B} (t : target B) r e :
  decode t r = inl e → e = ErrMsg "invalid provider response".
Proof. destruct t; cbn; [done|]. destruct (Body r); naive_solver. Qed.

Lemma classify_ok {B} m (t : target B) r :
  200 <= StatusCode r < 300 → classify m t (inr r) = decode t r.
Proof.
  intros. cbn. unfold response_err.
  by destruct (Z.ltb_spec (StatusCode r) 200), (Z.leb_spec 300 (StatusCode r)); try lia.
Qed.

Definition cost_answer {B} (r : response B) : bool :=
  (StatusCode r =? 429) && negb (String.eqb (header_get (Header r) "Ratelimit-Remaining") "") &&
  negb (String.eqb (header_get (Header r) "Ratelimit-Remaining") "0").

Lemma cost_answer_true {B} (r : response B) :
  cost_answer r = true ↔
  StatusCode r = 429 ∧ header_get (Header r) "Ratelimit-Remaining" ∉ ["" ; "0"].
Proof. unfold cost_answer. bools. rewrite !not_elem_of_cons, elem_of_nil. naive_solver. Qed.

Lemma response_err_http {B} (r : response B) x :
  response_err r = Some x → (StatusCode r < 200 ∨ 300 <= StatusCode r) ∧ x = ErrHTTP (StatusCode r) (Explained r).
Proof. unfold response_err. destruct (_ || _) eqn:E; [|done]. bools. naive_solver. Qed.

(** The four errors of an answer outside 2xx. *)
Lemma classify_error {B} m (t : target B) r e :
  classify m t (inr r) = inl e →
  e = ErrMsg "invalid provider response" ∨
  ∃ x, response_err r = Some x ∧
  ((StatusCode r = 429 ∧ header_get (Header r) "Ratelimit-Remaining" ∉ ["" ; "0"] ∧ e = ErrCostLimited x) ∨
   (((StatusCode r = 429 ∧ header_get (Header r) "Ratelimit-Remaining" ∈ ["" ; "0"]) ∨
     (m = GET ∧ 500 <= StatusCode r)) ∧ e = ErrRetry x (Header r)) ∨
   (m ≠ GET ∧ 500 <= StatusCode r ∧ e = ErrUncertain x) ∨ e = x).
Proof.
  cbn. destruct (response_err r) as [x|] eqn:Hx; [|intros ?%decode_error; by left].
  fold (cost_answer r). intros H. right. exists x. split; [done|].
  destruct (cost_answer r) eqn:Hc.
  { apply cost_answer_true in Hc as [??]. simplify_eq. by left. }
  assert (Hn : StatusCode r = 429 → header_get (Header r) "Ratelimit-Remaining" ∈ ["" ; "0"]).
  { intros H4. apply dec_stable. intros Hno.
    by rewrite (proj2 (cost_answer_true r)) in Hc. }
  case_bool_decide; destruct (Z.eqb_spec (StatusCode r) 429), (Z.leb_spec 500 (StatusCode r));
    cbn in H; simplify_eq; naive_solver.
Qed.

Lemma classify_5xx {B} m (t : target B) r :
  m ≠ GET → 500 <= StatusCode r →
  ∃ x, classify m t (inr r) = inl (ErrUncertain (ErrHTTP (StatusCode r) x)).
Proof.
  intros Hm H. cbn. unfold response_err.
  destruct (Z.ltb_spec (StatusCode r) 200), (Z.leb_spec 300 (StatusCode r)); try lia.
  cbn. destruct (Z.eqb_spec (StatusCode r) 429); [lia|]. cbn.
  rewrite !bool_decide_false, (proj2 (Z.leb_le _ _) H) by done. by eexists.
Qed.

(** Classification of answers: a GET is never uncertain; a mutation that
    may have happened (no answer, or a 5xx) is always uncertain and never
    retryable; what is retryable is a 429 that spent the rate limit, or a 5xx
    of a GET; a 429 with rate-limit budget left is a full cost limit; anything
    outside 2xx is an error, anything inside is decoded. *)
Theorem answers_classified {B} (m : method) (t : target B) (r : response B) e :
  (∀ e0, m ≠ GET → is_uncertain (match classify m t (inl e0) with inl e => e | inr _ => ErrBusy end) = true) ∧
  ((200 <= StatusCode r < 300) → classify m t (inr r) = decode t r) ∧
  (classify m t (inr r) = inl e → is_uncertain e = true →
     m ≠ GET ∧ 500 <= StatusCode r) ∧
  (m ≠ GET → 500 <= StatusCode r → ∃ x, classify m t (inr r) = inl (ErrUncertain (ErrHTTP (StatusCode r) x))) ∧
  (classify m t (inr r) = inl e → is_some (as_retry e) = true →
     (StatusCode r = 429 ∧ header_get (Header r) "Ratelimit-Remaining" ∈ ["" ; "0"]) ∨
     (m = GET ∧ 500 <= StatusCode r)) ∧
  (classify m t (inr r) = inl e → is_cost_limited e = true →
     StatusCode r = 429 ∧ header_get (Header r) "Ratelimit-Remaining" ∉ ["" ; "0"]).
Proof.
  split_and!.
  - intros e0 Hm. unfold classify. by rewrite decide_False.
  - apply classify_ok.
  - intros H Hu. destruct (classify_error m t r e H) as [->|(x & [? ->]%response_err_http & Hc)]; [done|].
    destruct Hc as [(_ & _ & ->)|[(_ & ->)|[(Hm & Hs & ->)| ->]]]; done.
  - intros Hm Hs. apply classify_5xx; [done|lia].
  - intros H Hu. destruct (classify_error m t r e H) as [->|(x & [? ->]%response_err_http & Hc)]; [done|].
    by destruct Hc as [(_ & _ & ->)|[([?|[??]] & ->)|[(Hm & Hs & ->)| ->]]]; auto.
  - intros H Hu. destruct (classify_error m t r e H) as [->|(x & [? ->]%response_err_http & Hc)]; [done|].
    by destruct Hc as [(? & ? & ->)|[(_ & ->)|[(Hm & Hs & ->)| ->]]].
Qed.

Definition failed_post : response unit := Response 503 ∅ false None.

Lemma answers_classified_witness :
  ∃ x, classify POST Discard (inr failed_post) = inl (ErrUncertain (ErrHTTP 503 x)).
Proof.
  destruct (answers_classified POST Discard failed_post (ErrUncertain (ErrHTTP 503 false)))
    as (_ & _ & _ & H & _).
  apply H; [discriminate|vm_compute; discriminate].
Defined.
