(* ===== verification/LeaseSpec.v ===== *)
(** * Leases: the abstract specification

    Four packages of the agent guard work with a lease kept in one Firestore
    document: subscriptionlock, the YouTube readers, the token refresher and
    the scheduled jobs (whose lease has no owner, see Readers.v). [Leasing] is
    what such a document promises. Two systems are mutually exclusive for every
    document that keeps the promise: in the first any number of replicas
    acquire, renew, release and forget leases while time passes; in the second
    they also do work that ends before their lease does, while the document's
    other fields change and commits land whose answers are lost. The packages'
    own transactions are instances in Lease.v, Readers.v and Provider.v. *)

From stdpp Require Import base gmap strings list.
From S2P Require Import Prelude.

(** [D] is the document's state, [L] what an acquisition also writes. *)
Class Leasing (D L : Type) := {
  holder : D → option (string * time);
  try_acquire : L → string → time → time → D → option D;
  do_release : string → D → D;
  (** A grant displaces no live lease of another owner, and is recorded. *)
  try_acquire_sound l o now until d d' :
    try_acquire l o now until d = Some d' →
    (∀ o' u', holder d = Some (o', u') → o' = o ∨ u' <= now) ∧
    holder d' = Some (o, until);
  (** What else than a live lease may refuse a claim. *)
  admits : L → D → bool;
  (** A free document, or one whose lease expired, is granted. *)
  try_acquire_free l o now until d :
    admits l d = true →
    (∀ o' u', holder d = Some (o', u') → u' <= now) →
    is_Some (try_acquire l o now until d);
  (** Releasing removes at most the releaser's own lease. *)
  do_release_own o d o' u' :
    holder d = Some (o', u') → o' ≠ o → holder (do_release o d) = Some (o', u');
}.

Section System.
Context {D L : Type} `{!Leasing D L}.

(** [ls_holds] maps each replica that believes it has the lease to the expiry
    it was granted. *)
Record lstate := LState {
  ls_now : time;
  ls_doc : D;
  ls_holds : gmap string time
}.

Inductive lstep : lstate → lstate → Prop :=
  | lstep_tick s now :
      ls_now s <= now →
      lstep s (LState now (ls_doc s) (ls_holds s))
  (** The clock a transaction read may be older than its commit. *)
  | lstep_acquire s l o seen until d' :
      seen <= ls_now s →
      try_acquire l o seen until (ls_doc s) = Some d' →
      lstep s (LState (ls_now s) d' (<[o := until]> (ls_holds s)))
  | lstep_release s o :
      is_Some (ls_holds s !! o) →
      lstep s (LState (ls_now s) (do_release o (ls_doc s)) (delete o (ls_holds s)))
  (** A crash, or a lease kept on purpose until it expires. *)
  | lstep_forget s o :
      lstep s (LState (ls_now s) (ls_doc s) (delete o (ls_holds s))).

Definition linit (s : lstate) : Prop := ls_holds s = ∅.

Inductive lreachable : lstate → Prop :=
  | lreach_init s : linit s → lreachable s
  | lreach_step s s' : lreachable s → lstep s s' → lreachable s'.

(** A live lease is the one the document records. *)
Definition recorded (s : lstate) : Prop :=
  ∀ o u, ls_holds s !! o = Some u → ls_now s < u → holder (ls_doc s) = Some (o, u).

Lemma lstep_recorded s s' : recorded s → lstep s s' → recorded s'.
Proof.
  intros Hinv Hstep o u. destruct Hstep as [s now Hle|s l o' seen until d' Hseen Hacq|
    s o' Hown|s o']; cbn [ls_now ls_doc ls_holds].
  - intros Ho Hlt. apply Hinv; [done|lia].
  - destruct (try_acquire_sound _ _ _ _ _ _ Hacq) as [Hold Hnew].
    destruct (decide (o' = o)) as [->|Hne].
    + rewrite lookup_insert_eq. by intros [= <-] _.
    + rewrite lookup_insert_ne by done. intros Ho Hlt.
      destruct (Hold o u (Hinv o u Ho Hlt)); [congruence|lia].
  - intros [Hne Ho]%lookup_delete_Some Hlt.
    apply do_release_own; [by apply Hinv|done].
  - intros [Hne Ho]%lookup_delete_Some Hlt. by apply Hinv.
Qed.

Lemma lreachable_recorded s : lreachable s → recorded s.
Proof.
  induction 1 as [s Hi|s s' _ IH Hstep]; [|by eapply lstep_recorded].
  intros o u. rewrite Hi. by rewrite lookup_empty.
Qed.

Lemma lreachable_exclusive s o1 o2 u1 u2 :
  lreachable s →
  ls_holds s !! o1 = Some u1 → ls_holds s !! o2 = Some u2 →
  ls_now s < u1 → ls_now s < u2 → o1 = o2.
Proof.
  intros Hr H1 H2 L1 L2. apply lreachable_recorded in Hr.
  pose proof (Hr _ _ H1 L1) as E1. pose proof (Hr _ _ H2 L2) as E2. congruence.
Qed.
End System.

Arguments lstate : clear implicits.
Arguments LState {D}.

(** ** Work guarded by a lease *)

Section Guarded.
Context {D L : Type} `{!Leasing D L}.

(** [g_work] maps each replica at work to the expiry it was granted and the
    time its work ends at the latest. *)
Record gstate := GState {
  g_now : time;
  g_doc : D;
  g_work : gmap string (time * time)
}.

(** The document's write leaves the leases of others alone. *)
Definition keeps_others (o : string) (d d' : D) : Prop :=
  ∀ o' u', holder d = Some (o', u') → o' ≠ o → holder d' = Some (o', u').

Inductive gstep : gstate → gstate → Prop :=
  (** Time passes, but no work outlasts its end. *)
  | gstep_tick s now :
      g_now s <= now → (∀ o u e, g_work s !! o = Some (u, e) → now <= e) →
      gstep s (GState now (g_doc s) (g_work s))
  (** A claim or a renewal, and the work it allows. *)
  | gstep_acquire s l o seen until ends d' :
      seen <= g_now s → try_acquire l o seen until (g_doc s) = Some d' →
      g_now s <= ends → ends < until →
      gstep s (GState (g_now s) d' (<[o := (until, ends)]> (g_work s)))
  (** A claim that lands although its owner does not learn of it. *)
  | gstep_ghost s l o seen until d' :
      seen <= g_now s → try_acquire l o seen until (g_doc s) = Some d' →
      (∀ u e, g_work s !! o = Some (u, e) → u <= until) →
      gstep s (GState (g_now s) d' (g_work s))
  (** A release, or the end of a work that leaves its lease. *)
  | gstep_end s o d' :
      keeps_others o (g_doc s) d' →
      gstep s (GState (g_now s) d' (delete o (g_work s)))
  (** Other fields of the document. *)
  | gstep_other s d' :
      holder d' = holder (g_doc s) → gstep s (GState (g_now s) d' (g_work s)).

Inductive greachable : gstate → Prop :=
  | greach_init s : g_work s = ∅ → greachable s
  | greach_step s s' : greachable s → gstep s s' → greachable s'.

Definition guarded (s : gstate) : Prop :=
  ∀ o u e, g_work s !! o = Some (u, e) →
    g_now s <= e ∧ e < u ∧ ∃ u', holder (g_doc s) = Some (o, u') ∧ u <= u'.

Lemma gstep_guarded s s' : guarded s → gstep s s' → guarded s'.
Proof.
  intros Hinv Hstep o u e. destruct Hstep as [s now Hle Hend|s l o' seen until ends d' Hseen Hacq Hn He|
    s l o' seen until d' Hseen Hacq Hren|s o' d' Hk|s d' Hd]; cbn [g_now g_doc g_work].
  - intros Ho. destruct (Hinv o u e Ho) as (_ & ? & ?). split_and!; eauto.
  - destruct (try_acquire_sound _ _ _ _ _ _ Hacq) as [Hold Hnew].
    destruct (decide (o' = o)) as [->|Hne].
    + rewrite lookup_insert_eq. intros [= <- <-]. split_and!; [done..|]. by exists until.
    + rewrite lookup_insert_ne by done. intros Ho.
      destruct (Hinv o u e Ho) as (? & ? & u' & Hu & ?). destruct (Hold _ _ Hu); [congruence|lia].
  - destruct (try_acquire_sound _ _ _ _ _ _ Hacq) as [Hold Hnew]. intros Ho.
    destruct (Hinv o u e Ho) as (? & ? & u' & Hu & ?). split_and!; [done..|].
    destruct (Hold _ _ Hu) as [->|]; [|lia]. exists until. split; [done|]. by eapply Hren.
  - intros [Hne Ho]%lookup_delete_Some. destruct (Hinv o u e Ho) as (? & ? & u' & Hu & ?).
    split_and!; [done..|]. exists u'. split; [by apply Hk|done].
  - intros Ho. rewrite Hd. by apply Hinv.
Qed.

Lemma greachable_guarded s : greachable s → guarded s.
Proof.
  induction 1 as [s Hi|s s' _ IH Hstep]; [|by eapply gstep_guarded].
  intros o u e. rewrite Hi. by rewrite lookup_empty.
Qed.

(** At most one replica works. *)
Lemma greachable_exclusive s o1 o2 x1 x2 :
  greachable s → g_work s !! o1 = Some x1 → g_work s !! o2 = Some x2 → o1 = o2.
Proof.
  destruct x1 as [u1 e1], x2 as [u2 e2]. intros Hr H1 H2. apply greachable_guarded in Hr.
  destruct (Hr _ _ _ H1) as (_ & _ & v1 & E1 & _), (Hr _ _ _ H2) as (_ & _ & v2 & E2 & _). congruence.
Qed.
End Guarded.

Arguments gstate : clear implicits.
Arguments GState {D}.
