(* ===== verification/Lease.v ===== *)
(** * subscriptionlock: one lease per provider channel

    Models agent/internal/subscriptionlock/lock.go: the two Firestore
    transactions on subscriptionLeases/<key>, the control flow of [with], and
    the system of all replicas running [with] on one key, which refines the
    abstract lease of LeaseSpec.v. *)

From stdpp Require Import base gmap strings list.
From S2P Require Import Prelude GoErr LeaseSpec.


(** The document the acquire transaction writes. *)
Record lease := Lease { owner : string; until : time; job : string }.

Definition lease_ttl : duration := 90 * second.
Definition work_ttl : duration := 45 * second.

(** What one acquire transaction found: [acquired, alongside]. *)
Record tx_result := TxResult { acquired : bool; alongside : bool }.

(** The acquire transaction: [seen] and [written] are its two clock reads. *)
Definition acquire_tx (beside : list string) (own jb : string) (seen written : time)
    (doc : option lease) : tx_result * option lease :=
  match doc with
  | Some l =>
    if time_after (until l) seen then
      (TxResult false (negb (String.eqb (job l) "") && bool_decide (job l ∈ beside)), doc)
    else (TxResult true false, Some (Lease own (written + lease_ttl) jb))
  | None => (TxResult true false, Some (Lease own (written + lease_ttl) jb))
  end.

(** The release transaction; an error leaves the document alone. *)
Definition release_tx (own : string) (doc : option lease) : result (option lease) :=
  match doc with
  | None => inl (ErrStatus NotFound)
  | Some l =>
    if String.eqb (owner l) own then inr None
    else inl (ErrMsg "subscription lease ownership lost")
  end.

(** ** The control flow of [with]

    The environment answers what the code reads: each attempt's transaction
    outcome, the caller's and the acquisition's contexts after it, whether the
    200 ms timer fired before the acquisition ended, what the work returned,
    and whether its 45 s context had ended then and at the deferred release. *)
Record env := Env {
  e_rand : option error;
  e_tx : nat → result tx_result;
  e_ctx : nat → option error;
  e_acquire : nat → option error;
  e_timer : nat → bool;
  e_work : option error;
  e_bounded : option error;
  e_deferred : option error
}.

(** How one call ended: the error returned, whether work ran, whether it ran
    under its own lease, and whether the lease was given to the release
    transaction rather than kept until expiry. *)
Record outcome := Outcome {
  o_err : option error;
  o_worked : bool;
  o_held : bool;
  o_released : bool
}.

Definition not_run (e : error) : outcome := Outcome (Some e) false false false.

(** [return bounded.Err()] after work without error, [return workErr] else. *)
Definition work_result (en : env) : option error :=
  match e_work en with Some e => Some e | None => e_bounded en end.

(** The deferred release is skipped when the work's deadline passed or a
    mutation's outcome is uncertain. *)
Definition retain (en : env) : bool :=
  is_some (e_deferred en) ||
  match e_work en with Some e => is_uncertain e | None => false end.

Definition run_held (en : env) : outcome :=
  Outcome (work_result en) true true (negb (retain en)).
Definition run_alongside (en : env) : outcome :=
  Outcome (work_result en) true false false.

(** The acquisition loop from attempt [i]; [None] when the fuel runs out. *)
Fixpoint with_loop (fuel : nat) (en : env) (wait : bool) (i : nat) : option outcome :=
  match fuel with
  | O => None
  | S fuel =>
    match e_tx en i with
    | inl err =>
      match e_ctx en i with
      | Some e => Some (not_run e)
      | None =>
        match e_acquire en i with
        | Some _ => Some (not_run ErrBusy)
        | None => Some (not_run err)
        end
      end
    | inr r =>
      if alongside r then Some (run_alongside en)
      else if acquired r then Some (run_held en)
      else if negb wait then Some (not_run ErrBusy)
      else if e_timer en i then with_loop fuel en wait (S i)
      else match e_ctx en i with
           | Some e => Some (not_run e)
           | None => Some (not_run ErrBusy)
           end
    end
  end.

Definition with_ (fuel : nat) (en : env) (wait : bool) : option outcome :=
  match e_rand en with
  | Some e => Some (not_run e)
  | None => with_loop fuel en wait 0
  end.

(** [TryWith] does not wait; [With] and the limited forms do. *)
Definition TryWith (fuel : nat) (en : env) : option outcome := with_ fuel en false.
Definition With (fuel : nat) (en : env) : option outcome := with_ fuel en true.

(** ** The document as a lease *)

Definition lock_acquire (jb own : string) (seen unt : time) (doc : option lease) :
    option (option lease) :=
  let '(r, d) := acquire_tx [] own jb seen (unt - lease_ttl) doc in
  if acquired r then Some d else None.

Definition lock_release (own : string) (doc : option lease) : option lease :=
  match release_tx own doc with inr d => d | inl _ => doc end.

(** ** Control flow *)

(** Whatever the loop returns, it is one of the ends of [with], and work ran
    exactly when some attempt's transaction granted it. *)
Lemma with_loop_cases fuel en wait i o :
  with_loop fuel en wait i = Some o →
  (∃ j r, (i <= j)%nat ∧ e_tx en j = inr r ∧
     ((alongside r = true ∧ o = run_alongside en) ∨
      (alongside r = false ∧ acquired r = true ∧ o = run_held en))) ∨
  (∃ e, o = not_run e).
Proof.
  revert i. induction fuel as [|fuel IH]; intros i; [done|].
  cbn [with_loop]. destruct (e_tx en i) as [err|r] eqn:Etx.
  { intros H. right. repeat case_match; simplify_eq; eauto. }
  destruct (alongside r) eqn:Ea; [intros [= <-]; left; exists i, r; naive_solver lia|].
  destruct (acquired r) eqn:Eq; [intros [= <-]; left; exists i, r; naive_solver lia|].
  destruct (negb wait); [intros [= <-]; eauto|].
  destruct (e_timer en i).
  - intros H. destruct (IH _ H) as [(j & r' & ? & ?)|?]; [|by right].
    left. exists j, r'. split; [lia|done].
  - intros H. right. case_match; simplify_eq; eauto.
Qed.

(** Once some attempt neither grants nor is followed by the timer, or grants,
    the loop has returned by then. *)
Definition settles (en : env) (i : nat) : bool :=
  match e_tx en i with
  | inl _ => true
  | inr r => alongside r || acquired r || negb (e_timer en i)
  end.

Lemma with_loop_returns en wait i n :
  settles en (i + n) = true → is_Some (with_loop (S n) en wait i).
Proof.
  revert i. induction n as [|n IH]; intros i Hs.
  - rewrite Nat.add_0_r in Hs. unfold settles in Hs. cbn [with_loop].
    destruct (e_tx en i) as [e|r]; [repeat case_match; by eexists|].
    destruct (alongside r); [by eexists|]. destruct (acquired r); [by eexists|].
    cbn in Hs. apply negb_true_iff in Hs. rewrite Hs.
    destruct (negb wait); repeat case_match; by eexists.
  - rewrite <- Nat.add_succ_comm in Hs. specialize (IH (S i) Hs).
    remember (S n) as m. cbn [with_loop].
    destruct (e_tx en i) as [e|r]; [repeat case_match; by eexists|].
    destruct (alongside r); [by eexists|]. destruct (acquired r); [by eexists|].
    destruct (negb wait); [by eexists|]. destruct (e_timer en i); [done|].
    repeat case_match; by eexists.
Qed.

Lemma acquire_tx_acquired beside own jb seen written doc d :
  acquire_tx beside own jb seen written doc = (TxResult true false, d) ↔
  match doc with Some l => until l <= seen | None => True end ∧
  d = Some (Lease own (written + lease_ttl) jb).
Proof.
  unfold acquire_tx, time_after. destruct doc as [l|]; [|naive_solver].
  destruct (Z.ltb_spec seen (until l)); naive_solver lia.
Qed.

Lemma lock_acquire_of_tx beside own jb seen written doc r d :
  acquire_tx beside own jb seen written doc = (r, d) → acquired r = true →
  lock_acquire jb own seen (written + lease_ttl) doc = Some d.
Proof.
  unfold lock_acquire, acquire_tx. intros H Hr.
  replace (written + lease_ttl - lease_ttl) with written by lia.
  destruct doc as [l|]; [destruct (time_after (until l) seen)|]; by simplify_eq/=.
Qed.

Lemma acquire_tx_refused beside own jb seen written doc r d :
  acquire_tx beside own jb seen written doc = (r, d) → acquired r = false → d = doc.
Proof. unfold acquire_tx. intros H Hr. by repeat case_match; simplify_eq/=. Qed.

#[export, refine] Instance lock_leasing : Leasing (option lease) string := {|
  holder d := fmap (λ l, (owner l, until l)) d;
  try_acquire := lock_acquire;
  do_release := lock_release;
  admits _ _ := true
|}.
Proof.
  - unfold lock_acquire, acquire_tx, time_after. intros jb o now u [l|] d'; cbn.
    + destruct (Z.ltb_spec now (until l)); cbn; [done|]. intros [= <-].
      split; [intros o' u' [= <- <-]; by right|].
      cbn. do 2 f_equal. lia.
    + intros [= <-]. split; [done|]. cbn. do 2 f_equal. lia.
  - unfold lock_acquire, acquire_tx, time_after. intros jb o now u [l|] _ H; cbn.
    + specialize (H _ _ eq_refl). destruct (Z.ltb_spec now (until l)); [lia|]. by eexists.
    + by eexists.
  - unfold lock_release, release_tx. intros o [l|] o' u'; [|done]. cbn.
    intros [= <- <-] Hne. destruct (String.eqb_spec (owner l) o); [done|]. done.
Defined.

(** ** All replicas on one key *)

Section Replicas.
Variable beside_of : string → list string.
Variable job_of : string → string.

Inductive pc :=
  | Waiting
  | Committed (expiry : time)
  | Granted_beside
  | Working (expiry deadline : time)
  | Beside (deadline : time)
  | Gone.

Record sys := Sys { now : time; doc : option lease; procs : gmap string pc }.

Definition after_tx (r : tx_result) (written : time) : pc :=
  if alongside r then Granted_beside
  else if acquired r then Committed (written + lease_ttl) else Waiting.

Inductive step : sys → sys → Prop :=
  | step_tick s t : now s <= t → step s (Sys t (doc s) (procs s))
  | step_tx s o seen written r d :
      procs s !! o = Some Waiting →
      seen <= written → written <= now s →
      acquire_tx (beside_of o) o (job_of o) seen written (doc s) = (r, d) →
      step s (Sys (now s) d (<[o := after_tx r written]> (procs s)))
  | step_start s o expiry :
      procs s !! o = Some (Committed expiry) →
      step s (Sys (now s) (doc s) (<[o := Working expiry (now s + work_ttl)]> (procs s)))
  | step_start_beside s o :
      procs s !! o = Some Granted_beside →
      step s (Sys (now s) (doc s) (<[o := Beside (now s + work_ttl)]> (procs s)))
  | step_release s o expiry deadline :
      procs s !! o = Some (Working expiry deadline) →
      step s (Sys (now s) (lock_release o (doc s)) (<[o := Gone]> (procs s)))
  | step_leave s o :
      step s (Sys (now s) (doc s) (<[o := Gone]> (procs s))).

(** Calls arrive with owners of their own, all waiting. *)
Definition init (s : sys) : Prop := ∀ o p, procs s !! o = Some p → p = Waiting.

Inductive reachable : sys → Prop :=
  | reach_init s : init s → reachable s
  | reach_step s s' : reachable s → step s s' → reachable s'.

Definition held_until (p : pc) : option time :=
  match p with Committed u | Working u _ => Some u | _ => None end.

Definition abstract (s : sys) : lstate (option lease) :=
  LState (now s) (doc s) (omap held_until (procs s)).

Lemma abstract_insert s t d o p :
  abstract (Sys t d (<[o := p]> (procs s))) =
  LState t d (match held_until p with
              | Some u => <[o := u]> (omap held_until (procs s))
              | None => delete o (omap held_until (procs s)) end).
Proof.
  unfold abstract. f_equal; cbn. destruct (held_until p) eqn:E.
  - by apply omap_insert_Some.
  - by apply omap_insert_None.
Qed.

Lemma omap_held_ne s o p :
  procs s !! o = Some p → held_until p = None →
  delete o (omap held_until (procs s)) = omap held_until (procs s).
Proof.
  intros Ho Hp. apply delete_id. rewrite lookup_omap, Ho. exact Hp.
Qed.

(** Every step of the replicas is a step of the abstract lease, or invisible. *)
Lemma step_simulates s s' :
  step s s' → abstract s' = abstract s ∨ lstep (L := string) (abstract s) (abstract s').
Proof.
  intros H. destruct H as [s t Hle|s o seen written r d Ho Hsw Hwn Htx|s o expiry Ho Hlat|
    s o Ho|s o expiry dl Ho|s o]; rewrite ?abstract_insert.
  - right. by apply (lstep_tick (L := string) (abstract s)).
  - unfold after_tx. destruct (acquired r) eqn:Eq, (alongside r) eqn:Ea;
      cbn [held_until].
    + unfold acquire_tx in Htx. repeat case_match; simplify_eq/=.
    + right.
      apply (lstep_acquire (L := string) (abstract s) (job_of o) o seen (written + lease_ttl)).
      { cbn. lia. }
      by eapply lock_acquire_of_tx.
    + left. rewrite (omap_held_ne s o Waiting) by done.
      by rewrite (acquire_tx_refused _ _ _ _ _ _ _ _ Htx Eq).
    + left. rewrite (omap_held_ne s o Waiting) by done.
      by rewrite (acquire_tx_refused _ _ _ _ _ _ _ _ Htx Eq).
  - left. cbn [held_until]. unfold abstract. f_equal.
    apply insert_id. by rewrite lookup_omap, Ho.
  - left. cbn [held_until]. by rewrite (omap_held_ne s o Granted_beside).
  - right. cbn [held_until]. refine (lstep_release (L := string) (abstract s) o _).
    cbn. rewrite lookup_omap, Ho. by eexists.
  - right. cbn [held_until]. refine (lstep_forget (L := string) (abstract s) o).
Qed.

Lemma reachable_abstract s :
  reachable s → lreachable (L := string) (abstract s).
Proof.
  induction 1 as [s Hi|s s' _ IH Hstep].
  - apply lreach_init. unfold linit. cbn. apply map_eq. intros o.
    rewrite lookup_omap, lookup_empty. destruct (procs s !! o) as [p|] eqn:E; [|done].
    by rewrite (Hi o p E).
  - destruct (step_simulates _ _ Hstep) as [->|?]; [done|by eapply lreach_step].
Qed.

End Replicas.

(** ** Properties *)

(** C1. What the lease gives across replicas, in every reachable state: of two
    calls of [with] working under the lease of a key at most one has a lease
    that has not expired. So when both are still within their 45 s deadlines,
    one of them started its work more than 45 s after its transaction read the
    clock that dates its lease: [u - lease_ttl] is that reading, [d - work_ttl]
    the start. That this can happen is [late_start_overlap]. *)
Theorem lock_exclusive beside_of job_of s o1 o2 u1 u2 d1 d2 :
  reachable beside_of job_of s →
  procs s !! o1 = Some (Working u1 d1) → procs s !! o2 = Some (Working u2 d2) →
  o1 ≠ o2 →
  (u1 <= now s ∨ u2 <= now s) ∧
  (now s < d1 → now s < d2 →
     lease_ttl - work_ttl < (d1 - work_ttl) - (u1 - lease_ttl) ∨
     lease_ttl - work_ttl < (d2 - work_ttl) - (u2 - lease_ttl)).
Proof.
  intros Hr H1 H2 Hne.
  assert (Hu : u1 <= now s ∨ u2 <= now s); [|split; [done|lia]].
  destruct (Z.le_gt_cases u1 (now s)); [by left|].
  destruct (Z.le_gt_cases u2 (now s)); [by right|].
  destruct Hne. apply (lreachable_exclusive (L := string) (abstract s) o1 o2 u1 u2);
    [by eapply reachable_abstract|..]; cbn; try lia;
    by rewrite lookup_omap, ?H1, ?H2.
Qed.

(** Two calls a and b, on one key, both waiting. *)
Definition two_waiting : sys := Sys 0 None (<["a" := Waiting]> (<["b" := Waiting]> ∅)).

(** Extend a concrete run, [H : reachable s], by one transition. *)
Ltac arith := vm_compute; discriminate.
Ltac run_step H tac :=
  eapply reach_step in H; [|tac; first [vm_compute; reflexivity | arith]];
  cbn [now doc procs] in H.

Lemma two_waiting_init : init two_waiting.
Proof.
  intros o p. unfold two_waiting; cbn. rewrite !lookup_insert.
  repeat case_decide; rewrite ?lookup_empty; congruence.
Qed.

Definition bs0 : string → list string := λ _, [].
Definition jb0 : string → string := λ _, "".

(** A call whose transaction's commit is slow starts work on a lease about to
    expire. *)
Lemma late_start :
  ∃ s, reachable bs0 jb0 s ∧
    procs s !! "a" = Some (Working (90 * second) (134 * second)) ∧
    procs s !! "b" = Some (Working (190 * second) (145 * second)) ∧ now s = 100 * second.
Proof.
  pose proof (reach_init bs0 jb0 _ two_waiting_init) as R.
  run_step R ltac:(eapply (step_tx _ _ _ "a" 0 0)).
  run_step R ltac:(eapply (step_tick _ _ _ (89 * second))).
  run_step R ltac:(eapply (step_start _ _ _ "a")).
  run_step R ltac:(eapply (step_tick _ _ _ (100 * second))).
  run_step R ltac:(eapply (step_tx _ _ _ "b" (100 * second) (100 * second))).
  run_step R ltac:(eapply (step_start _ _ _ "b")).
  eexists. split; [exact R|]. by repeat split.
Qed.

Lemma lock_exclusive_witness :
  ∃ s, reachable bs0 jb0 s ∧
    procs s !! "a" = Some (Working (90 * second) (134 * second)) ∧
    procs s !! "b" = Some (Working (190 * second) (145 * second)) ∧
    (90 * second <= now s ∨ 190 * second <= now s).
Proof.
  destruct late_start as (s & R & Ha & Hb & _). exists s. split; [exact R|]. split; [exact Ha|]. split; [exact Hb|].
  apply (lock_exclusive bs0 jb0 s "a" "b" _ _ _ _ R Ha Hb). discriminate.
Defined.

(** The lease does not bound how late work starts: two calls are then both
    within their deadlines. *)
Theorem late_start_overlap :
  ∃ s, reachable bs0 jb0 s ∧
    procs s !! "a" = Some (Working (90 * second) (134 * second)) ∧
    procs s !! "b" = Some (Working (190 * second) (145 * second)) ∧
    now s < 134 * second ∧ now s < 145 * second.
Proof. destruct late_start as (s & R & Ha & Hb & Hn). exists s. rewrite Hn. by split_and!. Qed.

(** C2. The contract of [with]: the loop returns once an attempt settles. If it
    returns, work ran exactly when an attempt's transaction granted the lease
    or found it held for a compatible job; its result is then the work's error,
    else its deadline's; when work did not run an error says so; and the lease
    is given back exactly when it was taken, its deadline did not pass and the
    work's error is not an uncertain mutation. *)
Theorem with_contract en wait n fuel o :
  (e_rand en = None → settles en n = true → is_Some (with_ (S n) en wait)) ∧
  (with_ fuel en wait = Some o →
    (o_worked o = true ↔ o_held o = true ∨
       ∃ i r, e_tx en i = inr r ∧ alongside r = true ∧ o = run_alongside en) ∧
    (o_held o = true → ∃ i r, e_tx en i = inr r ∧ acquired r = true ∧ alongside r = false) ∧
    (if o_worked o then o_err o = work_result en else is_Some (o_err o)) ∧
    (o_released o = true ↔ o_held o = true ∧ e_deferred en = None ∧
       ∀ e, e_work en = Some e → is_uncertain e = false)).
Proof.
  split.
  { intros Hr Hs. unfold with_. rewrite Hr. by apply (with_loop_returns en wait 0 n). }
  unfold with_. destruct (e_rand en) as [e|]; [intros [= <-]; naive_solver|].
  intros [(i & r & _ & Htx & [[Ha ->]|(Ha & Hq & ->)])|[e ->]]%with_loop_cases.
  - cbn. naive_solver.
  - cbn. unfold retain. split_and!; [naive_solver..|].
    destruct (e_deferred en), (e_work en) as [we|]; cbn; try naive_solver.
    destruct (is_uncertain we) eqn:?; naive_solver.
  - cbn. naive_solver.
Qed.

Lemma with_contract_witness :
  let en := Env None (λ i, inr (TxResult (Nat.eqb i 2) false)) (λ _, None) (λ _, None)
              (λ _, true) (Some (ErrUncertain (ErrMsg "lost"))) None None in
  let o := Outcome (Some (ErrUncertain (ErrMsg "lost"))) true true false in
  is_Some (with_ 3 en true) ∧ with_ 3 en true = Some o ∧
  (o_released o = true ↔ o_held o = true ∧ e_deferred en = None ∧
       ∀ e, e_work en = Some e → is_uncertain e = false).
Proof.
  intros en o.
  split; [by apply (with_contract en true 2 3 o)|]. split; [reflexivity|].
  by apply (with_contract en true 2 3 o).
Defined.

