(* ===== verification/Readers.v ===== *)
(** * Readers, scheduled jobs and the IRC gate

    Three uses of a Firestore document to coordinate replicas: the readers of
    agent/internal/youtube (store.go, and the lease loop of client.go), the job
    leases of agent/internal/jobs/runner.go, and the authentication slots of
    agent/internal/ircauth/gate.go. Each has its transactions as functions and
    the system of all replicas as a step relation. *)

From stdpp Require Import base gmap strings list.
From S2P Require Import Prelude GoErr GoTime LeaseSpec Effects.

(** ** YouTube readers *)

(** The document youtube-readers/<channel>; a missing field reads as zero. *)
Record reader_doc := ReaderDoc { rd_owner : string; rd_expires : time }.

Definition leaseAvailable (current owner : string) (expiry now : time) : bool :=
  String.eqb current owner || negb (time_after expiry now).

(** The transaction of Acquire: whether it acquired, and the document. *)
Definition reader_acquire (owner : string) (now expires : time) (doc : option reader_doc) :
    bool * option reader_doc :=
  match doc with
  | Some d =>
    if negb (leaseAvailable (rd_owner d) owner (rd_expires d) now) then (false, doc)
    else (true, Some (ReaderDoc owner expires))
  | None => (true, Some (ReaderDoc owner expires))
  end.

(** The transaction of Release. *)
Definition reader_release (owner : string) (doc : option reader_doc) : option reader_doc :=
  match doc with
  | None => None
  | Some d => if negb (String.eqb (rd_owner d) owner) then doc else None
  end.

Definition reader_try (_ : unit) (owner : string) (now expires : time) (doc : option reader_doc) :
    option (option reader_doc) :=
  let '(acquired, doc') := reader_acquire owner now expires doc in
  if acquired then Some doc' else None.

#[export, refine] Instance reader_leasing : Leasing (option reader_doc) unit := {|
  holder d := fmap (λ d, (rd_owner d, rd_expires d)) d;
  try_acquire := reader_try;
  do_release := reader_release;
  admits _ _ := true
|}.
Proof.
  - unfold reader_try, reader_acquire, leaseAvailable, time_after. intros [] o now u [d|] d'; cbn.
    + destruct (String.eqb_spec (rd_owner d) o) as [<-|]; cbn.
      * intros [= <-]. split; [intros o' u' [= <- <-]; by left|done].
      * destruct (Z.ltb_spec now (rd_expires d)); cbn; [done|]. intros [= <-].
        split; [intros o' u' [= <- <-]; by right|done].
    + by intros [= <-].
  - unfold reader_try, reader_acquire, leaseAvailable, time_after. intros [] o now u [d|] _ H; cbn; [|by eexists].
    specialize (H _ _ eq_refl). destruct (Z.ltb_spec now (rd_expires d)); [lia|].
    rewrite orb_true_r. by eexists.
  - unfold reader_release. intros o [d|] o' u'; [|done]. cbn. intros [= <- <-] Hne.
    by destruct (String.eqb_spec (rd_owner d) o).
Defined.

(** The constants of [newClient] and the timeout of [acquire]. *)
Definition renewInterval : duration := 30 * second.
Definition leaseTTL : duration := 90 * second.
Definition retryInitial : duration := second.
Definition retryMax : duration := 5 * minute.
Definition acquireTimeout : duration := 10 * second.

Definition nextBackoff (delay : duration) : duration :=
  if retryMax / 2 <=? delay then retryMax else delay * 2.

(** The next heartbeat is answered this long after the clock reading of the
    last one at the latest: its own answer, the ticker's period, the answer. *)
Definition heartbeat_due : duration := acquireTimeout + renewInterval + acquireTimeout.

(** The readers of one channel: [rs_reading] holds the replicas inside
    [ownedSession] with the clock reading of their last granted [acquire]. *)
Record readers := Readers {
  rs_now : time;
  rs_doc : option reader_doc;
  rs_reading : gmap string time
}.

Inductive reader_step : readers → readers → Prop :=
  (** The heartbeat's timers and contexts run on time. *)
  | reader_tick s now :
      rs_now s <= now → (∀ o seen, rs_reading s !! o = Some seen → now <= seen + heartbeat_due) →
      reader_step s (Readers now (rs_doc s) (rs_reading s))
  (** [run] or the heartbeat learns that it holds the lease. *)
  | reader_grant s o seen d' :
      seen <= rs_now s <= seen + acquireTimeout →
      reader_acquire o seen (seen + leaseTTL) (rs_doc s) = (true, d') →
      reader_step s (Readers (rs_now s) d' (<[o := seen]> (rs_reading s)))
  (** The transaction commits but its answer is lost, or not yet there. *)
  | reader_commit s o seen d' :
      seen <= rs_now s → (∀ last, rs_reading s !! o = Some last → last <= seen) →
      reader_acquire o seen (seen + leaseTTL) (rs_doc s) = (true, d') →
      reader_step s (Readers (rs_now s) d' (rs_reading s))
  (** The session ends: the heartbeat failed, reading ended, or a crash. *)
  | reader_end s o :
      reader_step s (Readers (rs_now s) (rs_doc s) (delete o (rs_reading s)))
  (** The release after the session, which is no longer reading. *)
  | reader_released s o :
      rs_reading s !! o = None →
      reader_step s (Readers (rs_now s) (reader_release o (rs_doc s)) (rs_reading s)).

Inductive readers_reachable : readers → Prop :=
  | readers_init s : rs_reading s = ∅ → readers_reachable s
  | readers_step s s' : readers_reachable s → reader_step s s' → readers_reachable s'.

(** The readers as guarded work. *)
Definition readers_abs (s : readers) : gstate (option reader_doc) :=
  GState (rs_now s) (rs_doc s) ((λ seen, (seen + leaseTTL, seen + heartbeat_due)) <$> rs_reading s).

Lemma reader_keeps_others o d : keeps_others (D:=option reader_doc) (L:=unit) o d (reader_release o d).
Proof. intros o2 u2 H Hne. exact (do_release_own (D:=option reader_doc) (L:=unit) o d o2 u2 H Hne). Qed.

(** Every step of the readers is a step of the guarded system. *)
Lemma reader_simulation s s' : reader_step s s' → gstep (L:=unit) (readers_abs s) (readers_abs s').
Proof.
  destruct 1 as [s now Hle Hend|s o seen d' Hs Hacq|s o seen d' Hs Hlast Hacq|s o|s o Ho]; unfold readers_abs; cbn.
  - apply (gstep_tick (readers_abs s)); [done|]. cbn. intros o u e. rewrite lookup_fmap_Some.
    intros (seen & [= <- <-] & Ho). by apply (Hend o).
  - rewrite fmap_insert. eapply (gstep_acquire (readers_abs s) tt o seen); cbn; try lia.
    + unfold reader_try. by rewrite Hacq.
    + unfold heartbeat_due, acquireTimeout, renewInterval, second in *. lia.
    + unfold heartbeat_due, acquireTimeout, leaseTTL, renewInterval, second. lia.
  - eapply (gstep_ghost (readers_abs s) tt o seen (seen + leaseTTL)); cbn; [lia| |].
    + unfold reader_try. by rewrite Hacq.
    + intros u e. rewrite lookup_fmap_Some. intros (last & [= <- <-] & Ho). specialize (Hlast _ Ho). lia.
  - rewrite fmap_delete. apply (gstep_end (readers_abs s)). by intros o1 u1 H _.
  - pose proof (gstep_end (L:=unit) (readers_abs s) o _ (reader_keeps_others o (rs_doc s))) as H.
    unfold readers_abs in H. cbn in H. rewrite delete_id in H; [exact H|]. by rewrite lookup_fmap, Ho.
Qed.

Lemma readers_guarded s : readers_reachable s → greachable (L:=unit) (readers_abs s).
Proof.
  induction 1 as [s Hi|s s' _ IH Hstep].
  - apply greach_init. cbn. by rewrite Hi, fmap_empty.
  - eapply greach_step; [exact IH|]. by apply reader_simulation.
Qed.

(** C18. At most one replica reads a YouTube channel at a time, for any
    interleaving of acquisitions, renewals, releases, lost answers and crashes:
    a reader's heartbeat notices the loss of its lease at least 40 seconds
    before anybody else may get it. *)
Theorem reader_exclusive s o1 o2 t1 t2 :
  readers_reachable s → rs_reading s !! o1 = Some t1 → rs_reading s !! o2 = Some t2 →
  o1 = o2 ∧ rs_now s + 40 * second <= t1 + leaseTTL.
Proof.
  intros Hr H1 H2. pose proof (readers_guarded s Hr) as Hg. split.
  - eapply (greachable_exclusive (L:=unit) (readers_abs s)); [done|..]; cbn;
      rewrite lookup_fmap_Some; eauto.
  - destruct (greachable_guarded (L:=unit) _ Hg o1 (t1 + leaseTTL) (t1 + heartbeat_due)) as (Hn & _ & _).
    { cbn. rewrite lookup_fmap_Some. eauto. }
    cbn in Hn. unfold heartbeat_due, acquireTimeout, renewInterval, leaseTTL, second in *. lia.
Qed.

(** Reader [a] takes the lease and crashes; [b] follows when it expired. *)
Lemma reader_exclusive_witness :
  ∃ s, readers_reachable s ∧ rs_reading s !! "b" = Some (100 * second) ∧
    ("b" = "b" ∧ rs_now s + 40 * second <= 100 * second + leaseTTL).
Proof.
  assert (R : readers_reachable (Readers 0 None ∅)) by by apply readers_init.
  assert (R1 : readers_reachable (Readers 0 (Some (ReaderDoc "a" leaseTTL)) (<["a" := 0]> ∅))).
  { eapply readers_step; [exact R|]. by apply (reader_grant (Readers 0 None ∅) "a" 0). }
  assert (R2 : readers_reachable (Readers 0 (Some (ReaderDoc "a" leaseTTL)) ∅)).
  { eapply readers_step; [exact R1|]. exact (reader_end (Readers 0 _ (<["a" := 0]> ∅)) "a"). }
  assert (R3 : readers_reachable (Readers (100 * second) (Some (ReaderDoc "a" leaseTTL)) ∅)).
  { eapply readers_step; [exact R2|]. by apply (reader_tick (Readers 0 _ ∅) (100 * second)). }
  eexists. split.
  { eapply readers_step; [exact R3|]. by apply (reader_grant (Readers (100 * second) _ ∅) "b" (100 * second)). }
  split; [reflexivity|].
  eapply (reader_exclusive _ "b" "b" (100 * second) (100 * second)); [|reflexivity..].
  eapply readers_step; [exact R3|]. by apply (reader_grant (Readers (100 * second) _ ∅) "b" (100 * second)).
Defined.

(** ** Scheduled jobs *)

Record job_lease := JobLease { jl_expires : time; jl_completed : string }.

Definition no_lease : job_lease := JobLease zero_time "".

Definition canAcquire (l : job_lease) (slot : string) (now : time) : bool :=
  negb (String.eqb (jl_completed l) slot) && negb (time_after (jl_expires l) now).

(** The transaction of Acquire on jobLeases/<name>; absent reads as zero. *)
Definition job_acquire (slot : string) (now : time) (ttl : duration) (doc : option job_lease) :
    bool * option job_lease :=
  let lease := default no_lease doc in
  if negb (canAcquire lease slot now) then (false, doc)
  else (true, Some (JobLease (now + ttl) (jl_completed lease))).

(** Finish merges its fields into the document. *)
Definition job_finish (slot : string) (success : bool) (doc : option job_lease) : option job_lease :=
  Some (JobLease zero_time (if success then slot else jl_completed (default no_lease doc))).

(** The slot of a time. America/Los_Angeles keeps daylight time from the
    second Sunday of March to the first of November, at 2:00 local time, since
    2007. *)
Definition weekday (n : Z) : Z := (n + 1) mod 7.      (* 0 is Sunday *)
Definition nth_sunday (n year month : Z) : Z :=
  let first := days_from year month 1 in first + (7 - weekday first) mod 7 + 7 * (n - 1).
Definition la_offset (t : time) : duration :=
  let year := year_of ((t - 8 * hour) / day_length) in
  let starts := nth_sunday 2 year 3 * day_length + 10 * hour in
  let ends := nth_sunday 1 year 11 * day_length + 9 * hour in
  if (starts <=? t) && (t <? ends) then - (7 * hour) else - (8 * hour).

Definition Slot (now : time) (daily : bool) : string :=
  if daily then
    let local := now + la_offset now in
    format_date (if (local mod day_length) / hour <? 4 then local - day_length else local)
  else format_rfc3339 (time_truncate now (4 * minute)).

Example slots :
  Slot (time_unix 1709276405 0) false = "2024-03-01T07:00:00Z" ∧
  Slot (time_unix 1709294399 0) true = "2024-02-29" ∧ Slot (time_unix 1709294400 0) true = "2024-03-01" ∧
  (* 04:00 local is 11:00 UTC in summer *)
  Slot (time_unix 1720004399 0) true = "2024-07-02" ∧ Slot (time_unix 1720004400 0) true = "2024-07-03" ∧
  (* the day daylight time begins, 2024-03-10 *)
  Slot (time_unix 1710068399 0) true = "2024-03-09" ∧ Slot (time_unix 1710068400 0) true = "2024-03-10".
Proof. vm_compute. done. Qed.

Inductive jeff : Type → Type :=
  | JCtx : jeff (option error)                       (* ctx.Err() *)
  | JAcquire (name slot : string) (now : time) (ttl : duration) : jeff bool
  | JRun (name : string) : jeff (option error)       (* job.Run(work) *)
  | JWork : jeff (option error)                      (* work.Err() *)
  | JFinish (name slot : string) (success : bool) : jeff unit.

Record job := Job { j_name : string; j_timeout : duration; j_daily : bool }.

Definition job_ttl (j : job) : duration := j_timeout j + minute.

Section Once.
Context (η : env jeff).

Definition Once (j : job) (now : time) : M (world jeff unit) unit :=
  e ← ask η JCtx;
  match e with
  | Some _ => mret tt
  | None =>
    let slot := Slot now (j_daily j) in
    acquired ← ask η (JAcquire (j_name j) slot now (job_ttl j));
    if negb acquired then mret tt
    else
      err ← ask η (JRun (j_name j));
      err ← match err with Some e => mret (Some e) | None => ask η JWork end;
      ask η (JFinish (j_name j) slot (negb (is_some err)))
  end.
End Once.

Definition lease_timeout : duration := 15 * second.
Definition finish_timeout : duration := 10 * second.

(** A run holds the lease from its clock reading for this long at most: the
    acquisition, the work and Finish all end by their contexts. *)
Definition run_window (j : job) : duration := lease_timeout + j_timeout j + finish_timeout.

Record jobs_sys := JobsSys {
  js_now : time;
  js_doc : option job_lease;
  js_runs : gmap string (string * time)      (* the slot and the clock reading *)
}.

Inductive job_step (j : job) : jobs_sys → jobs_sys → Prop :=
  | job_tick s now :
      js_now s <= now →
      (∀ o slot seen, js_runs s !! o = Some (slot, seen) → now <= seen + run_window j) →
      job_step j s (JobsSys now (js_doc s) (js_runs s))
  | job_grant s o seen d' :
      seen <= js_now s <= seen + lease_timeout → js_runs s !! o = None →
      job_acquire (Slot seen (j_daily j)) seen (job_ttl j) (js_doc s) = (true, d') →
      job_step j s (JobsSys (js_now s) d' (<[o := (Slot seen (j_daily j), seen)]> (js_runs s)))
  | job_commit s seen d' :
      seen <= js_now s →
      job_acquire (Slot seen (j_daily j)) seen (job_ttl j) (js_doc s) = (true, d') →
      job_step j s (JobsSys (js_now s) d' (js_runs s))
  | job_finished s o slot seen success :
      js_runs s !! o = Some (slot, seen) →
      job_step j s (JobsSys (js_now s) (job_finish slot success (js_doc s)) (delete o (js_runs s)))
  | job_crash s o :
      job_step j s (JobsSys (js_now s) (js_doc s) (delete o (js_runs s))).

Inductive jobs_reachable (j : job) : jobs_sys → Prop :=
  | jobs_init s : js_runs s = ∅ → jobs_reachable j s
  | jobs_step s s' : jobs_reachable j s → job_step j s s' → jobs_reachable j s'.

(** A run's lease is the document's, and outlasts the run. *)
Definition jobs_ok (j : job) (s : jobs_sys) : Prop :=
  ∀ o slot seen, js_runs s !! o = Some (slot, seen) →
    js_now s <= seen + run_window j ∧ js_runs s = {[o := (slot, seen)]} ∧
    ∃ l, js_doc s = Some l ∧ jl_expires l = seen + job_ttl j.

Lemma run_window_ttl j : run_window j < job_ttl j.
Proof. unfold run_window, job_ttl, lease_timeout, finish_timeout, minute, second. lia. Qed.

Lemma job_acquire_free slot now ttl doc d' l :
  job_acquire slot now ttl doc = (true, d') → doc = Some l → jl_expires l <= now.
Proof.
  unfold job_acquire, canAcquire, time_after. intros H ->. cbn in H.
  destruct (String.eqb _ _); [done|]. destruct (Z.ltb_spec now (jl_expires l)); [done|lia].
Qed.

Lemma job_acquire_sets slot now ttl doc d' :
  job_acquire slot now ttl doc = (true, d') → ∃ l, d' = Some l ∧ jl_expires l = now + ttl.
Proof. unfold job_acquire. destruct (negb _); [done|]. intros [= <-]. eauto. Qed.

Lemma job_step_ok j s s' : 0 <= j_timeout j → jobs_ok j s → job_step j s s' → jobs_ok j s'.
Proof.
  intros Hj Hinv. pose proof (run_window_ttl j) as Hw.
  destruct 1 as [s now Hle Hend|s o' seen' d' Hs Hno Hacq|s seen' d' Hs Hacq|s o' slot' seen' b Ho'|s o'];
    intros o slot seen; cbn [js_now js_doc js_runs].
  - intros Ho. destruct (Hinv _ _ _ Ho) as (_ & ? & ?). split_and!; [by eapply Hend|done..].
  - assert (js_runs s = ∅) as Hempty.
    { apply map_eq. intros o2. rewrite lookup_empty. destruct (js_runs s !! o2) as [[sl se]|] eqn:E; [|done].
      destruct (Hinv _ _ _ E) as (? & _ & l & Hl & He).
      pose proof (job_acquire_free _ _ _ _ _ _ Hacq Hl). lia. }
    rewrite Hempty, insert_empty. intros [<- [= <- <-]]%lookup_singleton_Some.
    split_and!; [|done|by eapply job_acquire_sets].
    unfold run_window, finish_timeout, second. lia.
  - intros Ho. destruct (Hinv _ _ _ Ho) as (? & _ & l & Hl & He).
    pose proof (job_acquire_free _ _ _ _ _ _ Hacq Hl). lia.
  - intros Ho. apply lookup_delete_Some in Ho as [Hne Ho].
    destruct (Hinv _ _ _ Ho) as (_ & Hr & _). rewrite Hr in Ho'.
    apply lookup_singleton_Some in Ho' as [? _]. congruence.
  - intros Ho. apply lookup_delete_Some in Ho as [Hne Ho].
    destruct (Hinv _ _ _ Ho) as (? & Hr & ?). split_and!; [done| |done].
    rewrite Hr. apply delete_id. by rewrite lookup_singleton_ne.
Qed.

Lemma jobs_reachable_ok j s : 0 <= j_timeout j → jobs_reachable j s → jobs_ok j s.
Proof.
  intros Hj. induction 1 as [s Hi|s s' _ IH Hstep]; [|by eapply job_step_ok].
  intros o slot seen. rewrite Hi. by rewrite lookup_empty.
Qed.

(** At most one replica runs a scheduled job at a time, and while it does the
    document's lease is its own and has at least 35 seconds left, which is why
    Finish may clear it without looking at an owner. *)
Theorem job_exclusive j s o1 o2 x1 x2 :
  0 <= j_timeout j → jobs_reachable j s →
  js_runs s !! o1 = Some x1 → js_runs s !! o2 = Some x2 →
  o1 = o2 ∧ ∃ l, js_doc s = Some l ∧ jl_expires l = x1.2 + job_ttl j ∧ js_now s + 35 * second <= jl_expires l.
Proof.
  intros Hj Hr H1 H2. destruct x1 as [slot1 seen1], x2 as [slot2 seen2].
  destruct (jobs_reachable_ok j s Hj Hr _ _ _ H1) as (Hn & Hone & l & Hl & He). split.
  - rewrite Hone in H2. by apply lookup_singleton_Some in H2 as [? _].
  - exists l. split_and!; [done..|]. rewrite He. cbn.
    unfold run_window, job_ttl, lease_timeout, finish_timeout, minute, second in *. lia.
Qed.

(** Four in the morning in Los Angeles, March 1, 2024. *)
Definition boundary : time := time_unix 1709294400 0.
(** A clock read just before, and a commit well after. *)
Definition late_read : time := boundary - second.
Definition late_commit : time := boundary + 12 * second.
Definition daily_job : job := Job "cleanup" (5 * minute) true.

Definition before_boundary : jobs_sys := JobsSys boundary (Some (JobLease zero_time "2024-02-29")) ∅.
(** Replica [a] runs and completes the slot that begins at the boundary. *)
Definition after_first : jobs_sys := JobsSys late_commit (Some (JobLease zero_time "2024-03-01")) ∅.
(** Replica [b] read its clock a second before the boundary. *)
Definition second_run : jobs_sys :=
  JobsSys late_commit
    (Some (JobLease (late_read + job_ttl daily_job) "2024-03-01"))
    {["b" := ("2024-02-29", late_read)]}.

Lemma granted_step j now doc runs o seen slot d' :
  Slot seen (j_daily j) = slot → seen <= now <= seen + lease_timeout → runs !! o = None →
  job_acquire slot seen (job_ttl j) doc = (true, d') →
  job_step j (JobsSys now doc runs) (JobsSys now d' (<[o := (slot, seen)]> runs)).
Proof. intros <- Hs Ho Ha. exact (job_grant j (JobsSys now doc runs) o seen d' Hs Ho Ha). Qed.

Lemma slot_at_boundary : Slot boundary true = "2024-03-01" ∧ Slot late_read true = "2024-02-29".
Proof. vm_compute. done. Qed.

Lemma first_steps : rtc (job_step daily_job) before_boundary after_first.
Proof.
  eapply rtc_l; [apply (granted_step daily_job boundary _ ∅ "a" boundary "2024-03-01");
    [exact (proj1 slot_at_boundary)|unfold late_read, late_commit, lease_timeout, second; lia|reflexivity|vm_compute; reflexivity]|].
  eapply rtc_l.
  { eapply (job_finished daily_job (JobsSys boundary _ _) "a" "2024-03-01" boundary true).
    cbn [js_runs]. by rewrite lookup_insert_eq. }
  cbn [js_now js_doc js_runs]. rewrite delete_insert_eq, delete_empty.
  apply rtc_once, (job_tick daily_job (JobsSys boundary _ ∅) late_commit).
  - cbn. unfold late_commit, second. lia.
  - cbn. intros o slot seen. by rewrite lookup_empty.
Qed.

Lemma second_step : job_step daily_job after_first second_run.
Proof.
  apply (granted_step daily_job late_commit _ ∅ "b" late_read "2024-02-29");
    [exact (proj2 slot_at_boundary)|unfold late_read, late_commit, lease_timeout, second; lia|reflexivity|vm_compute; reflexivity].
Qed.

Lemma second_run_reachable : jobs_reachable daily_job second_run.
Proof.
  assert (∀ s s', rtc (job_step daily_job) s s' → jobs_reachable daily_job s → jobs_reachable daily_job s') as Hrtc.
  { induction 1 as [|s1 s2 s3 H _ IH]; [done|]. intros Hr. apply IH. by eapply jobs_step. }
  eapply jobs_step; [|exact second_step]. by apply (Hrtc _ _ first_steps), jobs_init.
Qed.
Lemma second_run_b : js_runs second_run !! "b" = Some ("2024-02-29", late_read).
Proof. apply lookup_singleton_eq. Qed.
Lemma daily_job_timeout : 0 <= j_timeout daily_job.
Proof. unfold daily_job, j_timeout, minute, second. lia. Qed.

Lemma job_exclusive_witness :
  jobs_reachable daily_job second_run ∧ js_runs second_run !! "b" = Some ("2024-02-29", late_read) ∧
  ("b" = "b" ∧ ∃ l, js_doc second_run = Some l ∧
     jl_expires l = ("2024-02-29", late_read).2 + job_ttl daily_job ∧
     js_now second_run + 35 * second <= jl_expires l).
Proof.
  split; [exact second_run_reachable|]. split; [exact second_run_b|].
  exact (job_exclusive daily_job second_run "b" "b" _ _ daily_job_timeout second_run_reachable
           second_run_b second_run_b).
Defined.

(** A slot may run again after it was completed: the slot is computed from a
    clock read before the transaction, which may be contended for 15 seconds,
    and the document remembers only the latest completion. A replica that read
    its clock just before a boundary takes the previous slot, completed the day
    before, once another replica has completed the new slot; its completion then
    reopens the new slot too. *)
Theorem job_slot_repeats :
  rtc (job_step daily_job) before_boundary second_run ∧
  (∃ l, js_doc before_boundary = Some l ∧ jl_completed l = "2024-02-29") ∧
  js_runs second_run !! "b" = Some ("2024-02-29", late_read) ∧
  canAcquire (default no_lease (job_finish "2024-02-29" true (js_doc second_run))) "2024-03-01"
    (boundary + minute) = true.
Proof.
  split_and!; [|by eexists|apply lookup_singleton_eq|vm_compute; reflexivity].
  eapply rtc_r; [exact first_steps|exact second_step].
Qed.

(** ** IRC authentication slots *)

(** The document ircAuthLimits/<login>, as its commit time. *)
Definition gate_spacing : duration := second.

(** The transaction: how long to wait, or a claim, which writes. *)
Definition gate_reserve (updated : option time) (now : time) : option duration :=
  match updated with
  | Some u => let next := u + gate_spacing in
              if time_after next now then Some (time_sub next now) else None
  | None => None
  end.

Inductive geff : Type → Type :=
  | GCtx : geff (option error)                   (* ctx.Err() *)
  | Reserve (login : string) : geff (result duration)
  | Sleep (d : duration) : geff (option error)   (* the timer, or ctx.Done() *)
  | LockLogin (login : string) : geff (option error)
  | UnlockLogin (login : string) : geff unit.

Section Wait.
Context (η : env geff).

(** The loop of [Wait]; [None] when the fuel runs out. *)
Fixpoint gate_loop (fuel : nat) (login : string) : M (world geff unit) (option (option error)) :=
  match fuel with
  | O => mret None
  | S fuel =>
    e ← ask η GCtx;
    match e with
    | Some e => mret (Some (Some e))
    | None =>
      r ← ask η (Reserve login);
      match r with
      | inl e => mret (Some (Some e))
      | inr wait =>
        if wait <=? 0 then mret (Some None)
        else
          e ← ask η (Sleep wait);
          match e with
          | Some e => mret (Some (Some e))
          | None => gate_loop fuel login
          end
      end
    end
  end.

Definition gate_wait (fuel : nat) (login : string) : M (world geff unit) (option (option error)) :=
  e ← ask η (LockLogin login);
  match e with
  | Some e => mret (Some (Some e))
  | None => r ← gate_loop fuel login; ask η (UnlockLogin login);; mret r
  end.
End Wait.

(** All replicas on one login: the commit times of the claims, the latest
    first. A transaction commits no earlier than the clock reading it used. *)
Record gate_sys := GateSys { gs_now : time; gs_claims : list time }.

Inductive gate_step : gate_sys → gate_sys → Prop :=
  | gate_tick s now : gs_now s <= now → gate_step s (GateSys now (gs_claims s))
  | gate_claim s seen :
      seen <= gs_now s → gate_reserve (head (gs_claims s)) seen = None →
      gate_step s (GateSys (gs_now s) (gs_now s :: gs_claims s)).

Inductive gate_reachable : gate_sys → Prop :=
  | gate_init s : gs_claims s = [] → gate_reachable s
  | gate_next s s' : gate_reachable s → gate_step s s' → gate_reachable s'.

(** Any claim is a second or more after all before it. *)
Fixpoint spaced_claims (l : list time) : Prop :=
  match l with
  | [] => True
  | a :: l => Forall (λ b, b + gate_spacing <= a) l ∧ spaced_claims l
  end.

Lemma gate_reserve_claim u seen : gate_reserve (Some u) seen = None → u + gate_spacing <= seen.
Proof. unfold gate_reserve, time_after. destruct (Z.ltb_spec seen (u + gate_spacing)); [done|lia]. Qed.

Lemma gate_spaced s :
  gate_reachable s → spaced_claims (gs_claims s) ∧ Forall (λ c, c <= gs_now s) (gs_claims s).
Proof.
  induction 1 as [s Hi|s s' _ [Hsp Hle] Hstep]; [rewrite Hi; by split; [|constructor]|].
  destruct Hstep as [s now Hnow|s seen Hseen Hres]; cbn [gs_now gs_claims].
  - split; [done|]. eapply Forall_impl; [exact Hle|]. cbn. lia.
  - split; [|constructor; [lia|done]]. split; [|done].
    destruct (gs_claims s) as [|u l]; [constructor|]. cbn in Hres. apply gate_reserve_claim in Hres.
    destruct Hsp as [Hu _]. constructor; [lia|]. eapply Forall_impl; [exact Hu|]. cbn.
    unfold gate_spacing, second in *. lia.
Qed.

Definition in_window (lo len : Z) (c : time) : bool := (lo <=? c) && (c <? lo + len).

Lemma spaced_filter f l : spaced_claims l → spaced_claims (List.filter f l).
Proof.
  induction l as [|a l IH]; cbn; [done|]. intros [Ha Hl]. specialize (IH Hl).
  destruct (f a); [|done]. split; [|done]. rewrite !Forall_forall in *. intros b Hb.
  apply Ha. apply list_elem_of_In in Hb. apply filter_In in Hb as [Hb _]. by apply list_elem_of_In.
Qed.

Lemma spaced_length l lo hi :
  spaced_claims l → Forall (λ c, lo <= c < hi) l → l ≠ [] →
  (Z.of_nat (length l) - 1) * gate_spacing < hi - lo.
Proof.
  revert hi. induction l as [|a l IH]; intros hi Hs Hf Hne; [done|].
  destruct Hs as [Ha Hl]. apply Forall_cons in Hf as [Hla Hf]. cbn [length].
  destruct l as [|b l]; [cbn; lia|].
  assert ((Z.of_nat (length (b :: l)) - 1) * gate_spacing < a - gate_spacing + 1 - lo) as H.
  { apply IH; [done| |done]. rewrite Forall_forall in *. intros c Hc.
    specialize (Ha c Hc). specialize (Hf c Hc). cbn in *. lia. }
  rewrite Nat2Z.inj_succ. unfold gate_spacing, second in *. lia.
Qed.

(** Whatever the number of replicas and waiters, the committed claims of one
    login are a second or more apart, so that any window of [k] seconds holds at
    most [k] of them: ten authentications in ten seconds, half of what Twitch
    allows an account. *)
Theorem gate_rate s lo k :
  gate_reachable s → 0 <= k →
  spaced_claims (gs_claims s) ∧
  Z.of_nat (length (List.filter (in_window lo (k * second)) (gs_claims s))) <= k.
Proof.
  intros [Hs _]%gate_spaced Hk. split; [done|].
  set (l := List.filter _ _). destruct (decide (l = [])) as [->|Hne]; [cbn; lia|].
  assert (Forall (λ c, lo <= c < lo + k * second) l) as Hf.
  { rewrite Forall_forall. intros c Hc. apply list_elem_of_In, filter_In in Hc as [_ Hc].
    unfold in_window in Hc. bools. lia. }
  pose proof (spaced_length l lo _ (spaced_filter _ _ Hs) Hf Hne).
  unfold gate_spacing, second in *. lia.
Qed.

(** Two claims of two replicas. *)
Lemma gate_rate_witness :
  ∃ s, gate_reachable s ∧ gs_claims s = [2 * second; second] ∧
    (spaced_claims (gs_claims s) ∧
     Z.of_nat (length (List.filter (in_window 0 (10 * second)) (gs_claims s))) <= 10).
Proof.
  assert (R : gate_reachable (GateSys (2 * second) [2 * second; second])).
  { eapply gate_next; [|apply (gate_claim (GateSys (2 * second) [second]) (2 * second)); [done|reflexivity]].
    eapply gate_next; [|apply (gate_tick (GateSys second [second])); done].
    eapply gate_next; [|apply (gate_claim (GateSys second []) second); [done|reflexivity]].
    by apply gate_init. }
  eexists. split; [exact R|]. split; [reflexivity|].
  apply (gate_rate _ 0 10 R). lia.
Defined.

(** What a wait returns: no error only after a reservation without a wait. *)
Definition reserved_now (login : string) (t : trace geff) : Prop :=
  ∃ w, w <= 0 ∧ Ev (Reserve login) (inr w) ∈ t.

Lemma gate_loop_reserved η login fuel :
  runs (S:=unit) (λ _ _, True) (λ _, True) (gate_loop η fuel login)
    (λ r t, r = Some None → reserved_now login t).
Proof.
  induction fuel as [|fuel IH]; cbn [gate_loop]; [by apply runs_ret|].
  apply runs_bind with (λ _ _, True); [by apply runs_ask|]. intros [e|]; [by apply runs_ret|].
  apply runs_bind with (λ r t, Ev (Reserve login) r ∈ t).
  { apply runs_ask. intros t _. split; [done|]. apply list_elem_of_here. }
  intros [e|w]; [by apply runs_ret|]. destruct (Z.leb_spec w 0).
  - apply runs_ret. intros t Ht _. by exists w.
  - apply runs_bind with (λ _ _, True); [by apply runs_ask|]. intros [e|]; [by apply runs_ret|done].
Qed.
