(* ===== verification/Queue.v ===== *)
(** * The Twitch EventSub queue

    Models agent/internal/subscriptions/queue.go: the queue's state, what
    arrives at it (Enqueue, EnqueueRemove, Deauthorized, EnsureApp), and its
    single worker (step, next, process, checkCost, Run). The jobs themselves
    are in TwitchSubs.v; here they are what they returned. *)

From stdpp Require Import base gmap strings list sorting.
From S2P Require Import Prelude GoErr.
From S2P Require Lease.

Definition twitchQueueCapacity : nat := 10000.
Definition twitchBudgetReserve : Z := 100.
Definition twitchCostCheckInterval : duration := 5 * minute.
Definition twitchBusyDelay : duration := 5 * second.
Definition twitchMaxAttempts : Z := 6.
Definition twitchIdle : duration := hour.
Definition twitchAppInterval : duration := hour.
Definition twitchRemovedTTL : duration := 5 * minute.
Definition twitchAppKey : string := "app-authorization".

Inductive twitchJob := twitchReconcileJob | twitchRemoveJob | twitchAppJob.

#[export] Instance twitchJob_eq_dec : EqDecision twitchJob.
Proof. solve_decision. Defined.

Record twitchItem := TwitchItem {
  channel : string;
  job : twitchJob;
  enqueued : time;
  ready : time;
  attempts : Z;
  costHeld : bool;
  running : bool;
  changed : bool;
  reconcile : bool
}.

(** The queue's mutable state. [wake] is the one-slot channel; [remaining] and
    [reset] are the worker's view of the Helix bucket. *)
Record queue := Queue {
  capacity : nat;
  wake : bool;
  remaining : Z;
  reset : time;
  pending : gmap string twitchItem;
  removed : gmap string time;
  costCheck : time;
  cappedUntil : time
}.

Definition NewTwitchQueue : queue :=
  Queue twitchQueueCapacity false 0 zero_time ∅ ∅ zero_time zero_time.

(** Field updates. *)
Definition set_pending (q : queue) (p : gmap string twitchItem) : queue :=
  Queue (capacity q) (wake q) (remaining q) (reset q) p (removed q) (costCheck q) (cappedUntil q).
Definition set_removed (q : queue) (r : gmap string time) : queue :=
  Queue (capacity q) (wake q) (remaining q) (reset q) (pending q) r (costCheck q) (cappedUntil q).
Definition set_cost (q : queue) (check capped : time) : queue :=
  Queue (capacity q) (wake q) (remaining q) (reset q) (pending q) (removed q) check capped.
Definition set_bucket (q : queue) (n : Z) (t : time) : queue :=
  Queue (capacity q) (wake q) n t (pending q) (removed q) (costCheck q) (cappedUntil q).
Definition signal (q : queue) : queue :=
  Queue (capacity q) true (remaining q) (reset q) (pending q) (removed q) (costCheck q) (cappedUntil q).

Definition with_job (it : twitchItem) (j : twitchJob) : twitchItem :=
  TwitchItem (channel it) j (enqueued it) (ready it) (attempts it) (costHeld it) (running it)
    (changed it) (reconcile it).
Definition with_flags (it : twitchItem) (run chg : bool) : twitchItem :=
  TwitchItem (channel it) (job it) (enqueued it) (ready it) (attempts it) (costHeld it) run chg
    (reconcile it).
Definition with_ready (it : twitchItem) (t : time) : twitchItem :=
  TwitchItem (channel it) (job it) (enqueued it) t (attempts it) (costHeld it) (running it)
    (changed it) (reconcile it).
Definition with_held (it : twitchItem) (h : bool) : twitchItem :=
  TwitchItem (channel it) (job it) (enqueued it) (ready it) (attempts it) h (running it)
    (changed it) (reconcile it).
Definition with_attempts (it : twitchItem) (n : Z) : twitchItem :=
  TwitchItem (channel it) (job it) (enqueued it) (ready it) n (costHeld it) (running it)
    (changed it) (reconcile it).
Definition with_reconcile (it : twitchItem) : twitchItem :=
  TwitchItem (channel it) (job it) (enqueued it) (ready it) (attempts it) (costHeld it)
    (running it) (changed it) true.
(** [item.attempts, item.costHeld, item.ready = 0, false, now]. *)
Definition fresh_retry (it : twitchItem) (now : time) : twitchItem :=
  TwitchItem (channel it) (job it) (enqueued it) now 0 false (running it) (changed it)
    (reconcile it).

(** ** Arrivals *)

Definition enqueue (ch : string) (j : twitchJob) (now : time) (q : queue) : queue :=
  match pending q !! ch with
  | Some item =>
    let item := if decide (j = twitchReconcileJob) then with_reconcile item else item in
    if decide (job item = j) then
      let item := if bool_decide (j = twitchRemoveJob) && running item
                  then with_flags item (running item) true else item in
      set_pending q (<[ch := item]> (pending q))
    else
      let item := with_flags (with_job item j) (running item) (running item) in
      let item := if running item then item else fresh_retry item now in
      signal (set_pending q (<[ch := item]> (pending q)))
  | None =>
    if bool_decide (j = twitchReconcileJob) && time_before now (cappedUntil q) then q
    else if (capacity q <=? size (pending q))%nat then q
    else signal (set_pending q (<[ch := TwitchItem ch j now now 0 false false false
                                         (bool_decide (j = twitchReconcileJob))]> (pending q)))
  end.

Definition Enqueue (ch : string) : time → queue → queue := enqueue ch twitchReconcileJob.
Definition EnqueueRemove (ch : string) : time → queue → queue := enqueue ch twitchRemoveJob.
Definition EnsureApp : time → queue → queue := enqueue twitchAppKey twitchAppJob.

(** [checked] is the clock read that tests the window, [now] the enqueue's. *)
Definition Deauthorized (ch : string) (revocation : bool) (checked now : time) (q : queue) : queue :=
  if revocation &&
     match removed q !! ch with
     | Some at_ => time_sub checked at_ <? twitchRemovedTTL
     | None => false
     end
  then q else EnqueueRemove ch now q.

(** ** The worker *)

Definition observe (h : header) (q : queue) : queue :=
  match parse_int (header_get h "Ratelimit-Remaining") with
  | None => q
  | Some n =>
    match parse_int (header_get h "Ratelimit-Reset") with
    | None => q
    | Some r => set_bucket q n (time_unix r 0)
    end
  end.

Definition budgetWait (q : queue) (now : time) : duration :=
  if (remaining q <=? twitchBudgetReserve) && time_after (reset q) now
  then time_sub (reset q) now else 0.

(** The pending items, in the order of one iteration over the map. *)
Definition items (q : queue) : list twitchItem := (map_to_list (pending q)).*2.

Definition costCheckDue (q : queue) (now : time) : bool :=
  existsb costHeld (items q) && negb (time_before now (costCheck q)).

(** [item.enqueued.Before(found.enqueued) || ...]: the order of the scan. *)
Definition older (a b : twitchItem) : bool :=
  time_before (enqueued a) (enqueued b) ||
  (time_equal (enqueued a) (enqueued b) && String.ltb (channel a) (channel b)).

Record scan := Scan { found : option twitchItem; delay : duration }.

(** One iteration of the loop of [next]. *)
Definition scan_item (now check : time) (s : scan) (it : twitchItem) : scan :=
  if running it then s
  else if costHeld it then
    let wait := time_sub check now in
    if wait <? delay s then Scan (found s) wait else s
  else if time_after (ready it) now then
    let wait := time_sub (ready it) now in
    if wait <? delay s then Scan (found s) wait else s
  else match found s with
       | None => Scan (Some it) (delay s)
       | Some f => if older it f then Scan (Some it) (delay s) else s
       end.

Definition scan_items (now check : time) (l : list twitchItem) : scan :=
  foldl (scan_item now check) (Scan None twitchIdle) l.

(** [next]: the picked channel and job, or how long until one may be ready. *)
Definition next (now : time) (q : queue) : (option (string * twitchJob) * duration) * queue :=
  let s := scan_items now (costCheck q) (items q) in
  match found s with
  | None => ((None, delay s), q)
  | Some it =>
    ((Some (channel it, job it), delay s),
     set_pending q (<[channel it := with_flags it true false]> (pending q)))
  end.

(** [stats]: queue depth and the age of the oldest pending item. *)
Definition stats (q : queue) (now : time) : nat * duration :=
  (size (pending q),
   foldl (λ oldest it, let age := time_sub now (enqueued it) in
                       if oldest <? age then age else oldest) 0 (items q)).

(** The part of [checkCost] after the request: [Some (total, max)] is Twitch's
    answer, [None] that the check failed. *)
Definition checkCost (now : time) (answer : option (Z * Z)) (q : queue) : queue :=
  let q := set_cost q (now + twitchCostCheckInterval) (cappedUntil q) in
  match answer with
  | None => q
  | Some (total, max_) =>
    let headroom := (0 <? max_) && (total <? max_) in
    let q := set_cost q (costCheck q)
               (if headroom then zero_time else now + twitchCostCheckInterval) in
    if headroom then
      set_pending q ((λ it, if costHeld it then with_ready (with_held it false) now else it)
                     <$> pending q)
    else q
  end.

Section RetryAt.
(** [http.ParseTime]. *)
Variable http_date : string → option time.

Definition retryAt (h : header) (now : time) : time :=
  let ra := header_get h "Retry-After" in
  let at1 := match parse_int ra with
             | Some s => if 0 <? s then now + wrap64 (s * second) else zero_time
             | None => zero_time
             end in
  let at2 := match http_date ra with
             | Some d => if time_after d at1 then d else at1
             | None => at1
             end in
  match parse_int (header_get h "Ratelimit-Reset") with
  | Some r => if time_after (time_unix r 0) at2 then time_unix r 0 else at2
  | None => at2
  end.

Definition after (now at_ : time) (fallback : duration) : time :=
  if time_after at_ now then at_ else now + fallback.

Record twitchReconcile := TwitchReconcile {
  created : Z;
  skipped : list string;
  held : list string
}.

(** What one run of a job returned. *)
Record run := Run {
  r_err : option error;
  r_result : twitchReconcile;
  r_deleted : Z;
  r_reauthorized : bool
}.

Definition drop (q : queue) (ch : string) : queue := set_pending q (delete ch (pending q)).
Definition put (q : queue) (it : twitchItem) : queue :=
  set_pending q (<[channel it := it]> (pending q)).

(** [delay := 30 * time.Second << (item.attempts - 1)], at least 90 s after an
    uncertain mutation. *)
Definition backoff (n : Z) (e : error) : duration :=
  let d := wrap64 (Z.shiftl (30 * second) (n - 1)) in
  if is_uncertain e && (d <? 90 * second) then 90 * second else d.

(** The switch of [process] for an unchanged item whose job returned [e]. *)
Definition settle_error (now : time) (it : twitchItem) (e : error) (q : queue) : queue :=
  if is_busy e then put q (with_ready it (now + twitchBusyDelay))
  else if is_budget e then put q (with_ready it (after now (reset q) minute))
  else match as_retry e with
  | Some (_, h) =>
    if is_status e 429 then put q (with_ready it (after now (retryAt h now) minute))
    else if is_some (as_callable e) then drop q (channel it)
    else
      let it := with_attempts it (attempts it + 1) in
      if twitchMaxAttempts <=? attempts it then drop q (channel it)
      else
        let rd := now + backoff (attempts it) e in
        let at_ := retryAt h now in
        put q (with_ready it (if time_after at_ rd then at_ else rd))
  | None =>
    if is_some (as_callable e) then drop q (channel it)
    else
      let it := with_attempts it (attempts it + 1) in
      if twitchMaxAttempts <=? attempts it then drop q (channel it)
      else put q (with_ready it (now + backoff (attempts it) e))
  end.

(** The same for a job without error. *)
Definition settle_ok (now : time) (j : twitchJob) (it : twitchItem) (r : run) (q : queue) : queue :=
  if negb (bool_decide (held (r_result r) = [])) then
    set_cost (put q (with_held it true))
      (if time_before (costCheck q) now then now + twitchCostCheckInterval else costCheck q)
      (now + twitchCostCheckInterval)
  else if bool_decide (j = twitchRemoveJob) && r_reauthorized r then
    if reconcile it then put q (fresh_retry (with_job it twitchReconcileJob) now)
    else drop q (channel it)
  else
    let q := drop q (channel it) in
    if decide (j = twitchRemoveJob) then
      set_removed q (<[channel it := now]>
        (filter (λ p, time_sub now p.2 < twitchRemovedTTL) (removed q)))
    else q.

(** [process] from the point its job [j] on [ch] returned: the worker holds the
    only running item, which stays in the map until here. *)
Definition finish (now : time) (ch : string) (j : twitchJob) (r : run) (q : queue) : queue :=
  match pending q !! ch with
  | None => q
  | Some it =>
    let it := with_flags it false (changed it) in
    let q := if 0 <? r_deleted r then set_cost q now zero_time else q in
    if changed it then put q (fresh_retry (with_flags it false false) now)
    else match r_err r with
    | None => settle_ok now j it r q
    | Some e => settle_error now it e q
    end
  end.

(** [process]: a failed app token is the job's error; a context that ended
    leaves the item as it is. *)
Definition process (ctx_err : option error) (token : option error) (locked : run)
    (now : time) (ch : string) (j : twitchJob) (q : queue) : queue :=
  match ctx_err with
  | Some _ => q
  | None =>
    finish now ch j
      match token with
      | Some e => Run (Some e) (TwitchReconcile 0 [] []) 0 false
      | None => locked
      end q
  end.
End RetryAt.

(** The job run under the broadcaster's lease: a removal asks first whether
    the broadcaster authorized the app again. *)
Definition job_work (j : twitchJob) (reauthorized : result bool)
    (remove : Z * option error) (ensure_app reconcile_ : twitchReconcile * option error) : run :=
  let none := TwitchReconcile 0 [] [] in
  match j with
  | twitchRemoveJob =>
    match reauthorized with
    | inl e => Run (Some e) none 0 false
    | inr true => Run None none 0 true
    | inr false => Run remove.2 none remove.1 false
    end
  | twitchAppJob => Run ensure_app.2 ensure_app.1 0 false
  | twitchReconcileJob => Run reconcile_.2 reconcile_.1 0 false
  end.

(** The same through [q.lock], which is TryWith: work whose lease is busy does
    not run, and the lease's own error replaces a missing one of the work. *)
Definition locked_work (o : Lease.outcome) (work : run) : run :=
  if Lease.o_worked o then
    Run (Lease.o_err o) (r_result work) (r_deleted work) (r_reauthorized work)
  else Run (Lease.o_err o) (TwitchReconcile 0 [] []) 0 false.

(** ** One step of the worker, and its loop *)

Record step_env := StepEnv {
  se_now : time;                       (* the step's first clock read *)
  se_cost : option (Z * Z);            (* the cost check's answer, if made *)
  se_now2 : time;                      (* the clock after the cost check *)
  se_arrivals : list (string * twitchJob * time); (* enqueued while the job ran *)
  se_ctx : option error;
  se_token : option error;
  se_run : string → twitchJob → run;   (* what the leased job returned *)
  se_done : time                       (* the clock after the job *)
}.

Definition arrive (l : list (string * twitchJob * time)) (q : queue) : queue :=
  foldl (λ q '(ch, j, t), enqueue ch j t q) q l.

Definition step (http_date : string → option time) (e : step_env) (q : queue) : duration * queue :=
  let d := budgetWait q (se_now e) in
  if 0 <? d then (d, q)
  else
    let due := costCheckDue q (se_now e) in
    let q := if due then checkCost (se_now e) (se_cost e) q else q in
    let now := if due then se_now2 e else se_now e in
    let '((pick, d), q) := next now q in
    match pick with
    | None => (d, q)
    | Some (ch, j) =>
      (0, process http_date (se_ctx e) (se_token e) (se_run e ch j) (se_done e) ch j
            (arrive (se_arrivals e) q))
    end.

(** One iteration of [Run]: the next app check, how long to wait, the queue.
    [t0] and [t1] are its own clock reads. *)
Definition Run_iter (http_date : string → option time) (t0 t1 : time) (e : step_env)
    (appAt : time) (q : queue) : time * duration * queue :=
  let due := negb (time_before t0 appAt) in
  let q := if due then EnsureApp t0 q else q in
  let appAt := if due then t0 + twitchAppInterval else appAt in
  let '(d, q) := step http_date e q in
  let wait := time_sub appAt t1 in
  (appAt, (if wait <? d then wait else d), q).

(** ** Arrivals and worker as one system

    The worker runs at most one job; arrivals come at any point. *)

Definition worker := option (string * twitchJob).

Inductive qstep (http_date : string → option time) : queue * worker → queue * worker → Prop :=
  | q_arrive q w ch j now :
      qstep http_date (q, w) (enqueue ch j now q, w)
  | q_deauthorized q w ch rev t now :
      qstep http_date (q, w) (Deauthorized ch rev t now q, w)
  | q_observe q w h :
      qstep http_date (q, w) (observe h q, w)
  | q_cost q now ans :
      qstep http_date (q, None) (checkCost now ans q, None)
  | q_next q now p d q' :
      next now q = ((p, d), q') →
      qstep http_date (q, None) (q', p)
  | q_finish q ch j now r :
      qstep http_date (q, Some (ch, j)) (finish http_date now ch j r q, None).

Definition qinit (s : queue * worker) : Prop := pending s.1 = ∅ ∧ s.2 = None.

Inductive qreachable (http_date : string → option time) : queue * worker → Prop :=
  | qreach_init s : qinit s → qreachable http_date s
  | qreach_step s s' : qreachable http_date s → qstep http_date s s' → qreachable http_date s'.

(** What holds of an item stored under [k] while the worker is at [w]. *)
Definition item_ok (w : worker) (k : string) (it : twitchItem) : Prop :=
  channel it = k ∧ 0 <= attempts it < twitchMaxAttempts ∧
  (job it = twitchReconcileJob → reconcile it = true) ∧
  match w with
  | Some (ch, j) => if decide (ch = k) then running it = true ∧ (job it = j ∨ changed it = true)
                    else running it = false
  | None => running it = false
  end.

Definition queue_ok (s : queue * worker) : Prop :=
  (∀ k it, pending s.1 !! k = Some it → item_ok s.2 k it) ∧
  (size (pending s.1) ≤ capacity s.1)%nat ∧
  (∀ ch j, s.2 = Some (ch, j) → is_Some (pending s.1 !! ch)).

(** ** Lemmas on items *)

Lemma size_insert_existing (m : gmap string twitchItem) k it it' :
  m !! k = Some it → size (<[k := it']> m) = size m.
Proof. intros H. apply map_size_insert_Some. by eexists. Qed.

Ltac item_tac := unfold item_ok; cbn; split_and!; try done; try lia.

Lemma item_ok_reconcile w k it : item_ok w k it → item_ok w k (with_reconcile it).
Proof. intros (Hc & Ha & Hr & Hw). item_tac. Qed.

Lemma item_ok_fresh w k it now : item_ok w k it → item_ok w k (fresh_retry it now).
Proof. intros (Hc & Ha & Hr & Hw). item_tac. Qed.

Lemma item_ok_changed w k it :
  item_ok w k it → running it = true → item_ok w k (with_flags it (running it) true).
Proof.
  intros (Hc & Ha & Hr & Hw) Hrun. item_tac.
  destruct w as [[ch j]|]; [|done]. case_decide; [|done]. cbn. auto.
Qed.

Lemma item_ok_switch w k it j :
  item_ok w k it → (j = twitchReconcileJob → reconcile it = true) →
  item_ok w k (with_flags (with_job it j) (running it) (running it)).
Proof.
  intros (Hc & Ha & Hr & Hw) Hj. item_tac.
  destruct w as [[ch j']|]; [|done]. case_decide; [|done]. cbn. destruct Hw as [Hw _]. auto.
Qed.

Lemma store_ok w ch it it' q :
  queue_ok (q, w) → pending q !! ch = Some it → item_ok w ch it' →
  queue_ok (set_pending q (<[ch := it']> (pending q)), w).
Proof.
  intros (Hit & Hsz & Hw) E Hok. split_and!; cbn in *.
  - intros k x. rewrite lookup_insert. case_decide; [by intros [= <-]; subst|apply Hit].
  - by rewrite (size_insert_existing _ _ it).
  - intros ch' j' ->. rewrite lookup_insert. case_decide; [by eexists|by eapply Hw].
Qed.

Lemma signal_ok q w : queue_ok (signal q, w) ↔ queue_ok (q, w).
Proof. done. Qed.

Lemma enqueue_new_ok w ch j now q :
  queue_ok (q, w) → pending q !! ch = None → (size (pending q) < capacity q)%nat →
  queue_ok (set_pending q (<[ch := TwitchItem ch j now now 0 false false false
              (bool_decide (j = twitchReconcileJob))]> (pending q)), w).
Proof.
  intros (Hit & Hsz & Hw) E Hlt. split_and!; cbn in *.
  - intros k x. rewrite lookup_insert. case_decide; [|apply Hit]. intros [= <-]. subst k.
    item_tac.
    + intros ->. by rewrite bool_decide_true.
    + destruct w as [[ch' j']|]; [|done]. case_decide; [|done]. subst.
      destruct (Hw _ _ eq_refl). congruence.
  - rewrite map_size_insert_None by done. lia.
  - intros ch' j' ->. rewrite lookup_insert. case_decide; [by eexists|by eapply Hw].
Qed.

Lemma enqueue_ok w ch j now q :
  queue_ok (q, w) → queue_ok (enqueue ch j now q, w).
Proof.
  intros Hq. unfold enqueue. destruct (pending q !! ch) as [it|] eqn:E.
  - set (it1 := if decide (j = twitchReconcileJob) then with_reconcile it else it).
    assert (Hok : item_ok w ch it1).
    { pose proof (proj1 Hq _ _ E). unfold it1. case_decide; [by apply item_ok_reconcile|done]. }
    case_decide.
    + destruct (bool_decide _ && running it1) eqn:Eb; [|by eapply store_ok].
      apply andb_true_iff in Eb as [_ Eb]. eapply store_ok; [done..|]. by apply item_ok_changed.
    + apply signal_ok. eapply store_ok; [done..|].
      assert (Hs : item_ok w ch (with_flags (with_job it1 j) (running it1) (running it1))).
      { apply item_ok_switch; [done|]. intros ->. unfold it1. by rewrite decide_True. }
      destruct (running _); [done|by apply item_ok_fresh].
  - case_match; [done|]. case_match; [done|]. bools. apply signal_ok. by apply enqueue_new_ok.
Qed.

Lemma set_cost_ok q w c t : queue_ok (set_cost q c t, w) ↔ queue_ok (q, w).
Proof. done. Qed.
Lemma set_removed_ok q w r : queue_ok (set_removed q r, w) ↔ queue_ok (q, w).
Proof. done. Qed.

(** The worker's job ended: its item is dropped or stored idle. *)
Lemma drop_ok q ch j : queue_ok (q, Some (ch, j)) → queue_ok (drop q ch, None).
Proof.
  intros (Hit & Hsz & Hw). split_and!; cbn in *; [|etrans; [|exact Hsz]|done].
  2: apply map_subseteq_size, delete_subseteq.
  intros k it [Hne Hk]%lookup_delete_Some.
  destruct (Hit _ _ Hk) as (? & ? & ? & Hr). rewrite decide_False in Hr by done. item_tac.
Qed.

Lemma put_ok q ch j it :
  queue_ok (q, Some (ch, j)) → item_ok None ch it → queue_ok (put q it, None).
Proof.
  intros (Hit & Hsz & Hw) Hok. pose proof Hok as (Hc & _). cbn in *. unfold put.
  destruct (Hw _ _ eq_refl) as [it0 H0].
  split_and!; cbn; [|by rewrite Hc, (size_insert_existing _ _ it0)|done].
  intros k x. rewrite Hc, lookup_insert. case_decide; [by intros [= <-]; subst|].
  intros Hk. destruct (Hit _ _ Hk) as (? & ? & ? & Hr).
  rewrite decide_False in Hr by done. item_tac.
Qed.

(** What the worker holds when a job ends. *)
Lemma running_item q ch j it :
  queue_ok (q, Some (ch, j)) → pending q !! ch = Some it →
  channel it = ch ∧ item_ok None ch (with_flags it false false).
Proof.
  intros (Hit & _ & _) H. destruct (Hit _ _ H) as (Hc & Ha & Hr & _).
  split; [done|]. item_tac.
Qed.

(** The stored item of [settle_error] differs only in its retry state. *)
Inductive retried (it : twitchItem) : twitchItem → Prop :=
  | retried_ready t : retried it (with_ready it t)
  | retried_attempt t :
      attempts it + 1 < twitchMaxAttempts →
      retried it (with_ready (with_attempts it (attempts it + 1)) t).

Lemma settle_error_cases hd now it e q :
  settle_error hd now it e q = drop q (channel it) ∨
  ∃ it', retried it it' ∧ settle_error hd now it e q = put q it'.
Proof.
  unfold settle_error.
  repeat case_match; try (by left); right;
    (eexists; split; [|reflexivity]);
    (apply retried_ready || (apply retried_attempt; bools; unfold with_attempts in *; cbn in *; lia)).
Qed.

Lemma retried_ok it it' ch :
  item_ok None ch it → retried it it' → item_ok None ch it'.
Proof.
  intros (Hc & Ha & Hr & Hw) H. destruct H; item_tac.
Qed.

Lemma finish_ok hd q ch j now r :
  queue_ok (q, Some (ch, j)) → queue_ok (finish hd now ch j r q, None).
Proof.
  intros Hq. unfold finish. pose proof Hq as (_ & _ & Hw).
  destruct (Hw _ _ eq_refl) as [it E]. cbn in E. rewrite E.
  destruct (running_item _ _ _ _ Hq E) as (Hc & Hok).
  set (it0 := with_flags it false (changed it)).
  set (q0 := if 0 <? r_deleted r then _ else _).
  assert (Hq0 : queue_ok (q0, Some (ch, j))).
  { unfold q0. destruct (0 <? r_deleted r); [by apply set_cost_ok|done]. }
  assert (Hit0 : item_ok None ch it0) by (by destruct Hok as (? & ? & ? & ?)).
  assert (Hc0 : channel it0 = ch) by done.
  destruct (changed it0).
  { eapply put_ok; [done|]. by destruct Hit0 as (? & ? & ? & ?). }
  destruct (r_err r) as [e|].
  - destruct (settle_error_cases hd now it0 e q0) as [->|(it' & Hr & ->)].
    + rewrite Hc0. by eapply drop_ok.
    + eapply put_ok; [done|]. by eapply retried_ok.
  - unfold settle_ok. repeat case_match; rewrite ?set_cost_ok, ?set_removed_ok, ?Hc0;
      try (by eapply drop_ok); eapply put_ok; try done;
      by destruct Hit0 as (? & ? & ? & ?).
Qed.

Lemma scan_item_found now check s it :
  found (scan_item now check s it) = found s ∨
  (found (scan_item now check s it) = Some it ∧ running it = false ∧ costHeld it = false ∧
   time_after (ready it) now = false).
Proof. unfold scan_item. repeat case_match; cbn; auto. Qed.

Lemma scan_found_in now check l s it :
  found (foldl (scan_item now check) s l) = Some it →
  found s = Some it ∨
  (it ∈ l ∧ running it = false ∧ costHeld it = false ∧ time_after (ready it) now = false).
Proof.
  revert s. induction l as [|x l IH]; intros s; cbn; [by left|].
  intros H. destruct (IH _ H) as [Hs|(Hin & ?)].
  - destruct (scan_item_found now check s x) as [Eq|(Eq & ?)]; rewrite Eq in Hs; [by left|].
    right. simplify_eq. split; [left|done].
  - right. split; [by right|done].
Qed.

Lemma items_lookup q it : it ∈ items q ↔ ∃ k, pending q !! k = Some it.
Proof.
  unfold items. rewrite list_elem_of_fmap. split.
  - intros ([k x] & -> & H%elem_of_map_to_list). eauto.
  - intros [k H]. exists (k, it). split; [done|by apply elem_of_map_to_list].
Qed.

Lemma next_ok q now p d q' :
  queue_ok (q, None) → next now q = ((p, d), q') → queue_ok (q', p).
Proof.
  intros Hq. unfold next.
  destruct (found _) as [it|] eqn:E; [|by intros [= <- <- <-]].
  intros [= <- <- <-]. apply scan_found_in in E as [|(Hin & Hrun & _)]; [done|].
  apply items_lookup in Hin as [k Hk]. destruct Hq as (Hit & Hsz & _). cbn in *.
  pose proof (Hit _ _ Hk) as (Hc & Ha & Hr & _). rewrite Hc.
  split_and!; cbn.
  - intros k' x. rewrite lookup_insert. case_decide as Hkk.
    + intros [= <-]. subst k'. item_tac. rewrite decide_True by done. auto.
    + intros Hx. destruct (Hit _ _ Hx) as (? & ? & ? & ?). unfold item_ok.
      rewrite decide_False by done. auto.
  - by rewrite (size_insert_existing _ _ it).
  - intros ch j [= <- <-]. rewrite lookup_insert_eq. by eexists.
Qed.

Lemma checkCost_ok q now ans : queue_ok (q, None) → queue_ok (checkCost now ans q, None).
Proof.
  intros (Hit & Hsz & Hw). unfold checkCost.
  destruct ans as [[total max_]|]; [|done]. destruct (_ && _); [|done].
  split_and!; cbn in *; [|by rewrite map_size_fmap|done].
  intros k it. rewrite lookup_fmap. destruct (pending q !! k) as [x|] eqn:E; [|done].
  intros [= <-]. destruct (Hit _ _ E) as (? & ? & ? & ?). by destruct (costHeld x).
Qed.

Lemma observe_ok q w h : queue_ok (q, w) → queue_ok (observe h q, w).
Proof. intros H. unfold observe. by repeat case_match. Qed.

Lemma qreachable_ok hd s : qreachable hd s → queue_ok s.
Proof.
  induction 1 as [[q w] [Hp Hw]|s s' _ IH Hstep].
  { cbn in *. subst. split_and!; cbn; rewrite ?Hp; [done| |done].
    rewrite map_size_empty. lia. }
  destruct Hstep.
  - by apply enqueue_ok.
  - unfold Deauthorized. case_match; [done|by apply enqueue_ok].
  - by apply observe_ok.
  - by apply checkCost_ok.
  - by eapply next_ok.
  - by apply finish_ok.
Qed.

(** ** The scan does not depend on the map's iteration order *)

Definition eligible (now : time) (it : twitchItem) : bool :=
  negb (running it) && negb (costHeld it) && negb (time_after (ready it) now).

(** How long a waiting item asks the worker to sleep. *)
Definition item_wait (now check : time) (it : twitchItem) : option duration :=
  if running it then None
  else if costHeld it then Some (time_sub check now)
  else if time_after (ready it) now then Some (time_sub (ready it) now) else None.

Lemma scan_item_eq now check s it :
  scan_item now check s it =
  Scan (if eligible now it then
          match found s with
          | None => Some it
          | Some f => if older it f then Some it else Some f
          end else found s)
       (match item_wait now check it with
        | Some w => Z.min w (delay s) | None => delay s end).
Proof.
  unfold scan_item, eligible, item_wait.
  destruct (running it); cbn; [by destruct s|].
  destruct (costHeld it); cbn.
  { destruct (Z.ltb_spec (time_sub check now) (delay s)); [f_equal; lia|].
    destruct s; cbn in *; f_equal; lia. }
  destruct (time_after (ready it) now); cbn.
  { destruct (Z.ltb_spec (time_sub (ready it) now) (delay s)); [f_equal; lia|].
    destruct s; cbn in *; f_equal; lia. }
  destruct s as [[f|] d]; cbn; [by destruct (older it f)|done].
Qed.

Lemma older_trans a b c : older a b = true → older b c = true → older a c = true.
Proof.
  unfold older, time_before, time_equal. intros H1 H2. bools.
  destruct H1 as [H1|[H1 S1]], H2 as [H2|[H2 S2]]; [left; lia..|].
  right. split; [lia|by eapply string_ltb_trans].
Qed.

Lemma older_total a b : channel a ≠ channel b → older a b = false → older b a = true.
Proof.
  unfold older, time_before, time_equal. intros Hne H. bools. destruct H as [H1 H2].
  destruct (Z.eq_dec (enqueued a) (enqueued b)); [|left; lia].
  destruct H2 as [|H2]; [done|]. right. split; [lia|].
  destruct (String.ltb (channel b) (channel a)) eqn:E; [done|].
  by destruct Hne; apply string_ltb_total.
Qed.

Lemma older_asym a b : older a b = true → older b a = false.
Proof.
  unfold older, time_before, time_equal. intros H. apply not_true_is_false. intros H'. bools.
  destruct H as [H|[H S]], H' as [H'|[H' S']]; try lia.
  pose proof (string_ltb_trans _ _ _ S S') as C. by rewrite string_ltb_irrefl in C.
Qed.

(** The scan's result is the oldest eligible item seen. *)
Definition oldest_of (now : time) (l : list twitchItem) (o : option twitchItem) : Prop :=
  match o with
  | None => ∀ x, x ∈ l → eligible now x = false
  | Some f => f ∈ l ∧ eligible now f = true ∧
      ∀ x, x ∈ l → eligible now x = true → x = f ∨ older f x = true
  end.

Lemma scan_oldest now check l :
  NoDup (channel <$> l) → oldest_of now l (found (scan_items now check l)).
Proof.
  unfold scan_items. induction l as [|it l IH] using rev_ind; [intros _ x H; by apply elem_of_nil in H|].
  rewrite fmap_app, foldl_app. cbn [foldl]. rewrite scan_item_eq. cbn [found].
  intros (Hnd & Hnew & _)%NoDup_app. specialize (IH Hnd). cbn in Hnew.
  destruct (found (foldl _ _ l)) as [f|]; destruct (eligible now it) eqn:Ee; cbn in *.
  - destruct IH as (Hin & Hel & Hmin).
    assert (Hne : channel it ≠ channel f).
    { intros C. apply (Hnew (channel it)); [|by left]. rewrite C. by apply list_elem_of_fmap_2. }
    destruct (older it f) eqn:Eo; (split_and!; [set_solver|done|]);
      intros x [Hx| ->%list_elem_of_singleton]%elem_of_app Hxe; auto.
    + destruct (Hmin x Hx Hxe) as [->|]; [by right|]. right. by eapply older_trans.
    + right. by apply older_total.
  - destruct IH as (Hin & Hel & Hmin). split_and!; [set_solver|done|].
    intros x [Hx| ->%list_elem_of_singleton]%elem_of_app Hxe; [auto|congruence].
  - split_and!; [set_solver|done|].
    intros x [Hx| ->%list_elem_of_singleton]%elem_of_app Hxe; [|auto].
    by rewrite IH in Hxe.
  - intros x [Hx| ->%list_elem_of_singleton]%elem_of_app; auto.
Qed.

Lemma oldest_unique now l o1 o2 : oldest_of now l o1 → oldest_of now l o2 → o1 = o2.
Proof.
  destruct o1 as [a|], o2 as [b|]; cbn; [|naive_solver congruence..].
  intros (Ha & Ea & Ma) (Hb & Eb & Mb). f_equal.
  destruct (Ma b Hb Eb) as [|O1]; [done|]. destruct (Mb a Ha Ea) as [|O2]; [done|].
  apply older_asym in O1. congruence.
Qed.

Lemma scan_delay_spec now check l s :
  let d := delay (foldl (scan_item now check) s l) in
  d <= delay s ∧ (∀ x w, x ∈ l → item_wait now check x = Some w → d <= w) ∧
  (d = delay s ∨ ∃ x, x ∈ l ∧ item_wait now check x = Some d).
Proof.
  revert s. induction l as [|it l IH]; intros s; cbn.
  { split_and!; [done| |by left]. intros x w H. by apply elem_of_nil in H. }
  destruct (IH (scan_item now check s it)) as (Hle & Hall & Hex).
  assert (Hs : delay (scan_item now check s it) =
    match item_wait now check it with Some w => Z.min w (delay s) | None => delay s end)
    by by rewrite scan_item_eq.
  rewrite Hs in Hle, Hex. set (d := delay (foldl _ _ _)) in *. clearbody d. clear Hs.
  destruct (item_wait now check it) as [w0|] eqn:Ew.
  - split_and!; [lia| |].
    + intros x w [->|Hx]%elem_of_cons Hw; [simplify_eq; lia|by eapply Hall].
    + destruct Hex as [Hex|(x & ? & ?)]; [|right; exists x; split; [by right|done]].
      destruct (Z.min_spec w0 (delay s)) as [[_ Hm]|[_ Hm]]; [|left; congruence].
      right. exists it. split; [left|congruence].
  - split_and!; [lia| |].
    + intros x w [->|Hx]%elem_of_cons Hw; [congruence|by eapply Hall].
    + destruct Hex as [Hex|(x & ? & ?)]; [by left|]. right. exists x. split; [by right|done].
Qed.

Lemma scan_item_some now check s it :
  is_Some (found s) ∨ eligible now it = true → is_Some (found (scan_item now check s it)).
Proof.
  rewrite scan_item_eq; cbn. intros [[f ->]| ->]; repeat case_match; by eexists.
Qed.

Lemma scan_some now check l s :
  is_Some (found s) → is_Some (found (foldl (scan_item now check) s l)).
Proof.
  revert s. induction l as [|x l IH]; intros s Hs; [done|].
  cbn [foldl]. apply IH, scan_item_some. by left.
Qed.

(** If nothing is picked, nothing seen was eligible. *)
Lemma scan_none now check l s it :
  found (foldl (scan_item now check) s l) = None → it ∈ l → eligible now it = false.
Proof.
  intros Hf Hin. apply not_true_is_false. intros He.
  assert (Hs : is_Some (found (foldl (scan_item now check) s l))); [|rewrite Hf in Hs; by destruct Hs].
  clear Hf. revert s. induction l as [|x l IH]; intros s; [by apply elem_of_nil in Hin|].
  cbn [foldl]. apply elem_of_cons in Hin as [->|Hin]; [|by apply IH].
  apply scan_some, scan_item_some. by right.
Qed.

Lemma items_NoDup q :
  (∀ k it, pending q !! k = Some it → channel it = k) → NoDup (channel <$> items q).
Proof.
  intros Hk. unfold items. rewrite <- list_fmap_compose.
  rewrite (list_fmap_ext _ fst (map_to_list (pending q))).
  - apply NoDup_fst_map_to_list.
  - intros i [k it] H%list_elem_of_lookup_2. cbn. by apply Hk, elem_of_map_to_list.
Qed.

Lemma queue_ok_item hd q w k it :
  qreachable hd (q, w) → pending q !! k = Some it →
  channel it = k ∧ 0 <= attempts it < twitchMaxAttempts.
Proof.
  intros Hr E. destruct (qreachable_ok _ _ Hr) as (Hit & _). by destruct (Hit _ _ E) as (? & ? & _).
Qed.

(** ** Intent: what arrives while a job runs *)

(** The jobs that arrivals request for [ch], in order. *)
Definition jobs_for (ch : string) (l : list (string * twitchJob * time)) : list twitchJob :=
  omap (λ '(c, j, _), if decide (c = ch) then Some j else None) l.

Lemma enqueue_other ch ch' j now q :
  ch ≠ ch' → pending (enqueue ch j now q) !! ch' = pending q !! ch'.
Proof.
  intros Hne. unfold enqueue. destruct (pending q !! ch); repeat case_match; cbn; try done;
    by rewrite lookup_insert_ne.
Qed.

Lemma enqueue_running ch j now q it :
  pending q !! ch = Some it → running it = true →
  ∃ it', pending (enqueue ch j now q) !! ch = Some it' ∧ running it' = true ∧
    channel it' = channel it ∧ job it' = j ∧
    (changed it = true ∨ j ≠ job it ∨ j = twitchRemoveJob → changed it' = true).
Proof.
  intros E Hr. unfold enqueue. rewrite E.
  set (it1 := if decide (j = twitchReconcileJob) then with_reconcile it else it).
  assert (H1 : running it1 = true ∧ channel it1 = channel it ∧ job it1 = job it ∧
    changed it1 = changed it) by (unfold it1; by case_decide).
  destruct H1 as (Hr1 & Hc1 & Hj1 & Hg1). clearbody it1.
  rewrite Hr1. case_decide as Hj.
  - case_bool_decide as Hrem; cbn [andb pending set_pending];
      (eexists; split; [by rewrite lookup_insert_eq|]); cbn; rewrite ?Hr1, ?Hc1, ?Hg1;
      split_and!; try done; try congruence.
    intros [|[|]]; congruence.
  - cbn [pending set_pending signal]. eexists. split; [by rewrite lookup_insert_eq|].
    cbn. by rewrite Hc1.
Qed.

Lemma jobs_for_cons ch c j t l :
  jobs_for ch ((c, j, t) :: l) = if decide (c = ch) then j :: jobs_for ch l else jobs_for ch l.
Proof. unfold jobs_for. cbn. by case_decide. Qed.

Lemma last_cons_default {A} (a : A) l d : default d (last (a :: l)) = default a (last l).
Proof. rewrite last_cons. by destruct (last l). Qed.

Lemma arrive_running ch l q it :
  pending q !! ch = Some it → running it = true →
  ∃ it', pending (arrive l q) !! ch = Some it' ∧ running it' = true ∧
    channel it' = channel it ∧ job it' = default (job it) (last (jobs_for ch l)) ∧
    (changed it = true ∨ (∃ j, j ∈ jobs_for ch l ∧ (j ≠ job it ∨ j = twitchRemoveJob)) →
     changed it' = true).
Proof.
  revert q it. induction l as [|[[c j] t] l IH]; intros q it E Hr.
  { exists it. split_and!; try done. intros [|(j & H & _)]; [done|by apply elem_of_nil in H]. }
  rewrite jobs_for_cons. unfold arrive in *. cbn [foldl].
  destruct (decide (c = ch)) as [->|Hne].
  - destruct (enqueue_running ch j t q it E Hr) as (it1 & E1 & R1 & C1 & J1 & G1).
    destruct (IH _ _ E1 R1) as (it2 & E2 & R2 & C2 & J2 & G2).
    exists it2. rewrite last_cons_default. split_and!; try done; try congruence.
    intros Hch. apply G2.
    destruct Hch as [Hch|(j' & [->|Hin]%elem_of_cons & Hj)]; [by auto..|].
    destruct (decide (j = job it)) as [Heq|Hneq]; [|auto].
    right. exists j'. split; [done|]. rewrite J1, Heq. done.
  - apply IH; [by rewrite enqueue_other|done].
Qed.

(** ** Properties *)

(** C3. Invariant of the queue, in every state reached by any interleaving of
    arrivals with the worker: an item is stored under its own channel, has
    failed fewer than six times and wants its reconcile if that is its job; the
    queue never exceeds its capacity; exactly the item the worker runs is
    marked running, and its job is the one running unless it is marked changed. *)
Theorem queue_invariant http_date q w k it :
  qreachable http_date (q, w) → pending q !! k = Some it →
  channel it = k ∧ 0 <= attempts it < twitchMaxAttempts ∧
  (job it = twitchReconcileJob → reconcile it = true) ∧
  (size (pending q) ≤ capacity q)%nat ∧
  (running it = true ↔ ∃ j, w = Some (k, j)) ∧
  (∀ j, w = Some (k, j) → job it = j ∨ changed it = true).
Proof.
  intros Hr E. destruct (qreachable_ok _ _ Hr) as (Hit & Hsz & _). cbn in Hit, Hsz.
  destruct (Hit _ _ E) as (Hc & Ha & Hrec & Hw).
  split; [done|]. split; [done|]. split; [done|]. split; [done|]. split.
  - destruct w as [[ch j]|]; [|rewrite Hw; naive_solver].
    case_decide; [subst; split; [by exists j|intros _; apply Hw]|]. rewrite Hw.
    split; [done|]. intros [j' [= -> ->]]. done.
  - intros j ->. rewrite decide_True in Hw by done. by destruct Hw.
Qed.

Definition no_dates : string → option time := λ _, None.

(** A queue whose worker runs the reconcile of broadcaster 42. *)
Definition q42 : queue := (next 8 (Enqueue "42" 7 NewTwitchQueue)).2.

Lemma q42_reachable : qreachable no_dates (q42, Some ("42", twitchReconcileJob)).
Proof.
  eapply qreach_step; [eapply qreach_step; [apply (qreach_init _ (NewTwitchQueue, None)); done|]|].
  - apply (q_arrive no_dates NewTwitchQueue None "42" twitchReconcileJob 7).
  - apply (q_next no_dates _ 8 _ twitchIdle). vm_compute. reflexivity.
Qed.

Lemma queue_invariant_witness :
  ∃ q it, qreachable no_dates (q, Some ("42", twitchReconcileJob)) ∧
    pending q !! "42" = Some it ∧ job it = twitchRemoveJob ∧
    (running it = true ↔ ∃ j, Some ("42", twitchReconcileJob) = Some ("42", j)).
Proof.
  assert (R : qreachable no_dates
    (enqueue "42" twitchRemoveJob 9 q42, Some ("42", twitchReconcileJob))).
  { eapply qreach_step; [apply q42_reachable|apply q_arrive]. }
  eexists _, (TwitchItem "42" twitchRemoveJob 7 7 0 false true true true).
  split; [exact R|]. split; [reflexivity|]. split; [reflexivity|].
  eapply (queue_invariant no_dates _ _ "42"); [exact R|reflexivity].
Defined.

(** C4. The latest intent wins. Whatever arrives while the worker runs a job on
    a broadcaster, if some arrival asks for a removal or for another job, then
    after the run, however it ended, the broadcaster is still queued, for the
    job of the last arrival, idle and ready at once with fresh retry state. *)
Theorem latest_intent http_date q ch j0 it l r now :
  qreachable http_date (q, Some (ch, j0)) → pending q !! ch = Some it → job it = j0 →
  (∃ j, j ∈ jobs_for ch l ∧ (j ≠ j0 ∨ j = twitchRemoveJob)) →
  ∃ it', pending (finish http_date now ch j0 r (arrive l q)) !! ch = Some it' ∧
    last (jobs_for ch l) = Some (job it') ∧ running it' = false ∧ changed it' = false ∧
    attempts it' = 0 ∧ costHeld it' = false ∧ ready it' = now.
Proof.
  intros Hr E Hj Hex.
  destruct (qreachable_ok _ _ Hr) as (Hit & _ & _). cbn in Hit.
  destruct (Hit _ _ E) as (Hc & _ & _ & Hw). rewrite decide_True in Hw by done.
  destruct (arrive_running ch l q it E (proj1 Hw)) as (it1 & E1 & R1 & C1 & J1 & G1).
  rewrite Hj in G1. specialize (G1 (or_intror Hex)).
  eexists. unfold finish. rewrite E1. cbn [changed with_flags]. rewrite G1.
  unfold put. cbn [channel with_flags fresh_retry pending set_pending].
  rewrite C1, Hc, lookup_insert_eq. split; [done|]. cbn. rewrite J1. split_and!; try done.
  destruct Hex as (j & Hin & _). destruct (last (jobs_for ch l)) eqn:El; [done|].
  apply last_None in El. rewrite El in Hin. by apply elem_of_nil in Hin.
Qed.

(** A removal arriving while a reconcile runs, then another channel. *)
Lemma latest_intent_witness :
  ∃ q it', qreachable no_dates (q, Some ("42", twitchReconcileJob)) ∧
    pending (finish no_dates 20 "42" twitchReconcileJob
      (Run (Some (ErrCallable "failed-precondition" "x")) (TwitchReconcile 0 [] []) 0 false)
      (arrive [("42", twitchRemoveJob, 9); ("7", twitchReconcileJob, 10)] q)) !! "42" = Some it' ∧
    last (jobs_for "42" [("42", twitchRemoveJob, 9); ("7", twitchReconcileJob, 10)])
      = Some (job it') ∧ running it' = false ∧ changed it' = false ∧
    attempts it' = 0 ∧ costHeld it' = false ∧ ready it' = 20.
Proof.
  destruct (latest_intent no_dates q42 "42" twitchReconcileJob
    (TwitchItem "42" twitchReconcileJob 7 7 0 false true false true)
    [("42", twitchRemoveJob, 9); ("7", twitchReconcileJob, 10)]
    (Run (Some (ErrCallable "failed-precondition" "x")) (TwitchReconcile 0 [] []) 0 false) 20
    q42_reachable) as [it' H]; [reflexivity|reflexivity| |].
  - exists twitchRemoveJob. split; [left|by right].
  - exists q42, it'. split; [exact q42_reachable|exact H].
Defined.

(** [next] is independent of Go's random map order: for every enumeration of
    the pending items it computes the same pick and the same delay; a pick is
    eligible (idle, not held, ready) and older than every other eligible item. *)
Theorem next_deterministic now q l :
  (∀ k it, pending q !! k = Some it → channel it = k) →
  l ≡ₚ items q →
  scan_items now (costCheck q) l = scan_items now (costCheck q) (items q) ∧
  match found (scan_items now (costCheck q) l) with
  | Some f => f ∈ l ∧ eligible now f = true ∧
      ∀ x, x ∈ l → eligible now x = true → x = f ∨ older f x = true
  | None => ∀ x, x ∈ l → eligible now x = false
  end.
Proof.
  intros Hk Hp. pose proof (items_NoDup q Hk) as Hnd.
  assert (Hnd' : NoDup (channel <$> l)) by (by rewrite Hp).
  pose proof (scan_oldest now (costCheck q) l Hnd') as Ho. split; [|exact Ho].
  assert (Hf : found (scan_items now (costCheck q) l) = found (scan_items now (costCheck q) (items q))).
  { eapply oldest_unique; [exact Ho|]. pose proof (scan_oldest now (costCheck q) _ Hnd) as Ho'.
    destruct (found (scan_items _ _ (items q))); cbn in *; setoid_rewrite Hp; done. }
  pose proof (scan_delay_spec now (costCheck q) l (Scan None twitchIdle)) as (A1 & B1 & C1).
  pose proof (scan_delay_spec now (costCheck q) (items q) (Scan None twitchIdle)) as (A2 & B2 & C2).
  unfold scan_items in *. cbn in *.
  assert (Hd : delay (foldl (scan_item now (costCheck q)) (Scan None twitchIdle) l) =
    delay (foldl (scan_item now (costCheck q)) (Scan None twitchIdle) (items q))).
  { destruct C1 as [C1|(x & Hx & Hw)], C2 as [C2|(y & Hy & Hv)]; try lia.
    - rewrite <- Hp in Hy. specialize (B1 _ _ Hy Hv). lia.
    - rewrite Hp in Hx. specialize (B2 _ _ Hx Hw). lia.
    - rewrite Hp in Hx. rewrite <- Hp in Hy.
      specialize (B1 _ _ Hy Hv). specialize (B2 _ _ Hx Hw). lia. }
  destruct (foldl _ _ l), (foldl _ _ (items q)); cbn in *; congruence.
Qed.

(** Three items; two are eligible, and the list is reversed. *)
Definition queue3 : queue :=
  arrive [("9", twitchRemoveJob, 5); ("10", twitchReconcileJob, 5); ("3", twitchReconcileJob, 50)]
    NewTwitchQueue.

Lemma next_deterministic_witness :
  scan_items 20 (costCheck queue3) (reverse (items queue3)) =
    scan_items 20 (costCheck queue3) (items queue3) ∧
  found (scan_items 20 (costCheck queue3) (items queue3)) = pending queue3 !! "10".
Proof.
  split; [|vm_compute; reflexivity].
  apply (next_deterministic 20 queue3 (reverse (items queue3)));
    [|by rewrite reverse_Permutation].
  assert (Hk : map_Forall (λ k it, channel it = k) (pending queue3)).
  { refine (bool_decide_unpack _ _). vm_compute. exact I. }
  exact Hk.
Defined.

(** The worker never oversleeps: when [next] picks nothing it changes nothing,
    and its delay is at most an hour and at most the time until each waiting
    item may be ready (a held item waits for the cost check); no item that
    could run now is left behind. *)
Theorem next_delay now q d q' it :
  next now q = ((None, d), q') → it ∈ items q → running it = false →
  q' = q ∧ d <= twitchIdle ∧
  (costHeld it = true → d <= time_sub (costCheck q) now) ∧
  (costHeld it = false → now < ready it ∧ d <= time_sub (ready it) now).
Proof.
  unfold next. destruct (found _) as [f|] eqn:Ef; [done|]. intros [= <- <-] Hin Hrun.
  destruct (scan_delay_spec now (costCheck q) (items q) (Scan None twitchIdle)) as (Hle & Hall & _).
  assert (Hel : eligible now it = false) by by eapply scan_none.
  unfold eligible, time_after in Hel. rewrite Hrun in Hel. cbn in Hel.
  split_and!; [done|done| |]; intros Hc; rewrite Hc in Hel; cbn in Hel.
  - apply (Hall it); [done|]. unfold item_wait. by rewrite Hrun, Hc.
  - apply negb_false_iff, Z.ltb_lt in Hel. split; [done|].
    apply (Hall it); [done|]. unfold item_wait, time_after. rewrite Hrun, Hc.
    by rewrite (proj2 (Z.ltb_lt _ _) Hel).
Qed.

Lemma next_delay_witness :
  next 3 (arrive [("9", twitchRemoveJob, 5)] NewTwitchQueue) =
    ((None, 2), arrive [("9", twitchRemoveJob, 5)] NewTwitchQueue) ∧ 2 <= twitchIdle.
Proof.
  assert (E : next 3 (arrive [("9", twitchRemoveJob, 5)] NewTwitchQueue) =
    ((None, 2), arrive [("9", twitchRemoveJob, 5)] NewTwitchQueue)) by (vm_compute; reflexivity).
  split; [exact E|].
  apply (next_delay 3 _ 2 _ (TwitchItem "9" twitchRemoveJob 5 5 0 false false false false) E);
    [|reflexivity]. apply items_lookup. by exists "9".
Defined.

(** An error that [process] counts as a failed attempt. *)
Definition counted (e : error) : bool :=
  negb (is_busy e) && negb (is_budget e) && negb (is_some (as_callable e)) &&
  negb (is_some (as_retry e) && is_status e 429).

Lemma settle_error_counted hd now it e q :
  counted e = true →
  settle_error hd now it e q =
    if twitchMaxAttempts <=? attempts it + 1 then drop q (channel it)
    else
      let rd := now + backoff (attempts it + 1) e in
      let at_ := match as_retry e with Some (_, h) => retryAt hd h now | None => zero_time end in
      put q (with_ready (with_attempts it (attempts it + 1))
               (if is_some (as_retry e) && time_after at_ rd then at_ else rd)).
Proof.
  unfold counted, settle_error. intros H. bools. destruct H as [[[Hb Hg] Hc] Hr].
  rewrite Hb, Hg, Hc. destruct (as_retry e) as [[e' h]|]; cbn in *; [|done].
  by destruct Hr as [| ->].
Qed.

Lemma backoff_bounds n e :
  1 <= n < twitchMaxAttempts →
  backoff n e = Z.max (30 * second * 2 ^ (n - 1)) (if is_uncertain e then 90 * second else 0).
Proof.
  intros Hn. unfold twitchMaxAttempts in Hn. unfold backoff.
  assert (Hcase : n = 1 ∨ n = 2 ∨ n = 3 ∨ n = 4 ∨ n = 5) by lia.
  destruct Hcase as [->|[->|[->|[->| ->]]]]; by destruct (is_uncertain e).
Qed.

(** C5. Retry discipline. A failed attempt of an unchanged item is counted: the
    sixth drops the item, and an earlier one waits the doubling backoff
    30 s, 60 s, ..., or as long as the provider asked if that is later; after an
    uncertain mutation never less than the 90 s of the lease that it left
    behind. A lease that is kept only because the work's 45 s passed is not
    waited for: the backoff is then exactly the doubling one, and a retry that
    comes before the lease expires finds it busy. A lease that was busy, or the
    bucket's reserve, costs no attempt. *)
Theorem retry_discipline hd q ch j it e res del reauth now :
  qreachable hd (q, Some (ch, j)) → pending q !! ch = Some it → changed it = false →
  (counted e = true → attempts it + 1 < twitchMaxAttempts →
     ∃ it', pending (finish hd now ch j (Run (Some e) res del reauth) q) !! ch = Some it' ∧
       attempts it' = attempts it + 1 ∧ running it' = false ∧ job it' = job it ∧
       now + 30 * second * 2 ^ attempts it <= ready it' ∧
       (is_uncertain e = true → now + Lease.lease_ttl <= ready it') ∧
       (is_uncertain e = false → as_retry e = None → ready it' = now + 30 * second * 2 ^ attempts it)) ∧
  (counted e = true → twitchMaxAttempts <= attempts it + 1 →
     pending (finish hd now ch j (Run (Some e) res del reauth) q) !! ch = None) ∧
  (is_busy e = true ∨ (is_busy e = false ∧ is_budget e = true) →
     ∃ it', pending (finish hd now ch j (Run (Some e) res del reauth) q) !! ch = Some it' ∧
       attempts it' = attempts it ∧ job it' = job it ∧ now < ready it').
Proof.
  intros Hr E Hch. destruct (queue_ok_item _ _ _ _ _ Hr E) as (Hc & Ha).
  unfold finish. rewrite E. cbn [changed with_flags r_err]. rewrite Hch.
  set (q0 := if 0 <? _ then _ else q).
  set (it0 := with_flags it false false).
  split_and!.
  - intros Hcnt Hlt. rewrite settle_error_counted by done.
    rewrite (proj2 (Z.leb_gt _ _)) by (cbn; lia).
    eexists. unfold put; cbn [pending set_pending channel with_ready with_attempts it0 with_flags].
    rewrite Hc, lookup_insert_eq. split; [done|]. cbn -[Z.pow Z.mul backoff].
    rewrite backoff_bounds by lia. replace (attempts it + 1 - 1) with (attempts it) by lia.
    set (rd := now + Z.max _ _). assert (Hpow : 0 <= 2 ^ attempts it) by (apply Z.pow_nonneg; lia).
    assert (Hrd : now + 30 * second * 2 ^ attempts it <= rd ∧
      (is_uncertain e = true → now + Lease.lease_ttl <= rd) ∧
      (is_uncertain e = false → rd = now + 30 * second * 2 ^ attempts it)).
    { unfold rd, Lease.lease_ttl, second in *. split_and!; [lia|intros ->; lia|intros ->; lia]. }
    clearbody rd.
    assert (Hle : ∀ b x, rd <= (if b && time_after x rd then x else rd)).
    { intros b x. unfold time_after. destruct b, (Z.ltb_spec rd x); cbn; lia. }
    split_and!; try done; [by etrans; [apply Hrd|apply Hle]|intros Hu; etrans; [by apply Hrd|apply Hle]|].
    intros Hu ->. by apply Hrd.
  - intros Hcnt Hle. rewrite settle_error_counted by done.
    rewrite (proj2 (Z.leb_le _ _)) by (cbn; lia). cbn. rewrite Hc. apply lookup_delete_eq.
  - intros Hcase. unfold settle_error. destruct Hcase as [Hb | [Hb Hg] ]; rewrite ?Hb, ?Hg; eexists;
      (unfold put; cbn [pending set_pending channel with_ready it0 with_flags];
       rewrite Hc, lookup_insert_eq; split; [reflexivity|]; cbn -[second minute]).
    + split_and!; [done|done|]. unfold twitchBusyDelay, second. lia.
    + split_and!; [done|done|]. unfold after, time_after, minute, second.
      destruct (Z.ltb_spec now (reset q0)); lia.
Qed.

Lemma retry_discipline_witness :
  let e := ErrUncertain (ErrMsg "provider transport failure") in
  ∃ it', pending (finish no_dates 100 "42" twitchReconcileJob
                   (Run (Some e) (TwitchReconcile 3 [] []) 0 false) q42) !! "42" = Some it' ∧
    attempts it' = 1 ∧ 100 + Lease.lease_ttl <= ready it'.
Proof.
  intros e.
  destruct (retry_discipline no_dates q42 "42" twitchReconcileJob
    (TwitchItem "42" twitchReconcileJob 7 7 0 false true false true) e
    (TwitchReconcile 3 [] []) 0 false 100 q42_reachable) as [H _]; [reflexivity|reflexivity|].
  destruct H as (it' & H1 & H2 & _ & _ & _ & H3); [reflexivity|reflexivity|].
  exists it'. split; [exact H1|]. split; [exact H2|]. apply H3. reflexivity.
Defined.

(** Work that a deadline ended keeps its lease too, but its retry comes after
    30 s. *)
Example deadline_retry :
  let en := Lease.Env None (λ _, inr (Lease.TxResult true false)) (λ _, None) (λ _, None) (λ _, true)
              None (Some ErrDeadline) (Some ErrDeadline) in
  Lease.with_ 1 en false = Some (Lease.Outcome (Some ErrDeadline) true true false) ∧
  ready <$> (pending (finish no_dates 100 "42" twitchReconcileJob
    (Run (Some ErrDeadline) (TwitchReconcile 0 [] []) 0 false) q42) !! "42") = Some (100 + 30 * second).
Proof. split; vm_compute; reflexivity. Qed.

(** Repeated revocations of one deauthorization are ignored: once a removal
    of an unchanged item finished, revocations for that broadcaster change
    nothing for five minutes, later ones queue a removal again, and the
    user.authorization.revoke notification always does. *)
Theorem removal_suppresses_revocations hd q ch it now res del checked t :
  qreachable hd (q, Some (ch, twitchRemoveJob)) →
  pending q !! ch = Some it → changed it = false → held res = [] →
  let q' := finish hd now ch twitchRemoveJob (Run None res del false) q in
  pending q' !! ch = None ∧
  (checked - now < twitchRemovedTTL → Deauthorized ch true checked t q' = q') ∧
  (twitchRemovedTTL <= checked - now → Deauthorized ch true checked t q' = EnqueueRemove ch t q') ∧
  Deauthorized ch false checked t q' = EnqueueRemove ch t q' ∧
  ((size (pending q') < capacity q')%nat →
     ∃ it', pending (EnqueueRemove ch t q') !! ch = Some it' ∧ job it' = twitchRemoveJob).
Proof.
  intros Hr E Hch Hheld q'. destruct (queue_ok_item _ _ _ _ _ Hr E) as (Hc & _).
  assert (Hq' : pending q' = delete ch (pending q) ∧ removed q' !! ch = Some now).
  { unfold q', finish. rewrite E. cbn [changed with_flags r_err]. rewrite Hch. unfold settle_ok.
    cbn [r_result r_reauthorized r_deleted]. rewrite Hheld. cbn -[filter].
    rewrite andb_false_r, !decide_True by done. rewrite Hc. cbn [removed set_removed].
    rewrite lookup_insert_eq. by destruct (0 <? del). }
  destruct Hq' as [Hp Hrem]. assert (Hnone : pending q' !! ch = None) by (rewrite Hp; apply lookup_delete_eq).
  clearbody q'. unfold Deauthorized. rewrite Hrem.
  rewrite time_sub_lt by (unfold twitchRemovedTTL, min_int64, max_int64, minute, second; lia).
  split_and!; [done|..|done|].
  - intros Hlt. by rewrite (proj2 (Z.ltb_lt _ _)).
  - intros Hge. by rewrite (proj2 (Z.ltb_ge _ _)).
  - intros Hsz. unfold EnqueueRemove, enqueue. rewrite Hnone. cbn [bool_decide andb].
    rewrite bool_decide_false by done. cbn [andb]. rewrite (proj2 (Nat.leb_gt _ _)) by done.
    cbn [pending signal set_pending]. rewrite lookup_insert_eq. by eexists.
Qed.

(** A queue whose worker runs the removal of broadcaster 42. *)
Definition q42r : queue := (next 8 (EnqueueRemove "42" 7 NewTwitchQueue)).2.

Lemma q42r_reachable : qreachable no_dates (q42r, Some ("42", twitchRemoveJob)).
Proof.
  eapply qreach_step; [eapply qreach_step; [apply (qreach_init _ (NewTwitchQueue, None)); done|]|].
  - apply (q_arrive no_dates NewTwitchQueue None "42" twitchRemoveJob 7).
  - apply (q_next no_dates _ 8 _ twitchIdle). vm_compute. reflexivity.
Qed.

Lemma removal_suppresses_revocations_witness :
  let q' := finish no_dates 20 "42" twitchRemoveJob (Run None (TwitchReconcile 0 [] []) 30 false) q42r in
  Deauthorized "42" true (20 + minute) 99 q' = q' ∧
  Deauthorized "42" false (20 + minute) 99 q' = EnqueueRemove "42" 99 q'.
Proof.
  intros q'.
  destruct (removal_suppresses_revocations no_dates q42r "42"
    (TwitchItem "42" twitchRemoveJob 7 7 0 false true false false) 20
    (TwitchReconcile 0 [] []) 30 (20 + minute) 99 q42r_reachable) as (_ & H1 & _ & H2 & _);
    [reflexivity..|].
  split; [apply H1; reflexivity|exact H2].
Defined.
