(* ===== verification/ChatMessage.v ===== *)
(** * Chat message documents

    Models agent/internal/chatmessage: how long a message document lives
    (chatmessage.go, and webhook/message_ttl.go, which forwards to it) and the
    hedged Create (create.go) as a state machine whose attempts race each
    other and other replicas on one document; and the counters of
    agent/internal/chatmetrics. *)

From stdpp Require Import base gmap strings list sorting.
From S2P Require Import Prelude GoErr.

Definition TTL : duration := 7 * 24 * hour.
Definition StreamStateTTL : duration := 90 * 24 * hour.
Definition TTLFor (messageType : string) : duration :=
  if String.eqb messageType "stream.online" || String.eqb messageType "stream.offline"
  then StreamStateTTL else TTL.

(** ** The hedged Create *)

Definition HedgeAfter : duration := 2 * second.
Definition MaxAttempts : nat := 3.

(** An attempt in flight: not executed yet, or it created the document, or it
    found the document there. *)
Inductive attempt := Sent | Landed | Existed.

#[export] Instance attempt_eq_dec : EqDecision attempt.
Proof. solve_decision. Defined.

(** The variables of [Create] with its attempts in flight, and the document:
    who wrote it, [true] for an attempt of this call. *)
Record create_state := CreateState {
  started : nat;
  inflight : list attempt;
  cerr : option error;
  retry : bool;                           (* the retry timer is set *)
  document : option bool;
  ctx_done : bool;
  returned : option (bool * option error)
}.

Definition pending_attempts (s : create_state) : nat := length (inflight s).

Definition start (s : create_state) : create_state :=
  CreateState (started s + 1) (inflight s ++ [Sent]) (cerr s) (retry s) (document s)
    (ctx_done s) (returned s).

Definition create_init (doc : option bool) : create_state :=
  start (CreateState 0 [] None false doc false None).

Definition return_ (d : bool) (e : option error) (s : create_state) : create_state :=
  CreateState (started s) (inflight s) (cerr s) (retry s) (document s) (ctx_done s) (Some (d, e)).
Definition set_inflight (l : list attempt) (s : create_state) : create_state :=
  CreateState (started s) l (cerr s) (retry s) (document s) (ctx_done s) (returned s).
Definition set_cerr (e : option error) (s : create_state) : create_state :=
  CreateState (started s) (inflight s) e (retry s) (document s) (ctx_done s) (returned s).
Definition set_retry (b : bool) (s : create_state) : create_state :=
  CreateState (started s) (inflight s) (cerr s) b (document s) (ctx_done s) (returned s).
Definition set_document (d : option bool) (s : create_state) : create_state :=
  CreateState (started s) (inflight s) (cerr s) (retry s) d (ctx_done s) (returned s).
Definition set_ctx_done (s : create_state) : create_state :=
  CreateState (started s) (inflight s) (cerr s) (retry s) (document s) true (returned s).

(** A transient failure: another attempt later, unless none is left. *)
Definition on_transient (answer : option error) (s : create_state) : create_state :=
  let s := set_cerr answer s in
  if negb (ctx_done s) && (started s <? MaxAttempts)%nat then set_retry true s
  else if (pending_attempts s =? 0)%nat then return_ false (cerr s) s
  else s.

(** [case attempt := <-results], once the attempt left the flight. *)
Definition on_result (answer : option error) (s : create_state) : create_state :=
  match status_code answer with
  | OK => return_ false None s
  | AlreadyExists => return_ (started s =? 1)%nat None s
  | Unavailable | DeadlineExceeded | Aborted | ResourceExhausted => on_transient answer s
  | _ => return_ false answer s
  end.

(** [case <-hedge.C] and [case <-retry]. *)
Definition on_hedge (s : create_state) : create_state :=
  if (started s <? MaxAttempts)%nat then start s else s.
Definition on_retry (s : create_state) : create_state := on_hedge (set_retry false s).

(** [case <-ctx.Done()], with the context's error. *)
Definition on_done (ctx_err : error) (s : create_state) : create_state :=
  return_ false (match cerr s with Some e => Some e | None => Some ctx_err end) s.

(** How an executed attempt may be answered. A lost response or a deadline may
    answer anything but success and AlreadyExists. *)
Definition answers (a : attempt) (answer : option error) : Prop :=
  match status_code answer with
  | OK => a = Landed
  | AlreadyExists => a = Existed
  | _ => True
  end.

Inductive create_step : create_state → create_state → Prop :=
  | cs_land s i :
      returned s = None → inflight s !! i = Some Sent → document s = None →
      create_step s (set_document (Some true) (set_inflight (<[i := Landed]> (inflight s)) s))
  | cs_exists s i b :
      returned s = None → inflight s !! i = Some Sent → document s = Some b →
      create_step s (set_inflight (<[i := Existed]> (inflight s)) s)
  | cs_other s :
      document s = None → create_step s (set_document (Some false) s)
  | cs_answer s i a answer :
      returned s = None → inflight s !! i = Some a → answers a answer →
      create_step s (on_result answer (set_inflight (delete i (inflight s)) s))
  | cs_hedge s : returned s = None → create_step s (on_hedge s)
  | cs_retry s : returned s = None → retry s = true → create_step s (on_retry s)
  | cs_cancel s : create_step s (set_ctx_done s)
  | cs_done s e : returned s = None → ctx_done s = true → create_step s (on_done e s).

(** A run of [Create] on a document that another writer may have written. *)
Inductive creating (existed : bool) : create_state → Prop :=
  | creating_init : creating existed (create_init (if existed then Some false else None))
  | creating_step s s' : creating existed s → create_step s s' → creating existed s'.

Record create_ok (s : create_state) : Prop := CreateOk {
  ok_bound : (1 <= started s <= MaxAttempts)%nat;
  ok_flight : (pending_attempts s <= started s)%nat;
  ok_landed : Landed ∈ inflight s → document s = Some true;
  ok_existed : Existed ∈ inflight s → is_Some (document s);
  (* a single attempt that found the document did not create it *)
  ok_single : started s = 1%nat → Existed ∈ inflight s → document s = Some false;
  ok_own : started s = 1%nat → document s = Some true → inflight s = [Landed] ∨ inflight s = [];
  ok_ret : ∀ d, returned s = Some (d, None) →
             is_Some (document s) ∧ (d = true → document s = Some false ∧ started s = 1%nat)
}.

(** Something is still to come: an answer, or the retry timer. *)
Definition alive (s : create_state) : Prop :=
  returned s = None →
  (0 < pending_attempts s)%nat ∨ (retry s = true ∧ (started s < MaxAttempts)%nat).

Lemma elem_of_insert_list {A} (l : list A) i x y : y ∈ <[i := x]> l → y = x ∨ y ∈ l.
Proof.
  intros [j Hj]%list_elem_of_lookup.
  destruct (decide (i = j)) as [->|]; [|rewrite list_lookup_insert_ne in Hj by done].
  - rewrite list_lookup_insert in Hj. case_decide; simplify_eq; auto.
    right. by eapply list_elem_of_lookup_2.
  - right. by eapply list_elem_of_lookup_2.
Qed.

Lemma singleton_lookup {A} (l : list A) i x :
  (length l <= 1)%nat → l !! i = Some x → l = [x] ∧ i = 0%nat.
Proof.
  intros Hl Hi. pose proof (lookup_lt_Some _ _ _ Hi).
  destruct l as [|y [|]]; cbn in *; try lia. destruct i; [|lia]. by simplify_eq/=.
Qed.

Ltac fields := unfold pending_attempts in *;
  cbn [create_init start return_ set_inflight set_cerr set_retry set_document set_ctx_done
       started inflight cerr document returned retry ctx_done app length] in *.

Lemma create_init_ok (existed : bool) :
  create_ok (create_init (if existed then Some false else None)).
Proof.
  split; fields; unfold MaxAttempts; try lia; try (intros ?%list_elem_of_singleton; done).
  - intros _ ?%list_elem_of_singleton. done.
  - by destruct existed.
  - done.
Qed.

Lemma start_ok s :
  create_ok s → returned s = None → (started s < MaxAttempts)%nat → create_ok (start s).
Proof.
  intros [H1 H2 H3 H4 H5 H6 H7] Hr Hn.
  split; fields; rewrite ?length_app; fields; try lia; try congruence.
  - intros [?|?%list_elem_of_singleton]%elem_of_app; [auto|done].
  - intros [?|?%list_elem_of_singleton]%elem_of_app; [auto|done].
Qed.

Lemma start_alive s : alive (start s).
Proof. intros _. left. fields. rewrite length_app. fields. lia. Qed.

Lemma set_retry_ok b s : create_ok s → create_ok (set_retry b s).
Proof. by intros []. Qed.
Lemma set_cerr_ok e s : create_ok s → create_ok (set_cerr e s).
Proof. by intros []. Qed.

Lemma hedge_ok s : create_ok s → returned s = None → create_ok (on_hedge s).
Proof.
  unfold on_hedge. intros. destruct (Nat.ltb_spec (started s) MaxAttempts); [by apply start_ok|done].
Qed.

(** The retry timer may be let go: either it starts an attempt, or one is
    pending. *)
Lemma hedge_alive s b : alive s → alive (on_hedge (set_retry b s)).
Proof.
  intros Ha. unfold on_hedge. fields.
  destruct (Nat.ltb_spec (started s) MaxAttempts); [apply start_alive|].
  intros Hr. fields. destruct (Ha Hr) as [?|[? ?]]; [by left|lia].
Qed.

(** An attempt that leaves the flight changes no invariant. *)
Lemma take_ok s i : create_ok s → create_ok (set_inflight (delete i (inflight s)) s).
Proof.
  intros [H1 H2 H3 H4 H5 H6 H7]. split; fields; try done.
  - etrans; [|done]. apply sublist_length, sublist_delete.
  - intros ?%list_elem_of_delete_inv. auto.
  - intros ?%list_elem_of_delete_inv. auto.
  - intros ? ?%list_elem_of_delete_inv. auto.
  - intros Hs Hd. destruct (H6 Hs Hd) as [-> | ->]; destruct i; auto.
Qed.

Lemma return_ok s d e :
  create_ok s →
  (e = None → is_Some (document s) ∧ (d = true → document s = Some false ∧ started s = 1%nat)) →
  create_ok (return_ d e s).
Proof. intros [] He. split; fields; try done. intros d' [= <- ?]. auto. Qed.

Lemma transient_ok s answer :
  create_ok s → answer ≠ None → create_ok (on_transient answer s).
Proof.
  intros H Hn. unfold on_transient. repeat case_match.
  - by apply set_retry_ok, set_cerr_ok.
  - apply return_ok; [by apply set_cerr_ok|]. by intros ?%Hn.
  - by apply set_cerr_ok.
Qed.

Lemma transient_alive s answer : alive (on_transient answer s).
Proof.
  unfold on_transient, alive. fields.
  destruct (ctx_done s); cbn [negb andb].
  - destruct (Nat.eqb_spec (length (inflight s)) 0); fields; [done|left; lia].
  - destruct (Nat.ltb_spec (started s) MaxAttempts); fields; [by right|].
    destruct (Nat.eqb_spec (length (inflight s)) 0); fields; [done|left; lia].
Qed.

Lemma result_ok s i a answer :
  create_ok s → inflight s !! i = Some a → answers a answer →
  create_ok (on_result answer (set_inflight (delete i (inflight s)) s)).
Proof.
  intros H Hi Ha. pose proof (take_ok s i H) as Ht. pose proof (list_elem_of_lookup_2 _ _ _ Hi) as Hin.
  unfold on_result. unfold answers in Ha.
  destruct (status_code answer) eqn:Ec;
    try (by apply transient_ok; [|intros ->]); try (apply return_ok; [done|]; by intros ->).
  - apply return_ok; [done|]. intros _. subst a. split; [|done]. fields. rewrite ok_landed by done. done.
  - apply return_ok; [done|]. intros _. subst a. fields. split; [by apply ok_existed|].
    intros ?%Nat.eqb_eq. split; [by apply ok_single|done].
Qed.

Lemma result_alive s answer : alive (on_result answer s).
Proof. unfold on_result. destruct (status_code answer); try done; apply transient_alive. Qed.

(** An attempt that is executed. *)
Lemma exec_ok s i x d :
  create_ok s → returned s = None → inflight s !! i = Some Sent →
  (document s = None ∧ x = Landed ∧ d = Some true ∨
   is_Some (document s) ∧ x = Existed ∧ d = document s) →
  create_ok (set_document d (set_inflight (<[i := x]> (inflight s)) s)).
Proof.
  intros [H1 H2 H3 H4 H5 H6 H7] Hr Hi Hd. split; fields; rewrite ?length_insert; try done; try congruence.
  - intros [Hx|Hin]%elem_of_insert_list; [naive_solver|]. apply H3 in Hin. naive_solver.
  - intros [Hx|Hin]%elem_of_insert_list; [naive_solver|]. apply H4 in Hin. naive_solver.
  - intros Hs Hin. destruct (singleton_lookup (inflight s) i Sent ltac:(lia) Hi) as [Hl ->]. rewrite Hl in *.
    apply list_elem_of_singleton in Hin as <-. destruct Hd as [(?&?&?)|([b Hb]&_&->)]; [done|].
    destruct b; [|done]. destruct (H6 Hs Hb); done.
  - intros Hs ->. destruct (singleton_lookup (inflight s) i Sent ltac:(lia) Hi) as [Hl ->]. rewrite Hl in *.
    destruct Hd as [(?&->&?)|(?&?&Hb)]; [by left|]. destruct (H6 Hs (eq_sym Hb)); done.
Qed.

Lemma other_ok s : create_ok s → document s = None → create_ok (set_document (Some false) s).
Proof.
  intros [H1 H2 H3 H4 H5 H6 H7] Hd. split; fields; try done.
  - intros Hin%H3. congruence.
  - intros d Hdr. destruct (H7 d Hdr) as [[? ?] _]. congruence.
Qed.

Lemma create_step_ok s s' : create_ok s → create_step s s' → create_ok s'.
Proof.
  intros H Hs. destruct Hs.
  - apply (exec_ok s i Landed); auto.
  - assert (s = set_document (document s) s) as E by (by destruct s).
    change (create_ok (set_document (document s) (set_inflight (<[i:=Existed]> (inflight s)) s))).
    apply exec_ok; eauto.
  - by apply other_ok.
  - by eapply result_ok.
  - by apply hedge_ok.
  - apply hedge_ok; [by apply set_retry_ok|done].
  - by destruct H.
  - apply return_ok; [done|]. by destruct (cerr s).
Qed.

Lemma create_step_alive s s' : alive s → create_step s s' → alive s'.
Proof.
  intros H Hs. destruct Hs.
  - unfold alive in *. fields. rewrite length_insert. done.
  - unfold alive in *. fields. rewrite length_insert. done.
  - done.
  - apply result_alive.
  - replace s with (set_retry (retry s) s) by (by destruct s). by apply hedge_alive.
  - by apply hedge_alive.
  - done.
  - done.
Qed.

Lemma creating_ok existed s : creating existed s → create_ok s ∧ alive s.
Proof.
  induction 1 as [|s s' _ [IH1 IH2] Hs].
  - split; [apply create_init_ok|apply start_alive].
  - split; [by eapply create_step_ok|by eapply create_step_alive].
Qed.

(** The document's writer never changes, and a document that was there before
    the call is not this call's. *)
Lemma creating_existed existed s :
  creating existed s → existed = true → document s = Some false.
Proof.
  induction 1 as [|s s' H IH Hs]; intros ->; [done|]. specialize (IH eq_refl).
  destruct Hs; fields; try congruence; try done.
  - unfold on_result, on_transient. by repeat case_match.
  - unfold on_hedge. by case_match.
  - unfold on_retry, on_hedge. by case_match.
Qed.

(** [duplicate] comes with a nil error. *)
Lemma creating_duplicate existed s e :
  creating existed s → returned s = Some (true, e) → e = None.
Proof.
  induction 1 as [|s s' H IH Hs]; [done|].
  destruct Hs; fields; try done; try congruence.
  - unfold on_result, on_transient. repeat case_match; fields; congruence.
  - unfold on_hedge. case_match; fields; congruence.
  - unfold on_retry, on_hedge. case_match; fields; congruence.
Qed.

(** C7. Create is sound and never wedges: it starts at most three attempts; a
    nil error means the document exists; [duplicate] means that another writer
    created it, before any second attempt of this call; and until it returns,
    an attempt is in flight or the retry timer is set with an attempt left. *)
Theorem create_sound existed s :
  creating existed s →
  (1 <= started s <= MaxAttempts)%nat ∧
  (∀ d, returned s = Some (d, None) → is_Some (document s)) ∧
  (∀ e, returned s = Some (true, e) → document s = Some false ∧ started s = 1%nat) ∧
  (returned s = None →
     (0 < pending_attempts s)%nat ∨ (retry s = true ∧ (started s < MaxAttempts)%nat)).
Proof.
  intros H. destruct (creating_ok _ _ H) as [Hok Ha]. split; [apply Hok|]. split_and!.
  - intros d Hd. exact (proj1 (ok_ret s Hok d Hd)).
  - intros e He. rewrite (creating_duplicate _ _ _ H He) in He. by apply (ok_ret s Hok true He).
  - exact Ha.
Qed.

(** The first attempt stalls, a second starts after the hedge and creates the
    document, and then the first finds it there: not a duplicate. *)
Definition hedged_run : create_state :=
  CreateState 2 [Landed] None false (Some true) false (Some (false, None)).

Lemma hedged_run_creating : creating false hedged_run.
Proof.
  eapply creating_step;
    [|apply (cs_answer (CreateState 2 [Existed; Landed] None false (Some true) false None) 0 Existed
              (Some (ErrStatus AlreadyExists))); reflexivity].
  eapply creating_step;
    [|apply (cs_exists (CreateState 2 [Sent; Landed] None false (Some true) false None) 0 true);
       reflexivity].
  eapply creating_step;
    [|apply (cs_land (CreateState 2 [Sent; Sent] None false None false None) 1); reflexivity].
  eapply creating_step;
    [|apply (cs_hedge (CreateState 1 [Sent] None false None false None)); reflexivity].
  apply (creating_init false).
Qed.

Lemma create_sound_witness :
  returned hedged_run = Some (false, None) ∧ is_Some (document hedged_run).
Proof.
  destruct (create_sound false hedged_run hedged_run_creating) as (_ & H & _).
  split; [reflexivity|]. apply (H false). reflexivity.
Defined.

(** ** Counters *)

Inductive Outcome := Created | Duplicate | Failed | Skipped.

#[export] Instance Outcome_eq_dec : EqDecision Outcome.
Proof. solve_decision. Defined.

(** The text of an outcome, by which keys are compared. *)
Definition outcome_text (o : Outcome) : string :=
  match o with
  | Created => "created" | Duplicate => "duplicate" | Failed => "failed" | Skipped => "skipped"
  end.

Definition OutcomeOf (err : option error) : Outcome :=
  match err with
  | None => Created
  | Some e => if decide (status_code (Some e) = AlreadyExists) then Duplicate else Failed
  end.

(** [key{provider, kind, outcome}]. *)
Abbreviation key := (string * string * string)%type (only parsing).
Definition mk_key (provider kind : string) (o : Outcome) : key := (provider, kind, outcome_text o).

Abbreviation counters := (gmap key Z) (only parsing).

Definition Add (k : key) (c : counters) : counters :=
  <[k := wrap64 (default 0 (c !! k) + 1)]> c.

(** The comparison of [sort.Slice]. *)
Definition key_less (a b : key) : bool :=
  let '(ap, ak, ao) := a in
  let '(bp, bk, bo) := b in
  if negb (String.eqb ap bp) then String.ltb ap bp
  else if negb (String.eqb ak bk) then String.ltb ak bk
  else String.ltb ao bo.

(** Insertion sort, in place of [sort.Slice]: the keys are distinct, so every
    sort gives the same order. *)
Fixpoint insert_key (p : key * Z) (l : list (key * Z)) : list (key * Z) :=
  match l with
  | [] => [p]
  | q :: l' => if key_less p.1 q.1 then p :: l else q :: insert_key p l'
  end.
Definition sort_keys (l : list (key * Z)) : list (key * Z) := foldr insert_key [] l.

(** [Flush]: the entries logged, and the counters left. *)
Definition Flush (c : counters) : list (key * Z) * counters :=
  (sort_keys (map_to_list c), ∅).

(** What happens to a set of counters. *)
Inductive metric := Recorded (k : key) | Flushed.

(** The counters and all entries logged so far. *)
Definition metric_step (s : counters * list (key * Z)) (m : metric) : counters * list (key * Z) :=
  match m with
  | Recorded k => (Add k s.1, s.2)
  | Flushed => let '(l, c) := Flush s.1 in (c, s.2 ++ l)
  end.
Definition metric_run (l : list metric) : counters * list (key * Z) :=
  foldl metric_step (∅, []) l.

Fixpoint records (k : key) (l : list metric) : Z :=
  match l with
  | [] => 0
  | Recorded k' :: l => (if decide (k' = k) then 1 else 0) + records k l
  | Flushed :: l => records k l
  end.
(** The total logged for a key. *)
Fixpoint logged (k : key) (l : list (key * Z)) : Z :=
  match l with
  | [] => 0
  | (k', n) :: l => (if decide (k' = k) then n else 0) + logged k l
  end.

Lemma insert_key_perm p l : insert_key p l ≡ₚ p :: l.
Proof.
  induction l as [|q l IH]; cbn; [done|]. case_match; [done|]. rewrite IH. constructor.
Qed.
Lemma sort_keys_perm l : sort_keys l ≡ₚ l.
Proof. induction l as [|p l IH]; cbn; [done|]. by rewrite insert_key_perm, IH. Qed.

Lemma logged_perm k l l' : l ≡ₚ l' → logged k l = logged k l'.
Proof. induction 1 as [|[] ??? IH|[] []|]; cbn; try lia. Qed.
Lemma logged_app k l l' : logged k (l ++ l') = logged k l + logged k l'.
Proof. induction l as [|[] l IH]; cbn; lia. Qed.

Lemma logged_not_in k l : k ∉ l.*1 → logged k l = 0.
Proof.
  induction l as [|[k' n] l IH]; cbn; [done|]. intros [? ?]%not_elem_of_cons.
  rewrite decide_False, IH by congruence. done.
Qed.

Lemma logged_map (k : key) (c : counters) : logged k (map_to_list c) = default 0 (c !! k).
Proof.
  induction c as [|k' n c Hk IH] using map_ind; [by rewrite map_to_list_empty, lookup_empty|].
  rewrite (logged_perm _ _ _ (map_to_list_insert c k' n Hk)). cbn. rewrite IH.
  case_decide as Hd; [subst; rewrite lookup_insert_eq, Hk; cbn; lia|].
  rewrite lookup_insert_ne by done. lia.
Qed.

Lemma records_app k l l' : records k (l ++ l') = records k l + records k l'.
Proof. induction l as [|[] l IH]; cbn; lia. Qed.
Lemma records_bound k l : 0 <= records k l <= Z.of_nat (length l).
Proof. induction l as [|[] l IH]; cbn; try case_decide; lia. Qed.

Lemma add_lookup (k k' : key) (c : counters) :
  0 <= default 0 (c !! k) < max_int64 →
  default 0 (Add k' c !! k) = default 0 (c !! k) + (if decide (k' = k) then 1 else 0).
Proof.
  intros Hb. unfold Add. case_decide as Hd.
  - subst. rewrite lookup_insert_eq. cbn. apply wrap64_id. unfold in_int64, min_int64, max_int64 in *.
    apply andb_true_iff. split; apply Z.leb_le; lia.
  - rewrite lookup_insert_ne by done. lia.
Qed.

Lemma metric_run_inv (k : key) (l : list metric) :
  Z.of_nat (length l) <= max_int64 →
  let '(c, out) := metric_run l in
  logged k out + default 0 (c !! k) = records k l ∧ 0 <= default 0 (c !! k) ∧ 0 <= logged k out.
Proof.
  induction l as [|m l IH] using rev_ind; [done|].
  rewrite length_app. cbn. intros Hl. unfold metric_run in *. rewrite foldl_app, records_app. cbn.
  destruct (foldl metric_step (∅, []) l) as [c out]. destruct IH as (IH1 & IH2 & IH3); [lia|].
  pose proof (records_bound k l). destruct m as [k'|]; cbn.
  - rewrite add_lookup by lia. case_decide; lia.
  - rewrite lookup_empty. cbn.
    rewrite logged_app, (logged_perm _ _ _ (sort_keys_perm _)), logged_map. lia.
Qed.

(** The order of the log. *)
Definition key_lt (p q : key * Z) : Prop := key_less p.1 q.1 = true.

Lemma key_less_total a b : key_less a b = false → key_less b a = false → a = b.
Proof.
  destruct a as [[ap ak] ao], b as [[bp bk] bo]. cbn.
  rewrite (string_eqb_sym bp ap), (string_eqb_sym bk ak).
  destruct (String.eqb_spec ap bp) as [->|Hp]; cbn.
  - destruct (String.eqb_spec ak bk) as [->|Hk]; cbn; intros H1 H2.
    + by rewrite (string_ltb_total ao bo).
    + by rewrite (string_ltb_total ak bk) in Hk.
  - intros H1 H2. by rewrite (string_ltb_total ap bp) in Hp.
Qed.

(** [key_less] as a proposition. *)
Lemma key_less_iff a b :
  key_less a b = true ↔
  String.ltb a.1.1 b.1.1 = true ∨
  a.1.1 = b.1.1 ∧ (String.ltb a.1.2 b.1.2 = true ∨ a.1.2 = b.1.2 ∧ String.ltb a.2 b.2 = true).
Proof.
  destruct a as [[ap ak] ao], b as [[bp bk] bo]. cbn.
  destruct (String.eqb_spec ap bp) as [->|Hp]; cbn.
  - rewrite string_ltb_irrefl. destruct (String.eqb_spec ak bk) as [->|Hk]; cbn.
    + rewrite string_ltb_irrefl. naive_solver.
    + naive_solver.
  - naive_solver.
Qed.

Lemma key_less_trans a b c : key_less a b = true → key_less b c = true → key_less a c = true.
Proof.
  rewrite !key_less_iff. intros [H|[-> H]] [H'|[H0 H']].
  - left. by eapply string_ltb_trans.
  - left. by rewrite <-H0.
  - by left.
  - right. split; [done|]. destruct H as [H|[-> H]], H' as [H'|[H1 H']].
    + left. by eapply string_ltb_trans.
    + left. by rewrite <-H1.
    + by left.
    + right. split; [done|]. by eapply string_ltb_trans.
Qed.

Lemma insert_key_sorted p l :
  p.1 ∉ l.*1 → StronglySorted key_lt l → StronglySorted key_lt (insert_key p l).
Proof.
  intros Hp Hs. induction Hs as [|q l Hs IH Hall]; cbn; [repeat constructor|].
  apply not_elem_of_cons in Hp as [Hne Hp].
  destruct (key_less p.1 q.1) eqn:E.
  - constructor; [by constructor|]. constructor; [done|].
    eapply Forall_impl; [done|]. intros r Hr. by eapply key_less_trans.
  - constructor; [by apply IH|]. rewrite insert_key_perm. constructor; [|done].
    unfold key_lt. destruct (key_less q.1 p.1) eqn:E'; [done|]. by destruct Hne; apply key_less_total.
Qed.

Lemma sort_keys_sorted l : NoDup l.*1 → StronglySorted key_lt (sort_keys l).
Proof.
  induction l as [|p l IH]; cbn; [constructor|]. intros [Hn Hd]%NoDup_cons.
  apply insert_key_sorted; [|by apply IH]. by rewrite sort_keys_perm.
Qed.

(** Nothing recorded is lost or counted twice: for every key, what all
    flushes logged plus what is still counted is the number of records, as long
    as there are fewer than 2^63; and a flush logs each key once, in order. *)
Theorem counters_conserved (l : list metric) (k : key) (c : counters) :
  Z.of_nat (length l) <= max_int64 →
  logged k (metric_run l).2 + default 0 ((metric_run l).1 !! k) = records k l ∧
  StronglySorted key_lt (Flush c).1 ∧ (Flush c).1 ≡ₚ map_to_list c.
Proof.
  intros Hl. pose proof (metric_run_inv k l Hl) as H. destruct (metric_run l).
  split; [apply H|]. split; [|apply sort_keys_perm].
  apply sort_keys_sorted, NoDup_fst_map_to_list.
Qed.

Definition chat_key : key := mk_key "twitch" "message" Created.

Lemma counters_conserved_witness :
  logged chat_key (metric_run [Recorded chat_key; Flushed; Recorded chat_key]).2 = 1 ∧
  logged chat_key (metric_run [Recorded chat_key; Flushed; Recorded chat_key]).2 +
    default 0 ((metric_run [Recorded chat_key; Flushed; Recorded chat_key]).1 !! chat_key) = 2.
Proof.
  split; [reflexivity|].
  apply (counters_conserved [Recorded chat_key; Flushed; Recorded chat_key] chat_key ∅).
  vm_compute. discriminate.
Defined.
