(* ===== verification/Store.v ===== *)
(** * Documents and leases as effects

    Firestore documents as the code reads and writes them, and the database
    operations the components share as one family of effects: reads, writes,
    queries, transactions (run again when the commit is aborted) and the
    leases of Lease.v seen from a caller of subscriptionlock, with what it
    means to act under one ([under]). *)

From stdpp Require Import base gmap strings list.
From S2P Require Import Prelude GoErr Effects.
From S2P Require Lease.

(** A field value: what the client decodes a stored value into, and the
    sentinels of a write (the time of the commit, a deletion, an increment). A float64 is kept as its shortest decimal text,
    which determines it. A map is an association list without duplicates. *)
Inductive value :=
  | VNull
  | VBool (b : bool)
  | VInt (z : Z)
  | VFloat (text : string)
  | VString (s : string)
  | VTime (t : time)
  | VList (l : list value)
  | VMap (l : list (string * value))
  | VServerTimestamp
  | VDelete
  | VIncrement (z : Z).

Abbreviation doc := (list (string * value)) (only parsing).

(** Reading a Go map: an absent key is nil. *)
Fixpoint field (d : doc) (k : string) : value :=
  match d with
  | [] => VNull
  | (k', v) :: d => if String.eqb k' k then v else field d k
  end.

Definition is_nil (v : value) : bool := match v with VNull => true | _ => false end.

Inductive db : Type → Type :=
  | Get (path : string) : db (result doc)
  | Set_ (path : string) (data : doc) (merge : bool) : db (option error)
  | Create (path : string) (data : doc) : db (option error)
  | Update (path : string) (data : doc) : db (option error)
  | Remove (path : string) : db (option error)
  | Query (collection : string) (where_ : list (string * string * value)) (limit : Z) :
      db (result (list (string * doc)))
  | TxGet (path : string) : db (result doc)
  | TxSet (path : string) (data : doc) (merge : bool) : db (option error)
  | TxDelete (path : string) : db (option error)
  | Commit : db (option error)
  (* the lease of [key]: None when work may run, else why it does not *)
  | Acquire (key job : string) (beside : list string) (wait : option duration) : db (option error)
  (* work returned this; the answer is the error of its bounded context *)
  | Worked (key : string) (err : option error) : db (option error).

(** [ServerTimestamp] marks the time of the commit. *)
Definition touch : doc := [("lastActiveAt", VServerTimestamp)].

Section Store.
Context {E : Type → Type} {S : Type} (η : env E) (Db : ∀ A, db A → E A).
Local Abbreviation M := (M (world E S)).

Definition db_ {A} (op : db A) : M A := ask η (Db A op).

(** A write whose only result is an error. *)
Definition exec (op : db (option error)) : M (result unit) :=
  e ← db_ op; match e with Some e => throw e | None => ok tt end.

Lemma exec_run op w :
  exec op w = (match η _ (w_tr w) (Db _ op) with Some e => inl e | None => inr tt end,
               World (Ev (Db _ op) (η _ (w_tr w) (Db _ op)) :: w_tr w) (w_st w)).
Proof. unfold exec, db_. rewrite M_bind_run. cbn. by destruct (η _ _ _). Qed.

(** [db.RunTransaction]: the client runs the function again when the commit
    was aborted by contention, five attempts in all. *)
Fixpoint run_transaction {A} (n : nat) (f : M (result A)) : M (result A) :=
  match n with
  | O => throw (ErrStatus Aborted)
  | Datatypes.S n =>
    r ← f;
    match r with
    | inl e => throw e
    | inr a =>
      c ← db_ Commit;
      match c with
      | None => ok a
      | Some e => if decide (status_code (Some e) = Aborted) then
                    match n with O => throw e | _ => run_transaction n f end
                  else throw e
      end
    end
  end.

Definition RunTransaction {A} : M (result A) → M (result A) := run_transaction 5.

(** [subscriptionlock.With] and its variants around [work]: work that ran
    without error returns its context's error, as Lease.work_result has it. *)
Definition locked {A} (key job : string) (beside : list string) (wait : option duration)
    (work : M (result A)) : M (result A) :=
  exec (Acquire key job beside wait) ;?
  r ← work;
  match r with
  | inl e => b ← db_ (Worked key (Some e)); throw e
  | inr a => b ← db_ (Worked key None); match b with Some e => throw e | None => ok a end
  end.

(** Under the lease of [key]: it was granted, the work it was granted for is
    not over, and [F] holds of what happened since. *)
Definition under (key job : string) (beside : list string) (wait : option duration)
    (F : trace E → Prop) : trace E → Prop :=
  since (Ev (Db _ (Acquire key job beside wait)) None)
    (λ u, (∀ o b, Ev (Db _ (Worked key o)) b ∉ u) ∧ F u).

Lemma frame_under (K : ev E → Prop) key job beside wait :
  (∀ o b, ¬ K (Ev (Db _ (Worked key o)) b)) → frame K (under key job beside wait).
Proof.
  intros HK. unfold under. apply (frame_comp K _ (λ F u, (∀ o b, Ev (Db _ (Worked key o)) b ∉ u) ∧ F u));
    [apply frame_since|]. apply frame_and; [|apply frame_id].
  intros e t He Ht o b [Heq|Hin]%elem_of_cons; [|by apply (Ht o b)]. subst e. by apply (HK o b).
Qed.
Lemma under_here key job beside wait (F : trace E → Prop) t :
  F [] → under key job beside wait F (Ev (Db _ (Acquire key job beside wait)) None :: t).
Proof. intros HF. apply since_here. split; [|done]. by intros o b ?%elem_of_nil. Qed.

Lemma runs_db {A} P (F : trace E → Prop) (op : db A) Q :
  (∀ t a, F t → P t (Ev (Db A op) a) ∧ Q a (Ev (Db A op) a :: t)) →
  runs (S:=S) P F (db_ op) Q.
Proof. intros H. apply runs_ask. intros t Ht. by apply H. Qed.

Lemma runs_exec P (F : trace E → Prop) (op : db (option error)) (Q : result unit → trace E → Prop) :
  (∀ t, F t → P t (Ev (Db _ op) None) ∧ Q (inr tt) (Ev (Db _ op) None :: t)) →
  (∀ t e, F t → P t (Ev (Db _ op) (Some e)) ∧ Q (inl e) (Ev (Db _ op) (Some e) :: t)) →
  runs (S:=S) P F (exec op) Q.
Proof.
  intros H1 H2. eapply (runs_bind _ _ _ (λ a t, Q (match a with None => inr tt | Some e => inl e end) t)).
  - apply runs_db. intros t [e|] Ht; auto.
  - intros [e|]; by apply runs_ret.
Qed.

Lemma runs_transaction {A} P (F : trace E → Prop) (f : M (result A)) (Q : result A → trace E → Prop) R :
  runs P F f R →
  (∀ e t, R (inl e) t → Q (inl e) t) →
  (∀ a t c, R (inr a) t → P t (Ev (Db _ Commit) c)) →
  (∀ a t, R (inr a) t → Q (inr a) (Ev (Db _ Commit) None :: t)) →
  (∀ a t e, R (inr a) t → F (Ev (Db _ Commit) (Some e) :: t) ∧ Q (inl e) (Ev (Db _ Commit) (Some e) :: t)) →
  (∀ t, F t → Q (inl (ErrStatus Aborted)) t) →
  runs P F (RunTransaction f) Q.
Proof.
  intros Hf He Hp Hq Hr Hz. unfold RunTransaction. generalize 5%nat as n.
  induction n as [|n IH]; cbn; [by apply runs_ret|].
  eapply runs_bind; [apply Hf|]. intros [e|a]; [by apply runs_ret; auto|].
  eapply (runs_bind _ _ _ (λ c t, match c with None => Q (inr a) t | Some e => F t ∧ Q (inl e) t end)).
  { apply runs_db. intros t [c|] Ht; split; eauto. }
  intros [e|]; [|by apply runs_ret]. case_decide; [|apply runs_ret; naive_solver].
  destruct n; [apply runs_ret; naive_solver|]. eapply runs_conseq; [apply IH| |done]. naive_solver.
Qed.

Lemma runs_locked {A} P (F : trace E → Prop) key job beside wait (work : M (result A)) Fw R Q :
  (∀ t, F t → P t (Ev (Db _ (Acquire key job beside wait)) None) ∧
              Fw (Ev (Db _ (Acquire key job beside wait)) None :: t)) →
  (∀ t e, F t → P t (Ev (Db _ (Acquire key job beside wait)) (Some e)) ∧
                Q (inl e) (Ev (Db _ (Acquire key job beside wait)) (Some e) :: t)) →
  runs P Fw work R →
  (∀ r t b, R r t → let o := match r with inl e => Some e | inr _ => None end in
     P t (Ev (Db _ (Worked key o)) b) ∧
     Q (match r, b with inr _, Some e => inl e | _, _ => r end) (Ev (Db _ (Worked key o)) b :: t)) →
  runs P F (locked key job beside wait work) Q.
Proof.
  intros Ha He Hw Hr. unfold locked.
  apply runs_bindE with (λ r t, match r with inl e => Q (inl e) t | inr _ => Fw t end).
  - by apply runs_exec.
  - done.
  - intros []. eapply runs_bind; [apply Hw|]. intros [e|a].
    + eapply (runs_bind _ _ _ (λ _ t, Q (inl e) t)); [|intros; by apply runs_ret].
      apply runs_db. intros t b Ht. apply (Hr _ _ b Ht).
    + eapply (runs_bind _ _ _ (λ b t, Q (match b with Some e => inl e | None => inr a end) t)).
      * apply runs_db. intros t b Ht. apply (Hr _ _ b Ht).
      * intros [e|]; by apply runs_ret.
Qed.
End Store.
