(* ===== verification/JsonText.v ===== *)
(** * JSON text

    What [json.Unmarshal] and [json.Valid] read: the grammar of encoding/json
    on bytes, into the values of Json.v (numbers as text). Bytes of a string
    that are not UTF-8 become U+FFFD, as do unpaired surrogate escapes; nesting
    beyond 10000 is an error. Also the decoding of a value into
    [interface{}], where numbers become float64. *)

From stdpp Require Import base gmap strings list.
From Stdlib Require Import Ascii.
From S2P Require Import Prelude GoErr Sha256 Float64 Json Effects Store.

Definition byte_of (z : Z) : ascii := ascii_of_nat (Z.to_nat z).
Definition code_of (a : ascii) : Z := Z.of_nat (nat_of_ascii a).
Definition between (lo hi : Z) (a : ascii) : bool := (lo <=? code_of a) && (code_of a <=? hi).

(** ** UTF-8 *)

Definition utf8_encode (r : Z) : string :=
  let tail k := byte_of (128 + Z.land (Z.shiftr r k) 63) in
  if r <? 128 then String (byte_of r) ""
  else if r <? 2048 then String (byte_of (192 + Z.shiftr r 6)) (String (tail 0) "")
  else if r <? 65536 then
    String (byte_of (224 + Z.shiftr r 12)) (String (tail 6) (String (tail 0) ""))
  else String (byte_of (240 + Z.shiftr r 18)) (String (tail 12) (String (tail 6) (String (tail 0) ""))).

Definition rune_error : Z := 65533.

Definition cont : ascii → bool := between 128 191.

(** The bytes of the rune a string starts with: 0 when it is not UTF-8. *)
Definition rune_len (s : string) : nat :=
  match s with
  | EmptyString => 0%nat
  | String a s =>
    if between 0 127 a then 1%nat
    else
      match s with
      | EmptyString => 0%nat
      | String b s =>
        if between 194 223 a then if cont b then 2%nat else 0%nat
        else
          match s with
          | EmptyString => 0%nat
          | String c s =>
            if between 224 239 a then
              let lo := if code_of a =? 224 then 160 else 128 in
              let hi := if code_of a =? 237 then 159 else 191 in
              if between lo hi b && cont c then 3%nat else 0%nat
            else
              match s with
              | EmptyString => 0%nat
              | String d _ =>
                if between 240 244 a then
                  let lo := if code_of a =? 240 then 144 else 128 in
                  let hi := if code_of a =? 244 then 143 else 191 in
                  if between lo hi b && cont c && cont d then 4%nat else 0%nat
                else 0%nat
              end
          end
      end
  end.

(** ** Strings *)

Definition hex_value (a : ascii) : option Z :=
  if is_digit a then Some (code_of a - 48)
  else if between 97 102 a then Some (code_of a - 87)
  else if between 65 70 a then Some (code_of a - 55)
  else None.

Definition u4 (s : string) : option (Z * string) :=
  match s with
  | String a (String b (String c (String d s))) =>
    w ← hex_value a; x ← hex_value b; y ← hex_value c; z ← hex_value d;
    Some (((w * 16 + x) * 16 + y) * 16 + z, s)
  | _ => None
  end.

Definition is_surrogate (r : Z) : bool := (55296 <=? r) && (r <? 57344).

(** The low half of a pair that follows as an escape. *)
Definition low_half (r : Z) (s : string) : option (Z * string) :=
  match s with
  | String a (String b s) =>
    if Ascii.eqb a "\"%char && Ascii.eqb b "u"%char then
      match u4 s with
      | Some (r', s') =>
        if (r <? 56320) && (56320 <=? r') && (r' <? 57344)
        then Some ((r - 55296) * 1024 + (r' - 56320) + 65536, s') else None
      | None => None
      end
    else None
  | _ => None
  end.

(** An escape, after its backslash: the text it stands for. *)
Definition escape (s : string) : option (string * string) :=
  match s with
  | EmptyString => None
  | String a s =>
    let n := code_of a in
    if (n =? 34) || (n =? 92) || (n =? 47) then Some (String a "", s)
    else if n =? 98 then Some (String (byte_of 8) "", s)
    else if n =? 102 then Some (String (byte_of 12) "", s)
    else if n =? 110 then Some (String (byte_of 10) "", s)
    else if n =? 114 then Some (String (byte_of 13) "", s)
    else if n =? 116 then Some (String (byte_of 9) "", s)
    else if n =? 117 then
      match u4 s with
      | None => None
      | Some (r, s) =>
        if is_surrogate r then
          match low_half r s with
          | Some (r, s) => Some (utf8_encode r, s)
          | None => Some (utf8_encode rune_error, s)
          end
        else Some (utf8_encode r, s)
      end
    else None
  end.

(** The rest of a string after its opening quote; one step per rune. *)
Fixpoint string_body (fuel : nat) (s : string) : option (string * string) :=
  match fuel, s with
  | S fuel, String a s' =>
    let n := code_of a in
    if n =? 34 then Some (EmptyString, s')
    else if n <? 32 then None
    else if n =? 92 then
      '(t, s') ← escape s'; '(u, s') ← string_body fuel s'; Some (t +:+ u, s')
    else
      match rune_len s with
      | O => '(u, s') ← string_body fuel s'; Some (utf8_encode rune_error +:+ u, s')
      | k => '(u, s') ← string_body fuel (drop_str k s); Some (String.substring 0 k s +:+ u, s')
      end
  | _, _ => None
  end.

Definition json_string (s : string) : option (string * string) := string_body (String.length s) s.

(** ** Numbers *)

Fixpoint digits (s : string) : string * string :=
  match s with
  | String a s' => if is_digit a then let '(d, r) := digits s' in (String a d, r) else (EmptyString, s)
  | EmptyString => (EmptyString, s)
  end.

Definition int_part (s : string) : option (string * string) :=
  match s with
  | String a s' =>
    if Ascii.eqb a "0"%char then Some ("0", s')
    else if is_digit a then Some (digits s) else None
  | EmptyString => None
  end.

Definition frac_part (s : string) : option (string * string) :=
  match s with
  | String a s' =>
    if Ascii.eqb a "."%char then
      let '(d, r) := digits s' in
      if String.eqb d "" then None else Some (String a d, r)
    else Some (EmptyString, s)
  | EmptyString => Some (EmptyString, s)
  end.

Definition exp_part (s : string) : option (string * string) :=
  match s with
  | String a s' =>
    if Ascii.eqb a "e"%char || Ascii.eqb a "E"%char then
      let '(sign, s') :=
        match s' with
        | String b s'' =>
          if Ascii.eqb b "+"%char || Ascii.eqb b "-"%char then (String b "", s'') else (EmptyString, s')
        | EmptyString => (EmptyString, s')
        end in
      let '(d, r) := digits s' in
      if String.eqb d "" then None else Some (String a (sign +:+ d), r)
    else Some (EmptyString, s)
  | EmptyString => Some (EmptyString, s)
  end.

Definition number (s : string) : option (json * string) :=
  let '(sign, s) := if has_prefix s "-" then ("-", drop_str 1 s) else ("", s) in
  '(i, s) ← int_part s; '(f, s) ← frac_part s; '(e, s) ← exp_part s;
  Some (JNum (sign +:+ i +:+ f +:+ e), s).

(** ** Values *)

Fixpoint skip_ws (s : string) : string :=
  match s with
  | String a s' =>
    let n := code_of a in
    if (n =? 32) || (n =? 9) || (n =? 10) || (n =? 13) then skip_ws s' else s
  | EmptyString => s
  end.

Definition literal (s : string) : option (json * string) :=
  if has_prefix s "null" then Some (JNull, drop_str 4 s)
  else if has_prefix s "true" then Some (JBool true, drop_str 4 s)
  else if has_prefix s "false" then Some (JBool false, drop_str 5 s)
  else number s.

Definition maxNestingDepth : Z := 10000.

(** A value at nesting [depth], its text beginning at its first character.
    [pend] is the value of what stands before a comma or the closing
    character: the elements of an array, the members of an object. *)
Fixpoint json_value (fuel : nat) (depth : Z) (s : string) : option (json * string) :=
  match fuel with
  | O => None
  | S fuel =>
    match s with
    | EmptyString => None
    | String a s' =>
      let n := code_of a in
      if n =? 34 then '(t, s) ← json_string s'; Some (JStr t, s)
      else if n =? 91 then
        if maxNestingDepth <=? depth then None
        else
          match skip_ws s' with
          | String b r => if code_of b =? 93 then Some (JArr [], r)
                          else '(l, r) ← json_elems fuel (depth + 1) (String b r); Some (JArr l, r)
          | EmptyString => None
          end
      else if n =? 123 then
        if maxNestingDepth <=? depth then None
        else
          match skip_ws s' with
          | String b r => if code_of b =? 125 then Some (JObj [], r)
                          else '(l, r) ← json_members fuel (depth + 1) (String b r); Some (JObj l, r)
          | EmptyString => None
          end
      else literal s
    end
  end
with json_elems (fuel : nat) (depth : Z) (s : string) : option (list json * string) :=
  match fuel with
  | O => None
  | S fuel =>
    '(v, r) ← json_value fuel depth s;
    match skip_ws r with
    | String b r =>
      if code_of b =? 93 then Some ([v], r)
      else if code_of b =? 44 then '(l, r) ← json_elems fuel depth (skip_ws r); Some (v :: l, r)
      else None
    | EmptyString => None
    end
  end
with json_members (fuel : nat) (depth : Z) (s : string) : option (list (string * json) * string) :=
  match fuel, s with
  | S fuel, String q s' =>
    if code_of q =? 34 then
      '(k, r) ← json_string s';
      match skip_ws r with
      | String c r =>
        if code_of c =? 58 then
          '(v, r) ← json_value fuel depth (skip_ws r);
          match skip_ws r with
          | String b r =>
            if code_of b =? 125 then Some ([(k, v)], r)
            else if code_of b =? 44 then
              '(l, r) ← json_members fuel depth (skip_ws r); Some ((k, v) :: l, r)
            else None
          | EmptyString => None
          end
        else None
      | EmptyString => None
      end
    else None
  | _, _ => None
  end.

(** Every step takes a character, but the step from an element list to its
    first value. *)
Definition parse_json (s : string) : option json :=
  let s := skip_ws s in
  match json_value (2 * String.length s + 2) 0 s with
  | Some (j, r) => if String.eqb (skip_ws r) "" then Some j else None
  | None => None
  end.

(** Quotes for examples: an apostrophe stands for a quotation mark. *)
Fixpoint quoted (s : string) : string :=
  match s with
  | EmptyString => EmptyString
  | String a s => String (if Ascii.eqb a "'"%char then byte_of 34 else a) (quoted s)
  end.

Example parse_example :
  parse_json (quoted " {'a': [1, -2.5e3, true, null, 'x\u00e9\n\ud83d\ude00'], 'b': {}, 'a' : 'last'} ") =
    Some (JObj [("a", JArr [JNum "1"; JNum "-2.5e3"; JBool true; JNull;
                            JStr ("x" +:+ utf8_encode 233 +:+ String (byte_of 10) "" +:+ utf8_encode 128512)]);
                ("b", JObj []); ("a", JStr "last")]) ∧
  parse_json "[]x" = None ∧ parse_json "[1,]" = None ∧ parse_json "01" = None ∧
  parse_json "[1, {}, [ ] , -2.5e3,true,null]" =
    Some (JArr [JNum "1"; JObj []; JArr []; JNum "-2.5e3"; JBool true; JNull]).
Proof. vm_compute. done. Qed.

(** ** The fuel of [parse_json] is enough *)

Abbreviation slen := String.length.

Lemma slen_drop n s : (slen (drop_str n s) <= slen s)%nat.
Proof. revert s. induction n as [|n IH]; intros [|a s]; cbn; [lia..|]. specialize (IH s). lia. Qed.
Lemma slen_skip s : (slen (skip_ws s) <= slen s)%nat.
Proof. induction s as [|a s IH]; cbn; [lia|]. destruct (_ || _); cbn; lia. Qed.
Lemma slen_digits s : (slen (digits s).2 <= slen s)%nat.
Proof.
  induction s as [|a s IH]; cbn; [lia|]. destruct (is_digit a); [|cbn; lia].
  destruct (digits s); cbn in *; lia.
Qed.

Lemma slen_u4 s r s' : u4 s = Some (r, s') → (slen s' <= slen s)%nat.
Proof.
  destruct s as [|a [|b [|c [|d s]]]]; cbn; try done.
  destruct (hex_value a), (hex_value b), (hex_value c), (hex_value d); cbn; try done.
  intros [= _ <-]. lia.
Qed.
Lemma slen_low_half r s r' s' : low_half r s = Some (r', s') → (slen s' <= slen s)%nat.
Proof.
  destruct s as [|a [|b s]]; cbn; try done. destruct (_ && _); [|done].
  destruct (u4 s) as [[r2 s2]|] eqn:E; [|done]. destruct (_ && _); [|done].
  intros [= _ <-]. apply slen_u4 in E. lia.
Qed.
Lemma slen_escape s t s' : escape s = Some (t, s') → (slen s' <= slen s)%nat.
Proof.
  destruct s as [|a s]; cbn; [done|].
  repeat (destruct (_ =? _); [intros [= _ <-]; lia|]); cbn.
  repeat (case_match; try done; simplify_eq);
    intros; simplify_eq; repeat match goal with
    | H : u4 _ = _ |- _ => apply slen_u4 in H
    | H : low_half _ _ = _ |- _ => apply slen_low_half in H end; lia.
Qed.
Lemma slen_string_body f s t s' : string_body f s = Some (t, s') → (slen s' < slen s)%nat.
Proof.
  revert s t s'. induction f as [|f IH]; intros s t s'; [done|].
  destruct s as [|a s]; [done|]. cbn -[rune_len drop_str String.substring escape].
  destruct (_ =? 34); [intros [= _ <-]; lia|]. destruct (_ <? 32); [done|].
  destruct (_ =? 92).
  - destruct (escape s) as [[t1 s1]|] eqn:E; cbn; [|done].
    destruct (string_body f s1) as [[t2 s2]|] eqn:E2; cbn; [|done].
    intros [= _ <-]. apply slen_escape in E. apply IH in E2. lia.
  - destruct (rune_len (String a s)) as [|k]; cbn -[String.substring].
    + destruct (string_body f s) as [[t2 s2]|] eqn:E2; cbn; [|done].
      intros [= _ <-]. apply IH in E2. lia.
    + destruct (string_body f _) as [[t2 s2]|] eqn:E2; cbn -[String.substring]; [|done].
      intros [= _ <-]. apply IH in E2. pose proof (slen_drop k s). lia.
Qed.
Lemma slen_json_string s t s' : json_string s = Some (t, s') → (slen s' < slen s)%nat.
Proof. apply slen_string_body. Qed.

Lemma slen_number s j s' : number s = Some (j, s') → (slen s' < slen s)%nat.
Proof.
  assert (∀ s t r, int_part s = Some (t, r) → (slen r < slen s)%nat) as Hi.
  { intros [|a u] t r; cbn; [done|]. destruct (Ascii.eqb a _); [intros [= _ <-]; lia|].
    destruct (is_digit a); [|done]. pose proof (slen_digits u).
    destruct (digits u). intros [= _ <-]. cbn in *. lia. }
  assert (∀ s t r, frac_part s = Some (t, r) → (slen r <= slen s)%nat) as Hf.
  { intros [|a u] t r; cbn; [by intros [= _ <-]; cbn|].
    destruct (Ascii.eqb a _); [|intros [= _ <-]; cbn; lia].
    pose proof (slen_digits u). destruct (digits u) as [d v].
    destruct (String.eqb d _); [done|]. intros [= _ <-]. cbn in *. lia. }
  assert (∀ s t r, exp_part s = Some (t, r) → (slen r <= slen s)%nat) as He.
  { intros [|a u] t r; cbn; [by intros [= _ <-]; cbn|].
    destruct (_ || _); [|intros [= _ <-]; cbn; lia].
    destruct (match u with EmptyString => _ | _ => _ end) as [sg v] eqn:Ev.
    assert (slen v <= slen u)%nat.
    { destruct u as [|b w]; [by injection Ev as <- <-|]. destruct (_ || _); injection Ev as <- <-; cbn; lia. }
    pose proof (slen_digits v). destruct (digits v) as [d w].
    destruct (String.eqb d _); [done|]. intros [= _ <-]. cbn in *. lia. }
  unfold number. destruct (if has_prefix s "-" then _ else _) as [sg u] eqn:Eu.
  assert (slen u <= slen s)%nat.
  { destruct (has_prefix s "-"); injection Eu as <- <-; [apply (slen_drop 1)|lia]. }
  destruct (int_part u) as [[i v]|] eqn:Ei; cbn; [|done]. apply Hi in Ei.
  destruct (frac_part v) as [[fr w]|] eqn:Ef; cbn; [|done]. apply Hf in Ef.
  destruct (exp_part w) as [[ex x]|] eqn:Ee; cbn; [|done]. apply He in Ee.
  intros [= _ <-]. lia.
Qed.

Lemma slen_app p s : slen (p +:+ s) = (slen p + slen s)%nat.
Proof. induction p as [|a p IH]; [done|]. rewrite app_str_cons. cbn. by rewrite IH. Qed.

Lemma slen_literal s j s' : literal s = Some (j, s') → (slen s' < slen s)%nat.
Proof.
  unfold literal.
  assert (∀ p, has_prefix s p = true → (0 < slen p)%nat → (slen (drop_str (slen p) s) < slen s)%nat) as Hp.
  { intros p Hs Hl. apply has_prefix_split in Hs. rewrite Hs, drop_str_app.
    rewrite slen_app. lia. }
  destruct (has_prefix s "null") eqn:E1; [intros [= _ <-]; apply (Hp "null"); [done|cbn; lia]|].
  destruct (has_prefix s "true") eqn:E2; [intros [= _ <-]; apply (Hp "true"); [done|cbn; lia]|].
  destruct (has_prefix s "false") eqn:E3; [intros [= _ <-]; apply (Hp "false"); [done|cbn; lia]|].
  apply slen_number.
Qed.

(** Every success takes at least a character. *)
Lemma slen_values f :
  (∀ d s v r, json_value f d s = Some (v, r) → (slen r < slen s)%nat) ∧
  (∀ d s v r, json_elems f d s = Some (v, r) → (slen r < slen s)%nat) ∧
  (∀ d s v r, json_members f d s = Some (v, r) → (slen r < slen s)%nat).
Proof.
  induction f as [|f (IHv & IHe & IHm)]; [done|]. split_and!; intros d s v r.
  - cbn -[literal]. destruct s as [|a s]; [done|].
    destruct (_ =? 34).
    { destruct (json_string s) as [[t u]|] eqn:E; cbn; [|done]. intros [= _ <-].
      apply slen_json_string in E. lia. }
    pose proof (slen_skip s) as Hk.
    destruct (_ =? 91); [|destruct (_ =? 123); [|apply slen_literal]];
      (destruct (_ <=? _); [done|]; destruct (skip_ws s) as [|b u]; [done|]; cbn in Hk;
       destruct (_ =? _); [intros [= _ <-]; cbn; lia|]).
    + destruct (json_elems f _ _) as [[l w]|] eqn:E; cbn; [|done].
      intros [= _ <-]. apply IHe in E. cbn in E. lia.
    + destruct (json_members f _ _) as [[l w]|] eqn:E; cbn; [|done].
      intros [= _ <-]. apply IHm in E. cbn in E. lia.
  - cbn. destruct (json_value f d s) as [[j u]|] eqn:E; cbn; [|done]. apply IHv in E.
    pose proof (slen_skip u). destruct (skip_ws u) as [|b w]; [done|]. cbn in *.
    destruct (_ =? 93); [intros [= _ <-]; lia|]. destruct (_ =? 44); [|done].
    pose proof (slen_skip w). destruct (json_elems f _ _) as [[l x]|] eqn:E2; cbn; [|done].
    intros [= _ <-]. apply IHe in E2. lia.
  - cbn. destruct s as [|q s]; [done|]. destruct (_ =? 34); [|done].
    destruct (json_string s) as [[k u]|] eqn:E; cbn; [|done]. apply slen_json_string in E.
    pose proof (slen_skip u). destruct (skip_ws u) as [|c w]; [done|]. cbn in *.
    destruct (_ =? 58); [|done]. pose proof (slen_skip w).
    destruct (json_value f _ _) as [[j x]|] eqn:E2; cbn; [|done]. apply IHv in E2.
    pose proof (slen_skip x). destruct (skip_ws x) as [|b y]; [done|]. cbn in *.
    destruct (_ =? 125); [intros [= _ <-]; lia|]. destruct (_ =? 44); [|done].
    pose proof (slen_skip y). destruct (json_members f _ _) as [[l z]|] eqn:E3; cbn; [|done].
    intros [= _ <-]. apply IHm in E3. lia.
Qed.

Definition same_values (n f g : nat) : Prop :=
  (∀ d s, (slen s <= n)%nat → (2 * slen s + 1 <= f)%nat → (2 * slen s + 1 <= g)%nat →
     json_value f d s = json_value g d s) ∧
  (∀ d s, (slen s <= n)%nat → (2 * slen s + 2 <= f)%nat → (2 * slen s + 2 <= g)%nat →
     json_elems f d s = json_elems g d s) ∧
  (∀ d s, (slen s <= n)%nat → (2 * slen s + 2 <= f)%nat → (2 * slen s + 2 <= g)%nat →
     json_members f d s = json_members g d s).

Lemma fuel_values f : ∀ g n, same_values n f g.
Proof.
  induction f as [|f IH]; intros [|g] n; [split_and!; intros; lia..|].
  destruct (IH g n) as (IHv & IHe & IHm). split_and!; intros d s Hn Hf Hg; cbn -[literal].
  - destruct s as [|a s]; [done|]. cbn in *. pose proof (slen_skip s) as Hk.
    destruct (skip_ws s) as [|b u] eqn:Es; [done|]. cbn in Hk.
    rewrite (IHe _ (String b u)), (IHm _ (String b u)) by (cbn; lia). done.
  - rewrite (IHv d s) by lia. destruct (json_value g d s) as [[j u]|] eqn:E; cbn; [|done].
    apply slen_values in E. pose proof (slen_skip u). destruct (skip_ws u) as [|b w]; [done|].
    cbn in *. pose proof (slen_skip w). by rewrite (IHe d (skip_ws w)) by lia.
  - destruct s as [|q s]; [done|]. cbn in *. destruct (_ =? 34); [|done].
    destruct (json_string s) as [[k u]|] eqn:E; cbn; [|done]. apply slen_json_string in E.
    pose proof (slen_skip u). destruct (skip_ws u) as [|c w]; [done|]. cbn in *.
    pose proof (slen_skip w). rewrite (IHv d (skip_ws w)) by lia.
    destruct (_ =? 58); [|done]. destruct (json_value g d _) as [[j x]|] eqn:E2; cbn; [|done].
    apply slen_values in E2. pose proof (slen_skip x). destruct (skip_ws x) as [|b y]; [done|].
    cbn in *. pose proof (slen_skip y). by rewrite (IHm d (skip_ws y)) by lia.
Qed.

(** More fuel than [parse_json] takes changes nothing. *)
Lemma parse_json_fuel s f :
  (2 * slen (skip_ws s) + 2 <= f)%nat →
  parse_json s =
  match json_value f 0 (skip_ws s) with
  | Some (j, r) => if String.eqb (skip_ws r) "" then Some j else None
  | None => None
  end.
Proof.
  intros Hf. unfold parse_json.
  by rewrite (proj1 (fuel_values (2 * slen (skip_ws s) + 2) f (slen (skip_ws s)))) by lia.
Qed.

(** ** Decoding into an [interface{}] *)

(** [m[k] = v] on a map kept as a list without duplicates. *)
Fixpoint map_set (d : doc) (k : string) (v : value) : doc :=
  match d with
  | [] => [(k, v)]
  | (k', v') :: d => if String.eqb k' k then (k, v) :: d else (k', v') :: map_set d k v
  end.

(** [None]: a number overflows a float64. *)
Fixpoint iface (j : json) : option value :=
  match j with
  | JNull => Some VNull
  | JBool b => Some (VBool b)
  | JNum t => VFloat <$> float_text t
  | JStr s => Some (VString s)
  | JArr l => VList <$> (fix go (l : list json) : option (list value) :=
      match l with [] => Some [] | j :: l => v ← iface j; r ← go l; Some (v :: r) end) l
  | JObj l => VMap <$> (fix go (d : doc) (l : list (string * json)) : option doc :=
      match l with [] => Some d | (k, j) :: l => v ← iface j; go (map_set d k v) l end) [] l
  end.

(** The entries of an object decoded into a map that may hold some already. *)
Fixpoint decode_entries (d : doc) (l : list (string * json)) : option doc :=
  match l with
  | [] => Some d
  | (k, j) :: l => v ← iface j; decode_entries (map_set d k v) l
  end.

Lemma field_map_set d k k' v : field (map_set d k v) k' = if String.eqb k k' then v else field d k'.
Proof.
  induction d as [|[k1 v1] d IH]; cbn; [done|].
  destruct (String.eqb_spec k1 k) as [->|Hne]; cbn; [by destruct (String.eqb k k')|].
  destruct (String.eqb_spec k1 k') as [->|]; [|done].
  destruct (String.eqb_spec k k'); [congruence|done].
Qed.

(** ** Encoding: [json.Marshal] *)

Definition u_escape (n : Z) : string :=
  "\u00" +:+ String (hex_char (n / 16)) (String (hex_char (n mod 16)) "").

(** A character below 128; HTML's are escaped. *)
Definition quote_char (a : ascii) : string :=
  let n := code_of a in
  if (n =? 34) || (n =? 92) then String (byte_of 92) (String a "")
  else if n =? 8 then "\b" else if n =? 12 then "\f" else if n =? 10 then "\n"
  else if n =? 13 then "\r" else if n =? 9 then "\t"
  else if (n <? 32) || (n =? 60) || (n =? 62) || (n =? 38) then u_escape n
  else String a "".

(** Line and paragraph separators are escaped, bytes that are not UTF-8
    replaced. *)
Fixpoint quote_body (fuel : nat) (s : string) : string :=
  match fuel, s with
  | S fuel, String a s' =>
    match rune_len s with
    | O => "\ufffd" +:+ quote_body fuel s'
    | S O => quote_char a +:+ quote_body fuel s'
    | k =>
      let r := String.substring 0 k s in
      (if String.eqb r (utf8_encode 8232) then "\u2028"
       else if String.eqb r (utf8_encode 8233) then "\u2029" else r) +:+
      quote_body fuel (drop_str k s)
    end
  | _, _ => EmptyString
  end.
Definition dquote (s : string) : string := String (byte_of 34) (s +:+ String (byte_of 34) "").
Definition quote (s : string) : string := dquote (quote_body (String.length s) s).

(** A value whose objects are sorted, as [normalize] leaves them. *)
Fixpoint encode (j : json) : string :=
  match j with
  | JNull => "null"
  | JBool b => if b then "true" else "false"
  | JNum t => t
  | JStr s => quote s
  | JArr l => "[" +:+ String.concat "," ((fix go (l : list json) : list string :=
      match l with [] => [] | j :: l => encode j :: go l end) l) +:+ "]"
  | JObj l => "{" +:+ String.concat "," ((fix go (l : list (string * json)) : list string :=
      match l with [] => [] | (k, j) :: l => (quote k +:+ ":" +:+ encode j) :: go l end) l) +:+ "}"
  end.
Definition marshal (j : json) : string := encode (normalize j).

Example marshal_example :
  marshal (JObj [("b", JArr [JNum "1.50"; JNull; JBool true]);
                 ("a", JStr (quoted "x<'\" +:+ utf8_encode 233 +:+ utf8_encode 8232 +:+ String (byte_of 1) ""))]) =
  quoted "{'a':'x\u003c\'\\" +:+ utf8_encode 233 +:+ quoted "\u2028\u0001','b':[1.50,null,true]}".
Proof. vm_compute. reflexivity. Qed.

(** [utf8.Valid]. *)
Fixpoint utf8_valid_from (fuel : nat) (s : string) : bool :=
  match fuel, s with
  | _, EmptyString => true
  | S fuel, _ => match rune_len s with O => false | k => utf8_valid_from fuel (drop_str k s) end
  | O, _ => false
  end.
Definition utf8_valid (s : string) : bool := utf8_valid_from (String.length s) s.

(** ** A quoted string reads back *)

(** A rune starts with its bytes, and what follows does not matter. *)
Lemma rune_cases s :
  rune_len s = 0%nat ∨
  (∃ a t, s = String a t ∧ code_of a < 128 ∧ rune_len s = 1%nat) ∨
  ∃ k r t a r', rune_len s = S (S k) ∧ s = r +:+ t ∧ slen r = S (S k) ∧ r = String a r' ∧ 128 <= code_of a ∧
    ∀ X, rune_len (r +:+ X) = S (S k).
Proof.
  destruct s as [|a s]; [by left|]. cbn [rune_len].
  destruct (between 0 127 a) eqn:E1.
  { right; left. exists a, s. split_and!; [done| |done]. unfold between in E1. bools. lia. }
  assert (128 <= code_of a) as Ha. { unfold between in E1. apply andb_false_iff in E1. unfold code_of in *. bools. lia. }
  destruct s as [|b s]; [by left|].
  destruct (between 194 223 a) eqn:E2.
  { destruct (cont b) eqn:E3; [|by left]. right; right.
    exists 0%nat, (String a (String b "")), s, a, (String b "").
    split_and!; [done..|]. intros X. rewrite !app_str_cons. cbn [rune_len]. by rewrite E1, E2, E3. }
  destruct s as [|c s]; [by left|].
  destruct (between 224 239 a) eqn:E4.
  { destruct (_ && cont c) eqn:E5; [|by left]. right; right.
    exists 1%nat, (String a (String b (String c ""))), s, a, (String b (String c "")).
    split_and!; [done..|]. intros X. rewrite !app_str_cons. cbn [rune_len]. by rewrite E1, E2, E4, E5. }
  destruct s as [|d s]; [by left|].
  destruct (between 240 244 a) eqn:E6; [|by left].
  destruct (_ && cont c && cont d) eqn:E7; [|by left]. right; right.
  exists 2%nat, (String a (String b (String c (String d "")))), s, a, (String b (String c (String d ""))).
  split_and!; [done..|]. intros X. rewrite !app_str_cons. cbn [rune_len]. by rewrite E1, E2, E4, E6, E7.
Qed.

Lemma substring_app r t : String.substring 0 (slen r) (r +:+ t) = r.
Proof. induction r as [|a r IH]; [by destruct t|]. rewrite app_str_cons. cbn. by rewrite IH. Qed.

Lemma app_str_assoc (a b c : string) : (a +:+ b) +:+ c = a +:+ b +:+ c.
Proof. induction a as [|x a IH]; [done|]. by rewrite !app_str_cons, IH. Qed.

Lemma read_quote_char f a X :
  code_of a < 128 →
  string_body (S f) (quote_char a +:+ X) = '(u, r) ← string_body f X; Some (String a u, r).
Proof.
  intros Ha. destruct a as [[] [] [] [] [] [] [] []]; try (exfalso; revert Ha; vm_compute; discriminate).
  all: first [reflexivity | destruct X; reflexivity].
Qed.

Lemma read_rune f r a r' k X :
  r = String a r' → 128 <= code_of a → slen r = S (S k) → (∀ X, rune_len (r +:+ X) = S (S k)) →
  string_body (S f) (r +:+ X) = '(u, s) ← string_body f X; Some (r +:+ u, s).
Proof.
  intros Hr Ha Hl Hk. specialize (Hk X).
  assert (String.substring 0 (S (S k)) (r +:+ X) = r) as Hs by (rewrite <-Hl; apply substring_app).
  assert (drop_str (S (S k)) (r +:+ X) = X) as Hd by (rewrite <-Hl; apply drop_str_app).
  rewrite Hr, app_str_cons in *. cbn [string_body].
  rewrite Hk, Hs, Hd.
  destruct (Z.eqb_spec (code_of a) 34); [lia|]. destruct (Z.ltb_spec (code_of a) 32); [lia|].
  destruct (Z.eqb_spec (code_of a) 92); [lia|]. done.
Qed.

Lemma read_separator f X :
  string_body (S f) ("\u2028" +:+ X) = ('(u, s) ← string_body f X; Some (utf8_encode 8232 +:+ u, s)) ∧
  string_body (S f) ("\u2029" +:+ X) = ('(u, s) ← string_body f X; Some (utf8_encode 8233 +:+ u, s)).
Proof. by split. Qed.

Lemma read_quote n : ∀ s f rest,
  (slen s <= n)%nat → utf8_valid_from n s = true → (slen s < f)%nat →
  string_body f (quote_body n s +:+ String (byte_of 34) rest) = Some (s, rest).
Proof.
  induction n as [|n IH]; intros s f rest Hn Hv Hf; (destruct f as [|f]; [lia|]).
  { destruct s; [done|cbn in Hn; lia]. }
  destruct s as [|x s]; [done|]. cbn [utf8_valid_from quote_body] in *.
  destruct (rune_cases (String x s)) as [E|[(a & t & Es & Ha & E)|(k & r & t & a & r' & E & Es & Hl & Hr & Ha & Hk)]];
    rewrite E in *; [done| |].
  - injection Es as -> ->. cbn in Hn, Hf, Hv. rewrite app_str_assoc, read_quote_char by done.
    by rewrite IH by (try done; lia).
  - rewrite Es in Hn, Hf, Hv |- *. rewrite <-Hl, substring_app, drop_str_app in *.
    rewrite slen_app in *. rewrite app_str_assoc.
    destruct (String.eqb_spec r (utf8_encode 8232)) as [E1|_];
      [|destruct (String.eqb_spec r (utf8_encode 8233)) as [E2|_]].
    + rewrite E1, (proj1 (read_separator f _)). by rewrite IH by (try done; lia).
    + rewrite E2, (proj2 (read_separator f _)). by rewrite IH by (try done; lia).
    + rewrite (read_rune f r a r' k) by first [done | intros; by rewrite Hk]. by rewrite IH by (try done; lia).
Qed.

(** Two quoted strings that begin a text are equal when the texts are. *)
Lemma quote_inj a b x y :
  utf8_valid a = true → utf8_valid b = true → quote a +:+ x = quote b +:+ y → a = b ∧ x = y.
Proof.
  intros Ha Hb. unfold quote, dquote. rewrite !app_str_cons, !app_str_assoc, !app_str_cons. intros [= H].
  pose proof (read_quote (slen a) a (S (slen a) + S (slen b)) x ltac:(done) Ha ltac:(lia)) as H1.
  pose proof (read_quote (slen b) b (S (slen a) + S (slen b)) y ltac:(done) Hb ltac:(lia)) as H2.
  change ("" +:+ x) with x in H. change ("" +:+ y) with y in H.
  rewrite H, H2 in H1. by injection H1.
Qed.

(** ** Marshaling decoded values *)

(** A decoded JSON value back as JSON; the other values do not occur in one. *)
Fixpoint to_json (v : value) : json :=
  match v with
  | VNull => JNull
  | VBool b => JBool b
  | VFloat t => JNum (float_json t)
  | VString s => JStr s
  | VList l => JArr ((fix go (l : list value) : list json :=
      match l with [] => [] | v :: l => to_json v :: go l end) l)
  | VMap l => JObj ((fix go (l : doc) : list (string * json) :=
      match l with [] => [] | (k, v) :: l => (k, to_json v) :: go l end) l)
  | VInt _ | VTime _ | VServerTimestamp | VDelete | VIncrement _ => JNull
  end.
Definition marshal_map (d : doc) : string := marshal (to_json (VMap d)).
