(* ===== verification/HttpServer.v ===== *)
(** * Incoming requests

    What the program's handlers use of net/http: a request with its headers
    and body, reading a bounded body (io.ReadAll over http.MaxBytesReader),
    and the reply. *)

From stdpp Require Import base gmap strings list.
From Stdlib Require Import Ascii.
From S2P Require Import Prelude GoErr Json JsonText.

(** [r_broken]: the connection fails after the bytes of [r_body]. [r_header]
    has canonical keys; [r_query] is the first value of each parameter. *)
Record incoming := Incoming {
  r_method : string;
  r_path : string;
  r_query : gmap string string;
  r_header : header;
  r_body : string;
  r_broken : bool
}.

(** A reply without a body is a bare status. *)
Record reply := Reply {
  status : Z;
  reply_header : list (string * string);
  reply_body : string
}.

Definition bare (s : Z) : reply := Reply s [] "".

(** [textproto.CanonicalMIMEHeaderKey]: a capital at the start and after each
    hyphen, other letters in lower case. *)
Definition upper_char (a : ascii) : ascii :=
  if is_lower a then ascii_of_nat (nat_of_ascii a - 32) else a.
Fixpoint canonical_from (up : bool) (s : string) : string :=
  match s with
  | EmptyString => EmptyString
  | String a s =>
    String (if up then upper_char a else lower_char a) (canonical_from (Ascii.eqb a "-"%char) s)
  end.
Definition canonical : string → string := canonical_from true.

Definition Get (r : incoming) (k : string) : string := header_get (r_header r) (canonical k).

Inductive body_read := Bytes (s : string) | TooLarge | Broken.

(** [io.ReadAll(http.MaxBytesReader(w, r.Body, limit))]. *)
Definition read_all (limit : Z) (r : incoming) : body_read :=
  if limit <? Z.of_nat (String.length (r_body r)) then TooLarge
  else if r_broken r then Broken else Bytes (r_body r).

(** ** Decoding a struct *)

(** The keys that name a field with an ASCII tag: equal up to simple case
    folding, where U+017F folds to s and U+212A to k. *)
Fixpoint fold_key (s : string) : string :=
  match s with
  | EmptyString => EmptyString
  | String a (String b s' as t) =>
    if (code_of a =? 197) && (code_of b =? 191) then String "s" (fold_key s')
    else
      match s' with
      | String c s'' =>
        if (code_of a =? 226) && (code_of b =? 132) && (code_of c =? 170)
        then String "k" (fold_key s'') else String (lower_char a) (fold_key t)
      | EmptyString => String (lower_char a) (fold_key t)
      end
  | String a EmptyString => String (lower_char a) EmptyString
  end.
Definition names (k tag : string) : bool := String.eqb (fold_key k) (fold_key tag).

(** A member decoded into a [string] field holding [old]. *)
Definition into_string (old : string) (j : json) : option string :=
  match j with JNull => Some old | JStr s => Some s | _ => None end.

(** A member decoded into a [map[string]interface{}] field: [null] makes it
    nil, an object adds its entries. *)
Definition into_map (old : option Store.doc) (j : json) : option (option Store.doc) :=
  match j with
  | JNull => Some None
  | JObj l => Some <$> decode_entries (default [] old) l
  | _ => None
  end.

(** An object decoded member by member into a struct; [null] changes nothing. *)
Fixpoint into_fields {S} (f : S → string → json → option S) (s : S) (l : list (string * json)) : option S :=
  match l with
  | [] => Some s
  | (k, j) :: l => s ← f s k j; into_fields f s l
  end.
Definition into_struct {S} (f : S → string → json → option S) (s : S) (j : json) : option S :=
  match j with JNull => Some s | JObj l => into_fields f s l | _ => None end.

(** A slice of structs; a body does not repeat its key. *)
Definition into_list {A} (f : json → option A) (j : json) : option (list A) :=
  match j with JNull => Some [] | JArr l => mapM f l | _ => None end.
(** A pointer. *)
Definition into_ptr {A} (f : json → option A) (j : json) : option (option A) :=
  match j with JNull => Some None | _ => Some <$> f j end.
Definition into_bool (old : bool) (j : json) : option bool :=
  match j with JNull => Some old | JBool b => Some b | _ => None end.
(** An int or int64. *)
Definition into_int (old : Z) (j : json) : option Z :=
  match j with JNull => Some old | JNum t => parse_int t | _ => None end.

(** A text decoded by [f]. *)
Definition unmarshal {A} (f : json → option A) (body : string) : option A := j ← parse_json body; f j.

(** A struct with a single field. *)
Definition into_field {A} (tag : string) (f : A → json → option A) : A → json → option A :=
  into_struct (λ a k j, if names k tag then f a j else Some a).

Example canonical_example :
  canonical "kick-event-message-id" = "Kick-Event-Message-Id" ∧ canonical "ETag" = "Etag".
Proof. vm_compute. done. Qed.
