(* ===== verification/TwitchWebhook.v ===== *)
(** * Twitch EventSub deliveries

    Models agent/internal/webhook/twitch.go: verification of a delivery, the
    decoding of its payload, the mapping of a notification to documents, and
    the handler with its writes and callbacks as effects. Log lines are left
    out. *)

From stdpp Require Import base gmap strings list.
From Stdlib Require Import Ascii.
From S2P Require Import Prelude GoErr Sha256 GoTime Float64 Json Effects Store JsonText HttpServer ChatMessage.

(** ** The payload *)

Record twitchPayload := TwitchPayload {
  p_type : string;
  p_version : string;
  p_status : string;
  p_condition : option doc;     (* nil or a map, as [Event] *)
  p_challenge : option string;
  p_event : option doc
}.

Definition no_payload : twitchPayload := TwitchPayload "" "" "" None None None.

Definition subscription_member (p : twitchPayload) (k : string) (j : json) : option twitchPayload :=
  let '(TwitchPayload t v s c ch ev) := p in
  if names k "type" then t ← into_string t j; Some (TwitchPayload t v s c ch ev)
  else if names k "version" then v ← into_string v j; Some (TwitchPayload t v s c ch ev)
  else if names k "status" then s ← into_string s j; Some (TwitchPayload t v s c ch ev)
  else if names k "condition" then c ← into_map c j; Some (TwitchPayload t v s c ch ev)
  else Some p.

Definition payload_member (p : twitchPayload) (k : string) (j : json) : option twitchPayload :=
  let '(TwitchPayload t v s c ch ev) := p in
  if names k "subscription" then into_struct subscription_member p j
  else if names k "challenge" then
    match j with
    | JNull => Some (TwitchPayload t v s c None ev)
    | _ => x ← into_string "" j; Some (TwitchPayload t v s c (Some x) ev)
    end
  else if names k "event" then ev ← into_map ev j; Some (TwitchPayload t v s c ch ev)
  else Some p.

Fixpoint twitchFirestoreValue (v : value) : value :=
  match v with
  | VFloat text => match safe_integer text with Some z => VInt z | None => v end
  | VMap l => VMap ((fix go (l : doc) : doc :=
      match l with [] => [] | (k, v) :: l => (k, twitchFirestoreValue v) :: go l end) l)
  | VList l => VList ((fix go (l : list value) : list value :=
      match l with [] => [] | v :: l => twitchFirestoreValue v :: go l end) l)
  | _ => v
  end.

Definition decodeTwitchPayload (body : string) : option twitchPayload :=
  j ← parse_json body;
  p ← into_struct payload_member no_payload j;
  let '(TwitchPayload t v s c ch ev) := p in
  Some (TwitchPayload t v s c ch
          (match ev with
           | Some ev => match twitchFirestoreValue (VMap ev) with VMap ev => Some ev | _ => None end
           | None => None
           end)).

(** ** Documents *)

Record twitchDocument := TwitchDocument {
  Path : string;
  Data : doc;
  Merge : bool;
  IsUpdate : bool;
  IsCreate : bool;
  IgnoreError : bool
}.

(** [x, _ := v.(string)]. *)
Definition as_string (v : value) : string := match v with VString s => s | _ => "" end.
Definition event_field (ev : option doc) (k : string) : value := field (default [] ev) k.
Definition event_string (ev : option doc) (k : string) : string := as_string (event_field ev k).
Definition first_nonempty (a b : string) : string := if String.eqb a "" then b else a.

Definition bad_segment (s : string) : bool := String.eqb s "" || contains_char s "/"%char.

(** The broadcaster a channel event is about. *)
Definition broadcaster (p : twitchPayload) : string :=
  first_nonempty (event_string (p_event p) "broadcaster_user_id")
                 (event_string (p_event p) "to_broadcaster_user_id").

Definition channel_path (id : string) : string := "channels/twitch:" +:+ id.

Definition is_follow (p : twitchPayload) : bool :=
  String.eqb (p_type p) "channel.follow" && negb (bad_segment (event_string (p_event p) "user_id")).

Definition message_path (p : twitchPayload) (messageID : string) : string :=
  channel_path (broadcaster p) +:+ "/messages/twitch:" +:+
    (if is_follow p then "follow:" +:+ event_string (p_event p) "user_id" else messageID).

Definition message_document (p : twitchPayload) (messageID : string) (timestamp now : time) : twitchDocument :=
  TwitchDocument (message_path p messageID)
    [("channelId", VString ("twitch:" +:+ broadcaster p)); ("type", VString (p_type p));
     ("timestamp", VTime (time_truncate timestamp millisecond));
     ("expiresAt", VTime (time_truncate now millisecond + TTLFor (p_type p)));
     ("event", match p_event p with Some ev => VMap ev | None => VNull end)]
    false false (is_follow p) false.

(** The changes of the channel's document: the data, and whether it is an
    update. *)
Definition channel_change (p : twitchPayload) : option (doc * bool) :=
  let ev := event_field (p_event p) in
  if String.eqb (p_type p) "stream.online" then Some ([("onlineAt", VServerTimestamp)], false)
  else if String.eqb (p_type p) "stream.offline" then Some ([("onlineAt", VNull)], false)
  else if String.eqb (p_type p) "channel.follow" then Some ([("followerCount", VIncrement 1)], true)
  else if String.eqb (p_type p) "channel.update" then
    Some ([("login", ev "broadcaster_user_login"); ("displayName", ev "broadcaster_user_name");
           ("title", ev "title"); ("language", ev "language");
           ("categoryId", ev "category_id"); ("categoryName", ev "category_name")], false)
  else None.

Definition mapTwitchNotification (p : twitchPayload) (messageID : string) (timestamp now : time) :
    result (list twitchDocument) :=
  if negb (String.eqb (p_status p) "enabled") ||
     (String.eqb (p_type p) "channel.follow" && String.eqb (p_version p) "1")
  then inr []
  else if bad_segment (broadcaster p) || bad_segment messageID || String.eqb (p_type p) ""
  then inl (ErrMsg "invalid notification identifiers")
  else inr (message_document p messageID timestamp now ::
            match channel_change p with
            | Some (data, update) =>
              [TwitchDocument (channel_path (broadcaster p)) data (negb update) update false update]
            | None => []
            end).

(** ** The handler *)

Inductive weff : Type → Type :=
  | WDb {A} (op : db A) : weff A
  | Now : weff time
  | OnDeauthorized (id : string) (revocation : bool) : weff unit
  | OnAppRevoked : weff unit.

Definition validTwitchID (id : string) : bool := is_some (parse_uint 64 id).

Definition verifyTwitchSignature (secret messageID timestamp signature body : string) : bool :=
  if String.eqb messageID "" || String.eqb timestamp "" || negb (has_prefix signature "sha256=")
  then false
  else match hex_decode (trim_prefix signature "sha256=") with
       | None => false
       | Some supplied => String.eqb supplied (hmac_sha256 secret (messageID +:+ timestamp +:+ body))
       end.

(** The fields of [TwitchHandler]; the callbacks are nil or set. *)
Record TwitchHandler := MkTwitchHandler {
  h_secret : string;
  h_deauthorized : bool;
  h_app_revoked : bool
}.

Definition max_body : Z := 1024 * 1024.
Definition message_id (r : incoming) : string := Get r "Twitch-Eventsub-Message-Id".
Definition message_timestamp (r : incoming) : string := Get r "Twitch-Eventsub-Message-Timestamp".

Section Handler.
Context (η : env weff) (h : TwitchHandler).
Local Abbreviation M := (M (world weff unit)).

Definition deauthorized (id : string) (revocation : bool) : M unit :=
  if validTwitchID id && h_deauthorized h then ask η (OnDeauthorized id revocation) else mret tt.

(** The stores of the handler: an error, or whether a Create was skipped. *)
Definition write_document (d : twitchDocument) : M (option error * bool) :=
  if IsCreate d then
    e ← ask η (WDb (Create (Path d) (Data d)));
    mret (if decide (status_code e = AlreadyExists) then (None, true) else (e, false))
  else if IsUpdate d then e ← ask η (WDb (Update (Path d) (Data d))); mret (e, false)
  else e ← ask η (WDb (Set_ (Path d) (Data d) (Merge d))); mret (e, false).

Fixpoint writeNotification (docs : list twitchDocument) : M (option error) :=
  match docs with
  | [] => mret None
  | d :: docs =>
    '(e, skip) ← write_document d;
    if (skip : bool) then mret None
    else match e with
         | Some e => if IgnoreError d then writeNotification docs else mret (Some e)
         | None => writeNotification docs
         end
  end.

Definition serve_revocation (p : twitchPayload) : M unit :=
  if String.eqb (p_type p) "user.authorization.revoke" then
    if h_app_revoked h then ask η OnAppRevoked else mret tt
  else if String.eqb (p_status p) "authorization_revoked" then
    deauthorized (first_nonempty (event_string (p_condition p) "broadcaster_user_id")
                                 (event_string (p_condition p) "to_broadcaster_user_id")) true
  else mret tt.

(** The switch on the message type, once the delivery is verified. *)
Definition dispatch (p : twitchPayload) (r : incoming) (timestamp now : time) : M reply :=
  let kind := Get r "Twitch-Eventsub-Message-Type" in
  if String.eqb kind "webhook_callback_verification" then
    mret (match p_challenge p with
          | None => bare 400
          | Some c => Reply 200 [("Content-Type", "text/plain; charset=utf-8")] c
          end)
  else if String.eqb kind "revocation" then serve_revocation p;; mret (bare 200)
  else if String.eqb kind "notification" then
    if String.eqb (p_type p) "user.authorization.revoke" then
      deauthorized (event_string (p_event p) "user_id") false;; mret (bare 200)
    else match mapTwitchNotification p (message_id r) timestamp now with
         | inl _ => mret (bare 400)
         | inr docs =>
           e ← writeNotification docs;
           mret (match e with Some _ => bare 500 | None => bare 200 end)
         end
  else mret (bare 400).

Definition stale (now timestamp : time) : bool := 10 * minute <? time_sub now timestamp.

Definition TwitchServe (r : incoming) : M reply :=
  if negb (String.eqb (r_path r) "/twitch/eventsub") then
    mret (Reply 404 [] "404 page not found")
  else if negb (String.eqb (r_method r) "POST") then mret (Reply 405 [("Allow", "POST")] "")
  else if String.eqb (h_secret h) "" then mret (bare 503)
  else match read_all max_body r with
  | TooLarge => mret (bare 413)
  | Broken => mret (bare 400)
  | Bytes body =>
    if negb (verifyTwitchSignature (h_secret h) (message_id r) (message_timestamp r)
               (Get r "Twitch-Eventsub-Message-Signature") body)
    then mret (bare 403)
    else
      now ← ask η Now;
      match parse_rfc3339 (message_timestamp r) with
      | None => mret (bare 403)
      | Some timestamp =>
        if stale now timestamp then mret (bare 403)
        else match decodeTwitchPayload body with
             | None => mret (bare 400)
             | Some p => dispatch p r timestamp now
             end
      end
  end.
End Handler.

(** ** What the handler may do *)

(** The delivery was signed with the secret, and at most ten minutes old when
    the clock was read. *)
Definition authentic (h : TwitchHandler) (r : incoming) (t : trace weff) : Prop :=
  ∃ body timestamp now,
    r_path r = "/twitch/eventsub" ∧ r_method r = "POST" ∧ h_secret h ≠ "" ∧
    read_all max_body r = Bytes body ∧
    verifyTwitchSignature (h_secret h) (message_id r) (message_timestamp r)
      (Get r "Twitch-Eventsub-Message-Signature") body = true ∧
    parse_rfc3339 (message_timestamp r) = Some timestamp ∧
    Ev Now now ∈ t ∧ time_sub now timestamp <= 10 * minute.

Definition payload_of (r : incoming) : option twitchPayload :=
  match read_all max_body r with Bytes body => decodeTwitchPayload body | _ => None end.

(** The latest effect created the document at [path]. *)
Definition just_created (path : string) (t : trace weff) : Prop :=
  ∃ data t', t = Ev (WDb (Create path data)) None :: t'.

(** The paths a write may have, and what comes before it. *)
Definition write_allowed (r : incoming) (p : twitchPayload) {A} (op : db A) (t : trace weff) : Prop :=
  match op with
  | Create path _ => path = message_path p (message_id r) ∧ is_follow p = true
  | Set_ path _ _ =>
    path = message_path p (message_id r) ∧ is_follow p = false ∨ path = channel_path (broadcaster p)
  | Update path data =>
    path = channel_path (broadcaster p) ∧ data = [("followerCount", VIncrement 1)] ∧
    (is_follow p = true → just_created (message_path p (message_id r)) t)
  | _ => False
  end.

Definition allowed (h : TwitchHandler) (r : incoming) (t : trace weff) (e : ev weff) : Prop :=
  match e with
  | Ev op _ =>
    match op with
    | Now => True
    | WDb op => authentic h r t ∧
        ∃ p, payload_of r = Some p ∧ p_status p = "enabled" ∧
             bad_segment (broadcaster p) = false ∧ bad_segment (message_id r) = false ∧
             write_allowed r p op t
    | OnDeauthorized id _ => authentic h r t ∧ validTwitchID id = true
    | OnAppRevoked => authentic h r t
    end
  end.

(** The store has the document of the message. *)
Definition stored (path : string) (t : trace weff) : Prop :=
  ∃ data, Ev (WDb (Create path data)) None ∈ t ∨
          (∃ e, status_code (Some e) = AlreadyExists ∧ Ev (WDb (Create path data)) (Some e) ∈ t) ∨
          Ev (WDb (Set_ path data false)) None ∈ t.

(** The delivery is a channel event to record. *)
Definition to_record (r : incoming) (p : twitchPayload) : Prop :=
  payload_of r = Some p ∧
  Get r "Twitch-Eventsub-Message-Type" = "notification" ∧
  p_type p ≠ "user.authorization.revoke" ∧ p_status p = "enabled" ∧
  ¬ (p_type p = "channel.follow" ∧ p_version p = "1").

Definition served (r : incoming) (a : reply) (t : trace weff) : Prop :=
  status a = 200 → ∀ p, to_record r p → stored (message_path p (message_id r)) t.

Lemma authentic_stable h r : stable (authentic h r).
Proof.
  intros e t (b & ts & n & ?). exists b, ts, n. destruct_and!. split_and!; [done..| |done].
  by apply list_elem_of_further.
Qed.

Lemma stored_stable path : stable (stored path).
Proof.
  intros e t [data H]. exists data. rewrite !elem_of_cons.
  destruct H as [H|[(e' & He & H)|H]]; [auto| |auto].
  right; left. exists e'. rewrite elem_of_cons. auto.
Qed.

Section Proofs.
Context (η : env weff) (h : TwitchHandler) (r : incoming).
Local Abbreviation runs := (runs (S:=unit) (allowed h r)).

Lemma runs_deauthorized id b :
  runs (authentic h r) (deauthorized η h id b) (λ _ _, True).
Proof.
  unfold deauthorized. destruct (validTwitchID id) eqn:E; [|by apply runs_ret].
  destruct (h_deauthorized h); [|by apply runs_ret]. by apply runs_ask.
Qed.

Lemma runs_revocation p : runs (authentic h r) (serve_revocation η h p) (λ _ _, True).
Proof.
  unfold serve_revocation. case_match; [|case_match; [apply runs_deauthorized|by apply runs_ret]].
  destruct (h_app_revoked h); [by apply runs_ask|by apply runs_ret].
Qed.

(** The channel document, last. *)
Lemma runs_channel p data u (G G' : trace weff → Prop) :
  payload_of r = Some p → p_status p = "enabled" → bad_segment (broadcaster p) = false →
  bad_segment (message_id r) = false → channel_change p = Some (data, u) →
  stable G' →
  (∀ t, G t → G' t ∧ authentic h r t ∧ (u = true → is_follow p = true →
      just_created (message_path p (message_id r)) t)) →
  runs G
    (writeNotification η [TwitchDocument (channel_path (broadcaster p)) data (negb u) u false u])
    (λ e t, G' t).
Proof.
  intros Hp Hs Hb Hm Hc HG H. cbn. unfold write_document. cbn.
  assert (u = true → data = [("followerCount", VIncrement 1)]) as Hu.
  { revert Hc. unfold channel_change. repeat (case_match; [by intros [= <- <-]|]). done. }
  destruct u; cbn.
  - eapply runs_bind.
    + eapply (runs_bind _ _ _ (λ _ t, G' t)); [|intros e; by apply (runs_ret _ _ _ (λ _ t, G' t))].
      apply runs_ask. intros t Ht. destruct (H t Ht) as (Hg & Ha & Hj). split; [|by apply HG].
      split; [done|]. exists p. split_and!; [done..|]. split_and!; auto.
    + intros [[e|] []]; by apply runs_ret.
  - eapply runs_bind.
    + eapply (runs_bind _ _ _ (λ _ t, G' t)); [|intros e; by apply (runs_ret _ _ _ (λ _ t, G' t))].
      apply runs_ask. intros t Ht. destruct (H t Ht) as (Hg & Ha & Hj). split; [|by apply HG].
      split; [done|]. exists p. split_and!; [done..|]. by right.
    + intros [[e|] []]; by apply runs_ret.
Qed.

Lemma runs_write_all p ts now docs :
  payload_of r = Some p →
  mapTwitchNotification p (message_id r) ts now = inr docs →
  runs (authentic h r) (writeNotification η docs)
    (λ e t, e = None → docs ≠ [] → stored (message_path p (message_id r)) t).
Proof.
  intros Hp. unfold mapTwitchNotification.
  destruct (negb _ || _) eqn:Es; [intros [= <-]; by apply runs_ret|].
  destruct (bad_segment _ || _ || _) eqn:Eb; [done|]. intros [= <-].
  rewrite !orb_false_iff in Es, Eb. destruct Es as [Es%negb_false_iff%String.eqb_eq _].
  destruct Eb as [[Hb Hm]%orb_false_iff _]. set (mp := message_path p (message_id r)).
  cbn [writeNotification].
  eapply (runs_bind _ _ _ (λ x t, authentic h r t ∧ (x.1 = None ∨ x.2 = true → stored mp t) ∧
    (x = (None, false) → is_follow p = true → just_created mp t))).
  - unfold write_document, message_document. cbn. fold mp. destruct (is_follow p) eqn:Ef.
    + eapply (runs_bind _ _ _ (λ e t, authentic h r t ∧
        (e = None → stored mp t ∧ just_created mp t) ∧ (status_code e = AlreadyExists → stored mp t))).
      * apply runs_ask. intros t Ht. split_and!.
        -- split; [done|]. exists p. split_and!; [done..|]. by split.
        -- by apply authentic_stable.
        -- intros ->. split; [|by eexists _, _]. eexists. left. apply list_elem_of_here.
        -- intros He. eexists. destruct (η _ _ _) as [e|]; [|done].
           right; left. exists e. split; [done|apply list_elem_of_here].
      * intros e. case_decide; apply runs_ret; cbn; naive_solver.
    + eapply (runs_bind _ _ _ (λ e t, authentic h r t ∧ (e = None → stored mp t))).
      * apply runs_ask. intros t Ht. split_and!.
        -- split; [done|]. exists p. split_and!; [done..|]. by left; split.
        -- by apply authentic_stable.
        -- intros ->. eexists. right; right. apply list_elem_of_here.
      * intros e. apply runs_ret. cbn. naive_solver.
  - intros [e [|]]; cbn [fst snd].
    + apply runs_ret. intros t (_ & Hst & _) _ _. apply Hst. by right.
    + destruct e as [e|]; [by apply runs_ret|].
      destruct (channel_change p) as [[data u]|] eqn:Ec.
      2:{ apply runs_ret. intros t (_ & Hst & _) _ _. apply Hst. by left. }
      eapply runs_conseq; [apply (runs_channel p data u) with (G' := stored mp)
        (G := λ t, authentic h r t ∧ stored mp t ∧ (is_follow p = true → just_created mp t))| |].
      all: try done.
      * apply stored_stable.
      * intros t (Ha & Hst & Hj). auto.
      * intros t (Ha & Hst & Hj). split_and!; auto.
Qed.

Lemma runs_dispatch p ts now :
  payload_of r = Some p →
  runs (authentic h r) (dispatch η h p r ts now) (served r).
Proof.
  intros Hp. unfold dispatch, served.
  assert (∀ a F, status a ≠ 200 → runs F (mret a)
    (λ a t, status a = 200 → ∀ p0, to_record r p0 → stored (message_path p0 (message_id r)) t)) as Hbad.
  { intros a F Ha. by apply runs_ret. }
  case_match eqn:E1; [|case_match eqn:E2; [|case_match eqn:E3; [case_match eqn:E4|by apply Hbad]]].
  - apply runs_ret. intros t _ _ p' (_ & Hk & _). bools. congruence.
  - eapply runs_bind; [apply runs_revocation|]. intros ?. apply runs_ret.
    intros t _ _ p' (_ & Hk & _). bools. congruence.
  - eapply runs_bind; [apply runs_deauthorized|]. intros ?. apply runs_ret.
    intros t _ _ p' (Hp' & _ & Ht & _). bools. congruence.
  - destruct (mapTwitchNotification _ _ _ _) as [e|docs] eqn:Em; [by apply Hbad|].
    eapply runs_bind; [by eapply runs_write_all|]. intros [e|]; [by apply Hbad|].
    apply runs_ret. intros t Hst _ p' (Hp' & _ & _ & Hs & Hf). simplify_eq.
    apply Hst; [done|]. revert Em. unfold mapTwitchNotification.
    case_match eqn:E5; [|by case_match; [|intros [= <-]]].
    exfalso. bools. destruct E5 as [E5|[? ?]]; [done|by apply Hf].
Qed.

Lemma runs_serve : runs (λ _, True) (TwitchServe η h r) (served r).
Proof.
  unfold TwitchServe.
  assert (∀ a F, status a ≠ 200 → runs F (mret a) (served r)) as Hbad.
  { intros a F Ha. apply runs_ret. by intros t _ ?. }
  destruct (negb _) eqn:E1; [by apply Hbad|]. destruct (negb (String.eqb (r_method r) _)) eqn:E2; [by apply Hbad|].
  destruct (String.eqb (h_secret h) _) eqn:E3; [by apply Hbad|].
  destruct (read_all max_body r) as [body| |] eqn:E4; [|by apply Hbad..].
  destruct (negb _) eqn:E5 in |- *; [by apply Hbad|].
  eapply (runs_bind _ _ _ (λ now t, Ev Now now ∈ t)).
  { apply runs_ask. intros t _. split; [done|]. apply list_elem_of_here. }
  intros now. destruct (parse_rfc3339 _) as [ts|] eqn:E6; [|by apply Hbad].
  destruct (stale now ts) eqn:E7; [by apply Hbad|].
  destruct (decodeTwitchPayload body) as [p|] eqn:E8; [|by apply Hbad].
  eapply runs_conseq; [apply runs_dispatch|intros t Ht|done].
  - unfold payload_of. by rewrite E4.
  - exists body, ts, now. unfold stale in E7. bools. split_and!; auto.
Qed.
End Proofs.

(** ** The properties *)

(** C14. Whatever the store and the clock answer, the handler writes or calls
    back only for a delivery that carries the HMAC of its id, time stamp and
    body under the configured secret and is at most ten minutes old by the
    clock it read; a deauthorization names a numeric id; it writes only the
    message's document and the channel's document of the enabled event's
    broadcaster, whose ids are single path segments; and a follow that names
    its follower is counted only right after its document was created, so a
    repeated follow is not counted. *)
Theorem twitch_authentic η h r :
  justified (allowed h r) (w_tr (TwitchServe η h r (World [] tt)).2).
Proof. by apply (runs_serve η h r (World [] tt)). Qed.

(** A notification of a channel event that is answered 200, so that Twitch
    does not send it again, is in the store: its document was created or set,
    or one with its path existed. *)
Theorem twitch_acknowledged η h r :
  let '(a, w) := TwitchServe η h r (World [] tt) in
  status a = 200 → ∀ p, to_record r p → stored (message_path p (message_id r)) (w_tr w).
Proof.
  pose proof (runs_serve η h r (World [] tt)) as H.
  destruct (TwitchServe η h r (World [] tt)) as [a w]. by apply H.
Qed.

(** The store makes every write, and the clock reads [now]. *)
Definition healthy (η : env weff) (now : time) : Prop :=
  (∀ t path data, η _ t (WDb (Create path data)) = None) ∧
  (∀ t path data, η _ t (WDb (Update path data)) = None) ∧
  (∀ t path data merge, η _ t (WDb (Set_ path data merge)) = None) ∧
  (∀ t, η _ t Now = now).

Lemma write_healthy η now docs w : healthy η now → (writeNotification η docs w).1 = None.
Proof.
  intros (Hc & Hu & Hs & _). revert w. induction docs as [|d docs IH]; intros w; [done|]. cbn.
  unfold write_document. rewrite M_bind_run.
  destruct (IsCreate d); [|destruct (IsUpdate d)]; rewrite M_bind_run; cbn; rewrite ?Hc, ?Hu, ?Hs; cbn; apply IH.
Qed.

(** A signed, fresh notification of a channel event whose ids are path
    segments is answered 200 when the store makes the writes. *)
Theorem twitch_accepts η h r now body timestamp p :
  healthy η now →
  r_path r = "/twitch/eventsub" → r_method r = "POST" → h_secret h ≠ "" →
  read_all max_body r = Bytes body →
  verifyTwitchSignature (h_secret h) (message_id r) (message_timestamp r)
    (Get r "Twitch-Eventsub-Message-Signature") body = true →
  parse_rfc3339 (message_timestamp r) = Some timestamp →
  time_sub now timestamp <= 10 * minute →
  to_record r p → bad_segment (broadcaster p) = false → bad_segment (message_id r) = false →
  p_type p ≠ "" →
  status (TwitchServe η h r (World [] tt)).1 = 200.
Proof.
  intros Hη Hpa Hm Hs Hb Hv Ht Hf (Hp & Hk & Hr & He & Hnf) Hb1 Hb2 Hty.
  unfold TwitchServe. rewrite Hpa, Hm, Hb, Hv. cbn [String.eqb negb].
  destruct (String.eqb_spec (h_secret h) ""); [done|]. cbn -[dispatch stale].
  rewrite M_bind_run. cbn -[dispatch stale].
  rewrite (proj2 (proj2 (proj2 Hη))), Ht. unfold stale. destruct (Z.ltb_spec (10 * minute) (time_sub now timestamp)); [lia|].
  unfold payload_of in Hp. rewrite Hb in Hp. rewrite Hp.
  unfold dispatch. rewrite Hk. cbn -[writeNotification mapTwitchNotification].
  destruct (String.eqb_spec (p_type p) "user.authorization.revoke"); [done|].
  unfold mapTwitchNotification. rewrite He, Hb1, Hb2.
  destruct (String.eqb_spec (p_type p) ""); [done|].
  assert ((String.eqb (p_type p) "channel.follow" && String.eqb (p_version p) "1") = false) as ->.
  { apply not_true_is_false. intros H2. bools. by apply Hnf. }
  cbn -[writeNotification]. rewrite M_bind_run, (write_healthy _ _ _ _ Hη). done.
Qed.

(** A follow, signed with the secret, received a second after its time. *)
Definition follow_body : string := quoted
  "{'subscription':{'type':'channel.follow','version':'2','status':'enabled'},'event':{'user_id':'42','broadcaster_user_id':'7','n':3}}".
Definition follow_time : string := "2024-03-01T07:00:05.5Z".
Definition follow_request : incoming :=
  Incoming "POST" "/twitch/eventsub" ∅
    (<["Twitch-Eventsub-Message-Id" := "m1"]> (<["Twitch-Eventsub-Message-Timestamp" := follow_time]>
     (<["Twitch-Eventsub-Message-Type" := "notification"]>
      {["Twitch-Eventsub-Message-Signature" :=
          "sha256=" +:+ hex_encode (hmac_sha256 "secret" ("m1" +:+ follow_time +:+ follow_body))]})))
    follow_body false.
Definition follow_handler : TwitchHandler := MkTwitchHandler "secret" true true.
Definition follow_payload : twitchPayload :=
  TwitchPayload "channel.follow" "2" "enabled" None None
    (Some [("user_id", VString "42"); ("broadcaster_user_id", VString "7"); ("n", VInt 3)]).
Definition follow_now : time := time_unix 1709276406 0.

Definition db_none {A} (op : db A) : A :=
  match op in db A return A with
  | Store.Get _ | TxGet _ => inl (ErrStatus NotFound)
  | Query _ _ _ => inr []
  | _ => None
  end.
Definition healthy_env : env weff := λ A _ op,
  match op in weff A return A with
  | WDb op => db_none op
  | Now => follow_now
  | _ => tt
  end.

Lemma healthy_env_healthy : healthy healthy_env follow_now.
Proof. done. Qed.

Lemma follow_to_record : to_record follow_request follow_payload.
Proof. split_and!; [vm_compute; reflexivity..|discriminate|reflexivity|]. intros [_ [=]]. Qed.

Lemma twitch_accepts_witness :
  status (TwitchServe healthy_env follow_handler follow_request (World [] tt)).1 = 200.
Proof.
  eapply (twitch_accepts healthy_env follow_handler follow_request follow_now follow_body
            (time_unix 1709276405 500000000) follow_payload healthy_env_healthy);
    [reflexivity..|discriminate| | | | |apply follow_to_record| | |discriminate].
  all: vm_compute; done.
Defined.

Lemma twitch_acknowledged_witness :
  let '(a, w) := TwitchServe healthy_env follow_handler follow_request (World [] tt) in
  status a = 200 ∧ stored "channels/twitch:7/messages/twitch:follow:42" (w_tr w).
Proof.
  pose proof (twitch_acknowledged healthy_env follow_handler follow_request) as H.
  destruct (TwitchServe _ _ _ _) as [a w] eqn:E.
  assert (Ha : status a = 200).
  { apply (f_equal (λ x, status x.1)) in E. cbn [fst] in E. rewrite <-E. vm_compute. reflexivity. }
  split; [exact Ha|]. exact (H Ha follow_payload follow_to_record).
Defined.

(** The effects of the delivery, the latest first. *)
Example follow_effects :
  map (λ e, match e with
            | Ev op _ => match op with
                         | WDb (Create p _) | WDb (Update p _) => p
                         | Now => "now"
                         | _ => ""
                         end
            end) (w_tr (TwitchServe healthy_env follow_handler follow_request (World [] tt)).2) =
  ["channels/twitch:7"; "channels/twitch:7/messages/twitch:follow:42"; "now"].
Proof. vm_compute. reflexivity. Qed.
