(* ===== verification/KickWebhook.v ===== *)
(** * Kick deliveries

    Models agent/internal/webhook/kick.go: the mapping of an event to
    documents, the channel merge, the cached public key and the handler. The
    RSA signature check of pem, x509 and crypto/rsa is a parameter; the hedged
    Create is the one of ChatMessage.v, seen as an effect. *)

From stdpp Require Import base gmap strings list.
From Stdlib Require Import Ascii.
From S2P Require Import Prelude GoErr Sha256 GoTime Float64 Json Effects Http Store JsonText HttpServer ChatMessage.

(** ** Values of an event *)

Record KickDelivery := MkKickDelivery {
  MessageID : string;
  Timestamp : string;
  Type_ : string;
  Version : string;
  Event : value
}.

Record KickMessageDoc := MkKickMessageDoc { ID : string; MsgData : doc }.

Record KickDocuments := MkKickDocuments {
  ChannelID : string;
  Messages : list KickMessageDoc;
  Channel : doc
}.

Definition kickObject (v : value) : doc := match v with VMap l => l | _ => [] end.

Definition kickTruthy (v : value) : bool :=
  match v with
  | VNull => false
  | VBool b => b
  | VString s => negb (String.eqb s "")
  | VFloat t => negb (float_is_zero t)
  | _ => true
  end.

Definition join (sep : string) (l : list string) : string := String.concat sep l.

(** Keys of a map in the order fmt prints them. *)
Fixpoint insert_key (k v : string) (l : list (string * string)) : list (string * string) :=
  match l with
  | [] => [(k, v)]
  | (k', v') :: l' => if String.ltb k k' then (k, v) :: l else (k', v') :: insert_key k v l'
  end.

(** [fmt.Sprint] of a decoded JSON value. *)
Fixpoint sprint (v : value) : string :=
  match v with
  | VNull => "<nil>"
  | VBool b => if b then "true" else "false"
  | VFloat t => float_v t
  | VString s => s
  | VList l => "[" +:+ join " " ((fix go (l : list value) : list string :=
      match l with [] => [] | v :: l => sprint v :: go l end) l) +:+ "]"
  | VMap l => "map[" +:+ join " " (map (λ p, p.1 +:+ ":" +:+ p.2)
      ((fix go (l : doc) : list (string * string) :=
          match l with [] => [] | (k, v) :: l => insert_key k (sprint v) (go l) end) l)) +:+ "]"
  | VInt _ | VTime _ | VServerTimestamp | VDelete | VIncrement _ => ""  (* not decoded from JSON *)
  end.

Definition kickString (v : value) : string := match v with VFloat t => t | _ => sprint v end.

Definition kickTimestamp (v : value) : result time :=
  match v with
  | VString text =>
    match parse_rfc3339 text with
    | Some at_ => inr (time_truncate at_ millisecond)
    | None => inl (ErrMsg "cannot parse time")
    end
  | _ => inl (ErrMsg ("kick: invalid timestamp " +:+ sprint v))
  end.

(** [v, exists := m[k]]. *)
Fixpoint lookup_field (d : doc) (k : string) : option value :=
  match d with
  | [] => None
  | (k', v) :: d => if String.eqb k' k then Some v else lookup_field d k
  end.

(** ** The mapping *)

Section Mapping.
Context (delivery : KickDelivery) (now : time).

Definition event : doc := kickObject (Event delivery).
Definition kick_broadcaster : doc := kickObject (field event "broadcaster").

(** The id, the type, the time and the channel's fields of the switch on the
    delivery's type. *)
Definition kick_switch : result (string * string * value * doc) :=
  let id := "kick:" +:+ MessageID delivery in
  let messageType := "kick." +:+ Type_ delivery in
  let created := field event "created_at" in
  let type s := String.eqb (Type_ delivery) s in
  if type "chat.message.sent" then
    inr (match lookup_field event "message_id" with
         | None => "kick:undefined"
         | Some VNull => "kick:null"
         | Some v => "kick:" +:+ kickString v
         end, messageType, created, [])
  else if type "livestream.status.updated" then
    let title := if kickTruthy (field event "title") then [("title", field event "title")] else [] in
    if kickTruthy (field event "is_live") then
      let at_ := field event "started_at" in
      match kickTimestamp at_ with
      | inl e => inl e
      | inr onlineAt => inr (id, "stream.online", at_, ("onlineAt", VTime onlineAt) :: title)
      end
    else inr (id, "stream.offline", field event "ended_at", ("onlineAt", VNull) :: title)
  else if type "livestream.metadata.updated" then
    let metadata := kickObject (field event "metadata") in
    let category := kickObject (field metadata "category") in
    inr (id, messageType, created,
         [("title", field metadata "title"); ("language", field metadata "language");
          ("categoryId", field category "id"); ("categoryName", field category "name")])
  else if type "channel.followed" then inr (id, messageType, VNull, [])
  else if type "moderation.banned" then
    inr (id, messageType, field (kickObject (field event "metadata")) "created_at", [])
  else if type "channel.reward.redemption.updated" then
    inr (id, messageType, field event "redeemed_at", [])
  else inr (id, messageType, created, []).

(** [inr None]: the delivery has no broadcaster. *)
Definition KickToDocuments : result (option KickDocuments) :=
  if is_nil (field kick_broadcaster "user_id") then inr None
  else
    let channelID := "kick:" +:+ kickString (field kick_broadcaster "user_id") in
    match kick_switch with
    | inl e => inl e
    | inr (id, messageType, at_, channel) =>
      let slug := field kick_broadcaster "channel_slug" in
      let channel :=
        if kickTruthy slug
        then channel ++ [("login", slug); ("displayName", field kick_broadcaster "username")]
        else channel in
      if String.eqb (Type_ delivery) "livestream.metadata.updated"
      then inr (Some (MkKickDocuments channelID [] channel))
      else
        let at_ := if is_nil at_ then VString (Timestamp delivery) else at_ in
        match kickTimestamp at_ with
        | inl e => inl e
        | inr timestamp =>
          inr (Some (MkKickDocuments channelID
            [MkKickMessageDoc id
               [("channelId", VString channelID); ("type", VString messageType);
                ("timestamp", VTime timestamp);
                ("expiresAt", VTime (time_truncate now millisecond + TTLFor messageType));
                ("event", Event delivery)]] channel))
        end
    end.
End Mapping.

(** ** Stored values *)

Fixpoint kickFirestoreValue (v : value) : value :=
  match v with
  | VFloat text =>
    if String.eqb text "-0" then v
    else match safe_integer text with Some z => VInt z | None => v end
  | VMap l => VMap ((fix go (l : doc) : doc :=
      match l with [] => [] | (k, v) :: l => (k, kickFirestoreValue v) :: go l end) l)
  | VList l => VList ((fix go (l : list value) : list value :=
      match l with [] => [] | v :: l => kickFirestoreValue v :: go l end) l)
  | _ => v
  end.
Definition kickFirestoreData (d : doc) : doc := map (λ p, (p.1, kickFirestoreValue p.2)) d.

(** [reflect.DeepEqual] of two decoded values; the order of a map's entries
    does not matter. *)
Fixpoint deep_equal (a b : value) : bool :=
  match a, b with
  | VNull, VNull => true
  | VBool a, VBool b => Bool.eqb a b
  | VInt a, VInt b | VTime a, VTime b => a =? b
  | VFloat a, VFloat b => String.eqb a b || (float_is_zero a && float_is_zero b)
  | VString a, VString b => String.eqb a b
  | VList a, VList b =>
    (fix go (a b : list value) : bool :=
       match a, b with
       | [], [] => true
       | x :: a, y :: b => deep_equal x y && go a b
       | _, _ => false
       end) a b
  | VMap a, VMap b =>
    (length a =? length b)%nat &&
    (fix go (a : doc) : bool :=
       match a with
       | [] => true
       | (k, x) :: a =>
         match lookup_field b k with Some y => deep_equal x y && go a | None => false end
       end) a
  | _, _ => false
  end.

(** Every field of [update] is in [current] with an equal value. *)
Definition unchanged (current update : doc) : bool :=
  forallb (λ p, match lookup_field current p.1 with
                | Some v => deep_equal v p.2
                | None => false
                end) update.

(** ** The store and the handler *)

(** [FetchKey] is the GET of the public key, its body the key of the decoded
    answer; [CreateChat] is chatmessage.Create around CreateMessage: whether
    the document was a duplicate, and the error. *)
Inductive keff : Type → Type :=
  | KDb {A} (op : db A) : keff A
  | KNow : keff time
  | FetchKey : keff (result (response string))
  | CreateChat (path : string) (data : doc) : keff (bool * option error)
  | Count (kind : string) (outcome : Outcome) : keff unit.

Record key_cache := KeyCache { publicKey : string; fetchedAt : time }.

Definition kickKeyRefreshInterval : duration := minute.
Definition kickMaxBodyBytes : Z := 1048576.

Definition kick_channel (channelID : string) : string := "channels/" +:+ channelID.
Definition kick_message (channelID id : string) : string :=
  kick_channel channelID +:+ "/messages/" +:+ id.

Definition kickKind (documentType : string) : string :=
  if String.eqb documentType "kick.chat.message.sent" then "message"
  else trim_prefix documentType "kick.".

Section Handler.
(** pem.Decode, x509.ParsePKIXPublicKey and rsa.VerifyPKCS1v15 on SHA-256:
    the key's text, the message and the decoded signature. *)
Context (rsa_verify : string → string → string → bool) (η : env keff).
Local Abbreviation M := (M (world keff key_cache)).

Definition VerifyKickSignature (publicKeyPEM messageID timestamp body signature : string) : bool :=
  match b64_decode signature with
  | None => false
  | Some signed => rsa_verify publicKeyPEM (messageID +:+ "." +:+ timestamp +:+ "." +:+ body) signed
  end.

(** The transaction of MergeChannel. *)
Definition merge_tx (ref : string) (update : doc) : M (result unit) :=
  r ← db_ η (@KDb) (TxGet ref);
  match r with
  | inl e => if decide (status_code (Some e) = NotFound)
             then exec η (@KDb) (TxSet ref update true) else throw e
  | inr current => if unchanged current update then ok tt
                   else exec η (@KDb) (TxSet ref update true)
  end.
Definition MergeChannel (channelID : string) (data : doc) : M (result unit) :=
  RunTransaction η (@KDb) (merge_tx (kick_channel channelID) (kickFirestoreData data)).

Definition fetch_key : M (result string) :=
  r ← ask η FetchKey;
  match r with
  | inl e => throw e
  | inr r =>
    if (StatusCode r <? 200) || (300 <=? StatusCode r)
    then throw (ErrMsg "failed to fetch kick public key")
    else match Body r with
         | None => throw (ErrMsg "json")
         | Some k =>
           if String.eqb k "" then throw (ErrMsg "kick public key response has no key")
           else now ← ask η KNow; put_st (KeyCache k now);; ok k
         end
  end.

Definition getPublicKey (refresh : bool) : M (result string) :=
  c ← get_st;
  if String.eqb (publicKey c) "" then fetch_key
  else if refresh then
    now ← ask η KNow;
    if time_sub now (fetchedAt c) <? kickKeyRefreshInterval then ok (publicKey c) else fetch_key
  else ok (publicKey c).

(** The loop over [refresh]: an error of getPublicKey, or whether a key
    verified the delivery. *)
Fixpoint verify_loop (d : KickDelivery) (body signature : string) (refreshes : list bool) :
    M (result bool) :=
  match refreshes with
  | [] => ok false
  | refresh :: rest =>
    key ←? getPublicKey refresh;
    if VerifyKickSignature key (MessageID d) (Timestamp d) body signature then ok true
    else verify_loop d body signature rest
  end.

Fixpoint create_messages (channelID : string) (l : list KickMessageDoc) : M (result unit) :=
  match l with
  | [] => ok tt
  | m :: l =>
    '(duplicate, err) ← ask η (CreateChat (kick_message channelID (ID m)) (kickFirestoreData (MsgData m)));
    let outcome := if (duplicate : bool) then Duplicate else OutcomeOf err in
    ask η (Count (kickKind (match field (MsgData m) "type" with VString s => s | _ => "" end)) outcome);;
    match err with
    | Some e => throw e
    | None => create_messages channelID l
    end
  end.

Definition write_documents (docs : KickDocuments) : M (result unit) :=
  create_messages (ChannelID docs) (Messages docs) ;?
  match Channel docs with
  | [] => ok tt
  | _ => MergeChannel (ChannelID docs) (Channel docs)
  end.

Definition kick_delivery (r : incoming) (ev : value) : KickDelivery :=
  MkKickDelivery (HttpServer.Get r "kick-event-message-id") (HttpServer.Get r "kick-event-message-timestamp")
    (HttpServer.Get r "kick-event-type") (HttpServer.Get r "kick-event-version") ev.
Definition kick_signature (r : incoming) : string := HttpServer.Get r "kick-event-signature".

Definition KickServe (r : incoming) : M reply :=
  if negb (String.eqb (r_method r) "POST") then mret (bare 405)
  else
    let d := kick_delivery r VNull in
    if String.eqb (MessageID d) "" || String.eqb (Timestamp d) "" || String.eqb (kick_signature r) ""
    then mret (bare 400)
    else match read_all kickMaxBodyBytes r with
    | TooLarge | Broken => mret (bare 400)
    | Bytes body =>
      v ← verify_loop d body (kick_signature r) [false; true];
      match v with
      | inl _ => mret (bare 500)
      | inr false => mret (bare 403)
      | inr true =>
        match parse_json body ≫= iface with
        | None => mret (bare 400)
        | Some ev =>
          now ← ask η KNow;
          match KickToDocuments (kick_delivery r ev) now with
          | inl _ => mret (bare 500)
          | inr None => mret (bare 200)
          | inr (Some docs) =>
            e ← write_documents docs;
            mret (match e with inl _ => bare 500 | inr _ => bare 200 end)
          end
        end
      end
    end.
End Handler.

(** ** What a delivery may do *)

Definition ok_status {B} (r : response B) : bool := negb ((StatusCode r <? 200) || (300 <=? StatusCode r)).

(** The key of an answer of the endpoint. *)
Definition key_answer (a : result (response string)) : option string :=
  match a with
  | inr r => if ok_status r then
               match Body r with Some k => if String.eqb k "" then None else Some k | None => None end
             else None
  | inl _ => None
  end.

(** The handler held [k] when it started, or fetched it since. *)
Definition trusted (k0 k : string) (t : trace keff) : Prop :=
  k = k0 ∨ ∃ a, Ev FetchKey a ∈ t ∧ key_answer a = Some k.

Lemma trusted_stable k0 k : stable (trusted k0 k).
Proof. intros e t [->|(a & Ha & Hk)]; [by left|]. right. exists a. split; [by apply list_elem_of_further|done]. Qed.

Definition kick_signed (rsa_verify : string → string → string → bool) (k0 : string) (r : incoming)
    (t : trace keff) : Prop :=
  ∃ body k, r_method r = "POST" ∧ read_all kickMaxBodyBytes r = Bytes body ∧ trusted k0 k t ∧ k ≠ "" ∧
    VerifyKickSignature rsa_verify k (MessageID (kick_delivery r VNull))
      (Timestamp (kick_delivery r VNull)) body (kick_signature r) = true.

Lemma kick_signed_stable rsa k0 r : stable (kick_signed rsa k0 r).
Proof.
  intros e t (b & k & ?). destruct_and!. exists b, k. split_and!; [done..| |done|done].
  by apply trusted_stable.
Qed.

(** The documents of the delivery, had the clock read [now]. *)
Definition kick_documents (r : incoming) (now : time) : option (result (option KickDocuments)) :=
  match read_all kickMaxBodyBytes r with
  | Bytes body => ev ← parse_json body ≫= iface; Some (KickToDocuments (kick_delivery r ev) now)
  | _ => None
  end.

Definition kick_ok (rsa_verify : string → string → string → bool) (k0 : string) (r : incoming)
    (t : trace keff) (e : ev keff) : Prop :=
  match e with
  | Ev op _ =>
    match op with
    | KNow | FetchKey => True
    | Count _ _ => kick_signed rsa_verify k0 r t
    | CreateChat path _ => kick_signed rsa_verify k0 r t ∧
        ∃ now docs m, kick_documents r now = Some (inr (Some docs)) ∧ m ∈ Messages docs ∧
                      path = kick_message (ChannelID docs) (ID m)
    | KDb op => kick_signed rsa_verify k0 r t ∧
        match op with
        | TxGet path | TxSet path _ true =>
          ∃ now docs, kick_documents r now = Some (inr (Some docs)) ∧ path = kick_channel (ChannelID docs)
        | Commit => True
        | _ => False
        end
    end
  end.

(** The channel document was read with every field of [update], or set. *)
Definition merged (ref : string) (update : doc) (t : trace keff) : Prop :=
  ∃ post t', t = post ++ Ev (KDb Commit) None :: t' ∧
    ((∃ t'', t' = Ev (KDb (TxSet ref update true)) None :: t'') ∨
     ∃ current t'', t' = Ev (KDb (TxGet ref)) (inr current) :: t'' ∧ unchanged current update = true).

(** What [write_documents] leaves. *)
Definition written (docs : KickDocuments) (t : trace keff) : Prop :=
  (∀ m, m ∈ Messages docs →
     ∃ data dup, Ev (CreateChat (kick_message (ChannelID docs) (ID m)) data) (dup, None) ∈ t) ∧
  (Channel docs ≠ [] → merged (kick_channel (ChannelID docs)) (kickFirestoreData (Channel docs)) t).

Definition kick_served (r : incoming) (a : reply) (t : trace keff) : Prop :=
  status a = 200 →
  ∃ now o, kick_documents r now = Some (inr o) ∧ match o with Some docs => written docs t | None => True end.

Section Proofs.
Context (rsa_verify : string → string → string → bool) (η : env keff) (k0 : string) (r : incoming).
Local Abbreviation signed := (kick_signed rsa_verify k0 r).
Local Abbreviation ok_ := (kick_ok rsa_verify k0 r).

Lemma runs_merge docs now (G : trace keff → Prop) :
  kick_documents r now = Some (inr (Some docs)) → stable G → (∀ t, G t → signed t) →
  runs (S:=key_cache) ok_ G (MergeChannel η (ChannelID docs) (Channel docs))
    (λ e t, e = inr tt → G t ∧ merged (kick_channel (ChannelID docs)) (kickFirestoreData (Channel docs)) t).
Proof.
  intros Hd HG Hs. set (ref := kick_channel _). set (u := kickFirestoreData _).
  apply runs_transaction with (R := λ (e : result unit) t, G t ∧ (e = inr tt →
    (∃ t'', t = Ev (KDb (TxSet ref u true)) None :: t'') ∨
     ∃ current t'', t = Ev (KDb (TxGet ref)) (inr current) :: t'' ∧ unchanged current u = true)).
  - assert (∀ F, (∀ t, F t → G t) → runs (S:=key_cache) ok_ F (exec η (@KDb) (TxSet ref u true))
      (λ e t, G t ∧ (e = inr tt → (∃ t'', t = Ev (KDb (TxSet ref u true)) None :: t'') ∨
     ∃ current t'', t = Ev (KDb (TxGet ref)) (inr current) :: t'' ∧ unchanged current u = true))) as Hset.
    { intros F HF. apply runs_exec.
      - intros t Ht. split_and!; [|by apply HG, HF|left; by eexists].
        split; [by apply Hs, HF|]. by exists now, docs.
      - intros t e Ht. split_and!; [|by apply HG, HF|done].
        split; [by apply Hs, HF|]. by exists now, docs. }
    unfold merge_tx. fold ref u. eapply (runs_bind _ _ _ (λ a t, G t ∧ ∃ t'', t = Ev (KDb (TxGet ref)) a :: t'')).
    + apply runs_db. intros t a Ht. split_and!; [|by apply HG|by eexists].
      split; [by apply Hs|]. by exists now, docs.
    + intros [e|current].
      * case_decide; [apply Hset; naive_solver|]. apply runs_ret. naive_solver.
      * destruct (unchanged current u) eqn:E; [|apply Hset; naive_solver].
        apply runs_ret. intros t [Ht [t'' ->]]. split; [done|]. intros _. right. by exists current, t''.
  - done.
  - intros a t c [Ht _]. split; [by apply Hs|done].
  - intros [] t [Ht Hm] _. split; [by apply HG|]. exists [], t. split; [done|]. by apply Hm.
  - intros a t e [Ht _]. split; [by apply HG|done].
  - done.
Qed.

Definition landed (docs : KickDocuments) (m : KickMessageDoc) (t : trace keff) : Prop :=
  ∃ data dup, Ev (CreateChat (kick_message (ChannelID docs) (ID m)) data) (dup, None) ∈ t.

Lemma landed_stable docs m : stable (landed docs m).
Proof. intros e t (d & u & ?). exists d, u. by apply list_elem_of_further. Qed.

Lemma runs_create_messages docs now l : ∀ G : trace keff → Prop,
  kick_documents r now = Some (inr (Some docs)) → (∀ m, m ∈ l → m ∈ Messages docs) →
  stable G → (∀ t, G t → signed t) →
  runs (S:=key_cache) ok_ G (create_messages η (ChannelID docs) l)
    (λ e t, G t ∧ (e = inr tt → ∀ m, m ∈ l → landed docs m t)).
Proof.
  induction l as [|m l IH]; intros G Hd Hl HG Hs; cbn [create_messages].
  { apply runs_ret. intros t Ht. split; [done|]. intros _ m Hm. by apply elem_of_nil in Hm. }
  eapply (runs_bind _ _ _ (λ a t, G t ∧ (a.2 = None → landed docs m t))).
  { apply runs_ask. intros t Ht. split_and!.
    - split; [by apply Hs|]. exists now, docs, m. split_and!; [done| |done]. apply Hl, list_elem_of_here.
    - by apply HG.
    - intros Ha. destruct (η _ _ _) as [dup e]. cbn in Ha. subst. eexists _, dup. apply list_elem_of_here. }
  intros [dup e]. eapply (runs_bind _ _ _ (λ _ t, G t ∧ (e = None → landed docs m t))).
  { apply runs_ask. intros t [Ht Hm]. split_and!; [by apply Hs|by apply HG|].
    intros He. by apply landed_stable, Hm. }
  intros ?. destruct e as [e|]; [apply runs_ret; by intros t [Ht _]|].
  eapply runs_conseq; [apply (IH (λ t, G t ∧ landed docs m t)); [done| | |]| |].
  - intros m' Hm'. by apply Hl, list_elem_of_further.
  - intros e t [? ?]. split; [by apply HG|by apply landed_stable].
  - intros t [? _]. by apply Hs.
  - intros t [? Hm]. auto.
  - intros e t [[Ht Hm] Hall]. split; [done|]. intros He m' Hm'.
    apply elem_of_cons in Hm' as [->|Hm']; auto.
Qed.

Lemma runs_write_documents docs now :
  kick_documents r now = Some (inr (Some docs)) →
  runs (S:=key_cache) ok_ signed (write_documents η docs) (λ e t, e = inr tt → written docs t).
Proof.
  intros Hd. unfold write_documents.
  assert (stable (λ t, signed t ∧ ∀ m, m ∈ Messages docs → landed docs m t)) as Hst.
  { intros e t [? H]. split; [by apply kick_signed_stable|]. intros m Hm. by apply landed_stable, H. }
  eapply runs_bindE; [apply (runs_create_messages docs now (Messages docs) signed);
    [done..|apply kick_signed_stable|done]|done|].
  intros []. destruct (Channel docs) as [|x l] eqn:E.
  - apply runs_ret. intros t [_ Hm] _. split; [by apply Hm|]. by rewrite E.
  - rewrite <-E. eapply runs_conseq; [eapply (runs_merge docs now _ Hd Hst)| |].
    + by intros t [? _].
    + intros t [? Hm]. auto.
    + intros e t H He. destruct (H He) as [[_ Hm] ?]. by split.
Qed.
(** The cached key is trusted. *)
Definition cache_ok (w : world keff key_cache) : Prop :=
  justified ok_ (w_tr w) ∧ trusted k0 (publicKey (w_st w)) (w_tr w).
Definition key_ok (a : result string) (w : world keff key_cache) : Prop :=
  cache_ok w ∧ ∀ k, a = inr k → trusted k0 k (w_tr w) ∧ k ≠ "".

Lemma triple_fetch : triple cache_ok (fetch_key η) key_ok.
Proof.
  intros w [Hj Ht]. unfold fetch_key. rewrite M_bind_run. cbn -[ask].
  set (a := η _ (w_tr w) FetchKey).
  assert (cache_ok (World (Ev FetchKey a :: w_tr w) (w_st w))) as Hw.
  { split; [done|]. by apply trusted_stable. }
  cbn. fold a. destruct a as [e|resp] eqn:Ea; [by split|].
  destruct (_ || _) eqn:Es; [by split|]. destruct (Body resp) as [k|] eqn:Eb; [|by split].
  destruct (String.eqb_spec k "") as [->|Hk]; [by split|].
  rewrite M_bind_run. cbn.
  assert (∀ n, trusted k0 k (Ev KNow n :: Ev FetchKey (inr resp) :: w_tr w)) as Htr.
  { intros n. right. exists (inr resp). split; [apply list_elem_of_further, list_elem_of_here|].
    cbn. unfold ok_status. rewrite Es, Eb. cbn. by destruct (String.eqb_spec k ""). }
  split; [split; [done|apply Htr]|]. intros k' [= <-]. split; [apply Htr|done].
Qed.

Lemma triple_key refresh : triple cache_ok (getPublicKey η refresh) key_ok.
Proof.
  intros w Hw. unfold getPublicKey. rewrite M_bind_run. cbn [get_st fst snd].
  destruct (String.eqb_spec (publicKey (w_st w)) "") as [E|E]; [by apply triple_fetch|].
  destruct refresh.
  - rewrite M_bind_run. cbn [ask fst snd].
    assert (cache_ok (World (Ev KNow (η _ (w_tr w) KNow) :: w_tr w) (w_st w))) as Hw'.
    { destruct Hw. split; [done|]. by apply trusted_stable. }
    case_match; [|by apply triple_fetch]. split; [done|]. intros k [= <-]. split; [apply Hw'|done].
  - split; [done|]. intros k [= <-]. split; [apply Hw|done].
Qed.

Lemma triple_verify body rs :
  r_method r = "POST" → read_all kickMaxBodyBytes r = Bytes body →
  triple cache_ok (verify_loop rsa_verify η (kick_delivery r VNull) body (kick_signature r) rs)
    (λ v w, justified ok_ (w_tr w) ∧ (v = inr true → signed (w_tr w))).
Proof.
  intros Hm Hb. induction rs as [|refresh rs IH]; intros w Hw.
  { split; [apply Hw|intros [=]]. }
  cbn [verify_loop]. unfold bindE. rewrite M_bind_run.
  destruct (triple_key refresh w Hw) as [Hw' Hk].
  destruct (getPublicKey η refresh w) as [[e|k] w']; cbn [fst snd] in *; [split; [apply Hw'|intros [=]]|].
  destruct (Hk k eq_refl) as [Ht Hne].
  destruct (VerifyKickSignature _ _ _ _ _ _) eqn:Ev; [|by apply IH].
  split; [apply Hw'|]. intros _. by exists body, k.
Qed.

Lemma triple_serve :
  triple cache_ok (KickServe rsa_verify η r) (λ a w, justified ok_ (w_tr w) ∧ kick_served r a (w_tr w)).
Proof.
  assert (∀ a (w : world keff key_cache), status a ≠ 200 → justified ok_ (w_tr w) →
    justified ok_ (w_tr w) ∧ kick_served r a (w_tr w)) as Hbad.
  { intros a w Ha Hj. by split; [|intros ?]. }
  intros w Hw. unfold KickServe. destruct (negb _) eqn:Hm; [by apply Hbad; [|apply Hw]|].
  apply negb_false_iff, String.eqb_eq in Hm.
  destruct (_ || _ || _); [by apply Hbad; [|apply Hw]|].
  destruct (read_all kickMaxBodyBytes r) as [body| |] eqn:Hb; [|by apply Hbad; [|apply Hw]..].
  rewrite M_bind_run.
  destruct (triple_verify body [false; true] Hm Hb w Hw) as [Hj Hs].
  destruct (verify_loop _ _ _ _ _ _ w) as [[e|[|]] w']; cbn [fst snd] in *; [by apply Hbad| |by apply Hbad].
  destruct (parse_json body ≫= iface) as [ev|] eqn:Hp; [|by apply Hbad].
  specialize (Hs eq_refl). rewrite M_bind_run. cbn [ask fst snd].
  set (now := η _ _ KNow). set (w2 := World _ _).
  assert (justified ok_ (w_tr w2) ∧ signed (w_tr w2)) as Hw2.
  { split; [done|]. by apply kick_signed_stable. }
  assert (kick_documents r now = Some (KickToDocuments (kick_delivery r ev) now)) as Hd.
  { unfold kick_documents. rewrite Hb. by rewrite Hp. }
  destruct (KickToDocuments (kick_delivery r ev) now) as [e|[docs|]] eqn:Ek.
  - apply Hbad; [done|apply Hw2].
  - rewrite M_bind_run. destruct (runs_write_documents docs now Hd w2 Hw2) as [Hj2 Hwr].
    destruct (write_documents η docs w2) as [[e|[]] w3]; [by apply Hbad|].
    split; [done|]. intros _. exists now, (Some docs). split; [done|]. by apply Hwr.
  - split; [apply Hw2|]. intros _. by exists now, None.
Qed.
End Proofs.

(** ** The rate of key fetches *)

(** The key and the time of the last answer with a key, from the effects of
    getPublicKey. *)
Definition now_of (e : ev keff) : option time :=
  match e with
  | Ev op a => match op in keff A return A → option time with KNow => Some | _ => λ _, None end a
  end.
Definition key_of (e : ev keff) : option string :=
  match e with
  | Ev op a =>
    match op in keff A return A → option string with FetchKey => key_answer | _ => λ _, None end a
  end.
Fixpoint last_fetch (t : trace keff) : option (string * time) :=
  match t with
  | e :: t' =>
    match now_of e, match t' with e' :: _ => key_of e' | [] => None end with
    | Some n, Some k => Some (k, n)
    | _, _ => last_fetch t'
    end
  | [] => None
  end.

(** A fetch while a key is held comes right after a clock reading a minute or
    more past the previous fetch. *)
Definition spaced (t : trace keff) (e : ev keff) : Prop :=
  match e with
  | Ev op _ =>
    match op with
    | FetchKey =>
      match last_fetch t with
      | None => True
      | Some (_, n) => ∃ n' t', t = Ev KNow n' :: t' ∧ kickKeyRefreshInterval <= time_sub n' n
      end
    | _ => True
    end
  end.

(** The cache is what the trace says; no key is waiting to be stored. *)
Definition cache_is (w : world keff key_cache) : Prop :=
  justified spaced (w_tr w) ∧
  match last_fetch (w_tr w) with
  | Some (k, n) => w_st w = KeyCache k n ∧ k ≠ ""
  | None => publicKey (w_st w) = ""
  end ∧
  match w_tr w with e :: _ => key_of e = None | [] => True end.

Section Spacing.
Context (η : env keff).

(** A fetch, when the cache allows it. *)
Lemma keeps_fetch w :
  cache_is w →
  match last_fetch (w_tr w) with
  | None => True
  | Some (_, n) => ∃ n' t', w_tr w = Ev KNow n' :: t' ∧ kickKeyRefreshInterval <= time_sub n' n
  end →
  cache_is (fetch_key η w).2.
Proof.
  intros (Hj & Hc & Hp) Hal. unfold fetch_key. rewrite M_bind_run. cbn [ask fst snd].
  set (a := η _ (w_tr w) FetchKey). set (t1 := Ev FetchKey a :: w_tr w).
  assert (justified spaced t1) as Hj1 by by split.
  assert (last_fetch t1 = last_fetch (w_tr w)) as Hl by done.
  assert (key_answer a = None → cache_is (World t1 (w_st w))) as Hbad.
  { intros Ha. split_and!; [done| |done]. cbn [w_tr w_st]. by rewrite Hl. }
  destruct a as [e|resp] eqn:Ea; [by apply Hbad|]. cbn in Hbad. unfold ok_status in Hbad.
  destruct (_ || _) eqn:Es; [by apply Hbad|]. cbn in Hbad.
  destruct (Body resp) as [k|] eqn:Eb; [|by apply Hbad].
  destruct (String.eqb_spec k "") as [->|Hk]; [by apply Hbad|].
  assert (key_answer (inr resp) = Some k) as Hk'.
  { cbn. unfold ok_status. rewrite Es, Eb. cbn. by destruct (String.eqb_spec k ""). }
  rewrite M_bind_run. cbn [ask fst snd]. rewrite M_bind_run. cbn [put_st fst snd ok mret M_ret].
  set (n := η _ _ KNow). split_and!; [done| |done].
  cbn [w_tr w_st last_fetch now_of]. unfold t1. cbn [key_of]. by rewrite Hk'.
Qed.

Lemma keeps_getPublicKey refresh : keeps cache_is (getPublicKey η refresh).
Proof.
  intros w Hw. unfold getPublicKey. rewrite M_bind_run. cbn [get_st fst snd].
  pose proof Hw as (Hj & Hc & Hp).
  destruct (String.eqb_spec (publicKey (w_st w)) "") as [E|E].
  { apply keeps_fetch; [done|]. destruct (last_fetch (w_tr w)) as [[k n]|]; [|done].
    destruct Hc as [Hc Hk]. rewrite Hc in E. done. }
  destruct refresh; [|done]. rewrite M_bind_run. cbn [ask fst snd].
  set (n' := η _ (w_tr w) KNow).
  assert (last_fetch (Ev KNow n' :: w_tr w) = last_fetch (w_tr w)) as Hl.
  { cbn. destruct (w_tr w) as [|e t]; [done|]. by rewrite Hp. }
  assert (cache_is (World (Ev KNow n' :: w_tr w) (w_st w))) as Hw'.
  { split_and!; [done| |done]. cbn [w_tr w_st]. by rewrite Hl. }
  destruct (Z.ltb_spec (time_sub n' (fetchedAt (w_st w))) kickKeyRefreshInterval); [done|].
  apply keeps_fetch; [done|]. cbn [w_tr]. rewrite Hl.
  destruct (last_fetch (w_tr w)) as [[k n]|]; [|done].
  destruct Hc as [Hc Hk]. exists n', (w_tr w). rewrite Hc in *. cbn in *. split; [done|lia].
Qed.

(** The calls of any deliveries, in the order they take the lock. *)
Fixpoint get_keys (refreshes : list bool) : M (world keff key_cache) unit :=
  match refreshes with
  | [] => mret tt
  | b :: rest => getPublicKey η b;; get_keys rest
  end.

Lemma keeps_get_keys l : keeps cache_is (get_keys l).
Proof.
  induction l as [|b l IH]; [apply keeps_ret|]. apply keeps_bind; [apply keeps_getPublicKey|auto].
Qed.
End Spacing.

(** ** The properties *)

(** C15. Whatever the provider, the store and the clock answer, a delivery that
    starts with the key [k0] cached (empty: none) writes or counts only if its
    body carries a signature that verifies under a key that was cached or that
    the provider's endpoint answered since; it creates only the messages its
    event maps to, and reads and merges only its channel's document. *)
Theorem kick_authentic rsa_verify η c r :
  justified (kick_ok rsa_verify (publicKey c) r) (w_tr (KickServe rsa_verify η r (World [] c)).2).
Proof. apply (triple_serve rsa_verify η (publicKey c) r (World [] c)). by split; [|left]. Qed.

(** A delivery answered 200 maps to no documents, or every message it maps
    to was created or existed, and its channel's document was merged or already
    had every field; anything else is answered with an error, for Kick to
    send the delivery again. *)
Theorem kick_acknowledged rsa_verify η c r :
  let '(a, w) := KickServe rsa_verify η r (World [] c) in
  status a = 200 →
  ∃ now o, kick_documents r now = Some (inr o) ∧
           match o with Some docs => written docs (w_tr w) | None => True end.
Proof.
  pose proof (triple_serve rsa_verify η (publicKey c) r (World [] c)) as H.
  destruct (KickServe _ _ _ _) as [a w]. cbn in H. intros Ha. apply H; [by split; [|left]|done].
Qed.

(** Over any number of deliveries, forged ones included, once a key is held
    it is fetched again only after a minute by the handler's clock: every fetch
    follows a reading a minute or more past the time of the last good answer. *)
Theorem kick_key_spacing η refreshes :
  justified spaced (w_tr (get_keys η refreshes (World [] (KeyCache "" zero_time))).2).
Proof. by apply (keeps_get_keys η refreshes (World [] (KeyCache "" zero_time))). Qed.

(** A chat message signed under the key the endpoint answers. *)
Definition chat_body : string := quoted
  "{'message_id':'abc','broadcaster':{'user_id':123,'channel_slug':'slug','username':'Name'},'created_at':'2024-03-01T07:00:05Z'}".
Definition chat_request : incoming :=
  Incoming "POST" "/kick/" ∅
    (<["Kick-Event-Message-Id" := "m1"]> (<["Kick-Event-Message-Timestamp" := "2024-03-01T07:00:06Z"]>
     (<["Kick-Event-Type" := "chat.message.sent"]>
      {["Kick-Event-Signature" := "c3VyZQ=="]})))
    chat_body false.
Definition some_rsa (key message signed : string) : bool :=
  String.eqb key "PEM" && has_prefix message "m1.2024" && String.eqb signed "sure".
Definition kick_env : env keff := λ A _ op,
  match op in keff A return A with
  | KDb op => match op in db A return A with
              | Store.Get _ | TxGet _ => inl (ErrStatus NotFound)
              | Query _ _ _ => inr []
              | _ => None
              end
  | KNow => time_unix 1709276406 0
  | FetchKey => inr (Response 200 ∅ false (Some "PEM"))
  | CreateChat _ _ => (false, None)
  | Count _ _ => tt
  end.

Lemma kick_acknowledged_witness :
  let '(a, w) := KickServe some_rsa kick_env chat_request (World [] (KeyCache "" zero_time)) in
  status a = 200 ∧
  ∃ now o, kick_documents chat_request now = Some (inr o) ∧
           match o with Some docs => written docs (w_tr w) | None => True end.
Proof.
  pose proof (kick_acknowledged some_rsa kick_env (KeyCache "" zero_time) chat_request) as H.
  destruct (KickServe _ _ _ _) as [a w] eqn:E.
  assert (Ha : status a = 200).
  { apply (f_equal (λ x, status x.1)) in E. cbn [fst] in E. rewrite <-E. vm_compute. reflexivity. }
  split; [exact Ha|]. exact (H Ha).
Defined.

(** What it creates and merges. *)
Example chat_documents :
  kick_documents chat_request (time_unix 1709276406 0) =
  Some (inr (Some (MkKickDocuments "kick:123"
    [MkKickMessageDoc "kick:abc"
      [("channelId", VString "kick:123"); ("type", VString "kick.chat.message.sent");
       ("timestamp", VTime (time_unix 1709276405 0)); ("expiresAt", VTime (time_unix (1709276406 + 604800) 0));
       ("event", VMap [("message_id", VString "abc");
          ("broadcaster", VMap [("user_id", VFloat "123"); ("channel_slug", VString "slug"); ("username", VString "Name")]);
          ("created_at", VString "2024-03-01T07:00:05Z")])]]
    [("login", VString "slug"); ("displayName", VString "Name")]))).
Proof. vm_compute. reflexivity. Qed.

(** Three deliveries of an attacker within a minute fetch the key once. *)
Example forged_fetches :
  length (filter (λ e, is_some (key_of e) = true)
    (w_tr (get_keys kick_env [false; true; false; true; false; true] (World [] (KeyCache "" zero_time))).2)) = 1%nat.
Proof. vm_compute. reflexivity. Qed.
