(* ===== verification/Alchemy.v ===== *)
(** * Alchemy donations

    Models agent/internal/webhook/alchemy.go, alchemy_abi.go,
    alchemy_identity.go and alchemy_io.go: the calldata of a donation, the
    document id of an activity, the stored values, and the handler. A Go panic
    (a slice out of range) is a result of its own, so that its absence is a
    theorem. Letters other than ASCII keep their case. *)

From stdpp Require Import base gmap strings list.
From Stdlib Require Import Ascii.
From S2P Require Import Prelude GoErr Sha256 Float64 Json Effects Http Store JsonText HttpServer ChatMessage.

(** ** Calldata *)

(** What a Go call ends with: [None] is a panic. *)
Abbreviation panics A := (option (result A)) (only parsing).

(** [x := e; k], where [e] may panic or return an error. *)
Definition tryP {A B} (m : panics A) (k : A → panics B) : panics B :=
  match m with Some (inr a) => k a | Some (inl e) => Some (inl e) | None => None end.
Notation "x ←! m ; k" := (tryP m (λ x, k)) (at level 20, m at level 100, k at level 200, only parsing).

(** [l[a:b]]. *)
Definition slice (l : list Z) (a b : Z) : panics (list Z) :=
  if (0 <=? a) && (a <=? b) && (b <=? Z.of_nat (length l))
  then Some (inr (take (Z.to_nat (b - a)) (drop (Z.to_nat a) l))) else None.

(** [new(big.Int).SetBytes(b)]. *)
Definition set_bytes (l : list Z) : Z := foldl (λ acc b, acc * 256 + b) 0 l.
Definition is_int64 (z : Z) : bool := in_int64 z.
Definition size_of (l : list Z) : Z := Z.of_nat (length l).

Record alchemyDonation := AlchemyDonation {
  To : string;
  Amount : Z;
  Donor : string;
  Message : string
}.

Definition alchemyABIString (args word : list Z) : panics string :=
  let offset := set_bytes word in
  if negb (is_int64 offset) || (size_of args - 32 <? offset)
  then Some (inl (ErrMsg "invalid ABI string offset"))
  else
    w ←! slice args offset (offset + 32);
    let size := set_bytes w in
    let start := offset + 32 in
    if negb (is_int64 size) || (size_of args - start <? size)
    then Some (inl (ErrMsg "invalid ABI string length"))
    else
      v ←! slice args start (start + size);
      if utf8_valid (string_of v) then Some (inr (string_of v))
      else Some (inl (ErrMsg "invalid ABI string UTF-8")).

Definition hex_bytes (l : list Z) : string := hex_encode (string_of l).

(** [inr None]: a known call that is no donation. *)
Definition decodeAlchemyDonation (input : string) : panics (option alchemyDonation) :=
  match hex_decode (trim_prefix input "0x") with
  | None => Some (inl (ErrMsg "invalid transaction calldata"))
  | Some s =>
    let data := bytes_of s in
    if size_of data <? 4 then Some (inl (ErrMsg "invalid transaction calldata"))
    else
      selector ←! slice data 0 4;
      if String.eqb (hex_bytes selector) "12065fe0" || String.eqb (hex_bytes selector) "26b85ee1"
      then Some (inr None)
      else if negb (String.eqb (hex_bytes selector) "98701e4c")
      then Some (inl (ErrMsg "unknown transaction selector"))
      else
        args ←! slice data 4 (size_of data);
        if size_of args <? 128 then Some (inl (ErrMsg "truncated donation arguments"))
        else
          padding ←! slice args 0 12;
          if negb (forallb (λ b, b =? 0) padding) then Some (inl (ErrMsg "invalid receiver address"))
          else
            dword ←! slice args 64 96;
            donor ←! alchemyABIString args dword;
            mword ←! slice args 96 128;
            message ←! alchemyABIString args mword;
            to ←! slice args 12 32;
            amount ←! slice args 32 64;
            Some (inr (Some (AlchemyDonation ("0x" +:+ hex_bytes to) (set_bytes amount) donor message)))
  end.

(** ** Document ids *)

(** A decoded object: a Go map, the last duplicate of a key. *)
Abbreviation object := (list (string * json)) (only parsing).

Definition upper_string (s : string) : string :=
  (fix go (s : string) := match s with EmptyString => EmptyString | String a s => String (upper_char a) (go s) end) s.

(** [v, _ := m[k].(string)] and [m[k].(map)]. *)
Definition str_of (j : option json) : string := match j with Some (JStr s) => s | _ => "" end.
Definition obj_of (j : option json) : object := match j with Some (JObj l) => l | _ => [] end.
Definition lower_json (j : json) : json := match j with JStr s => JStr (to_lower s) | _ => j end.
Definition or_null (j : option json) : json := default JNull j.
Definition present (j : option json) : option json :=
  match j with Some JNull => None | _ => j end.

Definition transfer_fields (activity : object) : object :=
  let contract := obj_of (member "rawContract" activity) in
  map (λ k, (k, lower_json (or_null (member k activity))))
    ["fromAddress"; "toAddress"; "erc721TokenId"; "erc1155Metadata"] ++
  [("contract", JStr (to_lower (str_of (member "address" contract))));
   ("value", match present (member "rawValue" contract), present (member "rawvalue" contract) with
             | Some v, _ => v
             | None, Some v => v
             | None, None => or_null (member "value" activity)
             end)].

Definition alchemyIdentity (network : string) (activity : object) : object :=
  let network := if String.eqb network "" then "MATIC_MAINNET" else network in
  let base := [("network", JStr (upper_string network)); ("hash", JStr (to_lower (str_of (member "hash" activity))))] in
  let category := to_lower (str_of (member "category" activity)) in
  let trace := str_of (member "typeTraceAddress" activity) in
  match present (member "logIndex" (obj_of (member "log" activity))) with
  | Some index => base ++ [("kind", JStr "log"); ("index", lower_json index)]
  | None =>
    if negb (String.eqb trace "") && negb (String.eqb trace "external") && negb (String.eqb category "external")
    then base ++ [("kind", JStr "trace"); ("trace", JStr trace)]
    else base ++ [("kind", JStr category)] ++
         (if negb (String.eqb category "external") && negb (String.eqb category "")
          then transfer_fields activity else [])
  end.

Definition alchemyDonationID (network : string) (activity : object) : string :=
  "alchemy-donation-" +:+ hex_encode (sha256 (marshal (JObj (alchemyIdentity network activity)))).

(** ** Stored values *)

(** big.Rat refuses powers of ten beyond a million. *)
Definition alchemyNumber (text : string) : result value :=
  let '(neg, d, _, p) := decimal text in
  if negb (d =? 0) && (1000000 <? Z.abs p) then inl (ErrMsg "invalid JSON number")
  else inr (match float_text text with
            | None => VFloat (if (neg : bool) then "-Inf" else "+Inf")
            | Some f => match safe_integer f with Some z => VInt z | None => VFloat f end
            end).

Fixpoint alchemyFirestoreValue (j : json) : result value :=
  match j with
  | JNum t => alchemyNumber t
  | JNull => inr VNull
  | JBool b => inr (VBool b)
  | JStr s => inr (VString s)
  | JArr l =>
    match (fix go (l : list json) : result (list value) :=
      match l with
      | [] => inr []
      | j :: l => match alchemyFirestoreValue j, go l with
                  | inr v, inr r => inr (v :: r)
                  | inl e, _ | _, inl e => inl e
                  end
      end) l with inr l => inr (VList l) | inl e => inl e end
  | JObj l =>
    match (fix go (d : doc) (l : list (string * json)) : result doc :=
      match l with
      | [] => inr d
      | (k, j) :: l => match alchemyFirestoreValue j with
                       | inr v => go (map_set d k v) l
                       | inl e => inl e
                       end
      end) [] l with inr l => inr (VMap l) | inl e => inl e end
  end.

(** ** The handler *)

(** [n_activity] is nil or a slice; a nil map reads like an empty one. *)
Record alchemyNotification := AlchemyNotification {
  n_webhook : string;
  n_id : string;
  n_created : string;
  n_type : string;
  n_network : string;
  n_activity : option (list object)
}.
Definition no_notification : alchemyNotification := AlchemyNotification "" "" "" "" "" None.

Definition as_object (j : json) : option object :=
  match j with JNull => Some [] | JObj l => Some l | _ => None end.

Definition event_member (n : alchemyNotification) (k : string) (j : json) : option alchemyNotification :=
  let '(AlchemyNotification w i c t net act) := n in
  if names k "network" then net ← into_string net j; Some (AlchemyNotification w i c t net act)
  else if names k "activity" then
    match j with
    | JNull => Some (AlchemyNotification w i c t net None)
    | JArr l => l ← mapM as_object l; Some (AlchemyNotification w i c t net (Some l))
    | _ => None
    end
  else Some n.

Definition notification_member (n : alchemyNotification) (k : string) (j : json) : option alchemyNotification :=
  let '(AlchemyNotification w i c t net act) := n in
  if names k "webhookId" then w ← into_string w j; Some (AlchemyNotification w i c t net act)
  else if names k "id" then i ← into_string i j; Some (AlchemyNotification w i c t net act)
  else if names k "createdAt" then c ← into_string c j; Some (AlchemyNotification w i c t net act)
  else if names k "type" then t ← into_string t j; Some (AlchemyNotification w i c t net act)
  else if names k "event" then into_struct event_member n j
  else Some n.

(** One value and nothing after it. *)
Definition decode_notification (body : string) : option alchemyNotification :=
  j ← parse_json body; into_struct notification_member no_notification j.

(** The decoded answer of the endpoint: [error] and [result.input]. *)
Record rpc := Rpc { rpc_error : option string; rpc_result : option string }.

Inductive aeff : Type → Type :=
  | ADb {A} (op : db A) : aeff A
  | RpcCall (hash : string) : aeff (result (response rpc))
  | ANow : aeff time.

Definition messageTTL : duration := TTL.

Definition validAlchemySignature (body signature key : string) : bool :=
  String.eqb signature (hex_encode (hmac_sha256 key body)).

(** The document of a donation. *)
Definition donation_message (n : alchemyNotification) (channelID : string) (activity : object)
    (d : alchemyDonation) (now now2 : time) : result doc :=
  match alchemyFirestoreValue (JObj activity) with
  | inl e => inl e
  | inr a =>
    inr [("channelId", VString channelID); ("webhookId", VString (n_webhook n));
         ("id", VString (n_id n)); ("createdAt", VString (n_created n));
         ("type", VString "realtimecash.donation"); ("notificationType", VString (n_type n));
         ("activity", a); ("donor", VString (Donor d)); ("message", VString (Message d));
         ("timestamp", VTime (time_truncate now millisecond));
         ("expiresAt", VTime (time_truncate now2 millisecond + messageTTL))]
  end.

Definition donation_path (channelID network : string) (activity : object) : string :=
  "channels/" +:+ channelID +:+ "/messages/" +:+ alchemyDonationID network activity.

Section Handler.
Context (η : env aeff).
Local Abbreviation M := (M (world aeff unit)).

(** [FindOne]: the id of the first document with [field == value]. *)
Definition FindOne (collection field value : string) : M (result string) :=
  r ← db_ η (@ADb) (Query collection [(field, "==", VString value)] 1);
  match r with
  | inl e => throw (ErrWrap "find recipient" e)
  | inr [] => throw (ErrWrap "find recipient" (ErrMsg "no more items in iterator"))
  | inr ((id, _) :: _) => ok id
  end.

(** [Create] of the store: an existing document is no error. *)
Definition create_donation (path : string) (data : result doc) : M (result unit) :=
  match data with
  | inl e => throw e
  | inr data =>
    e ← db_ η (@ADb) (Create path data);
    match e with
    | None => ok tt
    | Some e => if decide (status_code (Some e) = AlreadyExists) then ok tt else throw e
    end
  end.

Definition Input (hash : string) : M (result string) :=
  r ← ask η (RpcCall hash);
  match r with
  | inl e => throw e
  | inr r =>
    if negb (StatusCode r =? 200) then throw (ErrMsg "unexpected Infura HTTP status")
    else match Body r with
         | None => throw (ErrMsg "json")
         | Some (Rpc (Some _) _) => throw (ErrMsg "unexpected Infura RPC error")
         | Some (Rpc None None) => throw (ErrMsg "transaction not found")
         | Some (Rpc None (Some input)) => ok input
         end
  end.

(** The channel of the address's profile. *)
Definition recipient (to : string) : M (result string) :=
  userID ←? FindOne "realtimecash" "address" to;
  r ← db_ η (@ADb) (Store.Get ("profiles/" +:+ userID));
  match r with
  | inl e => throw e
  | inr profile =>
    match field profile "twitch" with
    | VMap twitch =>
      match field twitch "id" with
      | VString id => ok ("twitch:" +:+ id)
      | _ => throw (ErrMsg "profile missing twitch.id")
      end
    | _ => throw (ErrMsg "profile missing twitch")
    end
  end.

(** A panic of the decoder would end the request: [None]. *)
Definition process_one (n : alchemyNotification) (activity : object) : M (panics unit) :=
  let hash := str_of (member "hash" activity) in
  if String.eqb hash "" then mret (Some (inl (ErrMsg "activity missing transaction hash")))
  else
    input ← Input hash;
    match input with
    | inl e => mret (Some (inl e))
    | inr input =>
      match decodeAlchemyDonation input with
      | None => mret None
      | Some (inl e) => mret (Some (inl e))
      | Some (inr None) => mret (Some (inr tt))
      | Some (inr (Some d)) =>
        r ← (channelID ←? recipient (To d);
             now ← ask η ANow; now2 ← ask η ANow;
             create_donation (donation_path channelID (n_network n) activity)
               (donation_message n channelID activity d now now2));
        mret (Some r)
      end
    end.

Fixpoint alchemy_process (n : alchemyNotification) (l : list object) : M (panics unit) :=
  match l with
  | [] => mret (Some (inr tt))
  | activity :: l =>
    r ← process_one n activity;
    match r with
    | Some (inr _) => alchemy_process n l
    | _ => mret r
    end
  end.

Definition alchemy_signature (r : incoming) : string := HttpServer.Get r "X-Alchemy-Signature".

Definition AlchemyServe (key : string) (r : incoming) : M (option reply) :=
  if negb (String.eqb (r_path r) "/alchemy/webhook") then mret (Some (Reply 404 [] "404 page not found"))
  else if String.eqb key "" then mret (Some (Reply 503 [] "Alchemy signing key unavailable"))
  else match read_all 1048576 r with
  | TooLarge | Broken => mret (Some (Reply 400 [] "Invalid request body"))
  | Bytes body =>
    if negb (validAlchemySignature body (alchemy_signature r) key)
    then mret (Some (Reply 403 [] "Fail to validate signature"))
    else match decode_notification body with
    | Some (AlchemyNotification w i c t net (Some l)) =>
      r ← alchemy_process (AlchemyNotification w i c t net (Some l)) l;
      mret (match r with
            | None => None
            | Some (inl _) => Some (Reply 500 [] "Internal Server Error")
            | Some (inr _) => Some (Reply 200 [] "OK")
            end)
    | _ => mret (Some (Reply 400 [] "Invalid notification"))
    end
  end.
End Handler.

(** ** Calldata: no panic, and every donation decodes *)

Lemma bytes_of_range s : Forall (λ b, 0 <= b < 256) (bytes_of s).
Proof.
  induction s as [|a s IH]; constructor; [|done].
  pose proof (nat_ascii_bounded a). lia.
Qed.

Lemma foldl_bytes l acc : foldl (λ acc b, acc * 256 + b) acc l = acc * 256 ^ size_of l + set_bytes l.
Proof.
  unfold set_bytes, size_of. revert acc. induction l as [|b l IH]; intros acc; cbn [foldl length].
  - cbn. lia.
  - rewrite IH, (IH (0 * 256 + b)). rewrite Nat2Z.inj_succ, Z.pow_succ_r by lia. lia.
Qed.

Lemma set_bytes_cons b l : set_bytes (b :: l) = b * 256 ^ size_of l + set_bytes l.
Proof. unfold set_bytes at 1. cbn [foldl]. by rewrite foldl_bytes. Qed.

Lemma set_bytes_nonneg l : Forall (λ b, 0 <= b < 256) l → 0 <= set_bytes l.
Proof.
  induction 1 as [|b l Hb _ IH]; [done|]. rewrite set_bytes_cons.
  pose proof (Z.pow_nonneg 256 (size_of l)). nia.
Qed.

Lemma slice_ok l a b :
  0 <= a → a <= b → b <= size_of l → slice l a b = Some (inr (take (Z.to_nat (b - a)) (drop (Z.to_nat a) l))).
Proof.
  intros. unfold slice, size_of in *.
  by rewrite (proj2 (Z.leb_le 0 a)), (proj2 (Z.leb_le a b)), (proj2 (Z.leb_le b _)) by lia.
Qed.

Lemma slice_Forall (P : Z → Prop) l a b x : slice l a b = Some (inr x) → Forall P l → Forall P x.
Proof.
  unfold slice. destruct (_ && _ && _); [|done]. intros [= <-] H. by apply Forall_take, Forall_drop.
Qed.

Lemma abi_string_total args word :
  Forall (λ b, 0 <= b < 256) args → Forall (λ b, 0 <= b < 256) word → alchemyABIString args word ≠ None.
Proof.
  intros Ha Hw. unfold alchemyABIString. pose proof (set_bytes_nonneg word Hw).
  destruct (_ || _) eqn:E; [done|]. apply orb_false_iff in E as [_ E%Z.ltb_ge].
  rewrite slice_ok by lia. cbn [tryP].
  set (w := take _ _). assert (0 <= set_bytes w).
  { apply set_bytes_nonneg. by apply Forall_take, Forall_drop. }
  destruct (negb (is_int64 (set_bytes w)) || _) eqn:E2; [done|].
  apply orb_false_iff in E2 as [_ E2%Z.ltb_ge].
  rewrite slice_ok by lia. cbn [tryP]. by case_match.
Qed.

Lemma decode_total input : decodeAlchemyDonation input ≠ None.
Proof.
  unfold decodeAlchemyDonation. destruct (hex_decode _) as [s|]; [|done].
  pose proof (bytes_of_range s) as Hr. set (data := bytes_of s) in *.
  destruct (Z.ltb_spec (size_of data) 4); [done|].
  rewrite slice_ok by lia. cbn [tryP]. case_match; [done|]. case_match; [done|].
  rewrite slice_ok by lia. cbn [tryP].
  set (args := take _ _). assert (Forall (λ b, 0 <= b < 256) args) as Har by by apply Forall_take, Forall_drop.
  destruct (Z.ltb_spec (size_of args) 128); [done|].
  assert (∀ n l, Forall (λ b, 0 <= b < 256) l → Forall (λ b, 0 <= b < 256) (take n l)) as Ht
    by (intros; by apply Forall_take).
  assert (∀ n l, Forall (λ b, 0 <= b < 256) l → Forall (λ b, 0 <= b < 256) (drop n l)) as Hd
    by (intros; by apply Forall_drop).
  rewrite slice_ok by lia. cbn [tryP]. case_match; [done|].
  rewrite slice_ok by lia. cbn [tryP].
  destruct (alchemyABIString args _) as [[e|donor]|] eqn:E1; [done| |].
  2:{ exfalso. eapply abi_string_total, E1; auto. }
  cbn [tryP]. rewrite slice_ok by lia. cbn [tryP].
  destruct (alchemyABIString args (take (Z.to_nat (128 - 96)) _)) as [[e|message]|] eqn:E2; [done| |].
  2:{ exfalso. eapply abi_string_total, E2; auto. }
  cbn [tryP]. rewrite slice_ok by lia. cbn [tryP]. by rewrite slice_ok by lia.
Qed.

(** The ABI encoding of donate(address,uint256,string,string). *)
Definition word (z : Z) : list Z := be_bytes 32 z.
Definition padded (l : list Z) : list Z := l ++ replicate (Z.to_nat ((- size_of l) mod 32)) 0.
Definition abi_string (s : string) : list Z := word (size_of (bytes_of s)) ++ padded (bytes_of s).
Definition abi_args (to : list Z) (amount : Z) (donor message : string) : list Z :=
  (replicate 12 0 ++ to) ++ word amount ++ word 128 ++
  word (128 + size_of (abi_string donor)) ++ abi_string donor ++ abi_string message.
Definition donate_selector : list Z := [152; 112; 30; 76].
Definition calldata (to : list Z) (amount : Z) (donor message : string) : string :=
  "0x" +:+ hex_bytes (donate_selector ++ abi_args to amount donor message).

Lemma be_bytes_length n z : length (be_bytes n z) = n.
Proof. revert z. induction n as [|n IH]; intros z; cbn; [done|]. by rewrite IH. Qed.

Lemma be_bytes_range n z : Forall (λ b, 0 <= b < 256) (be_bytes n z).
Proof.
  induction n as [|n IH]; constructor; [|done].
  change 255 with (Z.ones 8). rewrite Z.land_ones by lia. apply Z.mod_pos_bound. lia.
Qed.

Lemma set_be_bytes n z : set_bytes (be_bytes n z) = z mod 256 ^ Z.of_nat n.
Proof.
  induction n as [|n IH]; cbn [be_bytes]; [cbn; by rewrite Z.mod_1_r|].
  rewrite set_bytes_cons, IH. unfold size_of. rewrite be_bytes_length.
  change 255 with (Z.ones 8). rewrite Z.land_ones, Z.shiftr_div_pow2 by lia.
  rewrite Nat2Z.inj_succ, Z.pow_succ_r by lia. change (2 ^ 8) with 256.
  replace (2 ^ (8 * Z.of_nat n)) with (256 ^ Z.of_nat n) by (change 256 with (2 ^ 8); by rewrite Z.pow_mul_r by lia).
  set (k := 256 ^ Z.of_nat n). assert (0 < k) by (apply Z.pow_pos_nonneg; lia).
  rewrite (Z.mul_comm 256 k), Z.rem_mul_r by lia. lia.
Qed.

Lemma set_word z : 0 <= z < 2 ^ 256 → set_bytes (word z) = z.
Proof. intros. unfold word. rewrite set_be_bytes. apply Z.mod_small. change (256 ^ Z.of_nat 32) with (2 ^ 256). lia. Qed.

Lemma size_word z : size_of (word z) = 32.
Proof. unfold size_of, word. by rewrite be_bytes_length. Qed.
Lemma size_app (a b : list Z) : size_of (a ++ b) = size_of a + size_of b.
Proof. unfold size_of. rewrite length_app. lia. Qed.
Lemma size_pos (a : list Z) : 0 <= size_of a.
Proof. unfold size_of. lia. Qed.

(** The middle of three parts. *)
Lemma slice_mid p q r a b :
  a = size_of p → b = size_of p + size_of q → slice (p ++ q ++ r) a b = Some (inr q).
Proof.
  intros -> ->. pose proof (size_pos p). pose proof (size_pos q). pose proof (size_pos r).
  rewrite slice_ok by (rewrite ?size_app; lia). do 2 f_equal.
  unfold size_of. rewrite Nat2Z.id, drop_app_length.
  replace (Z.to_nat _) with (length q) by lia. by rewrite take_app_length.
Qed.

Lemma string_of_bytes s : string_of (bytes_of s) = s.
Proof. induction s as [|a s IH]; cbn; [done|]. by rewrite IH, Nat2Z.id, ascii_nat_embedding. Qed.
Lemma bytes_of_string l : Forall (λ b, 0 <= b < 256) l → bytes_of (string_of l) = l.
Proof.
  induction 1 as [|b l Hb _ IH]; cbn; [done|]. rewrite IH, nat_ascii_embedding by lia. f_equal. lia.
Qed.

Lemma is_int64_intro z : 0 <= z < 2 ^ 63 → is_int64 z = true.
Proof. intros. unfold is_int64, in_int64, min_int64, max_int64. apply andb_true_iff; split; apply Z.leb_le; lia. Qed.

Lemma abi_string_at p s r w :
  set_bytes w = size_of p → size_of (p ++ abi_string s ++ r) < 2 ^ 63 → utf8_valid s = true →
  alchemyABIString (p ++ abi_string s ++ r) w = Some (inr s).
Proof.
  intros Hw Hs Hu. unfold alchemyABIString. rewrite Hw.
  set (args := p ++ abi_string s ++ r) in *.
  set (tail := replicate (Z.to_nat ((- size_of (bytes_of s)) mod 32)) 0).
  assert (args = p ++ word (size_of (bytes_of s)) ++ (bytes_of s ++ tail ++ r)) as E1.
  { unfold args, abi_string, padded. by rewrite <-!app_assoc. }
  assert (args = (p ++ word (size_of (bytes_of s))) ++ bytes_of s ++ (tail ++ r)) as E2.
  { by rewrite E1, <-!app_assoc. }
  pose proof (size_pos p). pose proof (size_pos r). pose proof (size_pos tail). pose proof (size_pos (bytes_of s)).
  assert (size_of args = size_of p + 32 + size_of (bytes_of s) + size_of tail + size_of r) as Hl.
  { rewrite E1, !size_app, size_word. lia. }
  rewrite is_int64_intro by lia. destruct (Z.ltb_spec (size_of args - 32) (size_of p)); [lia|]. cbn [negb orb].
  rewrite E1 at 1. rewrite slice_mid by (rewrite ?size_word; lia). cbn [tryP].
  assert (2 ^ 63 < 2 ^ 256) by lia.
  rewrite set_word by lia. rewrite is_int64_intro by lia.
  destruct (Z.ltb_spec (size_of args - (size_of p + 32)) (size_of (bytes_of s))); [lia|]. cbn [negb orb].
  rewrite E2. rewrite slice_mid by (rewrite size_app, size_word; lia). cbn [tryP].
  by rewrite string_of_bytes, Hu.
Qed.

Lemma abi_args_decode to amount donor message :
  length to = 20%nat → 0 <= amount < 2 ^ 256 →
  size_of (abi_args to amount donor message) < 2 ^ 63 →
  utf8_valid donor = true → utf8_valid message = true →
  let args := abi_args to amount donor message in
  slice args 0 12 = Some (inr (replicate 12 0)) ∧ slice args 12 32 = Some (inr to) ∧
  slice args 32 64 = Some (inr (word amount)) ∧
  (∃ w, slice args 64 96 = Some (inr w) ∧ alchemyABIString args w = Some (inr donor)) ∧
  (∃ w, slice args 96 128 = Some (inr w) ∧ alchemyABIString args w = Some (inr message)) ∧
  128 <= size_of args.
Proof.
  intros Ht Ha Hs Hd Hm args. set (z12 := replicate 12 0).
  assert (size_of z12 = 12 ∧ size_of to = 20) as [Hz Hto] by (unfold size_of; rewrite Ht; done).
  set (o2 := 128 + size_of (abi_string donor)).
  assert (args = (z12 ++ to) ++ word amount ++ word 128 ++ word o2 ++ abi_string donor ++ abi_string message)
    as E by done.
  pose proof (size_pos (abi_string donor)). pose proof (size_pos (abi_string message)).
  assert (size_of args = 128 + size_of (abi_string donor) + size_of (abi_string message)) as Hl.
  { rewrite E, !size_app, !size_word. lia. }
  assert (2 ^ 63 < 2 ^ 256) by lia. fold args in Hs.
  assert (0 <= o2 < 2 ^ 256) by lia.
  split_and!; [| | |eexists|eexists|lia].
  - rewrite E. rewrite <-(app_assoc z12). by apply (slice_mid []).
  - rewrite E. rewrite <-(app_assoc z12). apply slice_mid; lia.
  - rewrite E. apply slice_mid; rewrite size_app, ?size_word; lia.
  - split.
    + rewrite E, (app_assoc (z12 ++ to)). apply slice_mid; rewrite !size_app, ?size_word; lia.
    + replace args with ((((z12 ++ to) ++ word amount) ++ word 128 ++ word o2) ++ abi_string donor ++ abi_string message)
        by (rewrite E; by rewrite <-!app_assoc).
      apply abi_string_at; [rewrite set_word, !size_app, !size_word by lia; lia| |done].
      rewrite !size_app, !size_word. lia.
  - split.
    + rewrite E, (app_assoc (z12 ++ to)), (app_assoc ((z12 ++ to) ++ _)).
      apply slice_mid; rewrite !size_app, ?size_word; lia.
    + replace args with (((((z12 ++ to) ++ word amount) ++ word 128 ++ word o2) ++ abi_string donor) ++ abi_string message ++ [])
        by (rewrite E, app_nil_r; by rewrite <-!app_assoc).
      apply abi_string_at; [rewrite set_word, !size_app, !size_word by lia; lia| |done].
      rewrite app_nil_r, !size_app, !size_word. lia.
Qed.

Lemma donation_decode to amount donor message :
  length to = 20%nat → Forall (λ b, 0 <= b < 256) to → 0 <= amount < 2 ^ 256 →
  size_of (abi_args to amount donor message) < 2 ^ 63 →
  utf8_valid donor = true → utf8_valid message = true →
  decodeAlchemyDonation (calldata to amount donor message) =
  Some (inr (Some (AlchemyDonation ("0x" +:+ hex_bytes to) amount donor message))).
Proof.
  intros Ht Hto Ha Hs Hd Hm.
  destruct (abi_args_decode to amount donor message Ht Ha Hs Hd Hm) as (H1 & H2 & H3 & (dw & H4 & H5) & (mw & H6 & H7) & H8).
  unfold decodeAlchemyDonation, calldata, hex_bytes at 1. rewrite trim_prefix_app, hex_decode_encode.
  set (args := abi_args to amount donor message) in *.
  assert (Forall (λ b, 0 <= b < 256) (donate_selector ++ args)) as Hr.
  { apply Forall_app. split; [repeat constructor; lia|]. unfold args, abi_args, abi_string, padded, word.
    rewrite !Forall_app. repeat split; try apply be_bytes_range; try apply bytes_of_range; try done.
    all: apply Forall_replicate; lia. }
  rewrite bytes_of_string by done. pose proof (size_pos args).
  assert (size_of donate_selector = 4) as Hsel by done.
  destruct (Z.ltb_spec (size_of (donate_selector ++ args)) 4); [rewrite size_app in *; lia|].
  change (donate_selector ++ args) with ([] ++ donate_selector ++ args) at 1.
  rewrite slice_mid by done. cbn [tryP].
  change (hex_bytes donate_selector) with "98701e4c". cbn [String.eqb orb negb Ascii.eqb Bool.eqb].
  replace (donate_selector ++ args) with (donate_selector ++ args ++ []) at 1 by (by rewrite app_nil_r).
  rewrite slice_mid by (rewrite ?size_app; lia). cbn [tryP].
  destruct (Z.ltb_spec (size_of args) 128); [lia|].
  rewrite H1. cbn [tryP]. change (forallb _ (replicate 12 0)) with true. cbn [negb].
  rewrite H4. cbn [tryP]. rewrite H5. cbn [tryP]. rewrite H6. cbn [tryP]. rewrite H7. cbn [tryP].
  rewrite H2. cbn [tryP]. rewrite H3. cbn [tryP]. by rewrite set_word.
Qed.

(** ** Document ids: one per transfer *)

(** The place of a transfer in its transaction. *)
Inductive place := LogAt (index : string) | TraceAt (address : string).

(** The chain identity of an activity that has a place: network, transaction
    hash and place, without regard to the case of letters. *)
Definition chain_identity (network : string) (activity : object) : option (string * string * place) :=
  let category := to_lower (str_of (member "category" activity)) in
  let trace := str_of (member "typeTraceAddress" activity) in
  let network := if String.eqb network "" then "MATIC_MAINNET" else network in
  let id p := Some (upper_string network, to_lower (str_of (member "hash" activity)), p) in
  match present (member "logIndex" (obj_of (member "log" activity))) with
  | Some (JStr index) => id (LogAt (to_lower index))
  | Some _ => None
  | None =>
    if negb (String.eqb trace "") && negb (String.eqb trace "external") && negb (String.eqb category "external")
    then id (TraceAt trace) else None
  end.

Definition identity_object (c : string * string * place) : object :=
  let '(n, h, p) := c in
  [("network", JStr n); ("hash", JStr h)] ++
  match p with
  | LogAt i => [("kind", JStr "log"); ("index", JStr i)]
  | TraceAt t => [("kind", JStr "trace"); ("trace", JStr t)]
  end.

Definition valid_identity (c : string * string * place) : Prop :=
  let '(n, h, p) := c in
  utf8_valid n = true ∧ utf8_valid h = true ∧
  utf8_valid (match p with LogAt s | TraceAt s => s end) = true.

Lemma identity_of network activity c :
  chain_identity network activity = Some c → alchemyIdentity network activity = identity_object c.
Proof.
  unfold chain_identity, alchemyIdentity. destruct (present _) as [j|].
  - destruct j; try done. by intros [= <-].
  - destruct (_ && _); [|done]. by intros [= <-].
Qed.

Lemma marshal_log n h i :
  marshal (JObj (identity_object (n, h, LogAt i))) =
  "{" +:+ quote "hash" +:+ ":" +:+ (quote h +:+ ("," +:+ quote "index" +:+ ":" +:+
    (quote i +:+ ("," +:+ quote "kind" +:+ ":" +:+ quote "log" +:+ "," +:+ quote "network" +:+ ":" +:+
      (quote n +:+ "}"))))).
Proof.
  unfold marshal.
  replace (normalize _) with (JObj [("hash", JStr h); ("index", JStr i); ("kind", JStr "log"); ("network", JStr n)])
    by (vm_compute; reflexivity).
  cbn -[quote]. by rewrite !app_str_assoc.
Qed.

Lemma marshal_trace n h t :
  marshal (JObj (identity_object (n, h, TraceAt t))) =
  "{" +:+ quote "hash" +:+ ":" +:+ (quote h +:+ ("," +:+ quote "kind" +:+ ":" +:+ quote "trace" +:+
    "," +:+ quote "network" +:+ ":" +:+ (quote n +:+ ("," +:+ quote "trace" +:+ ":" +:+
      (quote t +:+ "}"))))).
Proof.
  unfold marshal.
  replace (normalize _) with (JObj [("hash", JStr h); ("kind", JStr "trace"); ("network", JStr n); ("trace", JStr t)])
    by (vm_compute; reflexivity).
  cbn -[quote]. by rewrite !app_str_assoc.
Qed.

(** The text that is hashed determines the identity. *)
Lemma identity_text_inj c c' :
  valid_identity c → valid_identity c' →
  marshal (JObj (identity_object c)) = marshal (JObj (identity_object c')) → c = c'.
Proof.
  destruct c as [[n h] [i|i]], c' as [[n' h'] [j|j]]; intros (Hn & Hh & Hi) (Hn' & Hh' & Hj);
    rewrite ?marshal_log, ?marshal_trace; intros H;
    do 3 apply app_str_inj in H; (apply quote_inj in H as [-> H]; [|done..]).
  - do 3 apply app_str_inj in H. apply quote_inj in H as [-> H]; [|done..].
    do 7 apply app_str_inj in H. apply quote_inj in H as [-> H]; done.
  - apply app_str_inj, quote_inj in H as [[=] _]; done.
  - apply app_str_inj, quote_inj in H as [[=] _]; done.
  - do 7 apply app_str_inj in H. apply quote_inj in H as [-> H]; [|done..].
    do 3 apply app_str_inj in H. apply quote_inj in H as [-> H]; done.
Qed.

Lemma hex_encode_inj a b : hex_encode a = hex_encode b → a = b.
Proof. intros H. apply (f_equal hex_decode) in H. rewrite !hex_decode_encode in H. by injection H. Qed.

(** The text whose digest names the document. *)
Definition identity_text (network : string) (activity : object) : string :=
  marshal (JObj (alchemyIdentity network activity)).

(** Activities with one chain identity have one document, whatever
    notification, replica or redelivery brings them; activities with two
    identities hash two different texts, so that they have two documents unless
    these two texts are a collision of SHA-256. *)
Theorem alchemy_id_identity network network' a a' c c' :
  chain_identity network a = Some c → chain_identity network' a' = Some c' →
  (c = c' → alchemyDonationID network a = alchemyDonationID network' a') ∧
  (valid_identity c → valid_identity c' → c ≠ c' →
   identity_text network a ≠ identity_text network' a' ∧
   (sha256 (identity_text network a) ≠ sha256 (identity_text network' a') →
    alchemyDonationID network a ≠ alchemyDonationID network' a')).
Proof.
  intros Hc Hc'. unfold alchemyDonationID, identity_text.
  rewrite (identity_of _ _ _ Hc), (identity_of _ _ _ Hc'). split; [by intros ->|].
  intros Hv Hv' Hne. split.
  - intros H. by apply Hne, identity_text_inj.
  - by intros Hs H%app_str_inj%hex_encode_inj.
Qed.

(** Two logs of one transaction. *)
Definition log_activity (hash index : string) : object :=
  [("hash", JStr hash); ("category", JStr "token"); ("log", JObj [("logIndex", JStr index)])].

Lemma alchemy_id_identity_witness :
  alchemyDonationID "" (log_activity "0xAB" "0x1") = alchemyDonationID "matic_mainnet" (log_activity "0xab" "0X1") ∧
  alchemyDonationID "" (log_activity "0xab" "0x1") ≠ alchemyDonationID "" (log_activity "0xab" "0x2").
Proof.
  split.
  - by apply (alchemy_id_identity "" "matic_mainnet" (log_activity "0xAB" "0x1") (log_activity "0xab" "0X1")
      ("MATIC_MAINNET", "0xab", LogAt "0x1") ("MATIC_MAINNET", "0xab", LogAt "0x1")).
  - destruct (alchemy_id_identity "" "" (log_activity "0xab" "0x1") (log_activity "0xab" "0x2")
      ("MATIC_MAINNET", "0xab", LogAt "0x1") ("MATIC_MAINNET", "0xab", LogAt "0x2") eq_refl eq_refl) as [_ H2].
    apply H2; [by repeat split|by repeat split|discriminate|].
    intros H. apply (f_equal hex_encode) in H. vm_compute in H. discriminate H.
Defined.

(** ** What a notification may do *)

Definition activity_hash (activity : object) : string := str_of (member "hash" activity).

(** The chain answered the calldata of the activity's transaction. *)
Definition answered (activity : object) (input : string) (t : trace aeff) : Prop :=
  ∃ r, Ev (RpcCall (activity_hash activity)) (inr r) ∈ t ∧ StatusCode r = 200 ∧
       Body r = Some (Rpc None (Some input)).

Definition pays (activity : object) (d : alchemyDonation) (t : trace aeff) : Prop :=
  ∃ input, answered activity input t ∧ decodeAlchemyDonation input = Some (inr (Some d)).

(** The store has the address under a profile with that Twitch channel. *)
Definition found (to user : string) (t : trace aeff) : Prop :=
  ∃ data rest, Ev (ADb (Query "realtimecash" [("address", "==", VString to)] 1)) (inr ((user, data) :: rest)) ∈ t.
Definition registered (to channelID : string) (t : trace aeff) : Prop :=
  ∃ user profile twitch id, found to user t ∧
    Ev (ADb (Store.Get ("profiles/" +:+ user))) (inr profile) ∈ t ∧
    field profile "twitch" = VMap twitch ∧ field twitch "id" = VString id ∧ channelID = "twitch:" +:+ id.

Definition alchemy_signed (key : string) (r : incoming) : Prop :=
  key ≠ "" ∧ ∃ body, read_all 1048576 r = Bytes body ∧
    alchemy_signature r = hex_encode (hmac_sha256 key body).

Definition notification_of (r : incoming) : option alchemyNotification :=
  match read_all 1048576 r with Bytes body => decode_notification body | _ => None end.

(** The activity is one of the delivery's. *)
Definition delivered (r : incoming) (n : alchemyNotification) (activity : object) : Prop :=
  notification_of r = Some n ∧ ∃ l, n_activity n = Some l ∧ activity ∈ l.

Definition alchemy_ok (key : string) (r : incoming) (t : trace aeff) (e : ev aeff) : Prop :=
  match e with
  | Ev op _ =>
    match op with
    | ANow => True
    | RpcCall hash => alchemy_signed key r ∧
        ∃ n activity, delivered r n activity ∧ hash = activity_hash activity ∧ hash ≠ ""
    | ADb op => alchemy_signed key r ∧
        match op with
        | Query _ _ _ | Store.Get _ => True
        | Create path data =>
          ∃ n activity d channelID now now2, delivered r n activity ∧ pays activity d t ∧
            registered (To d) channelID t ∧ path = donation_path channelID (n_network n) activity ∧
            donation_message n channelID activity d now now2 = inr data
        | _ => False
        end
    end
  end.

(** The document exists: created now, or before. *)
Definition posted (path : string) (t : trace aeff) : Prop :=
  ∃ data, Ev (ADb (Create path data)) None ∈ t ∨
          ∃ e, Ev (ADb (Create path data)) (Some e) ∈ t ∧ status_code (Some e) = AlreadyExists.

(** The activity is no donation, or its message is posted to the channel of
    the address it paid. *)
Definition settled (n : alchemyNotification) (activity : object) (t : trace aeff) : Prop :=
  (∃ input, answered activity input t ∧ decodeAlchemyDonation input = Some (inr None)) ∨
  ∃ d channelID, pays activity d t ∧ registered (To d) channelID t ∧
    posted (donation_path channelID (n_network n) activity) t.

Ltac further := solve [eauto 8 using list_elem_of_further].

Lemma answered_stable a i : stable (answered a i).
Proof. intros e t (r & H & ?). exists r. split; [further|done]. Qed.
Lemma pays_stable a d : stable (pays a d).
Proof. intros e t (i & H & ?). exists i. split; [by apply answered_stable|done]. Qed.
Lemma found_stable to u : stable (found to u).
Proof. intros e t (d & r & H). exists d, r. further. Qed.
Lemma registered_stable to c : stable (registered to c).
Proof.
  intros e t (u & p & tw & id & Hf & Hg & ?). exists u, p, tw, id.
  split_and!; try tauto; [by apply found_stable|further].
Qed.
Lemma posted_stable p : stable (posted p).
Proof. intros e t (d & [H|(e' & H & ?)]); exists d; [left; further|right; exists e'; split; [further|done]]. Qed.
Lemma settled_stable n a : stable (settled n a).
Proof.
  intros e t [(i & H & ?)|(d & c & Hp & Hr & Ho)].
  - left. exists i. split; [by apply answered_stable|done].
  - right. exists d, c. split_and!; [by apply pays_stable|by apply registered_stable|by apply posted_stable].
Qed.

Section Proofs.
Context (η : env aeff) (key : string) (r : incoming).
Local Abbreviation runs := (runs (S:=unit) (alchemy_ok key r)).
Context (Hsigned : alchemy_signed key r).

Lemma runs_input n activity (G : trace aeff → Prop) :
  delivered r n activity → activity_hash activity ≠ "" → stable G →
  runs G (Input η (activity_hash activity))
    (λ a t, G t ∧ ∀ input, a = inr input → answered activity input t).
Proof.
  intros Hd Hh HG. unfold Input.
  eapply (runs_bind _ _ _ (λ a t, G t ∧ Ev (RpcCall (activity_hash activity)) a ∈ t)).
  { apply runs_ask. intros t Ht. split_and!; [|by apply HG|apply list_elem_of_here].
    split; [done|]. by exists n, activity. }
  assert (∀ e b, runs (λ t, G t ∧ Ev (RpcCall (activity_hash activity)) b ∈ t) (throw e)
    (λ a t, G t ∧ ∀ input, a = inr input → answered activity input t)) as Hbad.
  { intros e b. apply runs_ret. by intros t [Ht _]. }
  intros [e|resp]; [apply Hbad|].
  destruct (Z.eqb_spec (StatusCode resp) 200) as [Es|]; cbn [negb]; [|apply Hbad].
  destruct (Body resp) as [[[e|] [input|]]|] eqn:Eb; try apply Hbad.
  apply runs_ret. intros t [Ht He]. split; [done|]. intros input' [= <-]. by exists resp.
Qed.

Lemma runs_recipient to (G : trace aeff → Prop) :
  stable G → runs G (recipient η to) (λ a t, G t ∧ ∀ c, a = inr c → registered to c t).
Proof.
  intros HG. unfold recipient.
  eapply runs_bindE with (R := λ a t, G t ∧ ∀ u, a = inr u → found to u t).
  - unfold FindOne. eapply (runs_bind _ _ _ (λ a t, G t ∧
      Ev (ADb (Query "realtimecash" [("address", "==", VString to)] 1)) a ∈ t)).
    { apply runs_db. intros t a Ht. split_and!; [by split|by apply HG|apply list_elem_of_here]. }
    intros [e|[|[u d] l]]; apply runs_ret; intros t [Ht He]; split; try done.
    intros u' [= <-]. by exists d, l.
  - intros e t [Ht _]. by split.
  - intros u. eapply (runs_bind _ _ _ (λ a t, (G t ∧ found to u t) ∧
      Ev (ADb (Store.Get ("profiles/" +:+ u))) a ∈ t)).
    { apply runs_db. intros t a [Ht Hf]. split_and!; [by split|by apply HG| |apply list_elem_of_here].
      apply found_stable; auto. }
    intros [e|profile]; [apply runs_ret; intros t [[Ht _] _]; by split|].
    destruct (field profile "twitch") as [| | | | | | |tw| | |] eqn:E1;
      try (apply runs_ret; intros ? [[Ht _] _]; by split).
    destruct (field tw "id") as [| | | |id| | | | | |] eqn:E2;
      try (apply runs_ret; intros ? [[Ht _] _]; by split).
    apply runs_ret. intros t [[Ht Hf] He]. split; [done|]. intros c [= <-].
    by exists u, profile, tw, id.
Qed.

(** The message of a decoded donation. *)
Lemma runs_donation n activity d (F G : trace aeff → Prop) :
  delivered r n activity → stable G → (∀ t, F t → G t ∧ pays activity d t) →
  runs F (channelID ←? recipient η (To d);
          now ← ask η ANow; now2 ← ask η ANow;
          create_donation η (donation_path channelID (n_network n) activity)
            (donation_message n channelID activity d now now2))
    (λ a t, G t ∧ (a = inr tt → settled n activity t)).
Proof.
  intros Hd HG HF. set (I t := G t ∧ pays activity d t).
  assert (stable I) as HI by (intros e t [? ?]; split; [by apply HG|by apply pays_stable]).
  apply runs_bindE with (R := λ a t, I t ∧ ∀ c, a = inr c → registered (To d) c t).
  { eapply runs_conseq; [by apply (runs_recipient (To d) I)|apply HF|done]. }
  { intros e t [[Ht _] _]. by split. }
  intros c. set (I2 t := I t ∧ registered (To d) c t).
  assert (stable I2) as HI2 by (intros e t [? ?]; split; [by apply HI|by apply registered_stable]).
  apply runs_bind with (λ _, I2).
  { apply runs_ask. intros t [Ht Hc]. split; [done|]. apply HI2. split; auto. }
  intros now. apply runs_bind with (λ _, I2).
  { apply runs_ask. intros t Ht. split; [done|]. by apply HI2. }
  intros now2. unfold create_donation.
  destruct (donation_message n c activity d now now2) as [e|data] eqn:Em.
  { apply runs_ret. intros t [[Ht _] _]. by split. }
  set (path := donation_path c (n_network n) activity).
  apply runs_bind with (λ a t, I2 t ∧ (a = None ∨ status_code a = AlreadyExists → posted path t)).
  - apply runs_db. intros t a [[Ht Hp] Hr]. split_and!.
    + split; [done|]. by exists n, activity, d, c, now, now2.
    + by apply HI2.
    + intros [->|Ha]; exists data; [left; apply list_elem_of_here|].
      destruct a as [e|]; [|done]. right. exists e. split; [apply list_elem_of_here|done].
  - assert (∀ t, I2 t → posted path t → settled n activity t) as Hset.
    { intros t [[_ Hp] Hr] Ho. right. by exists d, c. }
    intros [e|].
    + case_decide; apply runs_ret; intros t [Ht Hp]; (split; [apply Ht|]); [|done].
      intros _. apply Hset; [done|]. apply Hp. by right.
    + apply runs_ret. intros t [Ht Hp]. split; [apply Ht|]. intros _. apply Hset; [done|]. apply Hp. by left.
Qed.

(** One activity: what is added and what a success leaves. *)
Lemma runs_process_one n activity (G : trace aeff → Prop) :
  delivered r n activity → stable G →
  runs G (process_one η n activity)
    (λ a t, G t ∧ a ≠ None ∧ (a = Some (inr tt) → settled n activity t)).
Proof.
  intros Hd HG. unfold process_one. fold (activity_hash activity).
  assert (∀ (F : trace aeff → Prop) e, (∀ t, F t → G t) → runs F (mret (Some (inl e) : panics unit))
    (λ a t, G t ∧ a ≠ None ∧ (a = Some (inr tt) → settled n activity t))) as Hbad.
  { intros F e HF. apply runs_ret. intros t Ht. split_and!; [by apply HF|done|done]. }
  destruct (String.eqb_spec (activity_hash activity) "") as [_|Hh]; [by apply Hbad|].
  eapply (runs_bind _ _ _ (λ a t, G t ∧ ∀ input, a = inr input → answered activity input t)).
  { by eapply runs_input. }
  intros [e|input]; [apply Hbad; by intros t [? _]|].
  destruct (decodeAlchemyDonation input) as [[e|[d|]]|] eqn:E;
    [apply Hbad; by intros t [? _]| | |by apply decode_total in E].
  - apply runs_bind with (λ a t, G t ∧ (a = inr tt → settled n activity t));
      [|intros [e|[]]; apply runs_ret; naive_solver].
    apply runs_donation; [done..|]. intros t [Ht Ha]. split; [done|]. exists input. auto.
  - apply runs_ret. intros t [Ht Ha]. split_and!; [done..|]. intros _. left. exists input. auto.
Qed.

Lemma runs_process n l : ∀ G : trace aeff → Prop,
  (∀ a, a ∈ l → delivered r n a) → stable G →
  runs G (alchemy_process η n l)
    (λ a t, G t ∧ a ≠ None ∧ (a = Some (inr tt) → ∀ x, x ∈ l → settled n x t)).
Proof.
  induction l as [|activity l IH]; intros G Hd HG; cbn [alchemy_process].
  { apply runs_ret. intros t Ht. split_and!; [done..|]. intros _ x Hx. by apply elem_of_nil in Hx. }
  eapply runs_bind; [apply (runs_process_one n activity G); [apply Hd, list_elem_of_here|done]|].
  intros [[e|[]]|].
  - apply runs_ret. intros t (Ht & _ & _). by split_and!.
  - eapply runs_conseq; [apply (IH (λ t, G t ∧ settled n activity t))| |].
    + intros a Ha. apply Hd. by apply list_elem_of_further.
    + intros e t [? ?]. split; [by apply HG|by apply settled_stable].
    + intros t (Ht & _ & Hs). auto.
    + intros a t ([Ht Hs] & Hn & Hall). split_and!; [done..|]. intros Ha x Hx.
      apply elem_of_cons in Hx as [->|Hx]; auto.
  - apply runs_ret. intros t (_ & Hn & _). done.
Qed.
End Proofs.

Definition alchemy_served (r : incoming) (a : option reply) (t : trace aeff) : Prop :=
  a ≠ None ∧ ∀ rep, a = Some rep → status rep = 200 →
    ∃ n, notification_of r = Some n ∧ ∀ x, delivered r n x → settled n x t.

Lemma runs_alchemy_serve η key r :
  runs (S:=unit) (alchemy_ok key r) (λ _, True) (AlchemyServe η key r) (alchemy_served r).
Proof.
  unfold AlchemyServe.
  assert (∀ rep F, status rep ≠ 200 → runs (S:=unit) (alchemy_ok key r) F (mret (Some rep)) (alchemy_served r)) as Hbad.
  { intros rep F Hs. apply runs_ret. intros t _. split; [done|]. by intros ? [= <-] ?. }
  destruct (negb _); [by apply Hbad|]. destruct (String.eqb_spec key "") as [|Hk]; [by apply Hbad|].
  destruct (read_all 1048576 r) as [body| |] eqn:Eb; [|by apply Hbad..].
  destruct (negb _) eqn:Ev in |- *; [by apply Hbad|].
  apply negb_false_iff, String.eqb_eq in Ev.
  destruct (decode_notification body) as [[w i c ty net [l|]]|] eqn:En; [|by apply Hbad..].
  set (n := AlchemyNotification w i c ty net (Some l)) in *.
  assert (notification_of r = Some n) as Hn by (unfold notification_of; by rewrite Eb).
  assert (alchemy_signed key r) as Hs by (split; [done|by exists body]).
  eapply runs_bind; [apply (runs_process η key r Hs n l (λ _, True)); [|done]|].
  { intros a Ha. split; [done|]. by exists l. }
  intros [[e|[]]|].
  - by apply Hbad.
  - apply runs_ret. intros t (_ & _ & Hall). split; [done|]. intros rep _ _. exists n. split; [done|].
    intros x (_ & l' & [= <-] & Hx). by apply Hall.
  - apply runs_ret. intros t (_ & Hn' & _). done.
Qed.

(** ** The properties *)

(** The calldata decoder never slices out of range, whatever the chain
    answers: for every input it returns a donation, a call that is none, or an
    error. *)
Theorem alchemy_decode_total input : decodeAlchemyDonation input ≠ None.
Proof. apply decode_total. Qed.

(** C17. The decoder inverts the ABI encoding of donate(address, uint256,
    string, string): any 20-byte receiver, any amount below 2^256 and any UTF-8
    texts come back exactly, for calldata below 2^63 bytes. *)
Theorem alchemy_calldata_roundtrip to amount donor message :
  length to = 20%nat → Forall (λ b, 0 <= b < 256) to → 0 <= amount < 2 ^ 256 →
  size_of (abi_args to amount donor message) < 2 ^ 63 →
  utf8_valid donor = true → utf8_valid message = true →
  decodeAlchemyDonation (calldata to amount donor message) =
  Some (inr (Some (AlchemyDonation ("0x" +:+ hex_bytes to) amount donor message))).
Proof. apply donation_decode. Qed.

Lemma alchemy_calldata_roundtrip_witness :
  decodeAlchemyDonation (calldata (replicate 20 17) (2 ^ 255) "donor" ("hi " +:+ utf8_encode 128512)) =
  Some (inr (Some (AlchemyDonation ("0x" +:+ hex_bytes (replicate 20 17)) (2 ^ 255) "donor"
                     ("hi " +:+ utf8_encode 128512)))).
Proof.
  apply (alchemy_calldata_roundtrip (replicate 20 17) (2 ^ 255) "donor" ("hi " +:+ utf8_encode 128512)).
  - reflexivity.
  - apply Forall_replicate. lia.
  - lia.
  - vm_compute. reflexivity.
  - vm_compute. reflexivity.
  - vm_compute. reflexivity.
Defined.

(** C16. Whatever the chain and the store answer, a notification has effects only
    under a valid HMAC of its body; it asks the chain only about its own
    activities, and the one document it creates per activity is the donation's
    message, in the channel of the profile the store has for the address the
    chain says was paid. *)
Theorem alchemy_authentic η key r :
  justified (alchemy_ok key r) (w_tr (AlchemyServe η key r (World [] tt)).2).
Proof. by apply (runs_alchemy_serve η key r (World [] tt)). Qed.

(** The handler never panics, and a notification answered 200 leaves every
    activity settled: its transaction is no donation, or the message exists in
    the channel of the address it paid. *)
Theorem alchemy_acknowledged η key r :
  let '(a, w) := AlchemyServe η key r (World [] tt) in
  a ≠ None ∧ ∀ rep, a = Some rep → status rep = 200 →
    ∃ n, notification_of r = Some n ∧ ∀ x, delivered r n x → settled n x (w_tr w).
Proof.
  pose proof (runs_alchemy_serve η key r (World [] tt)) as H.
  destruct (AlchemyServe _ _ _ _) as [a w]. by apply H.
Qed.

(** A donation to a registered address. *)
Definition donation_body : string := quoted
  "{'webhookId':'wh','id':'n1','event':{'activity':[{'hash':'0xab','value':1e18,'log':{'logIndex':'0x1'}}]}}".
Definition donation_request : incoming :=
  Incoming "POST" "/alchemy/webhook" ∅
    {["X-Alchemy-Signature" := hex_encode (hmac_sha256 "key" donation_body)]} donation_body false.
Definition donation_env : env aeff := λ A _ op,
  match op in aeff A return A with
  | ADb op => match op in db A return A with
              | Store.Get _ | TxGet _ => inr [("twitch", VMap [("id", VString "7")])]
              | Query _ _ _ => inr [("u1", [])]
              | _ => None
              end
  | RpcCall _ => inr (Response 200 ∅ false (Some (Rpc None (Some (calldata (replicate 20 17) 5 "donor" "hi")))))
  | ANow => time_unix 1709276406 0
  end.

Lemma alchemy_acknowledged_witness :
  let '(a, w) := AlchemyServe donation_env "key" donation_request (World [] tt) in
  a ≠ None ∧ (∃ rep, a = Some rep ∧ status rep = 200) ∧
  ∃ n, notification_of donation_request = Some n ∧ ∀ x, delivered donation_request n x → settled n x (w_tr w).
Proof.
  pose proof (alchemy_acknowledged donation_env "key" donation_request) as H.
  destruct (AlchemyServe _ _ _ _) as [a w] eqn:E.
  assert (Ha : a = Some (Reply 200 [] "OK")).
  { apply (f_equal fst) in E. cbn [fst] in E. rewrite <-E. vm_compute. reflexivity. }
  destruct H as [Hn H]. split; [exact Hn|]. split; [exists (Reply 200 [] "OK"); split; [exact Ha|reflexivity]|].
  exact (H _ Ha eq_refl).
Defined.
