(* ===== verification/Text.v ===== *)
(** * Text

    What the program uses of strings, unicode and regexp on UTF-8 text: white
    space, trimming, and the small matchers its regular expressions are
    (leftmost match, greedy runs), and the JSON value that a text starts with. *)

From stdpp Require Import base gmap strings list.
From Stdlib Require Import Ascii.
From S2P Require Import Prelude GoErr Json JsonText.

(** The bytes of the white space that a text starts with, by unicode.IsSpace:
    0 when it does not. *)
Definition space_len (s : string) : nat :=
  match s with
  | "" => 0%nat
  | String a _ =>
    if between 9 13 a || (code_of a =? 32) then 1%nat
    else if existsb (String.eqb (String.substring 0 2 s)) (map utf8_encode [133; 160]) then 2%nat
    else if existsb (String.eqb (String.substring 0 3 s))
              (map utf8_encode [5760; 8192; 8193; 8194; 8195; 8196; 8197; 8198; 8199; 8200; 8201; 8202;
                                8232; 8233; 8239; 8287; 12288]) then 3%nat
    else 0%nat
  end.

Fixpoint trim_left_from (fuel : nat) (s : string) : string :=
  match fuel with
  | O => s
  | S fuel => match space_len s with O => s | n => trim_left_from fuel (drop_str n s) end
  end.
Definition TrimLeft (s : string) : string := trim_left_from (String.length s) s.
(** Only white space. *)
Definition blank (s : string) : bool := String.eqb (TrimLeft s) "".

Fixpoint trim_right_from (fuel : nat) (s : string) : string :=
  match fuel, s with
  | S fuel, String _ _ =>
    if blank s then ""
    else
      let n := Nat.max 1 (rune_len s) in
      String.substring 0 n s +:+ trim_right_from fuel (drop_str n s)
  | _, _ => ""
  end.
(** [strings.TrimSpace]. *)
Definition TrimSpace (s : string) : string := let s := TrimLeft s in trim_right_from (String.length s) s.

(** [strings.Fields]. *)
Fixpoint fields_from (fuel : nat) (word : string) (s : string) : list string :=
  let done := if String.eqb word "" then [] else [word] in
  match fuel, s with
  | S fuel, String a s' =>
    match space_len s with
    | O => fields_from fuel (word +:+ String a "") s'
    | n => done ++ fields_from fuel "" (drop_str n s)
    end
  | _, _ => done
  end.
Definition Fields (s : string) : list string := fields_from (String.length s) "" s.

Fixpoint contains (p s : string) : bool :=
  has_prefix s p || match s with "" => false | String _ s => contains p s end.

(** ** Matching *)

Definition after {A} (p : string) (k : string → option A) (s : string) : option A :=
  if has_prefix s p then k (drop_str (String.length p) s) else None.

(** The class \s. *)
Definition is_s (a : ascii) : bool := existsb (Z.eqb (code_of a)) [9; 10; 12; 13; 32].
Fixpoint skip_s (s : string) : string :=
  match s with String a s' => if is_s a then skip_s s' else s | "" => "" end.
(** At least one \s. *)
Definition skip_s1 {A} (k : string → option A) (s : string) : option A :=
  match s with String a s' => if is_s a then k (skip_s s') else None | "" => None end.

(** The first place where [m] matches. *)
Fixpoint leftmost {A} (m : string → option A) (s : string) : option A :=
  match m s with
  | Some x => Some x
  | None => match s with "" => None | String _ s => leftmost m s end
  end.

(** A run of digits, and what follows. *)
Fixpoint span_digit (s : string) : string * string :=
  match s with
  | String a s' => if is_digit a then let '(d, r) := span_digit s' in (String a d, r) else ("", s)
  | "" => ("", "")
  end.

Definition is_word (a : ascii) : bool := is_digit a || is_upper a || is_lower a || Ascii.eqb a "_".

(** [\b(\d+)\b]: the first run of digits with no other word character at its
    ends; [word]: the character before is one. *)
Fixpoint number_from (word : bool) (s : string) : option string :=
  match s with
  | "" => None
  | String a s' =>
    let run := span_digit s in
    if negb word && is_digit a && match run.2 with String b _ => negb (is_word b) | "" => true end
    then Some run.1 else number_from (is_word a) s'
  end.
Definition number_match : string → option string := number_from false.

(** ** Embedded JSON *)

(** [json.NewDecoder(r).Decode]: the value at the start, and what follows. *)
Definition json_prefix (s : string) : option (json * string) :=
  json_value (2 * String.length s + 2) 0 (skip_ws s).

(** The text of the value at the start of [s], as json.RawMessage keeps it. *)
Definition raw_prefix (s : string) : option (string * string) :=
  let s := skip_ws s in
  '(_, rest) ← json_prefix s;
  Some (String.substring 0 (String.length s - String.length rest) s, rest).

(** The values of an array, as text. [s] is a JSON value. *)
Fixpoint raw_items_from (fuel : nat) (s : string) : list string :=
  match fuel with
  | O => []
  | S fuel =>
    match raw_prefix s with
    | Some (v, rest) =>
      v :: match skip_ws rest with
           | String a rest => if Ascii.eqb a "," then raw_items_from fuel rest else []
           | "" => []
           end
    | None => []
    end
  end.
Definition raw_items (s : string) : option (list string) :=
  match skip_ws s with
  | String "["%char s => Some (raw_items_from (String.length s) s)
  | _ => None
  end.

(** The members of an object: the keys, and the values as text. *)
Fixpoint raw_members_from (fuel : nat) (s : string) : list (string * string) :=
  match fuel with
  | O => []
  | S fuel =>
    match json_prefix s with
    | Some (JStr k, rest) =>
      match skip_ws rest with
      | String _ rest =>                                     (* the colon *)
        match raw_prefix rest with
        | Some (v, rest) =>
          (k, v) :: match skip_ws rest with
                    | String a rest => if Ascii.eqb a "," then raw_members_from fuel rest else []
                    | "" => []
                    end
        | None => []
        end
      | "" => []
      end
    | _ => []
    end
  end.
Definition raw_members (s : string) : option (list (string * string)) :=
  match skip_ws s with
  | String "{"%char s => Some (raw_members_from (String.length s) s)
  | _ => None
  end.
(** The member [k]; the last duplicate wins. *)
Definition raw_member (k : string) (l : list (string * string)) : option string :=
  snd <$> List.find (λ p, String.eqb p.1 k) (reverse l).

(** [json.Unmarshal] of a text into a [map[string]json.RawMessage]. *)
Definition raw_map (s : string) : option (list (string * string)) :=
  j ← parse_json s;
  match j with JNull => Some [] | JObj _ => raw_members s | _ => None end.

Example text_examples :
  TrimSpace (utf8_encode 8201 +:+ " a b" +:+ utf8_encode 160 +:+ " ") = "a b" ∧
  Fields (" a  bc" +:+ utf8_encode 160 +:+ "d ") = ["a"; "bc"; "d"] ∧
  number_match "x12 Gifted 5 memberships" = Some "5" ∧ number_match "a1 2b" = None ∧
  raw_map (quoted " {'a' : [1, 2 ] ,'b':{'c':null}, 'a':3} ") =
    Some [("a", "[1, 2 ]"); ("b", quoted "{'c':null}"); ("a", "3")] ∧
  raw_items (quoted "[ {'x':1} , 2,'y']") = Some [quoted "{'x':1}"; "2"; quoted "'y'"].
Proof. vm_compute. done. Qed.

(** A text decoded into a struct whose members are kept as text; [null]
    changes nothing. *)
Definition raw_struct {S} (f : S → string → string → option S) (s : S) (raw : string) : option S :=
  j ← parse_json raw;
  match j with
  | JNull => Some s
  | JObj _ =>
    l ← raw_members raw;
    foldl (λ acc p, s ← acc; f s p.1 p.2) (Some s) l
  | _ => None
  end.
(** A slice of texts. *)
Definition raw_list (raw : string) : option (list string) :=
  j ← parse_json raw;
  match j with JNull => Some [] | JArr _ => raw_items raw | _ => None end.
