(* ===== verification/Url.v ===== *)
(** * Text of requests

    What the programs use of net/url, strings.Split and base64's URL alphabet:
    escaping, the encoding of url.Values, splitting at a character. *)

From stdpp Require Import base gmap strings list.
From Stdlib Require Import Ascii.
From S2P Require Import Prelude JsonText.

(** [strings.Split(s, c)] for a one-character separator. *)
Fixpoint split_char (c : ascii) (s : string) : list string :=
  match s with
  | EmptyString => [EmptyString]
  | String a s' =>
    if Ascii.eqb a c then EmptyString :: split_char c s'
    else match split_char c s' with
         | x :: l => String a x :: l
         | [] => [String a ""]
         end
  end.

(** ** Escaping *)

Definition is_alnum (a : ascii) : bool := is_digit a || is_upper a || is_lower a.
Definition one_of (cs : string) (a : ascii) : bool := contains_char cs a.
Definition unreserved (a : ascii) : bool := is_alnum a || one_of "-_.~" a.

Definition upper_hex (n : Z) : ascii := ascii_of_nat (Z.to_nat (if n <? 10 then 48 + n else 55 + n)).
Definition percent (a : ascii) : string :=
  String "%" (String (upper_hex (code_of a / 16)) (String (upper_hex (code_of a mod 16)) "")).

Fixpoint escape_with (keep : ascii → bool) (space : string) (s : string) : string :=
  match s with
  | EmptyString => EmptyString
  | String a s =>
    (if keep a then String a "" else if Ascii.eqb a " " then space else percent a) +:+ escape_with keep space s
  end.
Definition query_escape : string → string := escape_with unreserved "+".
Definition path_escape : string → string :=
  escape_with (λ a, unreserved a || one_of "$&+=:@" a) "%20".

(** Parameters with one value each, by key. *)
Fixpoint insert_value (p : string * string) (l : list (string * string)) : list (string * string) :=
  match l with
  | [] => [p]
  | q :: l' => if String.ltb q.1 p.1 then q :: insert_value p l' else p :: l
  end.
Definition sort_values (l : list (string * string)) : list (string * string) := foldr insert_value [] l.
Definition values_encode (l : list (string * string)) : string :=
  String.concat "&" (map (λ p, query_escape p.1 +:+ "=" +:+ query_escape p.2) (sort_values l)).

Example encode_values :
  values_encode [("redirect_uri", "https://chat.rtirl.com/auth/kick/callback"); ("code", "a+b c/~")] =
  "code=a%2Bb+c%2F~&redirect_uri=https%3A%2F%2Fchat.rtirl.com%2Fauth%2Fkick%2Fcallback".
Proof. vm_compute. reflexivity. Qed.

(** Unescaping, the inverse that servers apply. *)
Fixpoint query_unescape (s : string) : option string :=
  match s with
  | EmptyString => Some EmptyString
  | String a s' =>
    if Ascii.eqb a "%" then
      match s' with
      | String x (String y s'') =>
        h ← hex_value x; l ← hex_value y; r ← query_unescape s''; Some (String (byte_of (16 * h + l)) r)
      | _ => None
      end
    else r ← query_unescape s'; Some (String (if Ascii.eqb a "+" then " "%char else a) r)
  end.

(** Escaped text reads back as what was escaped, whatever it contains. *)
Lemma query_unescape_escape s : query_unescape (query_escape s) = Some s.
Proof.
  induction s as [|a s IH]; [done|]. unfold query_escape in *. cbn [escape_with].
  destruct (unreserved a) eqn:Eu; [|destruct (Ascii.eqb_spec a " ") as [->|Hs]].
  - change (String a "" +:+ escape_with unreserved "+" s) with (String a (escape_with unreserved "+" s)).
    cbn [query_unescape]. rewrite IH.
    replace (Ascii.eqb a "%") with false by (by destruct a as [[] [] [] [] [] [] [] []]).
    replace (Ascii.eqb a "+") with false by (by destruct a as [[] [] [] [] [] [] [] []]). done.
  - change ("+" +:+ escape_with unreserved "+" s) with (String "+" (escape_with unreserved "+" s)).
    cbn [query_unescape]. by rewrite IH.
  - cbn [percent]. unfold percent. rewrite !app_str_cons. cbn [query_unescape Ascii.eqb].
    change ("" +:+ escape_with unreserved "+" s) with (escape_with unreserved "+" s). rewrite IH. clear IH Hs Eu.
    destruct a as [[] [] [] [] [] [] [] []]; vm_compute; reflexivity.
Qed.

(** ** [base64.RawURLEncoding.EncodeToString] *)

Definition b64url_char (n : Z) : ascii :=
  if n <? 26 then ascii_of_nat (Z.to_nat (65 + n))
  else if n <? 52 then ascii_of_nat (Z.to_nat (71 + n))
  else if n <? 62 then ascii_of_nat (Z.to_nat (n - 4))
  else if n =? 62 then "-"%char else "_"%char.
Fixpoint b64url_encode (s : string) : string :=
  match s with
  | EmptyString => EmptyString
  | String a EmptyString =>
    let n := code_of a * 16 in String (b64url_char (n / 64)) (String (b64url_char (n mod 64)) "")
  | String a (String b EmptyString) =>
    let n := (code_of a * 256 + code_of b) * 4 in
    String (b64url_char (n / 4096)) (String (b64url_char (n / 64 mod 64)) (String (b64url_char (n mod 64)) ""))
  | String a (String b (String c s)) =>
    let n := (code_of a * 256 + code_of b) * 256 + code_of c in
    String (b64url_char (n / 262144)) (String (b64url_char (n / 4096 mod 64))
      (String (b64url_char (n / 64 mod 64)) (String (b64url_char (n mod 64)) (b64url_encode s))))
  end.

Example b64url_examples :
  map b64url_encode ["f"; "fo"; "foo"; "foob"; String (byte_of 251) (String (byte_of 255) "")] =
  ["Zg"; "Zm8"; "Zm9v"; "Zm9vYg"; "-_8"].
Proof. vm_compute. reflexivity. Qed.
