(* ===== verification/UrlParse.v ===== *)
(** * Parsing URLs

    [url.Parse] and [URL.Query] of net/url, as the YouTube reader uses them to
    read a channel's handle and the canonical link of a page. Whether net/netip
    accepts the address in an IP literal is an argument. *)

From stdpp Require Import base strings list.
From Stdlib Require Import Ascii.
From S2P Require Import Prelude GoErr JsonText Url.

(** [strings.Cut] at a character: what is before, and what follows if it
    occurs. *)
Fixpoint cut (c : ascii) (s : string) : string * option string :=
  match s with
  | "" => ("", None)
  | String a s => if Ascii.eqb a c then ("", Some s) else let '(p, r) := cut c s in (String a p, r)
  end.
(** At its last occurrence. *)
Fixpoint cut_last (c : ascii) (s : string) : option (string * string) :=
  match s with
  | "" => None
  | String a s' =>
    match cut_last c s' with
    | Some (p, r) => Some (String a p, r)
    | None => if Ascii.eqb a c then Some ("", s') else None
    end
  end.

Record url := MkUrl { Scheme : string; Host : string; Path : string; RawQuery : string }.

(** Percent-decoding where a plus is a plus; [ok]: the characters that may
    stand for themselves, and the codes that may be escaped. *)
Fixpoint unescape_with (plain : ascii → bool) (code : Z → bool) (s : string) : option string :=
  match s with
  | "" => Some ""
  | String a s' =>
    if Ascii.eqb a "%" then
      match s' with
      | String x (String y s'') =>
        h ← hex_value x; l ← hex_value y;
        if code (16 * h + l) then r ← unescape_with plain code s''; Some (String (byte_of (16 * h + l)) r) else None
      | _ => None
      end
    else if plain a then r ← unescape_with plain code s'; Some (String a r) else None
  end.
Definition path_unescape : string → option string := unescape_with (λ _, true) (λ _, true).
(** Of a host: ASCII may not be escaped, but for the percent sign, and only
    unreserved characters, sub-delimiters and a few more may stand for
    themselves. *)
Definition host_char (a : ascii) : bool :=
  (128 <=? code_of a) || is_alnum a || one_of "-_.~!$&'()*+,;=:[]<>" a || (code_of a =? 34).
Definition host_unescape : string → option string :=
  unescape_with host_char (λ n, (128 <=? n) || (n =? 37)).

Definition valid_port (s : string) : bool :=
  match s with "" => true | String a s => Ascii.eqb a ":" && all_chars is_digit s end.

Definition valid_userinfo (s : string) : bool :=
  all_chars (λ a, is_alnum a || one_of "-._:~!$&'()*+,;=%@" a) s.

Section Parse.
(** The address of an IP literal, between its brackets. *)
Variable ip_literal : string → option string.

Definition parseHost (host : string) : option string :=
  match cut_last "[" host with
  | Some (_, literal) =>
    '(address, port) ← cut_last "]" literal;
    if valid_port port then
      a ← ip_literal address; p ← host_unescape port;
      Some (String "[" (a +:+ String "]" p))
    else None
  | None =>
    match cut ":" host with
    | (_, Some port) => if all_chars is_digit port then host_unescape host else None
    | _ => host_unescape host
    end
  end.

Definition parseAuthority (s : string) : option string :=
  match cut_last "@" s with
  | None => parseHost s
  | Some (user, host) =>
    host ← parseHost host;
    if valid_userinfo user then _ ← path_unescape user; Some host else None
  end.

(** The scheme and the rest; [None] is a missing scheme before a colon. *)
Fixpoint scheme_from (first : bool) (scheme whole s : string) : option (string * string) :=
  match s with
  | "" => Some ("", whole)
  | String a s =>
    if is_lower a || is_upper a then scheme_from false (scheme +:+ String a "") whole s
    else if is_digit a || one_of "+-." a then
      if first then Some ("", whole) else scheme_from false (scheme +:+ String a "") whole s
    else if Ascii.eqb a ":" then if first then None else Some (scheme, s)
    else Some ("", whole)
  end.
Definition getScheme (s : string) : option (string * string) := scheme_from true "" s s.

(** What follows the scheme. *)
Definition parse_rest (scheme rest : string) : option url :=
  let '(rest, query) := match cut "?" rest with (p, q) => (p, default "" q) end in
  if negb (has_prefix rest "/") && negb (String.eqb scheme "") then Some (MkUrl scheme "" "" query)
  else if negb (has_prefix rest "/") && contains_char (cut "/" rest).1 ":" then None
  else if (negb (String.eqb scheme "") || negb (has_prefix rest "///")) && has_prefix rest "//" then
    let '(authority, path) := match cut "/" (drop_str 2 rest) with
                              | (p, Some r) => (p, String "/" r)
                              | (p, None) => (p, "")
                              end in
    host ← parseAuthority authority;
    path ← path_unescape path;
    Some (MkUrl scheme host path query)
  else path ← path_unescape rest; Some (MkUrl scheme "" path query).

Definition is_ctl (a : ascii) : bool := (code_of a <? 32) || (code_of a =? 127).

Definition Parse (s : string) : option url :=
  let '(u, frag) := cut "#" s in
  if negb (all_chars (λ a, negb (is_ctl a)) u) then None
  else
    u ← (if String.eqb u "*" then Some (MkUrl "" "" "*" "")
         else '(scheme, rest) ← getScheme u; parse_rest (to_lower scheme) rest);
    _ ← path_unescape (default "" frag);
    Some u.
End Parse.

(** [u.Query().Get(k)]: pairs that do not parse are dropped. *)
Definition query_get (k query : string) : string :=
  default "" (head (omap (λ pair,
    if contains_char pair ";" || String.eqb pair "" then None
    else
      let '(key, v) := cut "=" pair in
      key ← query_unescape key; v ← query_unescape (default "" v);
      if String.eqb key k then Some v else None) (split_char "&" query))).

Example parse_examples :
  let parse := Parse (λ _, None) in
  parse "https://www.youtube.com/watch?v=abc&t=1#x" = Some (MkUrl "https" "www.youtube.com" "/watch" "v=abc&t=1") ∧
  parse "HTTP://user@host:80/%7Ea?q" = Some (MkUrl "http" "host:80" "/~a" "q") ∧
  parse "/@name" = Some (MkUrl "" "" "/@name" "") ∧ parse "//h/p" = Some (MkUrl "" "h" "/p" "") ∧
  parse "a:b" = Some (MkUrl "a" "" "" "") ∧ parse ":b" = None ∧ parse "1:b" = None ∧
  parse "http://a b/" = None ∧ parse "http://h:x/" = None ∧ parse "http://h/%zz" = None ∧
  query_get "v" "u=1&v=a%2Bb+c&v=d" = "a+b c".
Proof. vm_compute. split_and!; reflexivity. Qed.
