(* ===== verification/Callable.v ===== *)
(** * Callable requests

    Models agent/internal/callable: the Firebase callable protocol (serve and
    the log of wrap in server.go) and the integer wrappers of the mobile SDKs
    (serialization.go). Verifying a token, the caller leaving, and the handler
    are effects; a handler answers a JSON value, an error, or panics. *)

From stdpp Require Import base gmap strings list pretty.
From Stdlib Require Import Ascii.
From S2P Require Import Prelude GoErr Json Effects JsonText HttpServer Url.

(** ** Integer wrappers *)

Definition int64_kind : string := "type.googleapis.com/google.protobuf.Int64Value".
Definition uint64_kind : string := "type.googleapis.com/google.protobuf.UInt64Value".

(** The integer of a wrapper, if the object is one. *)
Definition wrapper (l : list (string * json)) : option (option Z) :=
  match member "@type" l with
  | Some (JStr kind) =>
    if String.eqb kind int64_kind then
      Some (match member "value" l with Some (JStr t) => parse_int t | _ => None end)
    else if String.eqb kind uint64_kind then
      Some (match member "value" l with Some (JStr t) => parse_uint 64 t | _ => None end)
    else None
  | _ => None
  end.

(** On a value whose objects have distinct keys, as decoding gives them. *)
Fixpoint decode_value (j : json) : option json :=
  match j with
  | JObj l =>
    match wrapper l with
    | Some n => n ← n; Some (JNum (pretty (n : Z)))
    | None => JObj <$> (fix go (l : list (string * json)) : option (list (string * json)) :=
        match l with
        | [] => Some []
        | (k, v) :: l => v ← decode_value v; r ← go l; Some ((k, v) :: r)
        end) l
    end
  | JArr l => JArr <$> (fix go (l : list json) : option (list json) :=
      match l with [] => Some [] | v :: l => v ← decode_value v; r ← go l; Some (v :: r) end) l
  | j => Some j
  end.

(** [decodeData]: the text that handlers unmarshal. *)
Definition decodeData (data : json) : option string := marshal <$> decode_value (normalize data).

(** [readData] over a body of at most a mebibyte. *)
Definition readData (r : incoming) : option string :=
  match read_all (1024 * 1024) r with
  | Bytes body =>
    match parse_json body with
    | Some (JObj l) =>
      if forallb (λ p, String.eqb p.1 "data") l then data ← member "data" l; decodeData data else None
    | _ => None
    end
  | _ => None
  end.

(** ** Errors *)

Definition statusCodes : list (string * Z) :=
  [("cancelled", 499); ("unknown", 500); ("invalid-argument", 400); ("deadline-exceeded", 504); ("not-found", 404);
   ("already-exists", 409); ("permission-denied", 403); ("resource-exhausted", 429); ("failed-precondition", 400);
   ("aborted", 409); ("out-of-range", 400); ("unimplemented", 501); ("internal", 500); ("unavailable", 503);
   ("data-loss", 500); ("unauthenticated", 401)].
Fixpoint status_of (l : list (string * Z)) (c : string) : option Z :=
  match l with [] => None | (c', s) :: l => if String.eqb c' c then Some s else status_of l c end.

(** What a client is told: a code, a message and YouTube's details. *)
Record sent := Sent { s_code : string; s_message : string; s_details : option (string * option Z) }.

(** The first [*Error] of the chain, with its details. *)
Definition explicit (e : error) : option sent :=
  errors_as (λ e, match e with
                  | ErrCallable c m => Some (Sent c m None)
                  | ErrDetailed c m r s => Some (Sent c m (Some (r, s)))
                  | _ => None
                  end) e.

(** [canonical]; a nil error is 200. *)
Definition canonical (err : option error) : option sent * Z :=
  match err with
  | None => (None, 200)
  | Some err =>
    let e :=
      match explicit err with
      | Some e => match status_of statusCodes (s_code e) with Some _ => e | None => Sent "internal" "INTERNAL" None end
      | None =>
        if IsCanceled err then Sent "cancelled" "CANCELLED" None
        else if is_deadline err || bool_decide (status_code (Some err) = DeadlineExceeded)
        then Sent "deadline-exceeded" "DEADLINE_EXCEEDED" None
        else Sent "internal" "INTERNAL" None
      end in
    (Some e, default 0 (status_of statusCodes (s_code e)))
  end.

Fixpoint upper_snake (s : string) : string :=
  match s with
  | "" => ""
  | String a s => String (if Ascii.eqb a "-" then "_"%char else upper_char a) (upper_snake s)
  end.
Definition details_json (d : string * option Z) : json :=
  JObj ([("provider", JStr "youtube"); ("reason", JStr d.1)] ++
        match d.2 with Some s => [("status", JNum (pretty s))] | None => [] end).
Definition error_body (e : sent) : string :=
  marshal (JObj [("error", JObj ([("status", JStr (upper_snake (s_code e))); ("message", JStr (s_message e))] ++
    match s_details e with Some d => [("details", details_json d)] | None => [] end))]).

Definition cors : list (string * string) :=
  [("Access-Control-Allow-Origin", "*"); ("Access-Control-Allow-Methods", "POST, OPTIONS");
   ("Access-Control-Allow-Headers", "Content-Type, Authorization, Firebase-Instance-ID-Token, X-Firebase-AppCheck");
   ("Vary", "Origin")].
Definition json_reply (s : Z) (body : string) : reply :=
  Reply s (cors ++ [("Content-Type", "application/json")]) body.
Definition writeError (err : error) : reply :=
  match canonical (Some err) with
  | (Some e, s) => json_reply s (error_body e)
  | (None, s) => json_reply s ""
  end.

(** ** Serving *)

(** What a handler did. *)
Inductive handled := Returned (r : result json) | Panicked.

Inductive ceff : Type → Type :=
  | CGone : ceff bool                              (* the request's context is canceled *)
  | CVerify (token : string) : ceff (result string)
  | CHandle (uid data : string) : ceff handled.

Record callInfo := CallInfo { c_provider : string; c_authenticated : bool }.

(** The provider field of the data; a struct decoded by encoding/json. *)
Definition provider_of (data : string) : string :=
  match parse_json data with
  | Some j =>
    match into_struct (λ old k v, if names k "provider" then into_string old v else Some old) "" j with
    | Some p => if (String.length p <=? 16)%nat then p else ""
    | None => ""
    end
  | None => ""
  end.

(** The token of an Authorization header. *)
Definition bearer (authorization : string) : option string :=
  match split_char " " authorization with
  | [scheme; token] => if String.eqb (to_lower scheme) "bearer" && negb (String.eqb token "") then Some token else None
  | _ => None
  end.

Section Serve.
Context (η : env ceff).
(** [mime.ParseMediaType]: the media type, unless it is malformed. *)
Variable parse_media : string → option string.
(** Whether the server has a verifier. *)
Variable verifies : bool.
Local Abbreviation M := (M (world ceff unit)).

Definition served : Type := callInfo * option error * reply.

(** The caller's absence takes precedence; the chain holds the failure too. *)
Definition fail (call : callInfo) (e : error) : M served :=
  gone ← ask η CGone;
  let e := if (gone : bool) then ErrWrap "" (ErrCallable "cancelled" "CANCELLED") else e in
  mret (call, Some e, writeError e).

(** The user of a request: "" without an Authorization header. *)
Definition authenticate (r : incoming) : M (option string) :=
  let authorization := HttpServer.Get r "Authorization" in
  if String.eqb authorization "" then mret (Some "")
  else
    match bearer authorization with
    | Some token =>
      if verifies then
        uid ← ask η (CVerify token);
        mret (match uid with inr uid => if String.eqb uid "" then None else Some uid | inl _ => None end)
      else mret None
    | None => mret None
    end.

Definition invoke (uid data : string) : M (result json) :=
  h ← ask η (CHandle uid data);
  mret (match h with Returned r => r | Panicked => inl (ErrMsg "panic") end).

Definition serve (r : incoming) (requireAuth : bool) : M served :=
  let none := CallInfo "" false in
  if String.eqb (r_method r) "OPTIONS" then mret (none, None, Reply 204 cors "")
  else if negb (String.eqb (r_method r) "POST") then fail none (ErrCallable "invalid-argument" "POST required")
  else
    match parse_media (HttpServer.Get r "Content-Type") with
    | Some media =>
      if negb (String.eqb media "application/json") then fail none (ErrCallable "invalid-argument" "JSON required")
      else
        match readData r with
        | None => fail none (ErrCallable "invalid-argument" "expected data envelope")
        | Some data =>
          let call := CallInfo (provider_of data) false in
          uid ← authenticate r;
          match uid with
          | None => fail call (ErrCallable "unauthenticated" "invalid authentication")
          | Some uid =>
            let call := CallInfo (provider_of data) (negb (String.eqb uid "")) in
            if requireAuth && String.eqb uid "" then fail call (ErrCallable "unauthenticated" "authentication required")
            else
              result ← invoke uid data;
              match result with
              | inl e => fail call e
              | inr v => mret (call, None, json_reply 200 (marshal (JObj [("result", v)])))
              end
          end
        end
    | None => fail none (ErrCallable "invalid-argument" "JSON required")
    end.

(** The request log of [wrap]. *)
Record call_log := CallLog {
  l_status : Z;
  l_code : string;
  l_provider : string;
  l_via : string;
  l_authenticated : bool;
  l_error : bool
}.

Definition Via (r : incoming) : string :=
  let via := HttpServer.Get r "X-Rtchat-Proxy" in if (32 <? String.length via)%nat then "invalid" else via.

Definition wrap (r : incoming) (requireAuth : bool) : M (reply * call_log) :=
  s ← serve r requireAuth;
  let '(call, err, rep) := s in
  let '(e, st) := canonical err in
  let code := match e with Some e => s_code e | None => "ok" end in
  let st := match err with None => if String.eqb (r_method r) "OPTIONS" then 204 else st | Some _ => st end in
  mret (rep, CallLog st code (c_provider call) (Via r) (c_authenticated call) (500 <=? st)).
End Serve.

(** ** Wrapped integers read as plain ones *)

(** How a mobile SDK sends a value: every integer in canonical form wrapped. *)
Definition mobile_number (t : string) : json :=
  match parse_int t with
  | Some n => if String.eqb (pretty n) t then JObj [("@type", JStr int64_kind); ("value", JStr t)] else JNum t
  | None => JNum t
  end.
Fixpoint mobile (j : json) : json :=
  match j with
  | JNum t => mobile_number t
  | JArr l => JArr (map mobile l)
  | JObj l => JObj (map (λ p, (p.1, mobile p.2)) l)
  | j => j
  end.

(** No object of the value looks like a wrapper. *)
Fixpoint unwrapped (j : json) : bool :=
  match j with
  | JArr l => forallb unwrapped l
  | JObj l => match wrapper l with None => forallb (λ p, unwrapped p.2) l | Some _ => false end
  | _ => true
  end.

Lemma decode_arr l : decode_value (JArr l) = JArr <$> mapM decode_value l.
Proof. reflexivity. Qed.
Lemma decode_obj l : wrapper l = None →
  decode_value (JObj l) = JObj <$> mapM (λ p, v ← decode_value p.2; Some (p.1, v)) l.
Proof.
  intros Hw. cbn. rewrite Hw. f_equal. clear Hw. induction l as [|[k v] l IH]; [done|].
  cbn. rewrite IH. by destruct (decode_value v).
Qed.

Lemma member_map f k l : member k (map (λ p : string * json, (p.1, f p.2)) l) = f <$> member k l.
Proof.
  induction l as [|[k' v] l IH]; [done|]. cbn. rewrite IH. destruct (member k l); [done|]. cbn.
  by destruct (String.eqb k' k).
Qed.

Lemma wrapper_mobile l : wrapper l = None → wrapper (map (λ p, (p.1, mobile p.2)) l) = None.
Proof.
  unfold wrapper. rewrite !member_map. destruct (member "@type" l) as [[]|]; cbn; try done.
  - unfold mobile_number. destruct (parse_int text); [|done]. by destruct (String.eqb _ _).
  - destruct (String.eqb s int64_kind); [done|]. by destruct (String.eqb s uint64_kind).
Qed.

Lemma decode_mobile j : unwrapped j = true → decode_value (mobile j) = Some j.
Proof.
  induction j as [| |t| |l IH|l IH] using json_ind'; try done.
  - intros _. cbn [mobile]. unfold mobile_number. destruct (parse_int t) as [n|] eqn:Hp; [|done].
    destruct (String.eqb_spec (pretty n) t) as [Ht|]; [|done].
    cbn [decode_value]. replace (wrapper _) with (Some (Some n)).
    { cbn. by rewrite Ht. }
    unfold wrapper. cbn -[parse_int]. by rewrite Hp.
  - cbn [mobile unwrapped]. intros Hf. rewrite decode_arr.
    replace (mapM decode_value (map mobile l)) with (Some l); [done|].
    induction IH as [|v l Hv _ IHl]; [done|]. cbn in *. apply andb_true_iff in Hf as [H1 H2].
    rewrite Hv by done. cbn. by rewrite <-(IHl H2).
  - cbn [mobile unwrapped]. destruct (wrapper l) eqn:Hw; [done|]. intros Hf.
    rewrite decode_obj by (by apply wrapper_mobile).
    replace (mapM _ (map _ l)) with (Some l); [done|]. clear Hw.
    induction IH as [|[k v] l Hv _ IHl]; [done|]. cbn in *. apply andb_true_iff in Hf as [H1 H2].
    rewrite Hv by done. cbn. by rewrite <-(IHl H2).
Qed.

Lemma decode_unwrapped j : unwrapped j = true → decode_value j = Some j.
Proof.
  induction j as [| |t| |l IH|l IH] using json_ind'; try done.
  - cbn [unwrapped]. intros Hf. rewrite decode_arr. replace (mapM decode_value l) with (Some l); [done|].
    induction IH as [|v l Hv _ IHl]; [done|]. cbn in *. apply andb_true_iff in Hf as [H1 H2].
    rewrite Hv by done. cbn. by rewrite <-(IHl H2).
  - cbn [unwrapped]. destruct (wrapper l) eqn:Hw; [done|]. intros Hf. rewrite decode_obj by done.
    replace (mapM _ l) with (Some l); [done|]. clear Hw.
    induction IH as [|[k v] l Hv _ IHl]; [done|]. cbn in *. apply andb_true_iff in Hf as [H1 H2].
    rewrite Hv by done. cbn. by rewrite <-(IHl H2).
Qed.

Lemma insert_member_map f k v l :
  insert_member k (f v) (map (λ p : string * json, (p.1, f p.2)) l) =
  map (λ p, (p.1, f p.2)) (insert_member k v l).
Proof.
  induction l as [|[k' v'] l IH]; [done|]. cbn. destruct (String.eqb k k'); [done|].
  destruct (String.ltb k k'); [done|]. cbn. by rewrite IH.
Qed.

Lemma normalize_mobile j : normalize (mobile j) = mobile (normalize j).
Proof.
  induction j as [| |t| |l IH|l IH] using json_ind'; try done.
  - cbn. unfold mobile_number. destruct (parse_int t); [|done]. by destruct (String.eqb _ _).
  - cbn. f_equal. induction IH as [|v l Hv _ IHl]; [done|]. cbn. by rewrite Hv, IHl.
  - cbn. f_equal. induction IH as [|[k v] l Hv _ IHl]; [done|]. cbn in *. by rewrite Hv, IHl, insert_member_map.
Qed.

(** The data of a mobile client, whose integers come wrapped, reads as the
    same data sent plainly: what the handlers unmarshal is the text of the
    value itself. *)
Theorem wrappers_transparent j :
  unwrapped (normalize j) = true →
  decodeData (mobile j) = decodeData j ∧ decodeData j = Some (marshal (normalize j)).
Proof.
  intros Hu. unfold decodeData. rewrite normalize_mobile, decode_mobile, decode_unwrapped by done. done.
Qed.

(** The witness: the length of a timeout. *)
Definition timeout_data : json :=
  JObj [("provider", JStr "twitch"); ("length", JNum "600"); ("ids", JArr [JNum "-9223372036854775808"; JNum "1.5"])].
Lemma wrappers_transparent_witness :
  (decodeData (mobile timeout_data) = decodeData timeout_data ∧
   decodeData timeout_data = Some (marshal (normalize timeout_data))) ∧
  decodeData (mobile timeout_data) = Some (quoted "{'ids':[-9223372036854775808,1.5],'length':600,'provider':'twitch'}").
Proof.
  split; [apply (wrappers_transparent timeout_data); vm_compute; reflexivity|vm_compute; reflexivity].
Defined.

(** ** What a call does *)

Definition handles (e : ev ceff) : bool :=
  match e with Ev op _ => match op with CHandle _ _ => true | _ => false end end.
Definition handled_times (t : trace ceff) : nat := List.length (List.filter handles t).
(** What the handler of an event did, and whether it found the caller gone. *)
Definition outcome (e : ev ceff) : option handled :=
  match e with
  | Ev op a => match op in ceff A return A → option handled with CHandle _ _ => Some | _ => λ _, None end a
  end.
Definition left_ (e : ev ceff) : bool :=
  match e with Ev op a => match op in ceff A return A → bool with CGone => id | _ => λ _, false end a end.
Definition succeeded (t : trace ceff) (v : json) : Prop :=
  ∃ uid data, Ev (CHandle uid data) (Returned (inr v)) ∈ t.

Section Contract.
Context (parse_media : string → option string) (r : incoming) (requireAuth : bool).

(** Whose request it is: nobody's, or the verified user's. *)
Definition identity (uid : string) (t : trace ceff) : Prop :=
  let authorization := HttpServer.Get r "Authorization" in
  (authorization = "" ∧ uid = "") ∨
  (uid ≠ "" ∧ ∃ token, bearer authorization = Some token ∧ Ev (CVerify token) (inr uid) ∈ t).

Definition call_ok (t : trace ceff) (e : ev ceff) : Prop :=
  match e with
  | Ev op _ =>
    match op with
    | CVerify token => bearer (HttpServer.Get r "Authorization") = Some token ∧ t = []
    | CHandle uid data =>
      r_method r = "POST" ∧ parse_media (HttpServer.Get r "Content-Type") = Some "application/json" ∧
      readData r = Some data ∧ identity uid t ∧ (requireAuth = true → uid ≠ "") ∧ handled_times t = 0%nat
    | CGone => True
    end
  end.

(** What is answered: the handler's value, or an error that [canonical] maps;
    a caller that left is told of a cancellation. *)
Definition answered (a : served) (t : trace ceff) : Prop :=
  let '(call, err, rep) := a in
  (handled_times t <= 1)%nat ∧
  match err with
  | None =>
    (r_method r = "OPTIONS" ∧ rep = Reply 204 cors "" ∧ t = []) ∨
    (r_method r ≠ "OPTIONS" ∧ ∃ v, (∀ v', succeeded t v' ↔ v' = v) ∧ rep = json_reply 200 (marshal (JObj [("result", v)])) ∧
      ∃ e t', t = e :: t' ∧ handles e = true)
  | Some e =>
    rep = writeError e ∧ (∀ v, ¬ succeeded t v) ∧
    ∃ gone t', t = Ev CGone gone :: t' ∧ (gone = true → canonical err = (Some (Sent "cancelled" "CANCELLED" None), 499))
  end.

Local Abbreviation runs := (runs (S:=unit) call_ok).

(** No handler ran, or one that failed. *)
Definition unhandled (t : trace ceff) : Prop := (handled_times t <= 1)%nat ∧ ∀ v, ¬ succeeded t v.

Lemma unhandled_other (A : Type) (op : ceff A) a t :
  handles (Ev op a) = false → unhandled t → unhandled (Ev op a :: t).
Proof.
  intros Hh [H1 H2]. split; [unfold handled_times in *; cbn -[handles]; by rewrite Hh|].
  intros v (uid & data & H). apply elem_of_cons in H as [H|H]; [|apply (H2 v); by exists uid, data].
  by rewrite <-H in Hh.
Qed.

Lemma runs_fail η call e : runs unhandled (fail η call e) answered.
Proof.
  unfold fail. apply runs_ask_bind with (λ gone t, ∃ t', t = Ev CGone gone :: t' ∧ unhandled t).
  { intros t gone Ht. split; [done|]. exists t. split; [done|]. by apply unhandled_other. }
  intros gone. apply runs_ret. intros t (t' & -> & [H1 H2]). cbn. split; [done|]. split_and!; [done..|].
  exists gone, t'. split; [done|]. by intros ->.
Qed.

Lemma unhandled_nil : unhandled [].
Proof. split; [cbn; lia|]. by intros v (? & ? & ?%not_elem_of_nil). Qed.

Lemma runs_authenticate η verifies :
  runs (λ t, t = []) (authenticate η verifies r)
    (λ uid t, handled_times t = 0%nat ∧ (∀ v, ¬ succeeded t v) ∧ match uid with Some uid => identity uid t | None => True end).
Proof.
  assert (Hn : ∀ v, ¬ succeeded [] v) by apply unhandled_nil.
  unfold authenticate. destruct (String.eqb_spec (HttpServer.Get r "Authorization") "") as [E|E].
  { apply runs_ret. intros t ->. split_and!; [done..|by left]. }
  destruct (bearer _) as [token|] eqn:Eb; [|apply runs_ret; by intros t ->].
  destruct verifies; [|apply runs_ret; by intros t ->].
  apply runs_ask_bind with (λ a t, t = [Ev (CVerify token) a]); [by intros t a ->|].
  intros [e|uid]; [|destruct (String.eqb_spec uid "")]; apply runs_ret; intros t ->;
    (split_and!; [done|intros v (? & ? & [|?%not_elem_of_nil]%elem_of_cons)|]); try done.
  right. split; [done|]. exists token. split; [done|left].
Qed.

Lemma runs_call η verifies :
  runs (λ t, t = []) (serve η parse_media verifies r requireAuth) answered.
Proof.
  assert (Hfail : ∀ call e, runs (λ t, t = []) (fail η call e) answered).
  { intros call e. eapply runs_conseq; [apply runs_fail|intros t ->; apply unhandled_nil|done]. }
  unfold serve. destruct (String.eqb_spec (r_method r) "OPTIONS") as [Eo|Eo].
  { apply runs_ret. intros t ->. split; [cbn; lia|]. by left. }
  destruct (String.eqb_spec (r_method r) "POST") as [Ep|]; cbn [negb]; [|apply Hfail].
  destruct (parse_media _) as [media|] eqn:Em; [|apply Hfail].
  destruct (String.eqb_spec media "application/json") as [->|]; cbn [negb]; [|apply Hfail].
  destruct (readData r) as [data|] eqn:Ed; [|apply Hfail].
  eapply runs_bind; [apply runs_authenticate|]. intros [uid|].
  2:{ eapply runs_conseq; [apply runs_fail| |done]. intros t (H1 & H2 & _). split; [lia|done]. }
  cbv beta iota. destruct (requireAuth && String.eqb uid "") eqn:Ea.
  { eapply runs_conseq; [apply runs_fail| |done]. intros t (H1 & H2 & _). split; [lia|done]. }
  unfold invoke. apply runs_assoc.
  apply runs_ask_bind with (λ h t, ∃ t', t = Ev (CHandle uid data) h :: t' ∧ (handled_times t <= 1)%nat ∧
                                   ∀ v, ¬ succeeded t' v).
  { intros t h (H1 & H2 & H3). split.
    - split_and!; try done. intros ->. cbn in Ea. by apply String.eqb_neq in Ea.
    - exists t. split_and!; [done| |done]. unfold handled_times in *. cbn. lia. }
  intros h. apply runs_ret_bind.
  assert (Hbad : ∀ call e, (∀ v, h ≠ Returned (inr v)) →
    runs (λ t, ∃ t', t = Ev (CHandle uid data) h :: t' ∧ (handled_times t <= 1)%nat ∧ ∀ v, ¬ succeeded t' v)
      (fail η call e) answered).
  { intros call e Hh. eapply runs_conseq; [apply runs_fail| |done]. intros t (t' & -> & H1 & H2).
    split; [done|]. intros v (u & d & [H|H]%elem_of_cons); [|apply (H2 v); by exists u, d].
    apply (f_equal outcome) in H. cbn in H. injection H as H. by apply (Hh v). }
  destruct h as [[e|v]|]; [by apply Hbad| |by apply Hbad].
  apply runs_ret. intros t (t' & -> & H1 & H2). cbn. split; [done|]. right. split; [done|].
  exists v. split; [|split; [done|by eexists _, _]]. intros v'. split; [|intros ->; exists uid, data; left].
  intros (u & d & [H|H]%elem_of_cons); [|destruct (H2 v'); by exists u, d].
  apply (f_equal outcome) in H. cbn in H. by injection H.
Qed.
End Contract.

Lemma statusCodes_errors c s : status_of statusCodes c = Some s → 400 <= s <= 504.
Proof.
  assert (H : Forall (λ p, 400 <= p.2 <= 504) statusCodes) by (repeat constructor; cbn; lia).
  induction H as [|[c' s'] l Hs _ IH]; [done|]. cbn. destruct (String.eqb c' c); [by intros [= <-]|done].
Qed.

Lemma canonical_error e : ∃ s st, canonical (Some e) = (Some s, st) ∧ 400 <= st <= 504.
Proof.
  assert (Hk : ∀ c, status_of statusCodes c ≠ None → 400 <= default 0 (status_of statusCodes c) <= 504).
  { intros c. destruct (status_of statusCodes c) eqn:E; [|done]. intros _. by eapply statusCodes_errors. }
  unfold canonical. eexists _, _. split; [reflexivity|]. apply Hk.
  destruct (explicit e) as [x|].
  - destruct (status_of statusCodes (s_code x)) eqn:E; [by rewrite E|by vm_compute].
  - destruct (IsCanceled e); [by vm_compute|]. by destruct (_ || _); vm_compute.
Qed.

(** C29. Every call is answered in the callable protocol: a handler runs at most
    once, only on a POST of JSON whose envelope holds the data, for nobody or
    for the user that the bearer token was verified to be, and for somebody
    where the route requires it; the answer is 200 exactly when the handler
    returned a value, an error of the table otherwise, a cancellation when the
    caller left; and the log carries the status that was sent. *)
Theorem callable_contract (η : env ceff) parse_media verifies r requireAuth :
  let '((rep, log), w) := wrap η parse_media verifies r requireAuth (World [] tt) in
  justified (call_ok parse_media r requireAuth) (w_tr w) ∧ (handled_times (w_tr w) <= 1)%nat ∧
  l_status log = status rep ∧
  (status rep = 200 ↔ ∃ v, succeeded (w_tr w) v) ∧
  (status rep = 200 ∨ 400 <= status rep <= 504 ∨ (status rep = 204 ∧ r_method r = "OPTIONS")) ∧
  (∀ v, succeeded (w_tr w) v → reply_body rep = marshal (JObj [("result", v)])) ∧
  (∀ t, w_tr w = Ev CGone true :: t → status rep = 499 ∧ l_code log = "cancelled").
Proof.
  pose proof (runs_call parse_media r requireAuth η verifies (World [] tt)) as H.
  unfold wrap. rewrite M_bind_run.
  destruct (serve _ _ _ _ _ _) as [[[call err] rep] w]. cbn [fst snd] in *.
  destruct (H (conj I eq_refl)) as [Hj [Hn Ha]]. destruct err as [e|].
  - destruct Ha as (-> & Hs & gone & t' & Ht & Hg). destruct (canonical_error e) as (s & st & Hc & Hst).
    unfold writeError. rewrite Hc in Hg |- *. cbn. split_and!; try done.
    + split; [intros ->; lia|]. intros [v Hv]. by destruct (Hs v).
    + by right; left.
    + intros v Hv. by destruct (Hs v).
    + intros t Ht'. rewrite Ht in Ht'. assert (He : Ev CGone gone = Ev CGone true) by congruence. apply (f_equal left_) in He.
      cbn in He. specialize (Hg He). by injection Hg as -> ->.
  - cbn. destruct Ha as [(Ho & -> & Ht)|(Ho & v & Hv & -> & e & t' & Ht & He)].
    + rewrite Ho, Ht. cbn. assert (Hs : ∀ v, ¬ succeeded [] v) by apply unhandled_nil.
      split_and!; try done; [lia| |by right; right|].
      * split; [done|]. intros [v Hv]. by destruct (Hs v).
      * intros v Hv. by destruct (Hs v).
    + rewrite (proj2 (String.eqb_neq _ _) Ho). cbn. split_and!; try done; [|by left| |].
      * split; [|done]. intros _. exists v. by apply Hv.
      * by intros v' ->%Hv.
      * intros t Ht'. rewrite Ht in Ht'. assert (He' : e = Ev CGone true) by congruence. by rewrite He' in He.
Qed.
