(* ===== verification/Clients.v ===== *)
(** * Chat clients

    Models agent/internal/clients: one request over the transport and what its
    answer decodes to (client.go), and the chat operations of the Twitch, Kick
    and YouTube clients (twitch/chat.go and SendIRC of twitch/irc.go,
    kick/chat.go, youtube/chat.go). A request is an effect that answers a raw
    response; http.Client, sockets and header encoding are behind it. *)

From stdpp Require Import base gmap strings list pretty.
From Stdlib Require Import Ascii.
From S2P Require Import Prelude GoErr GoTime Float64 Json Effects JsonText Text HttpServer Http Url.

(** A client: its base URL, the value of its Authorization header, and the
    Client-Id that only Twitch's has. *)
Record client := Client { c_base : string; c_auth : string; c_id : string }.

Definition TwitchClient (id token : string) : client := Client "https://api.twitch.tv/helix" ("Bearer " +:+ token) id.
Definition KickClient (token : string) : client := Client "https://api.kick.com/public/v1" ("Bearer " +:+ token) "".
Definition YouTubeClient (token : string) : client :=
  Client "https://www.googleapis.com/youtube/v3" (if String.eqb token "" then "" else "Bearer " +:+ token) "".
(** The page that [LiveChat] reads the canonical link of. *)
Definition DiscoveryClient : client := Client "https://www.youtube.com" "" "".

Record raw := Raw { w_status : Z; w_header : header; w_body : string }.

(** ** Decoding *)

(** [explained]: a message that is not blank. *)
Definition explained (body : string) : bool :=
  match unmarshal (into_field "Message" (λ _ j, Some j) JNull) body with
  | Some (JStr m) => negb (blank m)
  | _ => false
  end.

(** A raw response whose body is decoded by [f]. *)
Definition typed {B} (f : json → option B) (r : raw) : response B :=
  Response (w_status r) (w_header r) (explained (w_body r)) (unmarshal f (w_body r)).

Definition Err (r : raw) : option error := response_err (typed Some r).
Definition Decode {B} (f : json → option B) (r : raw) : result B := decode (Into B) (typed f r).

(** ** Effects *)

(** Why there was no response: the context ended, or the transport failed. *)
Inductive transport_error := Interrupted (deadline : bool) | Failed (msg : string).
Definition do_result (a : transport_error + raw) : result raw :=
  match a with
  | inl (Interrupted deadline) => inl (if deadline then ErrDeadline else ErrCanceled)
  | inl (Failed msg) => inl (ErrMsg msg)
  | inr r => inr r
  end.

Definition path_error : error := ErrMsg "provider request requires a relative path".

Inductive keff : Type → Type :=
  | KDo (c : client) (m : method) (path : string) (body : option json) : keff (transport_error + raw)
  | KNow : keff time
  | KSleep (d : duration) : keff (option error)
  (* the error of opening the connection; then each line that was sent *)
  | KDial : keff (option error)
  | KSay (line : string) : keff (option error).

Section Clients.
Context {E : Type → Type} {S : Type} (η : env E) (K : ∀ A, keff A → E A).
(** [http.ParseTime]. *)
Variable http_date : string → option time.
Local Abbreviation M := (M (world E S)).

Definition Do (c : client) (m : method) (path : string) (body : option json) : M (result raw) :=
  if negb (has_prefix path "/") || has_prefix path "//" then throw path_error
  else a ← ask η (K _ (KDo c m path body)); mret (do_result a).

Definition CGet {B} (c : client) (path : string) (f : json → option B) : M (result B) :=
  Http.Get η (K _ KNow) (λ d, K _ (KSleep d)) http_date (Into B)
    (r ← Do c GET path None; mret (match r with inl e => inl e | inr r => inr (typed f r) end)).

(** [DoJSON], whose callers use the error only. *)
Definition DoJSON (c : client) (m : method) (path : string) (body : option json) : M (result unit) :=
  r ←? Do c m path body;
  match Err r with
  | Some e => throw e
  | None =>
    if String.eqb (w_body r) "" then ok tt
    else match Decode (λ j, match j with JNull => Some tt | JObj l => (λ _, tt) <$> decode_entries [] l | _ => None end) r with
         | inl e => throw e
         | inr _ => ok tt
         end
  end.

Definition write (c : client) (m : method) (path : string) (body : option json) : M (result unit) :=
  r ←? Do c m path body; match Err r with Some e => throw e | None => ok tt end.

(** The message of a refusal. *)
Definition message_of (r : raw) : option string := unmarshal (into_field "Message" into_string "") (w_body r).

(** ** Twitch *)

Record User := MkUser { ID : string; Login : string; DisplayName : string }.
Definition decode_user : json → option User :=
  into_struct (λ u k j,
    if names k "id" then (λ s, MkUser s (Login u) (DisplayName u)) <$> into_string (ID u) j
    else if names k "login" then (λ s, MkUser (ID u) s (DisplayName u)) <$> into_string (Login u) j
    else if names k "display_name" then (λ s, MkUser (ID u) (Login u) s) <$> into_string (DisplayName u) j
    else Some u) (MkUser "" "" "").

Definition TwitchUser (c : client) (key v : string) : M (result User) :=
  l ←? CGet c ("/users?" +:+ values_encode [(key, v)]) (into_field "Data" (λ _, into_list decode_user) []);
  ok (match l with u :: _ => u | [] => MkUser "" "" "" end).

(** The answer to a message: is_sent and the reason of a drop. *)
Record send_answer := SendAnswer { sa_message : string; sa_data : list (bool * string) }.
Definition decode_sent : json → option (bool * string) :=
  into_struct (λ x k j,
    if names k "is_sent" then (λ b, (b, x.2)) <$> into_bool x.1 j
    else if names k "drop_reason" then (λ s, (x.1, s)) <$> into_field "Message" into_string x.2 j
    else Some x) (false, "").
Definition decode_answer : json → option send_answer :=
  into_struct (λ a k j,
    if names k "Message" then (λ s, SendAnswer s (sa_data a)) <$> into_string (sa_message a) j
    else if names k "Data" then (λ l, SendAnswer (sa_message a) l) <$> into_list decode_sent j
    else Some a) (SendAnswer "" []).

(** What [SendMessage] returns of an answer: "" when the message was sent. *)
Definition send_result (a : send_answer) : string :=
  let rest := if String.eqb (sa_message a) "" then "failed to send" else sa_message a in
  match sa_data a with
  | (sent, reason) :: _ => if sent then "" else if negb (String.eqb reason "") then reason else rest
  | [] => rest
  end.

Definition str_members (l : list (string * string)) : list (string * json) := map (λ p, (p.1, JStr p.2)) l.

Definition TwitchSend (c : client) (channel sender message reply : string) : M (result string) :=
  let body := JObj (str_members ([("broadcaster_id", channel); ("sender_id", sender); ("message", message)] ++
                                 if String.eqb reply "" then [] else [("reply_parent_message_id", reply)])) in
  r ←? Do c POST "/chat/messages" (Some body);
  if (w_status r =? 401) || (w_status r =? 403) then
    throw (ErrHTTP (w_status r) (explained (w_body r)))
  else match Decode decode_answer r with inl e => throw e | inr a => ok (send_result a) end.

Definition moderationPath (path channel moderator : string) (params : list (string * string)) : string :=
  path +:+ "?" +:+ values_encode (params ++ [("broadcaster_id", channel); ("moderator_id", moderator)]).

(** [strings.ToLower] (of ASCII letters), [TrimSpace] and [TrimSuffix]. *)
Definition plain_message (m : string) : string :=
  let m := to_lower (TrimSpace m) in
  if String.eqb (drop_str (String.length m - 1) m) "." then String.substring 0 (String.length m - 1) m else m.

Definition moderation_refusal (m : string) : option string :=
  let says := String.eqb (plain_message m) in
  if says "user is already banned" || says "the user specified in the user_id field is already banned"
  then Some "This user is already banned."
  else if says "user is not banned" || says "the user specified in the user_id query parameter is not banned"
  then Some "This user is not banned."
  else if says "user may not be banned" || says "the user specified in the user_id field may not be banned"
  then Some "Twitch does not allow banning this user."
  else if says "user may not be put in a timeout" || says "the user specified in the user_id field may not be put in a timeout"
  then Some "Twitch does not allow timing out this user."
  else None.

Definition writeBan (c : client) (m : method) (path : string) (body : option json) : M (result unit) :=
  r ←? Do c m path body;
  match (if w_status r =? 400 then message_of r ≫= moderation_refusal else None) with
  | Some refusal => throw (ErrModeration refusal)
  | None => match Err r with Some e => throw e | None => ok tt end
  end.

(** [duration]: the text of a float; "0" bans for good. *)
Definition TwitchBan (c : client) (channel moderator user duration reason : string) : M (result unit) :=
  writeBan c POST (moderationPath "/moderation/bans" channel moderator [])
    (Some (JObj [("data", JObj (("user_id", JStr user) ::
      if float_is_zero duration then [] else [("duration", JNum (float_json duration)); ("reason", JStr reason)]))])).
Definition TwitchUnban (c : client) (channel moderator user : string) : M (result unit) :=
  writeBan c DELETE (moderationPath "/moderation/bans" channel moderator [("user_id", user)]) None.
Definition DeleteMessages (c : client) (channel moderator message : string) : M (result unit) :=
  write c DELETE (moderationPath "/moderation/chat" channel moderator
                    (if String.eqb message "" then [] else [("message_id", message)])) None.

(** Twitch's reason in a refusal, when it gives one. *)
Definition reason_of (r : raw) : option string :=
  match message_of r with Some m => if String.eqb m "" then None else Some m | None => None end.

Definition decode_raid : json → option string := into_field "created_at" into_string "".
Definition StartRaid (c : client) (from to : string) : M (result time) :=
  r ←? Do c POST ("/raids?" +:+ values_encode [("from_broadcaster_id", from); ("to_broadcaster_id", to)]) None;
  match (if w_status r =? 400 then reason_of r else None) with
  | Some m => throw (ErrRaid m)
  | None =>
    match Err r with
    | Some e => throw e
    | None =>
      match Decode (into_field "Data" (λ _, into_list decode_raid) []) r with
      | inl e => throw e
      | inr [] => ok zero_time
      | inr (t :: _) => ok (default zero_time (parse_rfc3339 t))
      end
    end
  end.

Definition CancelRaid (c : client) (channel : string) : M (result unit) :=
  r ←? Do c DELETE ("/raids?" +:+ values_encode [("broadcaster_id", channel)]) None;
  if w_status r =? 404 then throw (ErrRaid (default "no pending raid" (reason_of r)))
  else match Err r with Some e => throw e | None => ok tt end.

(** The reason of a refusal, "" when the shoutout was accepted. *)
Definition Shoutout (c : client) (from to moderator : string) : M (result string) :=
  r ←? Do c POST ("/chat/shoutouts?" +:+ values_encode
                   [("from_broadcaster_id", from); ("to_broadcaster_id", to); ("moderator_id", moderator)]) None;
  match (if (w_status r =? 400) || (w_status r =? 429) then reason_of r else None) with
  | Some m => ok m
  | None => match Err r with Some e => throw e | None => ok "" end
  end.

(** A message cannot become more IRC commands. *)
Fixpoint one_line (s : string) : string :=
  match s with
  | "" => ""
  | String a s => String (if Ascii.eqb a (byte_of 13) || Ascii.eqb a (byte_of 10) then " "%char else a) (one_line s)
  end.
Definition irc_lines (token login channel message : string) : list string :=
  ["CAP REQ :twitch.tv/commands"; "PASS oauth:" +:+ token; "NICK " +:+ login;
   "PRIVMSG #" +:+ channel +:+ " :" +:+ one_line message].
Fixpoint say (l : list string) : M (result unit) :=
  match l with
  | [] => ok tt
  | line :: l =>
    e ← ask η (K _ (KSay line));
    match e with Some _ => throw (ErrMsg "IRC send failed") | None => say l end
  end.
Definition SendIRC (token login channel message : string) : M (result unit) :=
  e ← ask η (K _ KDial);
  match e with Some e => throw e | None => say (irc_lines token login channel message) end.

(** ** Kick *)

(** The UTF-16 units of a reason's prefix of at most [n] units; half of a pair
    decodes to U+FFFD. *)
Fixpoint utf16_prefix (fuel : nat) (n : Z) (s : string) : string :=
  match fuel, s with
  | Datatypes.S fuel, String _ _ =>
    if n <=? 0 then ""
    else
      match rune_len s with
      | O => utf8_encode rune_error +:+ utf16_prefix fuel (n - 1) (drop_str 1 s)
      | 4%nat => if n =? 1 then utf8_encode rune_error
                 else String.substring 0 4 s +:+ utf16_prefix fuel (n - 2) (drop_str 4 s)
      | k => String.substring 0 k s +:+ utf16_prefix fuel (n - 1) (drop_str k s)
      end
  | _, _ => ""
  end.
Definition truncateReason (reason : string) : string := utf16_prefix (String.length reason) 100 reason.

(** The broadcaster_user_id of the first channel: a string, or a float's
    integral text. *)
Definition decode_channel : json → option json :=
  into_field "broadcaster_user_id" (λ _ j, match iface j with Some _ => Some j | None => None end) JNull.
Definition ChannelUser (c : client) (slug : string) : M (result string) :=
  l ←? CGet c ("/channels?" +:+ values_encode [("slug", slug)]) (into_field "Data" (λ _, into_list decode_channel) []);
  ok (match l with
      | JStr id :: _ => id
      | JNum t :: _ => default "" (round_text <$> float_text t)
      | _ => ""
      end).

Definition KickSend (c : client) (channel : Z) (message reply : string) : M (result unit) :=
  DoJSON c POST "/chat" (Some (JObj ([("content", JStr message); ("type", JStr "user");
    ("broadcaster_user_id", JNum (pretty channel))] ++
    if String.eqb reply "" then [] else [("reply_to_message_id", JStr reply)]))).
Definition KickDelete (c : client) (message : string) : M (result unit) :=
  DoJSON c DELETE ("/chat/" +:+ path_escape message) None.

(** Kick's timeouts are whole minutes, at most a week. *)
Definition kick_minutes (seconds : string) : Z := Z.min 10080 (Z.max 1 (float_div_ceil seconds 60)).
Definition kick_ids (channel user : Z) : list (string * json) :=
  [("broadcaster_user_id", JNum (pretty channel)); ("user_id", JNum (pretty user))].
Definition KickBan (c : client) (channel user : Z) (seconds reason : string) : M (result unit) :=
  DoJSON c POST "/moderation/bans" (Some (JObj (kick_ids channel user ++
    if float_is_zero seconds then []
    else ("duration", JNum (pretty (kick_minutes seconds))) ::
         if String.eqb reason "" then [] else [("reason", JStr (truncateReason reason))]))).
Definition KickUnban (c : client) (channel user : Z) : M (result unit) :=
  DoJSON c DELETE "/moderation/bans" (Some (JObj (kick_ids channel user))).

(** ** YouTube *)

(** The reason of a refusal: the first error's, or the status. A member of
    another type is left out, as decoding goes on after one. *)
Definition lenient {A} (f : A → json → option A) (a : A) (j : json) : option A := Some (default a (f a j)).
Definition decode_refusal : json → option (string * list string) :=
  into_field "Error" (lenient (into_struct (λ x k j,
    if names k "Errors" then
      match j with
      | JNull => Some (x.1, [])
      | JArr l => Some (x.1, map (λ j, default "" (into_field "Reason" (lenient into_string) "" j)) l)
      | _ => Some x
      end
    else if names k "Status" then Some (default x.1 (into_string x.1 j), x.2)
    else Some x))) ("", []).
Definition refusal_reason (body : string) : string :=
  match unmarshal decode_refusal body with
  | Some (st, e :: _) => if String.eqb e "" then st else e
  | Some (st, []) => st
  | None => ""
  end.

Definition yt_request {B} (c : client) (m : method) (path : string) (body : option json) (zero : B)
    (f : json → option B) : M (result B) :=
  r ←? Do c m path body;
  if 400 <=? w_status r then throw (ErrAPI (w_status r) (refusal_reason (w_body r)))
  else match Err r with
       | Some e => throw e
       | None => if String.eqb (w_body r) "" then ok zero
                 else match Decode f r with inl e => throw e | inr b => ok b end
       end.
(** Into an [any]. *)
Definition ignored (j : json) : option unit := (λ _, tt) <$> iface j.

Definition YTDelete (c : client) (id : string) : M (result unit) :=
  yt_request c DELETE ("/liveChat/messages?" +:+ values_encode [("id", id)]) None tt ignored.
Definition YTSend (c : client) (chat message : string) : M (result unit) :=
  yt_request c POST "/liveChat/messages?part=snippet" (Some (JObj [("snippet", JObj
    [("liveChatId", JStr chat); ("type", JStr "textMessageEvent");
     ("textMessageDetails", JObj [("messageText", JStr message)])])])) tt ignored.
(** Whole seconds, at least one. *)
Definition yt_seconds (seconds : string) : string :=
  float_json (default "0" (float_text (pretty (Z.max 1 (float_ceil seconds))))).
Definition YTBan (c : client) (chat user seconds : string) : M (result unit) :=
  yt_request c POST "/liveChat/bans?part=snippet" (Some (JObj [("snippet", JObj
    ([("liveChatId", JStr chat); ("bannedUserDetails", JObj [("channelId", JStr user)])] ++
     if float_is_zero seconds then [("type", JStr "permanent")]
     else [("type", JStr "temporary"); ("banDurationSeconds", JNum (yt_seconds seconds))]))])) tt ignored.

(** [canonicalPattern]: leftmost, with greedy runs of other characters than
    [>] of at least one. *)
Fixpoint run_then {A} (k : string → option A) (s : string) : option A :=
  match s with
  | "" => None
  | String a s' =>
    if Ascii.eqb a ">" then None else match run_then k s' with Some x => Some x | None => k s' end
  end.
Definition id_char (a : ascii) : bool := is_alnum a || one_of "_-" a.
Definition video_id (s : string) : option string :=
  let id := String.substring 0 11 s in
  if (String.length id =? 11)%nat && all_chars id_char id
  then after (String (byte_of 34) "") (λ _, Some id) (drop_str 11 s) else None.
Definition canonical_link : string → option string :=
  after "<link" (run_then (after (quoted "rel='canonical'")
    (run_then (after (quoted "href='https://www.youtube.com/watch?v=") video_id)))).
Definition canonical_match : string → option string := leftmost canonical_link.

(** An active broadcast's chat and channel. *)
Definition decode_broadcast : json → option (string * string) :=
  into_field "Snippet" (λ x j, into_struct (λ x k j,
    if names k "LiveChatID" then (λ s, (s, x.2)) <$> into_string x.1 j
    else if names k "ChannelID" then (λ s, (x.1, s)) <$> into_string x.2 j
    else Some x) x j) ("", "").
(** A video's channel and chat. *)
Definition decode_video : json → option (string * string) :=
  into_struct (λ x k j,
    if names k "Snippet" then (λ s, (s, x.2)) <$> into_field "ChannelID" into_string x.1 j
    else if names k "LiveStreamingDetails" then (λ s, (x.1, s)) <$> into_field "ActiveLiveChatID" into_string x.2 j
    else Some x) ("", "").
Definition items {A} (f : json → option A) : json → option (list A) := into_field "Items" (λ _, into_list f) [].

Definition own_chat (channel : string) (l : list (string * string)) : option string :=
  fst <$> List.find (λ x, negb (String.eqb x.1 "") && (String.eqb x.2 "" || String.eqb x.2 channel)) l.

(** The chat of a video, unless it is another channel's. *)
Definition video_chat (c : client) (channel id : string) : M (result string) :=
  if String.eqb id "" then ok ""
  else
    l ←? yt_request c GET ("/videos?" +:+ values_encode [("part", "liveStreamingDetails,snippet"); ("id", id)]) None []
           (items decode_video);
    ok (match l with
        | [] => ""
        | (owner, chat) :: _ => if negb (String.eqb owner "") && negb (String.eqb owner channel) then "" else chat
        end).

Definition LiveChat (c : client) (channel : string) (video : option string) (owned : bool) : M (result string) :=
  match video with
  | Some id => video_chat c channel id
  | None =>
    own ←? (if owned then
              l ←? yt_request c GET "/liveBroadcasts?part=snippet&broadcastStatus=active&broadcastType=all&maxResults=50"
                     None [] (items decode_broadcast);
              ok (own_chat channel l)
            else ok None);
    match own with
    | Some chat => ok chat
    | None =>
      r ←? Do DiscoveryClient GET ("/channel/" +:+ path_escape channel +:+ "/live") None;
      match Err r with
      | Some _ => ok ""
      | None => match canonical_match (w_body r) with None => ok "" | Some id => video_chat c channel id end
      end
    end
  end.

(** ** Walking through the clients *)

Lemma runs_Do P (F : trace E → Prop) c m path body (Q : result raw → trace E → Prop) :
  (∀ t a, F t → P t (Ev (K _ (KDo c m path body)) a) ∧ Q (do_result a) (Ev (K _ (KDo c m path body)) a :: t)) →
  (∀ t, F t → Q (inl path_error) t) →
  runs (S:=S) P F (Do c m path body) Q.
Proof.
  intros HD He. unfold Do. destruct (_ || _); [apply runs_ret; auto|].
  apply runs_ask_bind with (λ a, Q (do_result a)); [done|]. intros a. by apply runs_ret.
Qed.

(** A client's clock and pauses are justified and keep [F]. *)
Definition idle (P : trace E → ev E → Prop) (F : trace E → Prop) : Prop :=
  ∀ t, F t → (∀ a, P t (Ev (K _ KNow) a) ∧ F (Ev (K _ KNow) a :: t)) ∧
             (∀ d a, P t (Ev (K _ (KSleep d)) a) ∧ F (Ev (K _ (KSleep d)) a :: t)).

Lemma runs_CGet {B} P F c path (f : json → option B) :
  idle P F →
  (∀ t a, F t → P t (Ev (K _ (KDo c GET path None)) a) ∧ F (Ev (K _ (KDo c GET path None)) a :: t)) →
  runs (S:=S) P F (CGet c path f) (λ _, F).
Proof.
  intros Hi Hg. unfold CGet. apply runs_Get; [exact Hi|].
  eapply runs_bind; [apply (runs_Do _ _ _ _ _ _ (λ _, F)); auto|]. intros a. by apply runs_ret.
Qed.

(** What [CGet] returns was decoded from an answer of the provider. *)
Lemma runs_CGet_answer {B} P F c path (f : json → option B) :
  idle P F →
  (∀ t a, F t → P t (Ev (K _ (KDo c GET path None)) a) ∧ F (Ev (K _ (KDo c GET path None)) a :: t)) →
  runs (S:=S) P F (CGet c path f) (λ r t, F t ∧ ∀ b, r = inr b →
    ∃ w, Ev (K _ (KDo c GET path None)) (inr w) ∈ t ∧ Err w = None ∧ Decode f w = inr b).
Proof.
  intros Hi Hg. unfold CGet, Http.Get. generalize 0 as attempt. generalize 4%nat as n.
  induction n as [|n IH]; intros attempt; cbn [get_from]; [apply runs_ret; naive_solver|].
  apply runs_bind with (λ r t, F t ∧ ∀ x, r = inr x →
    ∃ w, x = typed f w ∧ Ev (K _ (KDo c GET path None)) (inr w) ∈ t).
  { eapply runs_bind; [apply (runs_Do _ _ _ _ _ _ (λ r t, F t ∧ ∀ w, r = inr w → Ev (K _ (KDo c GET path None)) (inr w) ∈ t))|].
    - intros t a Ht. destruct (Hg t a Ht). split; [done|]. split; [done|]. intros w Hw.
      destruct a as [[]|w']; simplify_eq/=. apply list_elem_of_here.
    - naive_solver.
    - intros [e|w]; apply runs_ret; naive_solver. }
  intros [e|x]; [apply runs_ret; naive_solver|]. destruct (_ && _).
  - apply runs_conseq with F (λ r t, F t ∧ ∀ b, r = inr b →
      ∃ w, Ev (K _ (KDo c GET path None)) (inr w) ∈ t ∧ Err w = None ∧ Decode f w = inr b); [|naive_solver|done].
    eapply runs_bind; [eapply runs_RetryDelay; exact Hi|]. intros d.
    eapply runs_bind; [eapply (runs_sleep _ (K _ KNow) (λ d, K _ (KSleep d))); exact Hi|]. intros [e|]; [apply runs_ret; naive_solver|apply IH].
  - destruct (response_err x) as [e|] eqn:Ee; [apply runs_ret; naive_solver|].
    apply runs_ret. intros t [Ht Hx]. split; [done|]. intros b Hb. destruct (Hx x eq_refl) as (w & -> & Hw). by exists w.
Qed.
End Clients.

Example canonical_link_example :
  canonical_match (quoted "<link rel='x'><link a rel='canonical' b href='https://www.youtube.com/watch?v=abcdefghi_-'>")
    = Some "abcdefghi_-" ∧
  canonical_match (quoted "<link rel='canonical'><a href='https://www.youtube.com/watch?v=abcdefghi_-'>") = None.
Proof. vm_compute. done. Qed.
