(* ===== verification/Jobs.v ===== *)
(** * Scheduled jobs

    Models agent/internal/jobs: the requests of a job (http.go), the metadata
    refreshes of Twitch and Kick channels (metadata.go) and the cleanup of idle
    channels (cleanup.go). The leases that start a job are in Readers.v.
    Firestore, the providers, the clock and the random order are effects. *)

From stdpp Require Import base gmap strings list pretty.
From Stdlib Require Import Ascii.
From S2P Require Import Prelude GoErr GoTime Float64 Json Effects Store JsonText Text HttpServer Http Url Clients.
From S2P Require KickWebhook Readers.

(** A document read outside a transaction, with its update time. *)
Record snapshot := Snapshot { s_id : string; s_data : option doc; s_updated : time }.
(** What is queued on a BulkWriter: a create, or an update on the condition
    that the document has this update time. *)
Inductive bulk :=
  | BulkCreate (id : string) (data : doc)
  | BulkUpdate (id : string) (fields : doc) (updated : time).

Inductive beff : Type → Type :=
  | BClient {A} (op : keff A) : beff A
  | BDb {A} (op : db A) : beff A
  | BApp (provider : string) : beff (result string)                  (* AppAccessToken *)
  | BChannels (ids : list string) : beff (result (list snapshot))    (* GetAll of channels/<id> *)
  | BQueue (op : bulk) : beff (option error)
  | BResult (op : bulk) : beff (option error)                        (* job.Results, after End *)
  | BWebhook (id : string) : beff (result snapshot)                  (* webhooks/<id> *)
  | BDelete (id : string) (updated : time) : beff (option error)     (* of webhooks/<id> at that version *)
  | BRand (n : Z) : beff Z.                                          (* rand.Intn *)

Fixpoint chunks_from {A} (fuel n : nat) (l : list A) : list (list A) :=
  match fuel, l with
  | S fuel, _ :: _ => take n l :: chunks_from fuel n (drop n l)
  | _, _ => []
  end.
(** [l[start:min(start+n, len(l))]] for start = 0, n, 2n, ... *)
Definition chunks {A} (n : nat) (l : list A) : list (list A) := chunks_from (length l) n l.

Section Jobs.
Context (η : env beff).
Variable http_date : string → option time.
Variable TwitchClientID : string.
Local Abbreviation M := (M (world beff unit)).
Local Abbreviation K := (@BClient).

(** ** Requests: http.go *)

Definition failure (uncertain : bool) (e : error) : error := if uncertain then ErrUncertain e else e.

(** From attempt [attempt] with [n] left; [finish] decodes the answer and
    [absent] is the result of a deletion of what is not there. *)
Fixpoint request_from {B} (n : nat) (attempt : Z) (uncertain : bool) (c : client) (m : method) (path : string)
    (finish : raw → result B) (absent : B) : M (result B) :=
  match n with
  | O => throw (ErrMsg "unreachable")
  | S n =>
    r ← Do η K c m path None;
    match r with
    | inl e => throw (failure (uncertain || bool_decide (m = DELETE)) e)
    | inr r =>
      match Err r with
      | None => mret (finish r)
      | Some e =>
        if bool_decide (m = DELETE) && (w_status r =? 404) then ok absent
        else if negb (w_status r =? 429) && (w_status r <? 500) then throw (failure uncertain e)
        else
          let uncertain := uncertain || (bool_decide (m = DELETE) && (500 <=? w_status r)) in
          if attempt =? 3 then throw (failure uncertain (ErrWrap "provider retry limit reached after 4 attempts" e))
          else
            delay ← RetryDelay η (K _ KNow) http_date (w_header r) attempt;
            if minute <? delay then throw (failure uncertain (ErrWrap "provider retry delay exceeds job budget" e))
            else
              w ← ask η (K _ (KSleep delay));
              match w with
              | Some e => throw (failure uncertain e)
              | None => request_from n (attempt + 1) uncertain c m path finish absent
              end
      end
    end
  end.
Definition request {B} : client → method → string → (raw → result B) → B → M (result B) := request_from 4 0 false.

Definition wrap_error {A} (msg : string) (r : result A) : result A :=
  match r with inl e => inl (ErrWrap msg e) | inr a => inr a end.
Definition method_text (m : method) : string := match m with GET => "GET" | POST => "POST" | DELETE => "DELETE" end.

(** A parameter that repeats. *)
Definition params (key : string) (ids : list string) : list (string * string) := map (λ id, (key, id)) ids.
Definition twitch {B} (path : string) (query : list (string * string)) (f : json → option B) (zero : B) : M (result B) :=
  token ←? ask η (BApp "twitch");
  r ← request (TwitchClient TwitchClientID token) GET (path +:+ "?" +:+ values_encode query) (Decode f) zero;
  mret (wrap_error ("Twitch GET " +:+ path) r).
Definition kick {B} (m : method) (path : string) (query : list (string * string)) (finish : raw → result B) (zero : B) : M (result B) :=
  token ←? ask η (BApp "kick");
  r ← request (KickClient token) m (path +:+ "?" +:+ values_encode query) finish zero;
  mret (wrap_error ("Kick " +:+ method_text m +:+ " " +:+ path) r).

(** The data member of an answer, which must not be null. *)
Definition data_of {A} (f : json → option A) : json → option (option (list A)) :=
  into_field "data" (λ _ j, match j with JNull => Some None | _ => Some <$> into_list f j end) None.
Definition listed {A} (what : string) (r : result (option (list A))) : result (list A) :=
  match r with
  | inl e => inl e
  | inr None => inl (ErrMsg (what +:+ " response missing data"))
  | inr (Some l) => inr l
  end.
Definition twitch_list {A} (what path : string) (query : list (string * string)) (f : json → option A) : M (result (list A)) :=
  r ← twitch path query (data_of f) None; mret (listed ("Twitch " +:+ what) r).

(** ** Channel metadata: metadata.go *)

Record TwitchStream := MkTwitchStream {
  ts_id : string; ts_login : string; ts_name : string; ts_language : string; ts_viewers : Z; ts_started : time }.
Record TwitchChannel := MkTwitchChannel { tc_id : string; tc_login : string; tc_name : string; tc_language : string }.
Record KickChannel := MkKickChannel {
  kc_id : Z; kc_slug : string; kc_title : value; kc_category : value; kc_category_name : value;
  kc_language : value; kc_live : bool; kc_viewers : Z; kc_start : string }.

Definition into_time (old : time) (j : json) : option time :=
  match j with JNull => Some old | JStr s => parse_rfc3339 s | _ => None end.
Definition decode_id : json → option string := into_field "id" into_string "".
Definition decode_stream : json → option TwitchStream :=
  into_struct (λ s k j,
    let '(MkTwitchStream i l n g v t) := s in
    if names k "user_id" then (λ x, MkTwitchStream x l n g v t) <$> into_string i j
    else if names k "user_login" then (λ x, MkTwitchStream i x n g v t) <$> into_string l j
    else if names k "user_name" then (λ x, MkTwitchStream i l x g v t) <$> into_string n j
    else if names k "language" then (λ x, MkTwitchStream i l n x v t) <$> into_string g j
    else if names k "viewer_count" then (λ x, MkTwitchStream i l n g x t) <$> into_int v j
    else if names k "started_at" then (λ x, MkTwitchStream i l n g v x) <$> into_time t j
    else Some s) (MkTwitchStream "" "" "" "" 0 zero_time).
Definition decode_channel : json → option TwitchChannel :=
  into_struct (λ c k j,
    let '(MkTwitchChannel i l n g) := c in
    if names k "broadcaster_id" then (λ x, MkTwitchChannel x l n g) <$> into_string i j
    else if names k "broadcaster_login" then (λ x, MkTwitchChannel i x n g) <$> into_string l j
    else if names k "broadcaster_name" then (λ x, MkTwitchChannel i l x g) <$> into_string n j
    else if names k "broadcaster_language" then (λ x, MkTwitchChannel i l n x) <$> into_string g j
    else Some c) (MkTwitchChannel "" "" "" "").
Definition decode_kick : json → option KickChannel :=
  into_struct (λ c k j,
    let '(MkKickChannel i s t a n g l v b) := c in
    if names k "broadcaster_user_id" then (λ x, MkKickChannel x s t a n g l v b) <$> into_int i j
    else if names k "slug" then (λ x, MkKickChannel i x t a n g l v b) <$> into_string s j
    else if names k "stream_title" then (λ x, MkKickChannel i s x a n g l v b) <$> iface j
    else if names k "category" then
      (λ x, MkKickChannel i s t x.1 x.2 g l v b) <$> into_struct (λ x k j,
        if names k "id" then (λ y, (y, x.2)) <$> iface j
        else if names k "name" then (λ y, (x.1, y)) <$> iface j
        else Some x) (a, n) j
    else if names k "stream" then
      into_struct (λ c k j,
        let '(MkKickChannel i s t a n g l v b) := c in
        if names k "language" then (λ x, MkKickChannel i s t a n x l v b) <$> iface j
        else if names k "is_live" then (λ x, MkKickChannel i s t a n g x v b) <$> into_bool l j
        else if names k "viewer_count" then (λ x, MkKickChannel i s t a n g l x b) <$> into_int v j
        else if names k "start_time" then (λ x, MkKickChannel i s t a n g l v x) <$> into_string b j
        else Some c) c j
    else Some c) (MkKickChannel 0 "" VNull VNull VNull VNull false 0 "").

(** An integral number as an int64. *)
Definition kickValue (v : value) : value :=
  match v with
  | VFloat text =>
    if String.eqb text "-0" then v else match safe_integer text with Some z => VInt z | None => v end
  | _ => v
  end.
(** [KickChannel.Metadata]; [None] when the start time does not parse. *)
Definition Metadata (c : KickChannel) : option doc :=
  online ← (if kc_live c && negb (String.eqb (kc_start c) "")
            then (λ t, VTime (time_truncate t millisecond)) <$> parse_rfc3339 (kc_start c) else Some VNull);
  Some [("login", VString (kc_slug c)); ("title", kickValue (kc_title c)); ("language", kickValue (kc_language c));
        ("categoryId", kickValue (kc_category c)); ("categoryName", kickValue (kc_category_name c));
        ("viewerCount", VInt (if kc_live c then kc_viewers c else 0)); ("onlineAt", online)].

(** A channel's document, and the fields to merge into it. *)
Abbreviation update := (string * doc)%type (only parsing).
Definition stream_update (s : TwitchStream) : update :=
  ("twitch:" +:+ ts_id s,
   [("viewerCount", VInt (ts_viewers s)); ("language", VString (ts_language s)); ("login", VString (ts_login s));
    ("displayName", VString (ts_name s)); ("onlineAt", VTime (time_truncate (ts_started s) millisecond))]).
Definition offline_update (c : TwitchChannel) : update :=
  ("twitch:" +:+ tc_id c,
   [("viewerCount", VInt 0); ("language", VString (tc_language c)); ("login", VString (tc_login c));
    ("displayName", VString (tc_name c)); ("onlineAt", VNull)]).
Definition follower_update (id : string) (total : Z) : update := ("twitch:" +:+ id, [("followerCount", VInt total)]).

(** [m[k] = v] in the order of the first keys. *)
Fixpoint merge_update (u : update) (l : list update) : list update :=
  match l with
  | [] => [(u.1, foldl (λ d p, map_set d p.1 p.2) [] u.2)]
  | v :: l => if String.eqb v.1 u.1 then (v.1, foldl (λ d p, map_set d p.1 p.2) v.2 u.2) :: l else v :: merge_update u l
  end.
Definition merged (l : list update) : list update := foldl (λ acc u, merge_update u acc) [] l.
Definition update_of (id : string) (l : list update) : doc := default [] (snd <$> List.find (λ u, String.eqb u.1 id) l).

(** [unchanged] and [sameValue], as those of the Kick webhook. *)
Definition unchanged : doc → doc → bool := KickWebhook.unchanged.

(** What a document that was read gets. *)
Definition bulk_of (started : time) (l : list update) (s : snapshot) : option bulk :=
  let data := update_of (s_id s) l in
  match s_data s with
  | None => Some (BulkCreate (s_id s) data)
  | Some current =>
    if (time_after (s_updated s) started && (1 <? length data)%nat) || unchanged current data then None
    else Some (BulkUpdate (s_id s) data (s_updated s))
  end.

(** Queue the writes; an error stops. *)
Fixpoint queue_all (ops : list bulk) : M (option error) :=
  match ops with
  | [] => mret None
  | op :: ops => e ← ask η (BQueue op); match e with Some e => mret (Some e) | None => queue_all ops end
  end.
Fixpoint results (written : Z) (ops : list bulk) : M (Z * option error) :=
  match ops with
  | [] => mret (written, None)
  | op :: ops =>
    e ← ask η (BResult op);
    match e with
    | None => results (written + 1) ops
    | Some e =>
      if bool_decide (status_code (Some e) ∈ [FailedPrecondition; AlreadyExists]) then results written ops
      else mret (written, Some e)
    end
  end.
(** The number of documents written, and the error. *)
Definition write (started : time) (updates : list update) : M (Z * option error) :=
  let l := merged updates in
  docs ← ask η (BChannels (map fst l));
  match docs with
  | inl e => mret (0, Some e)
  | inr docs =>
    let ops := omap (bulk_of started l) docs in
    e ← queue_all ops;
    match e with
    | Some e => mret (0, Some e)
    | None => results 0 ops
    end
  end.
Definition write_ (started : time) (updates : list update) : M (result unit) :=
  r ← write started updates; match r.2 with Some e => throw e | None => ok tt end.

(** A loop over batches that an error ends. *)
Fixpoint for_each {A} (f : A → M (result unit)) (l : list A) : M (result unit) :=
  match l with [] => ok tt | a :: l => f a ;? for_each f l end.
Fixpoint collect {A B} (f : A → M (result (list B))) (l : list A) : M (result (list B)) :=
  match l with
  | [] => ok []
  | a :: l => x ←? f a; y ←? collect f l; ok (x ++ y)
  end.

(** [rand.Shuffle]: from the last index down, a swap with one not above it. *)
Definition swap {A} (i j : nat) (l : list A) : list A :=
  match l !! i, l !! j with Some x, Some y => <[i := y]> (<[j := x]> l) | _, _ => l end.
Fixpoint shuffle_from {A} (i : nat) (l : list A) : M (list A) :=
  match i with
  | O => mret l
  | S i' => j ← ask η (BRand (Z.of_nat (S i))); shuffle_from i' (swap i (Z.to_nat (j mod Z.of_nat (S i))) l)
  end.
Definition Shuffle {A} (l : list A) : M (list A) := shuffle_from (length l - 1) l.

Section Fetch.
Variable write_updates : list update → M (result unit).

Definition fetch_users (logins : list string) : M (result (list string)) :=
  collect (λ batch, twitch_list "users" "/users" (params "login" batch) decode_id) (chunks 100 logins).
Definition fetch_batch (ids : list string) : M (result unit) :=
  streams ←? twitch_list "streams" "/streams" (("first", "100") :: params "user_id" ids) decode_stream;
  let seen := map ts_id streams in
  let missing := filter (λ id, id ∉ seen) ids in
  channels ←? match missing with
              | [] => ok []
              | _ => twitch_list "channels" "/channels" (params "broadcaster_id" missing) decode_channel
              end;
  write_updates (map stream_update streams ++ map offline_update channels).
(** A channel's followers; nothing where the app token grants no access. *)
Definition fetch_followers (id : string) : M (result (list update)) :=
  r ← twitch "/channels/followers" [("first", "1"); ("broadcaster_id", id)]
        (into_field "total" (λ old j, match j with JNull => Some None | _ => Some <$> into_int (default 0 old) j end) None) None;
  match r with
  | inl e =>
    match as_http e with
    | Some (status, _) => if (status =? 401) || (status =? 403) then ok [] else throw e
    | None => throw e
    end
  | inr (Some total) => ok (if 0 <? total then [follower_update id total] else [])
  | inr None => ok []
  end.
Definition FetchTwitch (logins : list string) : M (result unit) :=
  ids ←? fetch_users logins;
  for_each fetch_batch (chunks 100 ids) ;?
  ids ← Shuffle ids;
  followers ←? collect fetch_followers (take 200 ids);
  write_updates followers.
End Fetch.

Definition suffixes (prefix : string) (docs : list (string * doc)) : list string :=
  omap (λ d, if has_prefix d.1 prefix then Some (trim_prefix d.1 prefix) else None) docs.

Definition Twitch : M (result unit) :=
  docs ←? db_ η (@BDb) (Query "assignments" [] 0);
  started ← ask η (K _ KNow);
  FetchTwitch (write_ started) (suffixes "twitch:" docs).

Definition kick_updates (l : list KickChannel) : result (list update) :=
  foldr (λ c acc,
    match Metadata c with
    | None => inl (ErrWrap ("kick metadata " +:+ pretty (kc_id c)) (ErrMsg "invalid time"))
    | Some d => match acc with inl e => inl e | inr l => inr (("kick:" +:+ pretty (kc_id c), d) :: l) end
    end) (inr []) l.
Definition Kick : M (result unit) :=
  started ← ask η (K _ KNow);
  docs ←? db_ η (@BDb) (Query "webhooks" [("lastActiveAt", ">", VTime (started - 24 * hour))] 0);
  for_each (λ batch,
    r ← kick GET "/channels" (params "broadcaster_user_id" batch) (Decode (data_of decode_kick)) None;
    l ←? mret (listed "Kick channels" r);
    updates ←? mret (kick_updates l);
    write_ started updates) (chunks 50 (suffixes "kick:" docs)).

(** ** Cleanup: cleanup.go *)

Definition idleAssignment (id : string) (data : doc) (cutoff : time) : bool :=
  match field data "subscribedAt" with
  | VTime at_ => negb (String.eqb id "twitch:muxfd") && time_before at_ cutoff
  | _ => false
  end.

(** The transaction that deletes an assignment which is still idle: whether it
    did. *)
Definition remove_assignment (cutoff : time) (id : string) : M (result bool) :=
  d ← db_ η (@BDb) (TxGet ("assignments/" +:+ id));
  match d with
  | inl e => if decide (status_code (Some e) = NotFound) then ok false else throw e
  | inr data =>
    if idleAssignment id data cutoff then exec η (@BDb) (TxDelete ("assignments/" +:+ id)) ;? ok true else ok false
  end.

(** The fields of a webhook document; one of another type is an error. *)
Definition webhook_fields (d : doc) : option (time * list string) :=
  at_ ← match field d "lastActiveAt" with VNull => Some zero_time | VTime t => Some t | _ => None end;
  ids ← match field d "subscriptionIds" with
        | VNull => Some []
        | VList l => mapM (λ v, match v with VString s => Some s | VNull => Some "" | _ => None end) l
        | _ => None
        end;
  Some (at_, ids).

(** The recorded subscriptions, then the listed ones that are new. *)
Definition all_ids (recorded listed : list string) : list string :=
  foldl (λ ids id, if decide (id ∈ ids) then ids else ids ++ [id]) recorded listed.

Definition removeIdleKickLocked (cutoff : time) (id : string) : M (result unit) :=
  current ← ask η (BWebhook id);
  match current with
  | inl e => if decide (status_code (Some e) = NotFound) then ok tt else throw e
  | inr s =>
    match s_data s with
    | None => ok tt
    | Some d =>
      match webhook_fields d with
      | None => throw (ErrMsg "invalid webhook document")
      | Some (active, recorded) =>
        if time_is_zero active || negb (time_before active cutoff) then ok tt
        else
          r ← kick GET "/events/subscriptions" (params "broadcaster_user_id" [trim_prefix id "kick:"])
                (Decode (data_of decode_id)) None;
          subs ←? mret (listed "Kick subscriptions" r);
          for_each (λ batch, kick DELETE "/events/subscriptions" (params "id" batch) (λ _, inr tt) tt)
            (chunks 50 (all_ids recorded subs)) ;?
          e ← ask η (BDelete id (s_updated s));
          match e with
          | None => ok tt
          | Some e =>
            if decide (status_code (Some e) = NotFound) then ok tt
            else if decide (status_code (Some e) = FailedPrecondition) then
              exec η (@BDb) (Set_ ("webhooks/" +:+ id) [("checkedAt", VTime (time_unix 0 0))] true)
            else throw e
          end
      end
    end
  end.
Definition removeIdleKick (cutoff : time) (id : string) : M (result unit) :=
  locked η (@BDb) id "" [] None (removeIdleKickLocked cutoff id).

Fixpoint remove_kicks (cutoff : time) (failures : Z) (l : list (string * doc)) : M Z :=
  match l with
  | [] => mret failures
  | (id, _) :: l =>
    if has_prefix id "kick:" then
      r ← removeIdleKick cutoff id;
      remove_kicks cutoff (match r with inl _ => failures + 1 | inr _ => failures end) l
    else remove_kicks cutoff failures l
  end.

Definition Cleanup : M (result unit) :=
  now ← ask η (K _ KNow);
  let cutoff := now - 7 * day in
  assignments ←? db_ η (@BDb) (Query "assignments" [] 0);
  for_each (λ a, if idleAssignment a.1 a.2 cutoff
                 then RunTransaction η (@BDb) (remove_assignment cutoff a.1) ;? ok tt else ok tt) assignments ;?
  docs ←? db_ η (@BDb) (Query "webhooks" [("lastActiveAt", "<", VTime cutoff)] 0);
  failures ← remove_kicks cutoff 0 docs;
  if 0 <? failures then throw (ErrMsg (pretty failures +:+ " idle Kick cleanup failures")) else ok tt.

(** ** Walking through the jobs *)

(** Effects that change nothing outside. *)
Definition free {A} (op : beff A) : Prop :=
  match op with
  | BClient op => match op with KDo _ _ _ _ => False | _ => True end
  | BDb op => match op with
              | Set_ _ _ _ | Create _ _ | Update _ _ | Remove _ | TxSet _ _ _ | TxDelete _ | Worked _ _ => False
              | _ => True
              end
  | BQueue _ | BDelete _ _ => False
  | _ => True
  end.

(** Effects that do not end the work under a lease, and what they keep. *)
Definition ongoing (e : ev beff) : Prop :=
  match e with Ev op _ => match op with BDb (Worked _ _) => False | _ => True end end.
Abbreviation lasting := (kept ongoing) (only parsing).

Lemma free_ongoing {A} (op : beff A) a : free op → ongoing (Ev op a).
Proof. destruct op as [? []|? []| | | | | | |]; done. Qed.

Section Walk.
Variable P : trace beff → ev beff → Prop.
Hypothesis Hfree : ∀ t A (op : beff A) a, free op → P t (Ev op a).
Local Abbreviation runs := (runs (S:=unit) P).

Lemma runs_free {A B} (op : beff A) (k : A → M B) F Q :
  free op → lasting F → (∀ a, runs (λ t, F t ∧ Ev op a ∈ t) (k a) Q) → runs F (ask η op ≫= k) Q.
Proof.
  intros Ho HF Hk. eapply runs_ask_bind; [|exact Hk]. intros t a Ht.
  split; [by apply Hfree|]. split; [by apply HF; [apply free_ongoing|]|apply list_elem_of_here].
Qed.

(** A program that is over. *)
Lemma runs_over {A} (a : A) F (G Q : trace beff → Prop) : (∀ t, F t → Q t) → runs F (mret a : M A) (λ _, Q).
Proof. intros H. by apply runs_ret. Qed.

(** What a request that succeeded was answered, and where in the trace. *)
Definition requested {B} (X : (trace beff → Prop) → trace beff → Prop) (c : client) (m : method) (path : string)
    (finish : raw → result B) (absent b : B) (t : trace beff) : Prop :=
  ∃ r, ((Err r = None ∧ finish r = inr b) ∨ (m = DELETE ∧ w_status r = 404 ∧ b = absent)) ∧
    X (since (Ev (BClient (KDo c m path None)) (inr r)) (λ _, True)) t.

Lemma runs_request_from {B} X n attempt u c m path (finish : raw → result B) absent F :
  lasting F → frame ongoing X → (∀ t, F t → X (λ _, True) t) →
  (∀ t a, F t → P t (Ev (BClient (KDo c m path None)) a)) →
  runs F (request_from n attempt u c m path finish absent)
    (λ x t, F t ∧ ∀ b, x = inr b → requested X c m path finish absent b t).
Proof.
  intros HF HX HFX HP. revert attempt u. induction n as [|n IH]; intros attempt u; cbn [request_from]; [by apply runs_ret|].
  apply runs_bind with (λ x t, F t ∧ ∀ r, x = inr r → X (since (Ev (BClient (KDo c m path None)) (inr r)) (λ _, True)) t).
  { apply runs_Do; [|naive_solver]. intros t a Ht. split; [by apply HP|]. split; [by apply HF|].
    intros r Hr. destruct a as [[]|]; simplify_eq/=. eapply (frame_next _ _ HX (λ _, True)); [done| |by apply HFX].
    intros v _. by apply since_here. }
  intros [e|r]; [apply runs_ret; naive_solver|]. destruct (Err r) as [e|] eqn:Ee.
  2:{ apply runs_ret. intros t [Ht Hr]. split; [done|]. intros b Hb. exists r. auto. }
  destruct (bool_decide (m = DELETE) && (w_status r =? 404)) eqn:Ed.
  { apply runs_ret. intros t [Ht Hr]. split; [done|]. intros b [= <-]. exists r. split; [|by apply Hr]. right.
    apply andb_true_iff in Ed as [?%bool_decide_eq_true ?%Z.eqb_eq]. done. }
  case_match; [apply runs_ret; naive_solver|]. destruct (attempt =? 3); [apply runs_ret; naive_solver|].
  apply runs_bind with (λ _, F).
  { eapply runs_conseq; [apply runs_RetryDelay with (F := F) (Sleep := λ d, BClient (KSleep d))| |]; [|naive_solver|naive_solver].
    intros t Ht. split; intros; (split; [by apply Hfree|by apply HF]). }
  intros delay. destruct (minute <? delay); [apply runs_ret; naive_solver|].
  apply runs_free; [exact I|done|]. intros [e'|]; [apply runs_ret; naive_solver|].
  eapply runs_conseq; [apply IH|naive_solver|done].
Qed.

Lemma runs_kick_api {B} X m path query (finish : raw → result B) zero F :
  lasting F → frame ongoing X → (∀ t, F t → X (λ _, True) t) →
  (∀ token t a, F t → P t (Ev (BClient (KDo (KickClient token) m (path +:+ "?" +:+ values_encode query) None)) a)) →
  runs F (kick m path query finish zero) (λ x t, F t ∧ ∀ b, x = inr b → ∃ token,
    requested X (KickClient token) m (path +:+ "?" +:+ values_encode query) finish zero b t).
Proof.
  intros HF HX HFX HP. unfold kick, bindE. apply runs_free; [exact I|done|]. intros [e|token]; [apply runs_ret; naive_solver|].
  eapply runs_bind; [eapply runs_conseq; [apply (runs_request_from X _ _ _ _ _ _ finish zero F HF HX HFX (HP token))|naive_solver|intros ? ? Hx; exact Hx]|].
  intros [e|b]; apply runs_ret; naive_solver.
Qed.
Lemma runs_twitch_api {B} path query (f : json → option B) zero F : lasting F →
  (∀ token t a, F t → P t (Ev (BClient (KDo (TwitchClient TwitchClientID token) GET (path +:+ "?" +:+ values_encode query) None)) a)) →
  runs F (twitch path query f zero) (λ _, F).
Proof.
  intros HF HP. unfold twitch, bindE. apply runs_free; [exact I|done|]. intros [e|token]; [apply runs_ret; naive_solver|].
  eapply runs_bind; [eapply runs_conseq; [apply (runs_request_from (λ _ _, True) _ _ _ _ _ _ _ zero F HF)|naive_solver|intros ? ? [Hx _]; exact Hx]|];
    [by split|done|apply HP|].
  intros r. by apply runs_ret.
Qed.

Lemma runs_for_each {A} (f : A → M (result unit)) l (F : list A → trace beff → Prop) (X : trace beff → Prop) :
  (∀ done_ a, a ∈ l → runs (F done_) (f a) (λ r t, match r with inr _ => F (done_ ++ [a]) t | inl _ => X t end)) →
  runs (F []) (for_each f l) (λ r t, match r with inr _ => F l t | inl _ => X t end).
Proof.
  intros H. assert (∀ done_ rest, l = done_ ++ rest → runs (F done_) (for_each f rest)
    (λ r t, match r with inr _ => F l t | inl _ => X t end)) as Hgen; [|by apply (Hgen [])].
  intros done_ rest. revert done_. induction rest as [|a rest IH]; intros done_ Hl; cbn [for_each].
  - apply runs_ret. intros t Ht. rewrite Hl. by rewrite app_nil_r.
  - eapply runs_bindE; [apply H; rewrite Hl; set_solver|done|]. intros []. apply IH. by rewrite Hl, <-app_assoc.
Qed.
Lemma runs_for_each_keep {A} (f : A → M (result unit)) l F :
  (∀ a, a ∈ l → runs F (f a) (λ _, F)) → runs F (for_each f l) (λ _, F).
Proof.
  induction l as [|a l IH]; intros H; cbn [for_each]; [by apply runs_ret|].
  eapply runs_bindE; [apply H; by left|done|]. intros []. apply IH. intros. apply H. by right.
Qed.
Lemma runs_collect {A B} (f : A → M (result (list B))) l F :
  (∀ a, runs F (f a) (λ _, F)) → runs F (collect f l) (λ _, F).
Proof.
  intros H. induction l as [|a l IH]; cbn [collect]; [by apply runs_ret|].
  eapply runs_bindE; [apply H|done|]. intros x. eapply runs_bindE; [apply IH|done|]. intros y. by apply runs_ret.
Qed.
Lemma runs_Shuffle {A} (l : list A) F : lasting F → runs F (Shuffle l) (λ _, F).
Proof.
  intros HF. unfold Shuffle. generalize (length l - 1)%nat as i. intros i. revert l.
  induction i as [|i IH]; intros l; cbn [shuffle_from]; [by apply runs_ret|].
  apply runs_free; [exact I|done|]. intros j. eapply runs_conseq; [apply IH|by intros t [? _]|done].
Qed.
End Walk.

(** ** Refreshes *)

Definition keys (d : doc) : list string := map fst d.
Definition stream_keys : list string := ["viewerCount"; "language"; "login"; "displayName"; "onlineAt"].
Definition kick_keys : list string :=
  ["login"; "title"; "language"; "categoryId"; "categoryName"; "viewerCount"; "onlineAt"].
Definition follower_keys : list string := ["followerCount"].

(** A queued write leaves the channels of newer webhooks alone. *)
Definition bulk_ok (op : bulk) (t : trace beff) : Prop :=
  ∃ ids docs s, Ev (BChannels ids) (inr docs) ∈ t ∧ s ∈ docs ∧
    match op with
    | BulkCreate id d => id = s_id s ∧ s_data s = None
    | BulkUpdate id d v =>
      id = s_id s ∧ v = s_updated s ∧ keys d ∈ [stream_keys; kick_keys; follower_keys] ∧
      (∃ current, s_data s = Some current ∧ unchanged current d = false) ∧
      (keys d = follower_keys ∨ ∃ started, Ev (BClient KNow) started ∈ t ∧ v <= started)
    end.

Definition refresh_ok (t : trace beff) (e : ev beff) : Prop :=
  match e with
  | Ev op _ =>
    match op with
    | BClient op => match op with KDo _ m _ body => m = GET ∧ body = None | _ => True end
    | BDb op => free (BDb op)
    | BDelete _ _ => False
    | BQueue op => bulk_ok op t
    | _ => True
    end
  end.

Lemma keys_map_set d k v : k ∈ keys d → keys (map_set d k v) = keys d.
Proof.
  induction d as [|[k' v'] d IH]; cbn; [set_solver|]. intros H. destruct (String.eqb_spec k' k) as [->|]; cbn; [done|].
  f_equal. apply IH. set_solver.
Qed.
Lemma keys_map_set_new d k v : k ∉ keys d → keys (map_set d k v) = keys d ++ [k].
Proof.
  induction d as [|[k' v'] d IH]; cbn; [done|]. intros H. destruct (String.eqb_spec k' k) as [->|]; [set_solver|]. cbn.
  f_equal. apply IH. set_solver.
Qed.
(** Copying fields that are there, or new ones. *)
Lemma keys_copy u d : (∀ k, k ∈ keys u → k ∈ keys d) → keys (foldl (λ d p, map_set d p.1 p.2) d u) = keys d.
Proof.
  revert d. induction u as [|[k v] u IH]; intros d H; cbn; [done|].
  rewrite IH, keys_map_set; [done|apply H; by left|]. intros k' Hk. rewrite keys_map_set by (apply H; by left). apply H. by right.
Qed.
Lemma keys_copy_new u d : NoDup (keys d ++ keys u) → keys (foldl (λ d p, map_set d p.1 p.2) d u) = keys d ++ keys u.
Proof.
  revert d. induction u as [|[k v] u IH]; intros d H; cbn; [by rewrite app_nil_r|].
  assert (k ∉ keys d). { apply NoDup_app in H as (_ & H & _). intros Hk. apply (H k Hk). by left. }
  rewrite IH, keys_map_set_new by (try done; rewrite keys_map_set_new, <-app_assoc; done). by rewrite <-app_assoc.
Qed.

(** Updates that all have the fields [ks]. *)
Definition uniform (ks : list string) (l : list update) : Prop := ∀ u, u ∈ l → keys u.2 = ks.

Lemma merge_update_uniform ks u l : NoDup ks → keys u.2 = ks → uniform ks l → uniform ks (merge_update u l).
Proof.
  intros Hn Hu. induction l as [|[k d] l IH]; intros Hl; cbn [merge_update fst snd].
  - intros v [->|[]%elem_of_nil]%elem_of_cons. cbn. rewrite keys_copy_new; cbn; by rewrite Hu.
  - assert (Hd : keys d = ks) by (apply (Hl (k, d)); by left).
    destruct (String.eqb k u.1); intros v [->|Hv]%elem_of_cons; cbn [snd].
    + rewrite keys_copy; [done|]. intros k'. by rewrite Hu, Hd.
    + apply Hl. by right.
    + done.
    + apply IH; [|done]. intros w Hw. apply Hl. by right.
Qed.
Lemma merged_uniform ks l : NoDup ks → uniform ks l → uniform ks (merged l).
Proof.
  intros Hn Hl. unfold merged. assert (∀ acc, uniform ks acc → uniform ks (foldl (λ acc u, merge_update u acc) acc l)) as H.
  { revert Hl. induction l as [|u l IH]; intros Hl acc Ha; cbn; [done|].
    apply IH; [intros w Hw; apply Hl; by right|]. apply merge_update_uniform; [done|apply Hl; by left|done]. }
  apply H. intros u Hu. by apply elem_of_nil in Hu.
Qed.
Lemma update_of_uniform ks id l : uniform ks l → update_of id l = [] ∨ keys (update_of id l) = ks.
Proof.
  intros Hl. unfold update_of. destruct (List.find _ l) as [u|] eqn:E; [|by left]. right.
  apply List.find_some in E as [E _]. apply Hl. by apply list_elem_of_In.
Qed.

Section Refresh.
Local Abbreviation runs := (runs (S:=unit) refresh_ok).

Lemma refresh_free t A (op : beff A) a : free op → refresh_ok t (Ev op a).
Proof. destruct op as [? []| | | | | | | |]; done. Qed.

Lemma runs_writing started ks l F : lasting F → NoDup ks → ks ∈ [stream_keys; kick_keys; follower_keys] → uniform ks l →
  (∀ t, F t → Ev (BClient KNow) started ∈ t) →
  runs F (write_ started l) (λ _, F).
Proof.
  intros HF Hn Hks Hl Hst. pose proof (merged_uniform ks l Hn Hl) as Hm. unfold write_.
  apply runs_bind with (λ _, F); [|intros [? []]; by apply runs_ret].
  unfold write. apply (runs_free refresh_ok refresh_free); [exact I|done|]. intros [e|docs]; [apply runs_ret; naive_solver|].
  set (G t := F t ∧ Ev (BChannels (map fst (merged l))) (inr docs) ∈ t). assert (HG : lasting G) by (unfold G; auto with effects).
  assert (Hop : ∀ op t, op ∈ omap (bulk_of started (merged l)) docs → G t → bulk_ok op t).
  { intros op t (s & Hs & Hop)%list_elem_of_omap [Ht He]. exists (map fst (merged l)), docs, s. split; [done|]. split; [done|].
    unfold bulk_of in Hop. destruct (s_data s) as [current|] eqn:Es; [|by injection Hop as <-].
    destruct (_ || _) eqn:Eb; [done|]. injection Hop as <-. apply orb_false_iff in Eb as [Eb1 Eb2].
    destruct (update_of_uniform ks (s_id s) _ Hm) as [H0|Hk]; [by rewrite H0 in Eb2|]. rewrite Hk.
    split_and!; [done|done|done|by exists current|]. apply andb_false_iff in Eb1 as [Eb1|Eb1].
    - right. exists started. split; [by apply Hst|]. unfold time_after in Eb1. apply Z.ltb_ge in Eb1. lia.
    - left. assert (length ks = length (update_of (s_id s) (merged l))) as Hlen by (rewrite <-Hk; apply length_map).
      apply Nat.ltb_ge in Eb1. rewrite <-Hlen in Eb1. clear -Hks Eb1.
      repeat (apply elem_of_cons in Hks as [->|Hks]; cbn in Eb1; try lia); [done|by apply elem_of_nil in Hks]. }
  revert Hop. generalize (omap (bulk_of started (merged l)) docs) as ops. intros ops Hop.
  apply runs_bind with (λ _, F).
  - apply runs_conseq with G (λ _, G); [|done|by intros ? ? [? _]]. induction ops as [|op ops IH]; cbn [queue_all]; [by apply runs_ret|].
    apply runs_ask_bind with (λ _, G); [intros t a Ht; split; [apply Hop; [by left|done]|by apply HG]|].
    intros [e|]; [by apply runs_ret|]. apply IH. intros op' t' H'. apply Hop. by right.
  - intros [e|]; [by apply runs_ret|]. clear Hop. generalize 0 as n. induction ops as [|op ops IH]; intros n; cbn [results]; [by apply runs_ret|].
    apply (runs_free refresh_ok refresh_free); [exact I|done|].
    assert (Hc : ∀ n x, runs (λ t, F t ∧ Ev (BResult op) x ∈ t) (results n ops) (λ _, F)).
    { intros m x. eapply runs_conseq; [apply IH|by intros ? [? _]|done]. }
    intros [e|]; [|apply Hc]. case_bool_decide; [apply Hc|]. apply runs_ret. by intros ? [? _].
Qed.

Lemma runs_twitch_list {A} what path query (f : json → option A) F : lasting F →
  runs F (twitch_list what path query f) (λ _, F).
Proof.
  intros HF. unfold twitch_list. apply runs_bind with (λ _, F); [|intros; by apply runs_ret].
  by apply (runs_twitch_api refresh_ok refresh_free).
Qed.

Lemma stream_keys_nodup : NoDup stream_keys.
Proof. by apply (bool_decide_unpack _). Qed.
Lemma kick_keys_nodup : NoDup kick_keys.
Proof. by apply (bool_decide_unpack _). Qed.

(** The followers that were fetched have no other field. *)
Lemma runs_followers ids F : lasting F →
  runs F (collect fetch_followers ids) (λ r t, F t ∧ ∀ us, r = inr us → uniform follower_keys us).
Proof.
  intros HF. assert (Hnil : uniform follower_keys []) by (intros u Hu; by apply elem_of_nil in Hu).
  induction ids as [|id ids IH]; cbn [collect]; [apply runs_ret; naive_solver|].
  unfold bindE. apply runs_bind with (λ r t, F t ∧ ∀ us, r = inr us → uniform follower_keys us).
  - unfold fetch_followers. apply runs_bind with (λ _, F); [by apply (runs_twitch_api refresh_ok refresh_free)|].
    intros [e|[total|]]; [repeat case_match; apply runs_ret; naive_solver| |apply runs_ret; naive_solver].
    apply runs_ret. intros t Ht. split; [done|]. intros us [= <-]. destruct (0 <? total); [|done].
    intros u Hu. by apply list_elem_of_singleton in Hu as ->.
  - intros [e|x]; [apply runs_ret; naive_solver|].
    apply runs_bind with (λ r t, (F t ∧ ∀ us, r = inr us → uniform follower_keys us) ∧ uniform follower_keys x).
    + intros w [Hj [Ht Hx]]. destruct (IH w (conj Hj Ht)) as (? & ? & ?). split_and!; [done..|by apply Hx].
    + intros [e|y]; apply runs_ret; [naive_solver|]. intros t [[Ht Hy] Hx]. split; [done|]. intros us [= <-].
      intros u [Hu|Hu]%elem_of_app; [by apply Hx|by apply (Hy y)].
Qed.

Lemma runs_fetch started ids F : lasting F → (∀ t, F t → Ev (BClient KNow) started ∈ t) →
  runs F (FetchTwitch (write_ started) ids) (λ _, F).
Proof.
  intros HF Hst. unfold FetchTwitch, bindE.
  apply runs_bind with (λ _, F); [apply runs_collect; intros; by apply runs_twitch_list|].
  intros [e|users]; [by apply runs_ret|]. apply runs_bind with (λ _, F).
  { apply runs_for_each_keep. intros batch _. unfold fetch_batch, bindE.
    apply runs_bind with (λ _, F); [by apply runs_twitch_list|]. intros [e|streams]; [by apply runs_ret|].
    apply runs_bind with (λ _, F).
    { destruct (filter _ batch); [by apply runs_ret|by apply runs_twitch_list]. }
    intros [e|channels]; [by apply runs_ret|].
    apply (runs_writing started stream_keys); [done|apply stream_keys_nodup|by left| |done].
    intros u [(x & -> & _)%list_elem_of_fmap|(x & -> & _)%list_elem_of_fmap]%elem_of_app; done. }
  intros [e|[]]; [by apply runs_ret|]. apply runs_bind with (λ _, F); [by apply (runs_Shuffle refresh_ok refresh_free)|].
  intros l. eapply runs_bind; [by apply runs_followers|].
  intros [e|us]; [apply runs_ret; by intros ? [? _]|].
  intros w [Hj [Ht Hu]]. apply (runs_writing started follower_keys us F HF); [by apply (bool_decide_unpack _)| |by apply Hu|done|done].
  by apply (bool_decide_unpack _).
Qed.

Lemma kick_updates_uniform l us : kick_updates l = inr us → uniform kick_keys us.
Proof.
  revert us. induction l as [|c l IH]; intros us Eu; [injection Eu as <-; intros u Hu; by apply elem_of_nil in Hu|].
  cbn [kick_updates foldr] in Eu. fold (kick_updates l) in Eu.
  destruct (Metadata c) as [d|] eqn:Em; [|done]. destruct (kick_updates l) as [|us']; [done|]. injection Eu as <-.
  intros u [->|Hu]%elem_of_cons; [|by eapply IH]. unfold Metadata in Em.
  destruct (if _ && _ then _ else _) in Em; [|done]. by injection Em as <-.
Qed.
End Refresh.

(** Whatever Firestore and the providers answer, a metadata refresh only
    reads from the providers and writes only channels it read: a channel that
    is not there is created; one that is there is updated only on the
    condition that it is still the version that was read, only with all the
    metadata fields of its provider or the follower count alone, only when a
    field changes, and, unless the follower count is all, only when the
    version is not newer than the start of the refresh. *)
Theorem refresh_yields :
  justified refresh_ok (w_tr (Twitch (World [] tt)).2) ∧ justified refresh_ok (w_tr (Kick (World [] tt)).2).
Proof.
  split.
  - assert (runs (S:=unit) refresh_ok (λ _, True) Twitch (λ _ _, True)) as H; [|by apply H].
    unfold Twitch, bindE, db_. apply (runs_free refresh_ok refresh_free); [exact I|done|].
    intros [e|docs]; [by apply runs_ret|]. apply (runs_free refresh_ok refresh_free); [exact I|auto with effects|].
    intros started. eapply runs_conseq; [apply (runs_fetch started _ (λ t, Ev (BClient KNow) started ∈ t))| |done];
      [auto with effects|done|naive_solver].
  - assert (runs (S:=unit) refresh_ok (λ _, True) Kick (λ _ _, True)) as H; [|by apply H].
    unfold Kick, bindE, db_. apply (runs_free refresh_ok refresh_free); [exact I|done|]. intros started.
    apply (runs_free refresh_ok refresh_free); [exact I|auto with effects|].
    intros [e|docs]; [by apply runs_ret|]. set (F (t : trace beff) := Ev (BClient KNow) started ∈ t). assert (HF : lasting F) by (unfold F; auto with effects).
    apply runs_conseq with F (λ _, F); [|naive_solver|done]. apply runs_for_each_keep. intros batch _.
    apply runs_bind with (λ _, F).
    { eapply runs_conseq; [apply (runs_kick_api refresh_ok refresh_free (λ _ _, True)); [done|by split|done|done]|done|by intros ? ? [? _]]. }
    intros r. apply (runs_ret_bind (S:=unit)). destruct (listed "Kick channels" r) as [e|l]; [by apply runs_ret|].
    apply (runs_ret_bind (S:=unit)). destruct (kick_updates l) as [e|us] eqn:Eu; [by apply runs_ret|].
    apply (runs_writing started kick_keys us F HF); [apply kick_keys_nodup|by right; left|by eapply kick_updates_uniform|done].
Qed.

(** ** What the cleanup may remove *)

Definition cutoff_of (cutoff : time) (t : trace beff) : Prop :=
  ∃ now, Ev (BClient KNow) now ∈ t ∧ cutoff = now - 7 * day.
(** A channel whose webhook document was read as idle while its lease is held;
    [F] since. Its recorded subscriptions. *)
Definition idle_channel (id : string) (s : snapshot) (recorded : list string) (F : trace beff → Prop) (t : trace beff) : Prop :=
  (∃ d active cutoff, s_data s = Some d ∧ webhook_fields d = Some (active, recorded) ∧
    active ≠ zero_time ∧ active < cutoff ∧ cutoff_of cutoff t) ∧
  under (@BDb) id "" [] None (since (Ev (BWebhook id) (inr s)) F) t.
Definition list_path (id : string) : string :=
  "/events/subscriptions?" +:+ values_encode (params "broadcaster_user_id" [trim_prefix id "kick:"]).
Definition delete_path (batch : list string) : string := "/events/subscriptions?" +:+ values_encode (params "id" batch).
(** The provider listed the channel's subscriptions; [F] since. *)
Definition listed_subs (id : string) (subs : list string) (F : trace beff → Prop) (t : trace beff) : Prop :=
  ∃ token r, (Err r = None ∧ Decode (data_of decode_id) r = inr (Some subs)) ∧
    since (Ev (BClient (KDo (KickClient token) GET (list_path id) None)) (inr r)) F t.
(** The provider was asked to delete the subscription, and did or had none. *)
Definition deleted (sub : string) (t : trace beff) : Prop :=
  ∃ token batch r, sub ∈ batch ∧ Ev (BClient (KDo (KickClient token) DELETE (delete_path batch) None)) (inr r) ∈ t ∧
    (Err r = None ∨ w_status r = 404).

(** The lease was granted, the document read as idle, and the subscriptions
    listed, in this order, and the lease is held; [F] since the listing. *)
Definition removing (id : string) (s : snapshot) (recorded subs : list string) (F : trace beff → Prop) : trace beff → Prop :=
  idle_channel id s recorded (listed_subs id subs F).

Definition cleanup_ok (t : trace beff) (e : ev beff) : Prop :=
  match e with
  | Ev op _ =>
    match op with
    | BClient op =>
      match op with
      | KDo c m path body =>
        body = None ∧
        match m with
        | GET => True
        | POST => False
        | DELETE => ∃ id s recorded subs batch, path = delete_path batch ∧
            (∀ sub, sub ∈ batch → sub ∈ all_ids recorded subs) ∧ removing id s recorded subs (λ _, True) t
        end
      | _ => True
      end
    | BDb op =>
      match op with
      | TxDelete path => ∃ id d cutoff t', path = "assignments/" +:+ id ∧ t = Ev (BDb (TxGet path)) (inr d) :: t' ∧
          idleAssignment id d cutoff = true ∧ cutoff_of cutoff t
      | Set_ path data merge => ∃ id v e, path = "webhooks/" +:+ id ∧ data = [("checkedAt", VTime (time_unix 0 0))] ∧
          merge = true ∧ status_code (Some e) = FailedPrecondition ∧
          under (@BDb) id "" [] None (since (Ev (BDelete id v) (Some e)) (λ _, True)) t
      | Create _ _ | Update _ _ | Remove _ | TxSet _ _ _ => False
      | _ => True
      end
    | BQueue _ => False
    | BDelete id v => ∃ s recorded subs, v = s_updated s ∧
        removing id s recorded subs (λ u, ∀ sub, sub ∈ all_ids recorded subs → deleted sub u) t
    | _ => True
    end
  end.

Lemma cleanup_free t A (op : beff A) a : free op → cleanup_ok t (Ev op a).
Proof. destruct op as [? []|? []| | | | | | |]; done. Qed.

Hint Resolve stable_ex : effects.
Lemma stable_cutoff cutoff : stable (cutoff_of cutoff).
Proof. unfold cutoff_of. auto with effects. Qed.
Hint Resolve stable_cutoff : effects.
Lemma stable_deleted sub : stable (deleted sub).
Proof. unfold deleted. auto 20 with effects. Qed.
Lemma lease_frame id : frame ongoing (under (@BDb) id "" [] None).
Proof. apply frame_under. by intros o b H. Qed.
Lemma idle_frame id s recorded : frame ongoing (idle_channel id s recorded).
Proof.
  apply frame_and; [apply stable_kept; auto 20 with effects|].
  apply (frame_comp _ (under _ _ _ _ _)); [apply lease_frame|apply frame_since].
Qed.
Lemma removing_frame id s recorded subs : frame ongoing (removing id s recorded subs).
Proof.
  apply (frame_comp _ (idle_channel _ _ _)); [apply idle_frame|].
  do 2 (apply frame_ex; intros ?). apply frame_and; [apply stable_kept, stable_const|apply frame_since].
Qed.
Hint Resolve stable_deleted : effects.

Lemma elem_of_chunks {A} n (l : list A) x : x ∈ l → (0 < n)%nat → ∃ b, b ∈ chunks n l ∧ x ∈ b.
Proof.
  intros Hx Hn. unfold chunks. assert (length l <= length l)%nat as H by lia. revert H Hx.
  generalize (length l) at 2 3 as fuel. intros fuel. revert l.
  induction fuel as [|fuel IH]; intros [|a l] Hl Hx; cbn [chunks_from length] in *; try lia; try by apply elem_of_nil in Hx.
  rewrite <-(take_drop n (a :: l)) in Hx. apply elem_of_app in Hx as [Hx|Hx].
  - eexists. split; [by left|done].
  - destruct (IH (drop n (a :: l))) as (b & Hb & Hxb); [rewrite length_drop; cbn; lia|done|].
    exists b. split; [by right|done].
Qed.
Lemma chunks_elem {A} n (l : list A) b x : b ∈ chunks n l → x ∈ b → x ∈ l.
Proof.
  unfold chunks. generalize (length l) as fuel. intros fuel. revert l.
  induction fuel as [|fuel IH]; intros [|a l] Hb Hx; cbn [chunks_from] in Hb; try by apply elem_of_nil in Hb.
  apply elem_of_cons in Hb as [->|Hb].
  - rewrite <-(take_drop n (a :: l)). apply elem_of_app. by left.
  - rewrite <-(take_drop n (a :: l)). apply elem_of_app. right. by apply (IH _ Hb).
Qed.

Section Cleaning.
Local Abbreviation runs := (runs (S:=unit) cleanup_ok).

Lemma runs_remove_assignment cutoff id F : lasting F → (∀ t, F t → cutoff_of cutoff t) →
  runs F (RunTransaction η (@BDb) (remove_assignment cutoff id)) (λ _, F).
Proof.
  intros HF Hc. apply runs_transaction with (λ _, F); [|naive_solver|by intros|by intros; apply HF| |naive_solver].
  2:{ intros a t e Ht. split; by apply HF. }
  unfold remove_assignment, db_.
  apply runs_ask_bind with (λ d t, F t ∧ match d with
    | inr x => ∃ t', t = Ev (BDb (TxGet ("assignments/" +:+ id))) (inr x) :: t' | inl _ => True end).
  { intros t d Ht. split; [done|]. split; [by apply HF|]. destruct d; [done|by eexists]. }
  intros [e|d]; [case_decide; apply runs_ret; naive_solver|].
  destruct (idleAssignment id d cutoff) eqn:Ei; [|apply runs_ret; naive_solver].
  assert (HD : ∀ t a, F t ∧ (∃ t', t = Ev (BDb (TxGet ("assignments/" +:+ id))) (inr d) :: t') →
    cleanup_ok t (Ev (BDb (TxDelete ("assignments/" +:+ id))) a) ∧ F (Ev (BDb (TxDelete ("assignments/" +:+ id))) a :: t)).
  { intros t a [Ht [t' ->]]. split; [|by apply HF]. exists id, d, cutoff, t'. split_and!; [done..|by apply Hc]. }
  apply runs_bindE with (λ _, F); [apply runs_exec; intros; by apply HD|done|intros []; by apply runs_ret].
Qed.

(** The deletions: all are of the channel's subscriptions, and succeeded. *)
Definition gone (l : list (list string)) (t : trace beff) : Prop := ∀ b, b ∈ l → ∀ sub, sub ∈ b → deleted sub t.
Lemma stable_gone l : stable (gone l).
Proof. intros e t Hl b Hb sub Hs. apply stable_deleted. by apply (Hl b). Qed.

Lemma runs_deletions id s recorded subs F : lasting F →
  runs (λ t, F t ∧ removing id s recorded subs (λ _, True) t)
    (for_each (λ batch, kick DELETE "/events/subscriptions" (params "id" batch) (λ _, inr tt) tt)
      (chunks 50 (all_ids recorded subs)))
    (λ r t, F t ∧ match r with
      | inr _ => removing id s recorded subs (gone (chunks 50 (all_ids recorded subs))) t
      | inl _ => True end).
Proof.
  intros HF. pose proof (removing_frame id s recorded subs) as HX. set (X := removing id s recorded subs) in *.
  eapply runs_conseq; [apply (runs_for_each cleanup_ok cleanup_free _ _ (λ l t, F t ∧ X (gone l) t) F)| |].
  - intros l b Hb. set (Y G := X (λ u, gone l u ∧ G u)).
    assert (HY : frame ongoing Y).
    { apply (frame_comp _ X); [done|]. apply frame_and; [apply stable_kept, stable_gone|apply frame_id]. }
    eapply runs_conseq; [apply (runs_kick_api cleanup_ok cleanup_free Y _ _ _ _ _ (λ t, F t ∧ X (gone l) t))|done|].
    + apply kept_and; [done|]. apply frame_kept; [done|apply stable_kept, stable_gone].
    + done.
    + intros t [_ Ht]. by apply (frame_mono _ _ HX (gone l)).
    + intros token t a [_ Ht]. split; [done|]. exists id, s, recorded, subs, b. split; [done|]. split.
      * intros sub Hs. by apply (chunks_elem 50 _ b).
      * by apply (frame_mono _ _ HX (gone l)).
    + intros [e|[]] t [[Ht Hl] Hr]; [done|]. split; [done|].
      destruct (Hr _ eq_refl) as (token & w & Hw & Hx). eapply (frame_mono _ _ HX); [|exact Hx].
      intros u [Hu Hs] b' Hb' sub Hsub. apply elem_of_app in Hb' as [Hb'|Hb']; [by apply (Hu b')|].
      apply list_elem_of_singleton in Hb' as ->. exists token, b, w. split_and!; [done|by eapply since_elem|naive_solver].
  - intros t [Ht Hx]. split; [done|]. apply (frame_mono _ _ HX (λ _, True)); [|done]. intros u _ b Hb. by apply elem_of_nil in Hb.
  - by intros [e|[]] t Ht.
Qed.

Lemma runs_removeIdleKickLocked cutoff id F : stable F → (∀ t, F t → cutoff_of cutoff t) →
  runs (λ t, F t ∧ under (@BDb) id "" [] None (λ _, True) t) (removeIdleKickLocked cutoff id) (λ _, F).
Proof.
  intros HF HC. unfold removeIdleKickLocked. set (L := under (@BDb) id "" [] None).
  assert (HL : frame ongoing L) by apply lease_frame.
  apply runs_ask_bind with (λ r t, F t ∧ ∀ s, r = inr s → L (since (Ev (BWebhook id) (inr s)) (λ _, True)) t).
  { intros t a [Ht Hl]. split; [done|]. split; [by apply HF|]. intros s ->.
    apply (frame_next _ _ HL (λ _, True)); [done| |done]. intros u _. by apply since_here. }
  assert (Hend : ∀ r (G : trace beff → Prop), (∀ t, G t → F t) → runs G (mret r : M (result unit)) (λ _, F)) by (intros; by apply runs_ret).
  intros [e|s]; [case_decide; apply Hend; naive_solver|].
  destruct (s_data s) as [d|] eqn:Ed; [|apply Hend; naive_solver].
  destruct (webhook_fields d) as [[active recorded]|] eqn:Ew; [|apply Hend; naive_solver].
  destruct (_ || _) eqn:Ei; [apply Hend; naive_solver|]. apply orb_false_iff in Ei as [Ea Eb].
  apply negb_false_iff in Eb. unfold time_is_zero, time_before in *. apply Z.eqb_neq in Ea. apply Z.ltb_lt in Eb.
  pose proof (idle_frame id s recorded) as HI.
  set (G t := F t ∧ idle_channel id s recorded (λ _, True) t).
  assert (HG : lasting G) by (apply kept_and; [by apply stable_kept|]; apply frame_kept; [done|apply stable_kept, stable_const]).
  apply runs_conseq with G (λ _, F); [| |done].
  2:{ intros t [Ht Hs]. split; [done|]. split; [|by apply Hs]. exists d, active, cutoff. split_and!; [done..|by apply HC]. }
  unfold bindE. apply runs_bind with (λ r t, F t ∧ ∀ subs, listed "Kick subscriptions" r = inr subs → removing id s recorded subs (λ _, True) t).
  { eapply runs_conseq; [apply (runs_kick_api cleanup_ok cleanup_free (idle_channel id s recorded) _ _ _ _ _ G HG)|done|];
      [done|by intros t [_ Ht]|by intros|].
    intros r t [[Ht _] Hr]. split; [done|]. intros subs Hl. destruct r as [e|[l|]]; cbn in Hl; simplify_eq.
    destruct (Hr _ eq_refl) as (token & w & [Hok|(? & _)] & Hw); [|done].
    unfold removing. eapply (frame_mono _ _ HI); [|exact Hw]. intros u Hu. by exists token, w. }
  intros r. apply (runs_ret_bind (S:=unit)). destruct (listed "Kick subscriptions" r) as [e|subs]; [apply Hend; naive_solver|].
  pose proof (removing_frame id s recorded subs) as HX.
  apply runs_bind with (λ r t, F t ∧ match r with
    | inr _ => removing id s recorded subs (gone (chunks 50 (all_ids recorded subs))) t | inl _ => True end).
  { eapply runs_conseq; [apply (runs_deletions id s recorded subs F); by apply stable_kept|naive_solver|done]. }
  intros [e|[]]; [apply Hend; naive_solver|].
  apply runs_ask_bind with (λ e t, F t ∧ L (since (Ev (BDelete id (s_updated s)) e) (λ _, True)) t).
  { intros t e [Ht Hx]. split; [|split; [by apply HF|]].
    - exists s, recorded, subs. split; [done|]. eapply (frame_mono _ _ HX); [|exact Hx].
      intros u Hu sub Hs. destruct (elem_of_chunks 50 _ _ Hs) as (b & Hb & Hsb); [lia|]. by apply (Hu b).
    - destruct Hx as [_ Hx]. eapply (frame_next _ _ HL); [done| |exact Hx]. intros u _. by apply since_here. }
  intros [e|]; [|apply Hend; naive_solver]. case_decide; [apply Hend; naive_solver|].
  case_decide as Hfp; [|apply Hend; naive_solver].
  apply runs_exec; intros t; [|intros e']; intros [Ht He]; (split; [by exists id, (s_updated s), e|by apply HF]).
Qed.
End Cleaning.

Lemma runs_removeIdleKick cutoff id F : stable F → (∀ t, F t → cutoff_of cutoff t) →
  runs (S:=unit) cleanup_ok F (removeIdleKick cutoff id) (λ _, F).
Proof.
  intros HF HC. apply runs_locked with (Fw := λ t, F t ∧ under (@BDb) id "" [] None (λ _, True) t) (R := λ _, F).
  - intros t Ht. split; [done|]. split; [by apply HF|by apply under_here].
  - intros t e Ht. split; [done|by apply HF].
  - by apply runs_removeIdleKickLocked.
  - intros r t b Ht. split; [done|]. destruct r, b; by apply HF.
Qed.

Lemma runs_remove_kicks cutoff l n F : stable F → (∀ t, F t → cutoff_of cutoff t) →
  runs (S:=unit) cleanup_ok F (remove_kicks cutoff n l) (λ _, F).
Proof.
  intros HF HC. revert n. induction l as [|[id d] l IH]; intros n; cbn [remove_kicks]; [by apply runs_ret|].
  destruct (has_prefix id "kick:"); [|apply IH].
  eapply runs_bind; [by apply runs_removeIdleKick|]. intros r. apply IH.
Qed.

(** C33. Whatever Firestore and Kick answer, the cleanup removes only what is
    idle for a week: an assignment in a transaction that just read it as idle
    (never the pinned one); a Kick channel while its lease is held. Since that
    lease was granted, in this order, its webhook document was read as idle and
    the provider listed its subscriptions; then only recorded or listed ones are
    deleted, and the document, at the version that was read, only after every
    one of them was deleted or was gone, all under the lease. It writes nothing
    else but the check that makes a concurrent subscribe repair the channel,
    under the same lease after the document changed under the cleanup. *)
Theorem cleanup_idle_only : justified cleanup_ok (w_tr (Cleanup (World [] tt)).2).
Proof.
  assert (runs (S:=unit) cleanup_ok (λ _, True) Cleanup (λ _ _, True)) as H; [|by apply H].
  unfold Cleanup, bindE, db_. apply (runs_free cleanup_ok cleanup_free); [exact I|done|]. intros now.
  set (F := cutoff_of (now - 7 * day)). assert (HF : stable F) by apply stable_cutoff.
  pose proof (stable_kept ongoing F HF) as HK.
  apply runs_conseq with F (λ _, F); [|intros t [_ Ht]; by exists now|done].
  apply (runs_free cleanup_ok cleanup_free); [exact I|done|]. intros [e|assignments]; [apply runs_ret; by intros ? [? _]|].
  apply runs_conseq with F (λ _, F); [|by intros ? [? _]|done].
  apply runs_bind with (λ _, F).
  { apply runs_for_each_keep. intros [id d] _. destruct (idleAssignment _ _ _); [|by apply runs_ret].
    apply runs_bind with (λ _, F); [by apply runs_remove_assignment|]. intros [e|b]; by apply runs_ret. }
  intros [e|[]]; [by apply runs_ret|]. apply (runs_free cleanup_ok cleanup_free); [exact I|done|].
  intros [e|docs]; [apply runs_ret; by intros ? [? _]|].
  apply runs_conseq with F (λ _, F); [|by intros ? [? _]|done].
  eapply runs_bind; [by apply runs_remove_kicks|]. intros n. destruct (0 <? n); by apply runs_ret.
Qed.
End Jobs.

(** ** Which jobs run: cmd/jobs.go *)

Definition all_jobs : list Readers.job :=
  [Readers.Job "updateFollowerAndViewerCount" (3 * minute) false;
   Readers.Job "updateKickChannelMetadata" (3 * minute) false;
   Readers.Job "unsubscribe" (30 * minute) true].
Definition job_named (name : string) : option Readers.job :=
  List.find (λ j, String.eqb (Readers.j_name j) name) all_jobs.
(** The names of an allowlist, each once. *)
Fixpoint job_names (seen : list string) (l : list string) : list Readers.job :=
  match l with
  | [] => []
  | name :: l =>
    let name := TrimSpace name in
    if String.eqb name "" || existsb (String.eqb name) seen then job_names seen l
    else match job_named name with
         | Some j => j :: job_names (name :: seen) l
         | None => job_names seen l
         end
  end.
(** [AGENT_SCHEDULED_JOBS]: unset runs every job, in any order. *)
Definition scheduled (names : option string) : list Readers.job :=
  match names with Some names => job_names [] (split_char "," names) | None => all_jobs end.

Example scheduled_examples :
  map (λ n, map Readers.j_name (scheduled n)) [None; Some ""; Some " unsubscribe,x,, unsubscribe "] =
  [["updateFollowerAndViewerCount"; "updateKickChannelMetadata"; "unsubscribe"]; []; ["unsubscribe"]].
Proof. vm_compute. reflexivity. Qed.

(** ** Examples *)

(** The fields of a live Kick channel, and of one that is offline. *)
Definition kick_channel_text (live : string) : string := quoted
  ("{'broadcaster_user_id':123,'slug':'streamer','stream_title':'Hello','category':{'id':9,'name':'IRL'},'stream':{'is_live':" +:+ live +:+
   ",'language':'en','viewer_count':12,'start_time':'2026-10-16T12:00:00Z'}}").
Example kick_metadata :
  map (λ live, unmarshal decode_kick (kick_channel_text live) ≫= Metadata) ["true"; "false"] =
  [Some [("login", VString "streamer"); ("title", VString "Hello"); ("language", VString "en"); ("categoryId", VInt 9);
         ("categoryName", VString "IRL"); ("viewerCount", VInt 12); ("onlineAt", VTime (time_unix 1792152000 0))];
   Some [("login", VString "streamer"); ("title", VString "Hello"); ("language", VString "en"); ("categoryId", VInt 9);
         ("categoryName", VString "IRL"); ("viewerCount", VInt 0); ("onlineAt", VNull)]].
Proof. vm_compute. reflexivity. Qed.

(** A channel whose document is newer than the refresh keeps it, but for the
    follower count. *)
Example newer_wins :
  let s := Snapshot "twitch:1" (Some [("viewerCount", VInt 1)]) 20 in
  let stream := stream_update (MkTwitchStream "1" "l" "n" "en" 5 zero_time) in
  (bulk_of 10 (merged [stream]) s, bulk_of 30 (merged [stream]) s, bulk_of 10 (merged [follower_update "1" 7]) s) =
  (None, Some (BulkUpdate "twitch:1" stream.2 20), Some (BulkUpdate "twitch:1" [("followerCount", VInt 7)] 20)).
Proof. vm_compute. reflexivity. Qed.
