(* ===== verification/Fetch.v ===== *)
(** * Requests of concurrent programs

    [Client.Do] and [Client.Get] of agent/internal/clients/client.go with the
    delays of retry.go as programs of Conc.v, for handlers whose requests run
    side by side. [Get_agrees]: run on its own, such a request is the one of
    Clients.v. Also here: groups of goroutines that are joined, and what a
    trace says a request was answered ([fetched], [refused]). *)

From stdpp Require Import base gmap strings list.
From S2P Require Import Prelude GoErr Json Effects Conc Http Clients.

(** ** Goroutines in turn

    [solo]: each goroutine runs to its end before the next; programs with
    loops have none. *)
Fixpoint solo {E A} (η : env E) (p : prog E A) (t : trace E) : option (A * trace E) :=
  match p with
  | Ret a => Some (a, t)
  | Op op => let a := η _ t op in Some (a, Ev op a :: t)
  | Bind p k => match solo η p t with Some (b, t) => solo η (k b) t | None => None end
  | Loop _ _ => None
  | Par p q k =>
    match solo η p t with
    | Some (b, t) => match solo η q t with Some (c, t) => solo η (k b c) t | None => None end
    | None => None
    end
  end.

Inductive steps {E A} (p : prog E A) (t : trace E) : prog E A → trace E → Prop :=
  | steps_none : steps p t p t
  | steps_more p1 t1 p2 t2 : steps p t p1 t1 → step p1 t1 p2 t2 → steps p t p2 t2.

Lemma steps_trans {E A} (p : prog E A) t p1 t1 p2 t2 : steps p t p1 t1 → steps p1 t1 p2 t2 → steps p t p2 t2.
Proof. intros H. induction 1; [done|]. by eapply steps_more. Qed.
Lemma steps_bind {E A B} (p p1 : prog E B) (k : B → prog E A) t t1 :
  steps p t p1 t1 → steps (Bind p k) t (Bind p1 k) t1.
Proof. induction 1; [apply steps_none|]. eapply steps_more; [done|]. left. eauto. Qed.
Lemma steps_left {E A B C} (p p1 : prog E B) (q : prog E C) (k : B → C → prog E A) t t1 :
  steps p t p1 t1 → steps (Par p q k) t (Par p1 q k) t1.
Proof. induction 1; [apply steps_none|]. eapply steps_more; [done|]. left. eauto. Qed.
Lemma steps_right {E A B C} (p : prog E B) (q q1 : prog E C) (k : B → C → prog E A) t t1 :
  steps q t q1 t1 → steps (Par p q k) t (Par p q1 k) t1.
Proof. induction 1; [apply steps_none|]. eapply steps_more; [done|]. right. left. eauto. Qed.

Lemma solo_steps {E A} η (p : prog E A) : ∀ t a t', solo η p t = Some (a, t') → steps p t (Ret a) t'.
Proof.
  induction p as [A a0|A op|A B p IH k IHk|A S f IHf p IH|A B C p IHp q IHq k IHk]; intros t a t'; cbn.
  - intros [= -> ->]. apply steps_none.
  - intros [= <- <-]. eapply steps_more; [apply steps_none|]. by eexists.
  - destruct (solo η p t) as [[b t1]|] eqn:Ep; [|done]. intros H.
    eapply steps_trans; [apply steps_bind, (IH _ _ _ Ep)|].
    eapply steps_trans; [eapply steps_more; [apply steps_none|]; right; eauto|]. by apply IHk.
  - done.
  - destruct (solo η p t) as [[b t1]|] eqn:Ep; [|done]. destruct (solo η q t1) as [[c t2]|] eqn:Eq; [|done]. intros H.
    eapply steps_trans; [apply steps_left, (IHp _ _ _ Ep)|]. eapply steps_trans; [apply steps_right, (IHq _ _ _ Eq)|].
    eapply steps_trans; [eapply steps_more; [apply steps_none|]; right; right; by eexists _, _|]. by apply IHk.
Qed.
Lemma solo_reachable {E A} η (p : prog E A) a t : solo η p [] = Some (a, t) → reachable p (Ret a) t.
Proof.
  intros H%solo_steps. induction H as [|p1 t1 p2 t2 _ IH Hs]; [apply reachable_start|]. by eapply reachable_step.
Qed.

(** What holds of a result. *)
Lemma reachable_among {E A} (p p' : prog E A) t : reachable p p' t → among [] p t p'.
Proof. induction 1 as [|p1 t1 p2 t2 _ IH Hs]; [apply among_start|by eapply among_own]. Qed.
Lemma safe_reachable {E A} P (p : prog E A) a t Q : safe P [] p Q → reachable p (Ret a) t → Q a t.
Proof. intros H Hr%reachable_among. by apply (H _ _ Hr). Qed.

(** ** Groups

    Every goroutine is started; the group waits for all. A limit on how many
    run at once only rules out interleavings. *)
Fixpoint all {E A} (l : list (prog E A)) : prog E (list A) :=
  match l with
  | [] => Ret []
  | p :: l => Par p (all l) (λ a r, Ret (a :: r))
  end.

Lemma safe_all {E A} P (F : trace E → Prop) (l : list (prog E A)) (Q : A → trace E → Prop) :
  stable F → (∀ a, stable (Q a)) → (∀ p, p ∈ l → safe_from P F p Q) →
  safe_from P F (all l) (λ r t, F t ∧ ∀ a, a ∈ r → Q a t).
Proof.
  intros HF HQ. induction l as [|p l IH]; intros H; cbn.
  - apply safe_ret; [done|]. intros t Ht. split; [done|]. intros a []%elem_of_nil.
  - eapply safe_par; [apply H; by left|apply IH; intros; apply H; by right|].
    intros a r. apply safe_ret; [auto using stable_and, stable_all with effects|].
    intros t (Ha & Ht & Hr). split; [done|]. intros x [->|?]%elem_of_cons; auto.
Qed.

(** *** Parts that keep what is known *)

Section Upholds.
Context {E : Type → Type} (P : trace E → ev E → Prop) (F : trace E → Prop) (HF : stable F).

Definition upholds {A} (p : prog E A) : Prop := safe_from P F p (λ _, F).

Lemma upholds_ret {A} (a : A) : upholds (Ret a).
Proof. by apply safe_ret. Qed.
Lemma upholds_bind {A B} (p : prog E B) (k : B → prog E A) : upholds p → (∀ b, upholds (k b)) → upholds (Bind p k).
Proof. intros Hp Hk. by eapply safe_bind. Qed.
Lemma upholds_par {A B C} (p : prog E B) (q : prog E C) (k : B → C → prog E A) :
  upholds p → upholds q → (∀ b c, upholds (k b c)) → upholds (Par p q k).
Proof. intros Hp Hq Hk. eapply safe_par; [exact Hp|exact Hq|]. intros b c. eapply safe_conseq; [apply Hk|naive_solver|done]. Qed.
Lemma upholds_all {A} (l : list (prog E A)) : (∀ p, p ∈ l → upholds p) → upholds (all l).
Proof. intros H. eapply safe_conseq; [apply (safe_all _ _ _ (λ _, F))|done|]; [done..|]. naive_solver. Qed.
End Upholds.

(** An effect, and what follows it knowing the answer. *)
Lemma upholds_op {E A B} P F (op : E B) (k : B → prog E A) :
  stable F → (∀ t a, F t → P t (Ev op a)) → (∀ a, upholds P (λ t, F t ∧ Ev op a ∈ t) (k a)) →
  upholds P F (Bind (Op op) k).
Proof. intros HF HP Hk. apply safe_step; [done..|]. intros a. eapply safe_conseq; [apply Hk|done|naive_solver]. Qed.
(** Knowing more. *)
Lemma upholds_weaken {E A} P (F G : trace E → Prop) (p : prog E A) Q :
  upholds P G p → (∀ t, F t → G t) → (∀ t, G t → Q t) → safe_from P F p (λ _, Q).
Proof. intros H H1 H2. eapply safe_conseq; [exact H|done|naive_solver]. Qed.

(** ** Requests *)

Section Fetch.
Context {E : Type → Type} (K : ∀ A, keff A → E A).
(** [http.ParseTime]. *)
Variable http_date : string → option time.
Local Abbreviation prog := (prog E).

Definition Do (c : client) (m : method) (path : string) (body : option json) : prog (result raw) :=
  if negb (has_prefix path "/") || has_prefix path "//" then Ret (inl path_error)
  else a ←! Op (K _ (KDo c m path body)); Ret (do_result a).

Definition until (at_ : time) : prog duration := now ←! Op (K _ KNow); Ret (time_sub at_ now).
Definition at_least (at_ : option time) (delay : duration) : prog duration :=
  match at_ with
  | None => Ret delay
  | Some at_ => d ←! until at_; if delay <? d then until at_ else Ret delay
  end.
Definition RetryDelay (h : header) (attempt : Z) : prog duration :=
  let delay := wrap64 (Z.shiftl 1 attempt * second) in
  let delay := match parse_int (header_get h "Retry-After") with
               | Some s => if 0 <? s then wrap64 (s * second) else delay
               | None => delay
               end in
  delay ←! at_least (http_date (header_get h "Retry-After")) delay;
  at_least ((λ r, time_unix r 0) <$> parse_int (header_get h "Ratelimit-Reset")) delay.

Fixpoint get_from {B} (n : nat) (attempt : Z) (c : client) (path : string) (f : json → option B) : prog (result B) :=
  match n with
  | O => Ret (inl (ErrMsg "unreachable"))
  | S n =>
    r ←! Do c GET path None;
    match r with
    | inl e => Ret (inl e)
    | inr r =>
      if (500 <=? w_status r) && (w_status r <? 600) && (attempt <? 3) then
        d ←! RetryDelay (w_header r) attempt;
        w ←! Op (K _ (KSleep d));
        match w with
        | Some e => Ret (inl e)
        | None => get_from n (attempt + 1) c path f
        end
      else match Err r with
           | Some e => Ret (inl e)
           | None => Ret (Decode f r)
           end
    end
  end.
Definition Get {B} : client → string → (json → option B) → prog (result B) := get_from 4 0.
End Fetch.

(** ** Agreement with Clients.v *)

Section Agreement.
Context {E : Type → Type} (η : env E) (K : ∀ A, keff A → E A) (http_date : string → option time).

(** Run on its own, [p] does what [m] does. *)
Definition agrees {A} (p : prog E A) (m : M (world E unit) A) : Prop :=
  ∀ t, solo η p t = Some ((m (World t tt)).1, w_tr (m (World t tt)).2).

Lemma agrees_ret {A} (a : A) : agrees (Ret a) (mret a).
Proof. by intros t. Qed.
Lemma agrees_op {A} (op : E A) : agrees (Op op) (ask η op).
Proof. by intros t. Qed.
Lemma agrees_bind {A B} (p : prog E B) (k : B → prog E A) m l :
  agrees p m → (∀ b, agrees (k b) (l b)) → agrees (Bind p k) (m ≫= l).
Proof.
  intros Hp Hk t. cbn [solo]. rewrite (Hp t), M_bind_run, (Hk _ _).
  by destruct (m (World t tt)) as [b [t' []]].
Qed.
Lemma agrees_assoc {A B C} (p : prog E C) (m : M (world E unit) A) (k : A → M (world E unit) B) l :
  agrees p (m ≫= λ a, k a ≫= l) → agrees p ((m ≫= k) ≫= l).
Proof. intros H t. rewrite M_bind_assoc. apply H. Qed.
#[local] Hint Resolve agrees_ret agrees_op agrees_bind : core.

Lemma agrees_Do c m path body : agrees (Do K c m path body) (Clients.Do η K c m path body).
Proof. unfold Do, Clients.Do, throw. destruct (_ || _); auto. Qed.
Lemma agrees_until at_ : agrees (until K at_) (Http.until η (K _ KNow) at_).
Proof. unfold until, Http.until. auto. Qed.
Lemma agrees_at_least at_ d : agrees (at_least K at_ d) (Http.at_least η (K _ KNow) at_ d).
Proof.
  destruct at_ as [at_|]; cbn; [|auto]. apply agrees_bind; [apply agrees_until|]. intros x.
  destruct (d <? x); [apply agrees_until|auto].
Qed.
Lemma agrees_RetryDelay h n : agrees (RetryDelay K http_date h n) (Http.RetryDelay η (K _ KNow) http_date h n).
Proof. apply agrees_bind; [apply agrees_at_least|]. intros. apply agrees_at_least. Qed.

(** [CGet], to the trace. *)
Lemma Get_agrees {B} c path (f : json → option B) :
  agrees (Get K http_date c path f) (CGet η K http_date c path f).
Proof.
  unfold Get, CGet, Http.Get. generalize 0 as attempt. generalize 4%nat as n.
  induction n as [|n IH]; intros attempt; cbn [get_from Http.get_from]; [apply agrees_ret|].
  apply agrees_assoc, agrees_bind; [apply agrees_Do|]. intros [e|r]; [apply agrees_ret|].
  change (mret _ ≫= ?k) with (k (inr (typed f r))). cbn beta iota.
  change (StatusCode (typed f r)) with (w_status r). change (Header (typed f r)) with (w_header r).
  destruct (_ && _).
  - apply agrees_bind; [apply agrees_RetryDelay|]. intros d. apply agrees_bind; [auto|]. intros [e|]; [apply agrees_ret|apply IH].
  - change (response_err (typed f r)) with (Err r). destruct (Err r); apply agrees_ret.
Qed.
End Agreement.

(** ** Safety *)

Section Safe.
Context {E : Type → Type} (K : ∀ A, keff A → E A) (http_date : string → option time) (P : trace E → ev E → Prop).

(** A request whose clock and pauses need no justification. *)
Lemma safe_RetryDelay F h n : stable F → (∀ t a, P t (Ev (K _ KNow) a)) →
  safe_from P F (RetryDelay K http_date h n) (λ _, F).
Proof.
  intros HF Hn.
  assert (Hu : ∀ at_, safe_from P F (until K at_) (λ _, F)).
  { intros at_. apply safe_step; [done|auto|]. intros a. apply safe_ret; [by apply stable_and, stable_event|naive_solver]. }
  assert (Hl : ∀ at_ d, safe_from P F (at_least K at_ d) (λ _, F)).
  { intros [at_|] d; cbn; [|by apply safe_ret]. eapply safe_bind; [apply Hu|]. intros x.
    destruct (d <? x); [apply Hu|by apply safe_ret]. }
  eapply safe_bind; [apply Hl|]. intros. apply Hl.
Qed.

(** What a request without body was answered when it succeeds, and when it
    fails: an answer that is none, or says an error, or does not decode. *)
Definition fetched {B} (c : client) (path : string) (f : json → option B) (b : B) (t : trace E) : Prop :=
  ∃ w, Ev (K _ (KDo c GET path None)) (inr w) ∈ t ∧ Err w = None ∧ Decode f w = inr b.
Definition refused {B} (c : client) (path : string) (f : json → option B) (t : trace E) : Prop :=
  ∃ a, Ev (K _ (KDo c GET path None)) a ∈ t ∧ ∀ w, a = inr w → Err w = None → ∃ e, Decode f w = inl e.
Definition relative (path : string) : bool := has_prefix path "/" && negb (has_prefix path "//").

Lemma stable_fetched {B} c path (f : json → option B) b : stable (fetched c path f b).
Proof. unfold fetched. auto with effects. Qed.
Lemma stable_refused {B} c path (f : json → option B) : stable (refused c path f).
Proof. unfold refused. auto with effects. Qed.

Lemma safe_outcome {B} F c path (f : json → option B) : stable F →
  (∀ t a, P t (Ev (K _ KNow) a)) → (∀ t d a, P t (Ev (K _ (KSleep d)) a)) →
  (∀ t a, F t → P t (Ev (K _ (KDo c GET path None)) a)) →
  safe_from P F (Get K http_date c path f) (λ r t, F t ∧
    match r with inr b => fetched c path f b t | inl _ => relative path = true → refused c path f t end).
Proof.
  intros HF Hn Hs Hd. unfold Get.
  assert (HS : ∀ r : result B, stable (λ t, F t ∧
    match r with inr b => fetched c path f b t | inl _ => relative path = true → refused c path f t end)).
  { intros r. apply stable_and; [done|]. destruct r; [apply stable_all; intros; apply stable_refused|apply stable_fetched]. }
  assert (Hgen : ∀ n attempt, (0 < n)%nat → Z.of_nat n + attempt = 4 →
    safe_from P F (get_from K http_date n attempt c path f) (λ r t, F t ∧
      match r with inr b => fetched c path f b t | inl _ => relative path = true → refused c path f t end));
    [|by apply Hgen; lia].
  induction n as [|n IH]; intros attempt Hn0 Hsum; cbn [get_from]; [lia|].
  apply safe_bind with (λ r t, F t ∧ (relative path = true → ∃ a, r = do_result a ∧ Ev (K _ (KDo c GET path None)) a ∈ t) ∧
    ∀ w, r = inr w → Ev (K _ (KDo c GET path None)) (inr w) ∈ t).
  { assert (Hr : (negb (has_prefix path "/") || has_prefix path "//") = negb (relative path)).
    { unfold relative. by destruct (has_prefix path "/"), (has_prefix path "//"). }
    unfold Do. rewrite Hr. destruct (relative path); cbn [negb]; [|apply safe_ret; naive_solver].
    apply safe_step; [done|by auto|]. intros a. apply safe_ret; [auto with effects|].
    intros t [Ht Ha]. split; [done|]. split; [intros _; by exists a|]. destruct a as [[]|w]; naive_solver. }
  intros [e|w].
  { apply safe_ret.
    - apply stable_and; [done|]. apply stable_and; [apply stable_all; intros; auto with effects|].
      do 2 (apply stable_all; intros). auto with effects.
    - intros t (Ht & Ha & _). split; [done|]. intros Hp. destruct (Ha Hp) as (a & He & Hin). exists a. split; [done|].
      by intros w ->. }
  set (G t := F t ∧ Ev (K _ (KDo c GET path None)) (inr w) ∈ t). assert (HG : stable G) by (unfold G; auto with effects).
  apply safe_conseq with G (λ r t, F t ∧
      match r with inr b => fetched c path f b t | inl _ => relative path = true → refused c path f t end);
    [|unfold G; naive_solver|done].
  assert (Hbad : (Err w = None → ∃ e, Decode f w = inl e) → ∀ t, G t → relative path = true → refused c path f t).
  { intros Hb t [_ Hw] _. exists (inr w). split; [done|]. by intros w' [= ->]. }
  destruct ((500 <=? w_status w) && _ && _) eqn:Eb.
  - apply andb_true_iff in Eb as [[H5%Z.leb_le _]%andb_true_iff Hat%Z.ltb_lt].
    eapply safe_then; [by apply (safe_RetryDelay G)|done|]. intros d. apply safe_step; [done|by auto|].
    intros [e|]; [apply safe_ret; [auto with effects|]|].
    + intros t [Hg _]. split; [apply Hg|]. apply Hbad; [|done]. unfold Err, response_err. cbn. intros Hx.
      by rewrite (proj2 (Z.leb_le 300 (w_status w))), orb_true_r in Hx by lia.
    + eapply safe_conseq; [apply IH; lia|unfold G; naive_solver|done].
  - destruct (Err w) as [e|] eqn:Ee; apply safe_ret; [done| |done|].
    + intros t Hg. split; [apply Hg|]. by apply Hbad.
    + intros t Hg. split; [apply Hg|]. destruct (Decode f w) eqn:Ew; [|exists w; split_and!; [apply Hg|done..]].
      apply Hbad; [|done]. eauto.
Qed.

(** An answer of [Get] was decoded from an answer of the provider. *)
Lemma safe_Get {B} F c path (f : json → option B) : stable F →
  (∀ t a, P t (Ev (K _ KNow) a)) → (∀ t d a, P t (Ev (K _ (KSleep d)) a)) →
  (∀ t a, F t → P t (Ev (K _ (KDo c GET path None)) a)) →
  safe_from P F (Get K http_date c path f) (λ r t, F t ∧ ∀ b, r = inr b → fetched c path f b t).
Proof.
  intros. eapply safe_conseq; [by apply (safe_outcome F c path f)|done|]. intros [e|b] t [Ht Hr]; (split; [done|]); [done|].
  by intros b' [= <-].
Qed.
End Safe.
