(* ===== verification/Catalog.v ===== *)
(** * The catalog

    Models agent/internal/catalog: the callables that search for channels and
    list emotes, badges, viewers and statistics (server.go, twitch.go,
    emotes.go, search.go), with their Firestore store (store.go). Requests run
    side by side, as in Conc.v. Tokens, Firestore, the providers, the API key
    and the emote sets that IRC reports are effects. *)

From stdpp Require Import base gmap strings list.
From Stdlib Require Import Ascii.
From S2P Require Import Prelude Sorting GoErr Json Effects Conc Store JsonText HttpServer Http Text Url UrlParse Clients Fetch.
From S2P Require KickWebhook Jobs.

Inductive geff : Type → Type :=
  | GClient {A} (op : keff A) : geff A
  | GDb {A} (op : db A) : geff A
  | GAccess (uid provider : string) : geff (result string)
  | GApp (provider : string) : geff (result string)
  | GKey : geff (result string)                               (* YouTubeAPIKey *)
  | GEmoteSets (token login : string) : geff (result (list string))
  | GFirst (n : nat) : geff nat.                (* of n failures, the first in time *)

Abbreviation prog := (prog geff).

(** ** JSON values *)

(** A value decoded into a [map[string]any]. *)
Definition into_any_map (j : json) : option doc :=
  match j with JNull => Some [] | JObj l => decode_entries [] l | _ => None end.

Definition object (v : value) : doc := match v with VMap d => d | _ => [] end.
Definition array (v : value) : list doc :=
  match v with VList l => omap (λ v, match v with VMap d => Some d | _ => None end) l | _ => [] end.
Definition text (v : value) : string := match v with VString s => s | _ => "" end.
Definition first (v : value) : option doc := head (array v).
(** A key of a map that may be nil. *)
Definition of_first (o : option doc) (k : string) : value := field (default [] o) k.
Definition or_ (v fallback : value) : value :=
  match v with VNull => fallback | VString s => if String.eqb s "" then fallback else v | _ => v end.
Definition identifier (v : value) : string :=
  match v with VFloat t => t | VString s => s | v => KickWebhook.sprint v end.
(** A list of objects; the integer 0 as JSON has it. *)
Definition objects (l : list doc) : value := VList (map VMap l).
Definition zero : value := VFloat "0".

(** ** Errors *)

Definition bad (message : string) : error := ErrCallable "invalid-argument" message.
Definition unavailable : error := ErrCallable "unavailable" "provider temporarily unavailable".
Definition upstreamError (operation : string) (cause : error) : error := ErrJoin operation unavailable cause.
Definition denied (message : string) : error := ErrCallable "permission-denied" message.

Definition numericID (s : string) : bool :=
  (1 <=? String.length s)%nat && (String.length s <=? 30)%nat && all_chars is_digit s.

(** The provider and the channel of a call. *)
Definition parseChannel (data : string) (requireChannel : bool) : result (string * string) :=
  match unmarshal (into_struct (λ p k j,
      if names k "provider" then (λ s, (s, p.2)) <$> into_string p.1 j
      else if names k "channelId" then (λ s, (p.1, s)) <$> into_string p.2 j
      else Some p) ("", "")) data with
  | Some (provider, channel) =>
    if String.eqb provider "" || (requireChannel && String.eqb channel "") then inl (bad "missing provider, channelId")
    else if (128 <? String.length channel)%nat then inl (bad "invalid channelId")
    else inr (provider, channel)
  | None => inl (bad "missing provider, channelId")
  end.

(** [strings.NewReplacer(...).Replace]; no key is a prefix of another. *)
Fixpoint replace_from (fuel : nat) (l : list (string * string)) (s : string) : string :=
  match fuel, s with
  | S fuel, String a s' =>
    match List.find (λ p, has_prefix s p.1) l with
    | Some (k, v) => v +:+ replace_from fuel l (drop_str (String.length k) s)
    | None => String a (replace_from fuel l s')
    end
  | _, _ => ""
  end.
Definition Replace (l : list (string * string)) (s : string) : string := replace_from (String.length s) l s.

Definition trim_suffix (s suffix : string) : string :=
  let n := (String.length s - String.length suffix)%nat in
  if String.eqb (drop_str n s) suffix then String.substring 0 n s else s.

(** [u.RequestURI()] of a URL that escapes its path as Go does. *)
Definition RequestURI (u : url) : string :=
  let path := escape_with (λ a, unreserved a || one_of "$&+,/:;=@" a) "%20" (Path u) in
  (if String.eqb path "" then "/" else path) +:+
  if String.eqb (RawQuery u) "" then "" else "?" +:+ RawQuery u.

Section Server.
(** [strings.ToLower], with its Unicode tables; [http.ParseTime]; the address
    of an IP literal. *)
Variable ToLower : string → string.
Variable http_date : string → option time.
Variable ip_literal : string → option string.
Variable TwitchClientID : string.
(** Whether the server has a YouTubeAPIKey. *)
Variable has_key : bool.
Local Abbreviation Get := (Fetch.Get (@GClient) http_date).

Definition fetch {B} (endpoint : string) (f : json → option B) : prog (result B) :=
  match Parse ip_literal endpoint with
  | None => Ret (inl unavailable)
  | Some u =>
    r ←! Get (Client (Scheme u +:+ "://" +:+ Host u) "" "") (RequestURI u) f;
    Ret (match r with inl _ => inl unavailable | inr b => inr b end)
  end.
Definition request (endpoint : string) : prog (result doc) := fetch endpoint into_any_map.

Definition twitch (path token : string) (q : list (string * string)) : prog (result doc) :=
  r ←! Get (TwitchClient TwitchClientID token) ("/" +:+ path +:+ "?" +:+ values_encode q) into_any_map;
  Ret (match r with
       | inl e => inl (match as_http e with
                       | Some (s, _) => if (s =? 401) || (s =? 403) then denied "provider did not authorize this request"
                                        else upstreamError ("twitch " +:+ path) e
                       | None => upstreamError ("twitch " +:+ path) e
                       end)
       | inr d => inr d
       end).

Definition userToken (uid : string) : prog (result string) :=
  if String.eqb uid "" then Ret (inl ErrNoToken)
  else
    r ←! Op (GAccess uid "twitch");
    Ret (match r with
         | inl e => inl (if is_no_token e then ErrNoToken else upstreamError "twitch access token" e)
         | inr token => inr token
         end).

(** [if err != nil { return nil, unavailable() }]. *)
Definition or_unavailable {A} (r : result A) : result A := match r with inl _ => inl unavailable | inr a => inr a end.
Definition app_token (provider : string) : prog (result string) := r ←! Op (GApp provider); Ret (or_unavailable r).

(** [if err != nil { return nil, err }; k]. *)
Definition try {A B} (p : prog (result A)) (k : A → prog (result B)) : prog (result B) :=
  r ←! p; match r with inl e => Ret (inl e) | inr a => k a end.

(** ** The store *)

Definition Profile (uid provider : string) : prog (result doc) :=
  r ←! Op (GDb (Store.Get ("profiles/" +:+ uid)));
  Ret (match r with
       | inl e => if decide (status_code (Some e) = NotFound) then inr [] else inl e
       | inr d => inr (object (field d provider))
       end).
Definition broadcaster_query (channel : string) : db (result (list (string * doc))) :=
  Query "profiles" [("twitch.id", "==", VString channel)] 1.
Definition BroadcasterUID (channel : string) : prog (result string) :=
  r ←! Op (GDb (broadcaster_query channel));
  Ret (match r with inl e => inl e | inr [] => inr "" | inr ((uid, _) :: _) => inr uid end).

Definition lookup_ref (key : string) : string := "youtube-lookups/" +:+ query_escape key.
(** The fields of a cached lookup; one of another type is an error. *)
Definition cached_fields (d : doc) : option (list doc * time) :=
  results ← match field d "results" with
            | VNull => Some []
            | VList l => mapM (λ v, match v with VMap d => Some d | VNull => Some [] | _ => None end) l
            | _ => None
            end;
  at_ ← match field d "cachedAt" with VNull => Some zero_time | VTime t => Some t | _ => None end;
  Some (results, at_).
(** The results, unless there are none, they are too old, or reading failed. *)
Definition CachedYouTube (key : string) : prog (result (option (list doc))) :=
  r ←! Op (GDb (Store.Get (lookup_ref key)));
  match r with
  | inl e => Ret (if decide (status_code (Some e) = NotFound) then inr None else inl e)
  | inr d =>
    match cached_fields d with
    | None => Ret (inl (ErrMsg "firestore: cannot set type"))
    | Some (results, at_) =>
      now ←! Op (GClient KNow);
      Ret (inr (if (at_ =? zero_time) || (24 * hour <? time_sub now at_) then None else Some results))
    end
  end.
Definition cached_doc (results : list doc) : doc := [("results", objects results); ("cachedAt", VServerTimestamp)].
Definition CacheYouTube (key : string) (results : list doc) : prog (option error) :=
  Op (GDb (Set_ (lookup_ref key) (cached_doc results) false)).

(** ** Badges, statistics and viewers *)

Definition Badges (data : string) : prog (result value) :=
  match parseChannel data false with
  | inl e => Ret (inl e)
  | inr (p, channel) =>
    if negb (String.eqb p "twitch") then Ret (inr (VList []))
    else if negb (String.eqb channel "") && negb (numericID channel) then Ret (inl (bad "invalid channelId"))
    else
      try (app_token "twitch") (λ token,
      try (if String.eqb channel "" then twitch "chat/badges/global" token []
           else twitch "chat/badges" token [("broadcaster_id", channel)]) (λ res,
      Ret (inr (objects (array (field res "data"))))))
  end.

Definition Statistics (data : string) : prog (result value) :=
  match parseChannel data true with
  | inl e => Ret (inl e)
  | inr (p, channel) =>
    if negb (String.eqb p "twitch") || negb (numericID channel) then Ret (inl (bad "invalid provider or channelId"))
    else
      try (app_token "twitch") (λ token,
      try (twitch "streams" token [("user_id", channel); ("first", "1")]) (λ streamData,
      try (twitch "channels/followers" token [("broadcaster_id", channel); ("first", "1")]) (λ followers,
      try (twitch "channels" token [("broadcaster_id", channel)]) (λ channels,
      let stream := first (field streamData "data") in
      match first (field channels "data") with
      | None => Ret (inl unavailable)
      | Some channelData =>
        Ret (inr (VMap [("isOnline", VBool (match stream with Some _ => true | None => false end));
                        ("viewers", match stream with Some s => field s "viewer_count" | None => zero end);
                        ("followers", field followers "total");
                        ("language", field channelData "broadcaster_language")]))
      end))))
  end.

Definition id_of (u : doc) : string := text (field u "user_id").
Definition name_of (u : doc) : string := text (field u "user_name").

(** The pages of the chatters, [n] after this one at most. *)
Fixpoint chatters_from (n : nat) (channel moderator token after : string) (seen : list string) (users : list doc) :
    prog (result (list doc)) :=
  try (twitch "chat/chatters" token ([("broadcaster_id", channel); ("moderator_id", moderator); ("first", "1000")] ++
         if String.eqb after "" then [] else [("after", after)])) (λ res,
  let users := users ++ array (field res "data") in
  let after := text (field (object (field res "pagination")) "cursor") in
  if String.eqb after "" then Ret (inr users)
  else
    match n with
    | O => Ret (inl unavailable)
    | S n => if existsb (String.eqb after) seen then Ret (inl unavailable)
             else chatters_from n channel moderator token after (after :: seen) users
    end).

(** The users that hold a role; none when a request fails. *)
Fixpoint roles_from (path channel token : string) (batches : list (list doc)) (result : list doc) : prog (list doc) :=
  match batches with
  | [] => Ret result
  | users :: batches =>
    r ←! twitch path token ([("broadcaster_id", channel); ("first", "100")] ++ map (λ u, ("user_id", id_of u)) users);
    match r with
    | inl _ => Ret []
    | inr res => roles_from path channel token batches (result ++ array (field res "data"))
    end
  end.
Definition roles (path channel token : string) (users : list doc) : prog (list doc) :=
  roles_from path channel token (Jobs.chunks 100 users) [].

(** A group by name, and its members. *)
Definition group (name : string) (users : list doc) : doc :=
  let users := sort_by (λ u v, String.ltb (ToLower (name_of u)) (ToLower (name_of v))) users in
  [(name, VList (map (λ u, VString (name_of u)) users)); (name +:+ "Data", objects users)].
Definition viewer_groups (channel : string) (users mods vips : list doc) : doc :=
  let broadcaster := filter (λ u, id_of u = channel) users in
  let exclude := map id_of (broadcaster ++ mods ++ vips) in
  let viewers := filter (λ u, id_of u ∉ exclude) users in
  group "broadcaster" broadcaster ++ group "moderators" mods ++ group "vips" vips ++ group "viewers" viewers.

Definition chatters (channel uid : string) : prog (result value) :=
  r ←! userToken uid;
  match r with
  | inl _ => Ret (inl (denied "Twitch account authorization required"))
  | inr token =>
    profile ←! Profile uid "twitch";
    match profile with
    | inl _ => Ret (inl unavailable)
    | inr profile =>
      let moderator := text (field profile "id") in
      if negb (numericID moderator) then Ret (inl (denied "Twitch account authorization required"))
      else
        try (chatters_from 99 channel moderator token "" [] []) (λ users,
        mods ←! roles "moderation/moderators" channel token users;
        vips ←! roles "channels/vips" channel token users;
        Ret (inr (VMap (viewer_groups channel users mods vips))))
    end
  end.

(** The channel of a viewer list. *)
Definition viewer_channel (data : string) : option string :=
  raw ← unmarshal (into_string "") data;
  match split_char ":" raw with
  | [p; channel] => if String.eqb p "twitch" && numericID channel then Some channel else None
  | _ => None
  end.
Definition ViewerList (uid data : string) : prog (result value) :=
  if String.eqb uid "" then Ret (inl (ErrCallable "unauthenticated" "must be authenticated"))
  else
    match viewer_channel data with
    | None => Ret (inl (bad "invalid channel"))
    | Some channel =>
      broadcaster ←! BroadcasterUID channel;
      match broadcaster with
      | inl _ => Ret (inl unavailable)
      | inr broadcaster =>
        v ←! (if String.eqb broadcaster "" then Ret None
              else r ←! chatters channel broadcaster; Ret (match r with inl _ => None | inr v => Some v end));
        match v with
        | Some v => Ret (inr v)
        | None => chatters channel uid
        end
      end
    end.

(** ** Emotes *)

Record Emote := MkEmote { e_provider : string; e_category : value; e_id : value; e_code : string; e_image : string }.
Definition emote_value (e : Emote) : value :=
  VMap [("provider", VString (e_provider e)); ("category", e_category e); ("id", e_id e);
        ("code", VString (e_code e)); ("imageUrl", VString (e_image e))].

(** What loaded, or nothing. *)
Definition loaded {A} (f : A → list Emote) (r : result A) : list Emote := match r with inl _ => [] | inr a => f a end.

(** Both requests of a source. *)
Definition both {A} (global : prog (result A)) (local_ : prog (result doc)) (f : A → list Emote) (g : doc → list Emote) :
    prog (list Emote) :=
  Par global local_ (λ a l, Ret (loaded f a ++ loaded g l)).

Definition bttv_emote (category : value) (e : doc) : Emote :=
  MkEmote "bttv" category (field e "id") (text (field e "code"))
    ("https://cdn.betterttv.net/emote/" +:+ text (field e "id") +:+ "/3x").
Definition bttv (channel : string) : prog (list Emote) :=
  both (fetch "https://api.betterttv.net/3/cached/emotes/global" (into_list into_any_map))
    (request ("https://api.betterttv.net/3/cached/users/twitch/" +:+ channel))
    (map (bttv_emote VNull))
    (λ l, map (bttv_emote (VString "Channel Emotes")) (array (field l "channelEmotes")) ++
          map (bttv_emote (VString "Shared Emotes")) (array (field l "sharedEmotes"))).

Definition ffzSet (set : doc) : list Emote :=
  map (λ e, let urls := object (field e "urls") in
            let image := text (field urls "4") in
            let image := if String.eqb image "" then text (field urls "2") else image in
            let image := if String.eqb image "" then text (field urls "1") else image in
            MkEmote "ffz" (field set "title") (field e "id") (text (field e "name")) image)
    (array (field set "emoticons")).
Definition ffz_global (global : doc) : list Emote :=
  let sets := object (field global "sets") in
  concat (map (λ id, ffzSet (object (field sets (identifier id))))
            (match field global "default_sets" with VList l => l | _ => [] end)).
Definition ffz_local (l : doc) : list Emote :=
  ffzSet (object (field (object (field l "sets")) (identifier (field (object (field l "room")) "set")))).
Definition ffz (channel : string) : prog (list Emote) :=
  both (request "https://api.frankerfacez.com/v1/set/global")
    (request ("https://api.frankerfacez.com/v1/room/id/" +:+ channel)) ffz_global ffz_local.

Definition sevenEmotes (items : value) : list Emote :=
  map (λ e, MkEmote "7tv" VNull (field e "id") (text (field e "name"))
              ("https://cdn.7tv.app/emote/" +:+ text (field e "id") +:+ "/4x.webp")) (array items).
Definition sevenTV (channel : string) : prog (list Emote) :=
  both (request "https://7tv.io/v3/emote-sets/global") (request ("https://7tv.io/v3/users/twitch/" +:+ channel))
    (λ g, sevenEmotes (field g "emotes")) (λ l, sevenEmotes (field (object (field l "emote_set")) "emotes")).

(** An emote and its owner. *)
Definition newTwitchEmote (template : string) (e : doc) : Emote * string :=
  let owner := text (field e "owner_id") in
  let owner := if String.eqb owner "twitch" || String.eqb owner "0" then "" else owner in
  let scale := match field e "scale" with
               | VList l => match last l with Some v => KickWebhook.sprint v | None => "1.0" end
               | _ => "1.0"
               end in
  let image := Replace [("{{id}}", text (field e "id")); ("{{format}}", "default"); ("{{theme_mode}}", "dark");
                        ("{{scale}}", scale)] template in
  (MkEmote "twitch" VNull (field e "id") (text (field e "name")) image, owner).
Definition twitch_page (d : doc) : list (Emote * string) :=
  map (newTwitchEmote (text (field d "template"))) (array (field d "data")).

Fixpoint user_pages (n : nat) (token userID channel after : string) (acc : list (Emote * string)) :
    prog (result (list (Emote * string))) :=
  match n with
  | O => Ret (inl (upstreamError "twitch user emotes" (ErrMsg "provider response exceeded 50 pages")))
  | S n =>
    try (twitch "chat/emotes/user" token ([("user_id", userID); ("broadcaster_id", channel)] ++
           if String.eqb after "" then [] else [("after", after)])) (λ data,
    let acc := acc ++ twitch_page data in
    let after := text (field (object (field data "pagination")) "cursor") in
    if String.eqb after "" then Ret (inr acc) else user_pages n token userID channel after acc)
  end.
Definition userEmotes (token userID channel : string) : prog (result (list (Emote * string))) :=
  if String.eqb userID "" then Ret (inl (upstreamError "twitch user emotes" (ErrMsg "provider response missing user ID")))
  else user_pages 50 token userID channel "" [].

(** One batch of emote sets; none when it is unavailable. *)
Definition set_batch (token : string) (ids : list string) : prog (list (Emote * string)) :=
  r ←! twitch "chat/emotes/set" token (map (λ id, ("emote_set_id", id)) ids);
  Ret (match r with inl _ => [] | inr data => twitch_page data end).
Definition setEmotes (token login : string) : prog (result (list (Emote * string))) :=
  sets ←! Op (GEmoteSets token login);
  match sets with
  | inl _ => Ret (inr [])
  | inr sets =>
    if (5000 <? length sets)%nat
    then Ret (inl (upstreamError "twitch emote sets" (ErrMsg "provider response exceeded 5000 emote sets")))
    else batches ←! all (map (set_batch token) (Jobs.chunks 25 sets)); Ret (inr (concat batches))
  end.

(** The owners' names; an error is that of the batch that failed first. *)
Definition name_batch (token : string) (ids : list string) : prog (result (list (string * string))) :=
  try (twitch "users" token (map (λ id, ("id", id)) ids)) (λ data,
  Ret (inr (map (λ u, (text (field u "id"), text (field u "display_name"))) (array (field data "data"))))).
Definition failures {A} (l : list (result A)) : list error := omap (λ r, match r with inl e => Some e | inr _ => None end) l.
Definition successes {A} (l : list (result A)) : list A := omap (λ r, match r with inl _ => None | inr a => Some a end) l.
Definition name_map (l : list (string * string)) : gmap string string := foldl (λ m p, <[p.1 := p.2]> m) ∅ l.
Definition ownerNames (token : string) (owners : list string) : prog (result (gmap string string)) :=
  names ←! all (map (name_batch token) (Jobs.chunks 100 owners));
  match failures names with
  | [] => Ret (inr (name_map (concat (successes names))))
  | e :: l => n ←! Op (GFirst (S (length l))); Ret (inl (nth n (e :: l) e))
  end.

(** The owners in order, each once. *)
Definition distinct_owners (l : list (Emote * string)) : list string :=
  foldl (λ acc e, if String.eqb e.2 "" || existsb (String.eqb e.2) acc then acc else acc ++ [e.2]) [] l.
(** An emote in the category of its owner. *)
Definition categorized (categories : gmap string string) (x : Emote * string) : Emote :=
  let '(MkEmote p c i k u, owner) := x in
  let name := default "" (categories !! owner) in
  MkEmote p (if String.eqb name "" then c else VString name) i k u.

Definition twitchEmotes (token channel : string) : prog (result (list Emote)) :=
  try (twitch "users" token []) (λ user,
  let login := text (of_first (first (field user "data")) "login") in
  if String.eqb login "" then Ret (inl (upstreamError "twitch users" (ErrMsg "provider response missing user login")))
  else
    emotes ←! userEmotes token (text (of_first (first (field user "data")) "id")) channel;
    try (match emotes with inr l => Ret (inr l) | inl _ => setEmotes token login end) (λ emotes,
    try (ownerNames token (distinct_owners emotes)) (λ categories,
    Ret (inr (map (categorized categories) emotes))))).

(** The third-party sources, side by side. *)
Definition sources (channel : string) : prog (list Emote) :=
  Par (bttv channel) (Par (ffz channel) (sevenTV channel) (λ f s, Ret (f ++ s))) (λ b l, Ret (b ++ l)).
Definition Emotes (uid data : string) : prog (result value) :=
  match parseChannel data true with
  | inl e => Ret (inl e)
  | inr (p, channel) =>
    if negb (String.eqb p "twitch") then Ret (inr (VList []))
    else if negb (numericID channel) then Ret (inl (bad "invalid channelId"))
    else
      token ←! userToken uid;
      match (match token with inl e => if is_no_token e then inr "" else inl e | inr token => inr token end) with
      | inl e => Ret (inl e)
      | inr token =>
        Par (sources channel) (if String.eqb token "" then Ret (inr []) else twitchEmotes token channel)
            (λ parts r, Ret (match r with inl e => inl e | inr l => inr (VList (map emote_value (l ++ parts))) end))
      end
  end.

(** ** Search *)

Definition kickSlug (s : string) : bool :=
  (2 <=? String.length s)%nat && (String.length s <=? 25)%nat && all_chars (λ a, is_lower a || is_digit a || one_of "_-" a) s.
Definition youtubeID (s : string) : bool :=
  has_prefix s "UC" && (String.length s =? 24)%nat && all_chars id_char (drop_str 2 s).
(** The handle of a text that is one, perhaps after an @. *)
Definition youtubeHandle (s : string) : option string :=
  let h := trim_prefix s "@" in
  if negb (String.eqb h "") && all_chars (λ a, is_alnum a || one_of "_.-" a) h then Some h else None.

(** What follows [p], which is in lower case, in any case; U+017F is an s. *)
Fixpoint folded_after (p s : string) : option string :=
  match p, s with
  | "", _ => Some s
  | String c p, String a s' =>
    if Ascii.eqb (lower_char a) c then folded_after p s'
    else if Ascii.eqb c "s" && has_prefix s (utf8_encode 383) then folded_after p (drop_str 2 s) else None
  | _, "" => None
  end.
(** [(p)?k] *)
Definition optional (p : string) (k : string → bool) (s : string) : bool :=
  match folded_after p s with Some r => k r || k s | None => k s end.
Definition then_ (p : string) (k : string → bool) (s : string) : bool :=
  match folded_after p s with Some r => k r | None => false end.
Definition youtubeURL (s : string) : bool :=
  let host := then_ "youtube.com/" (λ _, true) in
  let site := λ s, then_ "www." host s || then_ "m." host s || host s in
  then_ "http" (optional "s" (then_ "://" site)) s || site s.

Record lookup := Lookup { l_id : string; l_handle : string }.

Definition parse_name (value : string) : option lookup :=
  if youtubeID value then Some (Lookup value "")
  else (λ h, Lookup "" (ToLower h)) <$> youtubeHandle value.
Definition parseYouTube (query : string) : option lookup :=
  let value := TrimSpace query in
  if youtubeURL value then
    u ← Parse ip_literal (if has_prefix (ToLower value) "http" then value else "https://" +:+ value);
    let path := trim_suffix (Path u) "/" in
    if has_prefix path "/channel/" then
      let id := trim_prefix path "/channel/" in if youtubeID id then Some (Lookup id "") else None
    else if has_prefix path "/@" then parse_name (drop_str 1 path) else None
  else parse_name value.

(** The query and the providers to search. *)
Definition parseSearch (data : string) : result (string * list string) :=
  match parse_json data with
  | Some (JStr query) => if (2048 <? String.length query)%nat then inl (bad "query too long") else inr (query, ["twitch"; "kick"])
  | _ =>
    match unmarshal (into_struct (λ p k j,
        if names k "query" then Some (j, p.2)
        else if names k "provider" then (λ s, (p.1, s)) <$> into_string p.2 j
        else Some p) (JNull, "")) data with
    | Some (q, provider) =>
      if existsb (String.eqb provider) ["twitch"; "kick"; "youtube"] then
        let query := match q with JStr s => s | _ => "" end in
        if (2048 <? String.length query)%nat then inl (bad "query too long") else inr (query, [provider])
      else inl (bad "unsupported provider")
    | None => inl (bad "unsupported provider")
    end
  end.

Definition followed_channel (c : doc) : doc :=
  [("provider", VString "twitch"); ("channelId", field c "user_id"); ("login", field c "user_login");
   ("displayName", field c "user_name");
   ("isOnline", VBool (match field c "type" with VString s => String.eqb s "live" | _ => false end));
   ("imageUrl", VString ("https://rtirl.com/pfp.png?provider=twitch&channelId=" +:+ text (field c "user_id")));
   ("categoryName", field c "game_name"); ("title", field c "title"); ("viewerCount", field c "viewer_count");
   ("language", field c "language")].
Definition followed (uid token : string) : prog (result value) :=
  profile ←! Profile uid "twitch";
  match profile with
  | inl _ => Ret (inl unavailable)
  | inr profile =>
    let id := text (field profile "id") in
    if String.eqb id "" then Ret (inl unavailable)
    else try (twitch "streams/followed" token [("user_id", id)]) (λ data,
         Ret (inr (objects (map followed_channel (array (field data "data"))))))
  end.

Definition twitch_channel (c : doc) : doc :=
  [("provider", VString "twitch"); ("channelId", field c "id"); ("login", field c "broadcaster_login");
   ("displayName", field c "display_name"); ("isOnline", field c "is_live"); ("imageUrl", field c "thumbnail_url");
   ("categoryName", field c "game_name"); ("title", field c "title"); ("language", field c "broadcaster_language")].
Definition searchTwitch (query : string) : prog (result (list doc)) :=
  if String.eqb query "" then Ret (inr [])
  else try (app_token "twitch") (λ token,
       try (twitch "search/channels" token [("query", query)]) (λ data,
       Ret (inr (map twitch_channel (array (field data "data")))))).

Definition kick_channel (id : string) (c : doc) (user : option doc) : doc :=
  let stream := object (field c "stream") in
  [("provider", VString "kick"); ("channelId", VString id); ("login", field c "slug");
   ("displayName", or_ (of_first user "name") (field c "slug")); ("isOnline", or_ (field stream "is_live") (VBool false));
   ("imageUrl", or_ (of_first user "profile_picture") (VString ("https://rtirl.com/pfp.png?provider=kick&channelId=" +:+ id)));
   ("categoryName", field (object (field c "category")) "name"); ("title", field c "stream_title");
   ("viewerCount", or_ (field stream "viewer_count") zero); ("language", field stream "language")].
Definition searchKick (query : string) : prog (list doc) :=
  let slug := ToLower (TrimSpace query) in
  if negb (kickSlug slug) then Ret []
  else
    token ←! Op (GApp "kick");
    match token with
    | inl _ => Ret []
    | inr token =>
      data ←! Get (KickClient token) ("/channels?slug=" +:+ query_escape slug) into_any_map;
      match data with
      | inl _ => Ret []
      | inr data =>
        match first (field data "data") with
        | None => Ret []
        | Some c =>
          let id := identifier (field c "broadcaster_user_id") in
          users ←! Get (KickClient token) ("/users?id=" +:+ query_escape id) into_any_map;
          let user := match users with inr users => first (field users "data") | inl _ => None end in
          Ret [kick_channel id c user]
        end
      end
    end.

(** The items of an answer, if it has any member of that name. *)
Definition into_items : json → option (option (list doc)) :=
  into_field "Items" (λ _ j, match j with JNull => Some None | _ => Some <$> into_list into_any_map j end) None.
(** The channel of an answer; [None] when it is malformed. *)
Definition youtube_channel (handle : string) (c : doc) : option doc :=
  let snippet := object (field c "snippet") in
  let id := text (field c "id") in
  if negb (youtubeID id) || String.eqb (text (field snippet "title")) "" then None
  else
    let login := text (field snippet "customUrl") in
    let login := if String.eqb login "" then handle else login in
    let login := if String.eqb login "" then id else login in
    let thumbs := object (field snippet "thumbnails") in
    Some [("provider", VString "youtube"); ("channelId", field c "id"); ("login", VString (ToLower (trim_prefix login "@")));
          ("displayName", field snippet "title");
          ("imageUrl", or_ (field (object (field thumbs "default")) "url")
                           (or_ (field (object (field thumbs "medium")) "url") (VString "")));
          ("isOnline", VBool false)].
(** What an answer says of the channel: nothing when it is malformed. *)
Definition youtube_results (handle : string) (items : list doc) : option (list doc) :=
  match items with [] => Some [] | c :: _ => (λ d, [d]) <$> youtube_channel handle c end.

Definition youtube_key (l : lookup) : string := if String.eqb (l_id l) "" then "@" +:+ l_handle l else l_id l.
Definition youtube_path (l : lookup) (apiKey : string) : string :=
  "/channels?" +:+ values_encode ([("part", "snippet"); ("key", apiKey)] ++
    if String.eqb (l_id l) "" then [("forHandle", "@" +:+ l_handle l)] else [("id", l_id l)]).
Definition searchYouTube (query : string) : prog (list doc) :=
  match parseYouTube query with
  | None => Ret []
  | Some l =>
    let key := youtube_key l in
    cached ←! CachedYouTube key;
    match cached with
    | inr (Some results) => Ret results
    | _ =>
      if negb has_key then Ret []
      else
        apiKey ←! Op GKey;
        match apiKey with
        | inl _ => Ret []
        | inr apiKey =>
          if String.eqb apiKey "" then Ret []
          else
            data ←! Get (YouTubeClient "") (youtube_path l apiKey) into_items;
            match data with
            | inr (Some items) =>
              match youtube_results (l_handle l) items with
              | None => Ret []
              | Some results => CacheYouTube key results ;! Ret results
              end
            | _ => Ret []
            end
        end
    end
  end.

Definition search_one (query provider : string) : prog (result (list doc)) :=
  if String.eqb provider "twitch" then searchTwitch query
  else if String.eqb provider "kick" then l ←! searchKick query; Ret (inr l)
  else if String.eqb provider "youtube" then l ←! searchYouTube query; Ret (inr l)
  else Ret (inr []).

(** The login that was asked for goes first. *)
Definition wanted_login (query : string) : string :=
  match parseYouTube query with
  | Some l => if String.eqb (l_handle l) "" then ToLower (TrimSpace query) else l_handle l
  | None => ToLower (TrimSpace query)
  end.
Definition exact (query : string) (c : doc) : bool := String.eqb (ToLower (text (field c "login"))) (wanted_login query).
Definition ranked (query : string) (l : list doc) : list doc :=
  sort_by (λ c d, exact query c && negb (exact query d)) l.

Definition search_all (query : string) (providers : list string) : prog (result value) :=
  batches ←! all (map (search_one query) providers);
  match failures batches with
  | e :: l => n ←! Op (GFirst (S (length l))); Ret (inl (nth n (e :: l) e))
  | [] => Ret (inr (objects (ranked query (concat (successes batches)))))
  end.
Definition Search (uid data : string) : prog (result value) :=
  match parseSearch data with
  | inl e => Ret (inl e)
  | inr (query, providers) =>
    if negb (String.eqb uid "") && String.eqb query "" && String.eqb (default "" (head providers)) "twitch" then
      token ←! userToken uid;
      match token with
      | inr token => followed uid token
      | inl e => if is_no_token e then search_all query providers else Ret (inl e)
      end
    else search_all query providers
  end.

(** [Register]: whether a callable needs a user, and its handler. *)
Definition handler (name : string) : option (bool * (string → string → prog (result value))) :=
  if String.eqb name "search" then Some (false, Search)
  else if String.eqb name "getEmotes" then Some (false, Emotes)
  else if String.eqb name "getBadges" then Some (false, λ _, Badges)
  else if String.eqb name "getViewerList" then Some (true, ViewerList)
  else if String.eqb name "getStatistics" then Some (false, λ _, Statistics)
  else None.
End Server.

(** ** Examples *)

Example youtube_names :
  let parse := parseYouTube to_lower (λ _, None) in
  parse " @Some.Name " = Some (Lookup "" "some.name") ∧ parse "Some-Name" = Some (Lookup "" "some-name") ∧
  parse "UCabcdefghijklmnopqrstuv" = Some (Lookup "UCabcdefghijklmnopqrstuv" "") ∧
  parse "https://www.youtube.com/@Some.Name/?x=1" = Some (Lookup "" "some.name") ∧
  parse "M.YouTube.com/channel/UCabcdefghijklmnopqrstuv/" = Some (Lookup "UCabcdefghijklmnopqrstuv" "") ∧
  parse "youtube.com/channel/UCshort" = None ∧ parse "youtube.com/watch?v=x" = None ∧ parse "two words" = None ∧
  parse ("http" +:+ utf8_encode 383 +:+ "://youtube.com/@x") = None.
Proof. vm_compute. split_and!; reflexivity. Qed.

Example emote_image :
  newTwitchEmote "https://cdn/{{id}}/{{format}}/{{theme_mode}}/{{scale}}"
    [("id", VString "7"); ("name", VString "Kappa"); ("owner_id", VString "0"); ("scale", VList [VString "1.0"; VString "3.0"])]
  = (MkEmote "twitch" VNull (VString "7") "Kappa" "https://cdn/7/default/dark/3.0", "").
Proof. vm_compute. reflexivity. Qed.

Example endpoints :
  (λ u, (Scheme u +:+ "://" +:+ Host u, RequestURI u)) <$> Parse (λ _, None) "https://7tv.io/v3/users/twitch/123"
  = Some ("https://7tv.io", "/v3/users/twitch/123").
Proof. vm_compute. reflexivity. Qed.

(** A world of documents, found profiles and pages, by the authorization and
    the path of a request; a user's token is the user's name. *)
Definition serving (docs : string → result doc) (found : list (string * doc)) (pages : string → string → Z * string) : env geff :=
  λ A _ op,
  match op in geff A return A with
  | GClient op =>
    match op in keff A return A with
    | KDo c _ path _ => let r := pages (c_auth c) path in inr (Raw r.1 ∅ (quoted r.2))
    | KNow => time_unix 1709276406 0
    | KSleep _ | KDial | KSay _ => None
    end
  | GDb op =>
    match op in db A return A with
    | Store.Get p | TxGet p => docs p
    | Query _ _ _ => inr found
    | _ => None
    end
  | GAccess uid _ => inr uid
  | GApp p => inr ("app-" +:+ p)
  | GKey => inr "key"
  | GEmoteSets _ _ => inr ["0"; "300"]
  | GFirst _ => 0%nat
  end.
Definition no_doc (path : string) : result doc := inl (ErrStatus NotFound).
(** A call, each goroutine in turn. *)
Definition call (η : env geff) (name uid data : string) : option (result value * trace geff) :=
  '(_, h) ← handler to_lower (λ _, None) (λ _, None) "id" true name; solo η (h uid (quoted data)) [].
Definition answer_of (η : env geff) (name uid data : string) : option string :=
  '(r, _) ← call η name uid data;
  match r with inr v => Some (marshal (to_json v)) | inl e => None end.

(** The exact login goes first; Kick has no such channel. *)
Definition search_pages (auth path : string) : Z * string :=
  if has_prefix path "/search/channels?query=Two" then
    (200, "{'data':[{'id':'1','broadcaster_login':'one','is_live':true},{'id':'2','broadcaster_login':'TWO'}]}")
  else (404, "").
Example search_exact_first :
  (λ r, match r.1 with inr (VList l) => map (λ v, text (field (object v) "channelId")) l | _ => [] end) <$>
    call (serving no_doc [] search_pages) "search" "" "'Two'" = Some ["2"; "1"].
Proof. vm_compute. reflexivity. Qed.
Example empty_search : answer_of (serving no_doc [] search_pages) "search" "" "{'query':'','provider':'twitch'}" = Some "[]".
Proof. vm_compute. reflexivity. Qed.

(** Emotes without a user: the sources that answer. *)
Definition emote_pages (auth path : string) : Z * string :=
  if has_prefix path "/3/cached/emotes/global" then (200, "[{'id':'g','code':'wow'}]")
  else if has_prefix path "/v1/set/global" then
    (200, "{'default_sets':[3],'sets':{'3':{'title':'Global','emoticons':[{'id':7,'name':'zed','urls':{'1':'u1','2':'u2'}}]}}}")
  else (500, "").
Example emotes_without_user :
  answer_of (serving no_doc [] emote_pages) "getEmotes" "" "{'provider':'twitch','channelId':'1'}" =
  Some (quoted "[{'category':null,'code':'wow','id':'g','imageUrl':'https://cdn.betterttv.net/emote/g/3x','provider':'bttv'},{'category':'Global','code':'zed','id':7,'imageUrl':'u2','provider':'ffz'}]").
Proof. vm_compute. reflexivity. Qed.

(** The broadcaster's token is refused, the caller's is not; two pages. *)
Definition viewer_pages (auth path : string) : Z * string :=
  if String.eqb auth "Bearer owner" then (403, "")
  else if has_prefix path "/chat/chatters?after=c1" then
    (200, "{'data':[{'user_id':'3','user_name':'Abe'}],'pagination':{}}")
  else if has_prefix path "/chat/chatters" then
    (200, "{'data':[{'user_id':'2','user_name':'bob'},{'user_id':'1','user_name':'Own'}],'pagination':{'cursor':'c1'}}")
  else if has_prefix path "/channels/vips" then (200, "{'data':[]}")
  else (403, "").
Definition viewer_env : env geff :=
  serving (λ p, inr [("twitch", VMap [("id", VString (if String.eqb p "profiles/owner" then "1" else "9"))])]) [("owner", [])] viewer_pages.
Example viewers_example :
  answer_of viewer_env "getViewerList" "me" "'twitch:1'" = Some (quoted
    "{'broadcaster':['Own'],'broadcasterData':[{'user_id':'1','user_name':'Own'}],'moderators':[],'moderatorsData':[],'viewers':['Abe','bob'],'viewersData':[{'user_id':'3','user_name':'Abe'},{'user_id':'2','user_name':'bob'}],'vips':[],'vipsData':[]}").
Proof. vm_compute. reflexivity. Qed.
