(* ===== verification/CatalogSafe.v ===== *)
(** * What a catalog call may do

    Every effect of the callables of Catalog.v is justified, in every
    interleaving of their requests: what they read, whose tokens they use, and
    the one document they write. *)

From stdpp Require Import base gmap strings list.
From S2P Require Import Prelude GoErr Json Effects Conc Store JsonText HttpServer Http Url UrlParse Clients Fetch Catalog.
From S2P Require Jobs.
From Stdlib Require Import Ascii.

(** ** The hosts of the third-party sources *)

Lemma cut_app c p s : contains_char p c = false → cut c (p +:+ s) = (p +:+ (cut c s).1, (cut c s).2).
Proof.
  induction p as [|a p IH]; intros H.
  { change (cut c s = ((cut c s).1, (cut c s).2)). by destruct (cut c s). }
  rewrite !app_str_cons. cbn in H |- *. destruct (Ascii.eqb a c); [done|]. by rewrite IH.
Qed.

Lemma parse_https ip_literal host x u :
  contains_char host "#"%char = false → contains_char host "?"%char = false → contains_char host "/"%char = false →
  parseAuthority ip_literal host = Some host →
  Parse ip_literal ("https://" +:+ host +:+ "/" +:+ x) = Some u → Scheme u = "https" ∧ Host u = host.
Proof.
  intros H1 H2 H3 Ha. unfold Parse.
  rewrite (cut_app "#"%char "https://") by done. rewrite (cut_app "#"%char host) by done. rewrite (cut_app "#"%char "/") by done.
  cbn [fst snd]. destruct (cut "#"%char x) as [y frag]. cbn [fst snd].
  destruct (negb _); [done|]. replace (String.eqb _ "*") with false by done.
  change (getScheme ("https://" +:+ host +:+ "/" +:+ y)) with (Some ("https", "//" +:+ host +:+ "/" +:+ y)).
  cbn [mbind option_bind]. unfold parse_rest.
  rewrite (cut_app "?"%char "//") by done. rewrite (cut_app "?"%char host) by done. rewrite (cut_app "?"%char "/") by done.
  cbn [fst snd]. destruct (cut "?"%char y) as [z query]. cbn [fst snd].
  change (drop_str 2 ("//" +:+ host +:+ "/" +:+ z)) with (host +:+ "/" +:+ z).
  rewrite (cut_app "/"%char host) by done. cbn [fst snd].
  change (has_prefix ("//" +:+ host +:+ "/" +:+ z) "/") with true.
  replace (has_prefix ("//" +:+ host +:+ "/" +:+ z) "//") with true by (unfold has_prefix; cbn; by destruct (host +:+ _)).
  cbn -[path_unescape parseAuthority].
  change (cut "/"%char ("/" +:+ z)) with ("", Some z). cbn [fst snd]. rewrite app_str_empty, Ha. cbn.
  destruct (path_unescape z); cbn; [|done]. intros (? & _ & [= <-])%bind_Some. done.
Qed.

Section Justified.
Variables (ToLower : string → string) (http_date : string → option time) (ip_literal : string → option string).
Variables (TwitchClientID : string) (has_key : bool).
(** A call: its name, the user ("" when there is none), and its data. *)
Variables name uid data : string.
Local Abbreviation parseYouTube := (parseYouTube ToLower ip_literal).

(** The user whose Twitch token may be used: the caller, or for a viewer list
    the user with the profile of that channel. *)
Definition subject (u : string) (t : trace geff) : Prop :=
  u ≠ "" ∧ (u = uid ∨ (name = "getViewerList" ∧ uid ≠ "" ∧
    ∃ channel d l, viewer_channel data = Some channel ∧ Ev (GDb (broadcaster_query channel)) (inr ((u, d) :: l)) ∈ t)).
Definition user_granted (u token : string) (t : trace geff) : Prop :=
  subject u t ∧ Ev (GAccess u "twitch") (inr token) ∈ t.
(** The Twitch account in the profile of [u]. *)
Definition account (u id : string) (t : trace geff) : Prop :=
  ∃ d, Ev (GDb (Store.Get ("profiles/" +:+ u))) (inr d) ∈ t ∧ id = text (field (object (field d "twitch")) "id").

(** The search asks [provider] for [query]. *)
Definition asks (query provider : string) : Prop :=
  name = "search" ∧ ∃ l, parseSearch data = inr (query, l) ∧ provider ∈ l.
Definition looks_up (l : lookup) : Prop := ∃ query, asks query "youtube" ∧ parseYouTube query = Some l.

(** A request to Twitch. Viewer lists and followed streams use a user's token,
    for that user's own account. *)
Definition twitch_ok (path token : string) (q : list (string * string)) (t : trace geff) : Prop :=
  (Ev (GApp "twitch") (inr token) ∈ t ∧
   ((name = "getBadges" ∧ path ∈ ["chat/badges/global"; "chat/badges"]) ∨
    (name = "getStatistics" ∧ path ∈ ["streams"; "channels/followers"; "channels"]) ∨
    (path = "search/channels" ∧ ∃ query, asks query "twitch" ∧ query ≠ "" ∧ q = [("query", query)]))) ∨
  (∃ u, user_granted u token t ∧
   ((name = "getEmotes" ∧ u = uid ∧ path ∈ ["users"; "chat/emotes/user"; "chat/emotes/set"]) ∨
    (name = "search" ∧ u = uid ∧ path = "streams/followed" ∧ ∃ id, id ≠ "" ∧ account u id t ∧ q = [("user_id", id)]) ∨
    (name = "getViewerList" ∧ ∃ channel, viewer_channel data = Some channel ∧ ("broadcaster_id", channel) ∈ q ∧
       (path ∈ ["moderation/moderators"; "channels/vips"] ∨
        (path = "chat/chatters" ∧ ∃ id, numericID id = true ∧ account u id t ∧ ("moderator_id", id) ∈ q))))).

(** Third-party hosts are asked without credentials. *)
Definition third_party (c : client) : Prop :=
  c_auth c = "" ∧ c_id c = "" ∧ c_base c ∈ ["https://api.betterttv.net"; "https://api.frankerfacez.com"; "https://7tv.io"].

Definition get_ok (c : client) (path : string) (t : trace geff) : Prop :=
  (∃ p token q, c = TwitchClient TwitchClientID token ∧ path = "/" +:+ p +:+ "?" +:+ values_encode q ∧ twitch_ok p token q t) ∨
  (∃ token query, c = KickClient token ∧ Ev (GApp "kick") (inr token) ∈ t ∧ asks query "kick" ∧
     (path = "/channels?slug=" +:+ query_escape (ToLower (Text.TrimSpace query)) ∨ has_prefix path "/users?id=" = true)) ∨
  (∃ l key, c = YouTubeClient "" ∧ path = youtube_path l key ∧ looks_up l ∧ Ev GKey (inr key) ∈ t ∧ key ≠ "") ∨
  (name = "getEmotes" ∧ third_party c).

(** What YouTube answered about a lookup, when it is well formed. *)
Definition youtube_says (l : lookup) (results : list doc) (t : trace geff) : Prop :=
  ∃ key w items, Ev (GClient (KDo (YouTubeClient "") GET (youtube_path l key) None)) (inr w) ∈ t ∧
    Err w = None ∧ Decode into_items w = inr (Some items) ∧ youtube_results ToLower (l_handle l) items = Some results.

Definition catalog_ok (t : trace geff) (e : ev geff) : Prop :=
  match e with
  | Ev op _ =>
    match op with
    | GClient op =>
      match op with
      | KDo c m path body => m = GET ∧ body = None ∧ get_ok c path t
      | KNow | KSleep _ => True
      | _ => False
      end
    | GDb op =>
      match op with
      | Store.Get p => (∃ u, subject u t ∧ p = "profiles/" +:+ u) ∨ (∃ l, looks_up l ∧ p = lookup_ref (youtube_key l))
      | Set_ p d merge => ∃ l results, looks_up l ∧ p = lookup_ref (youtube_key l) ∧ d = cached_doc results ∧
                          merge = false ∧ youtube_says l results t
      | Query c w n => uid ≠ "" ∧ ∃ channel, viewer_channel data = Some channel ∧ Query c w n = broadcaster_query channel
      | _ => False
      end
    | GAccess u p => p = "twitch" ∧ subject u t
    | GApp p => (p = "twitch" ∧ name ∈ ["search"; "getBadges"; "getStatistics"]) ∨ (p = "kick" ∧ name = "search")
    | GKey => name = "search"
    | GEmoteSets token _ => name = "getEmotes" ∧ user_granted uid token t
    | GFirst _ => True
    end
  end.

Lemma stable_subject u : stable (subject u).
Proof. unfold subject. auto 20 with effects. Qed.
Lemma stable_granted u token : stable (user_granted u token).
Proof. apply stable_and; [apply stable_subject|apply stable_event]. Qed.
Lemma stable_account u id : stable (account u id).
Proof. unfold account. auto with effects. Qed.
Hint Resolve stable_subject stable_granted stable_account : effects.
Hint Extern 2 (stable _) => apply stable_all; intros : effects.

Local Abbreviation upholds := (upholds catalog_ok).
Local Abbreviation safe_from := (safe_from catalog_ok).
Local Abbreviation Get := (Fetch.Get (@GClient) http_date).

Ltac keep := solve [auto 20 with effects].
Ltac leaf := solve [apply upholds_ret; keep].
Ltac branch := repeat match goal with |- upholds _ (match ?x with _ => _ end) => destruct x eqn:? end; try leaf.

(** A part that may fail. *)
Lemma safe_try {A B} F (p : prog (result A)) (k : A → prog (result B)) (R : result A → trace geff → Prop) :
  stable F → safe_from F p (λ r t, F t ∧ R r t) → (∀ r, stable (R r)) →
  (∀ a, upholds (λ t, F t ∧ R (inr a) t) (k a)) → upholds F (try p k).
Proof.
  intros HF Hp HR Hk. unfold try. eapply safe_bind; [exact Hp|]. intros [e|a].
  - apply safe_ret; [by apply stable_and|naive_solver].
  - eapply upholds_weaken; [apply Hk|done|naive_solver].
Qed.
Lemma upholds_try {A B} F (p : prog (result A)) (k : A → prog (result B)) :
  stable F → upholds F p → (∀ a, upholds F (k a)) → upholds F (try p k).
Proof. intros HF Hp Hk. apply upholds_bind; [done|]. intros [e|a]; [by apply upholds_ret|apply Hk]. Qed.

Lemma safe_lookup {B} F c path (f : json → option B) : stable F → (∀ t, F t → get_ok c path t) →
  safe_from F (Get c path f) (λ r t, F t ∧ ∀ b, r = inr b →
    ∃ w, Ev (GClient (KDo c GET path None)) (inr w) ∈ t ∧ Err w = None ∧ Decode f w = inr b).
Proof. intros HF HP. apply (safe_Get (@GClient)); [done..|]. intros t a Ht. cbn. auto. Qed.
Lemma upholds_get {B} F c path (f : json → option B) : stable F → (∀ t, F t → get_ok c path t) → upholds F (Get c path f).
Proof. intros HF HP. eapply safe_conseq; [by apply safe_lookup|done|naive_solver]. Qed.

Lemma upholds_twitch F path token q : stable F → (∀ t, F t → twitch_ok path token q t) →
  upholds F (twitch http_date TwitchClientID path token q).
Proof.
  intros HF HP. apply upholds_bind; [|intros; leaf]. apply upholds_get; [done|]. intros t Ht.
  left. exists path, token, q. auto.
Qed.

Lemma safe_userToken F u : stable F → (∀ t, F t → u ≠ "" → subject u t) →
  safe_from F (userToken u) (λ r t, F t ∧ ∀ token, r = inr token → user_granted u token t).
Proof.
  intros HF HS. unfold userToken. destruct (String.eqb_spec u "") as [|Hne]; [apply safe_ret; [done|naive_solver]|].
  apply safe_step; [done|intros; cbn; auto|]. intros a. apply safe_ret; [keep|]. intros t [Ht Ha]. split; [done|].
  intros token Hr. split; [by apply HS|]. by destruct a; simplify_eq.
Qed.
Lemma upholds_app F p : stable F →
  ((p = "twitch" ∧ name ∈ ["search"; "getBadges"; "getStatistics"]) ∨ (p = "kick" ∧ name = "search")) →
  safe_from F (app_token p) (λ r t, F t ∧ ∀ token, r = inr token → Ev (GApp p) (inr token) ∈ t).
Proof.
  intros HF Hp. apply safe_step; [done|by intros|]. intros a. apply safe_ret; [keep|]. intros t [Ht Ha]. split; [done|].
  by destruct a; intros token [= <-].
Qed.
Lemma safe_Profile F u p : stable F → (∀ t, F t → subject u t) → p = "twitch" →
  safe_from F (Profile u p) (λ r t, F t ∧ ∀ d id, r = inr d → id = text (field d "id") → id ≠ "" → account u id t).
Proof.
  intros HF HS ->. apply safe_step; [done|intros t a Ht; cbn; left; eauto|]. intros a. apply safe_ret; [keep|].
  intros t [Ht Ha]. split; [done|]. intros d id Hr -> Hid. destruct a as [e|x].
  - by destruct (decide _); simplify_eq.
  - injection Hr as <-. by exists x.
Qed.

(** ** The parts of each call *)

Lemma upholds_fetch {B} F host x (f : json → option B) : stable F → name = "getEmotes" →
  host ∈ ["api.betterttv.net"; "api.frankerfacez.com"; "7tv.io"] →
  upholds F (fetch http_date ip_literal ("https://" +:+ host +:+ "/" +:+ x) f).
Proof.
  intros HF Hn Hh. unfold fetch. destruct (Parse _ _) as [u|] eqn:Ep; [|leaf].
  apply parse_https in Ep as [-> ->].
  2-5: by repeat (apply elem_of_cons in Hh as [->|Hh]; [done|]); apply elem_of_nil in Hh.
  apply upholds_bind; [|intros [|]; leaf]. apply upholds_get; [done|]. intros t _. right. right. right.
  split; [done|]. split_and!; [done..|].
  change (c_base _) with ("https://" +:+ host).
  repeat (apply elem_of_cons in Hh as [->|Hh]; [set_solver|]). by apply elem_of_nil in Hh.
Qed.

Lemma upholds_both {A} F (g : prog (result A)) l fg fl : upholds F g → upholds F l → stable F → upholds F (both g l fg fl).
Proof. intros Hg Hl HF. apply upholds_par; [done..|]. intros. leaf. Qed.

Lemma upholds_sources F channel : stable F → name = "getEmotes" → upholds F (sources http_date ip_literal channel).
Proof.
  intros HF Hn.
  assert (Hb : upholds F (bttv http_date ip_literal channel)).
  { apply upholds_both; [| |done];
      [apply (upholds_fetch F "api.betterttv.net" "3/cached/emotes/global")
      |apply (upholds_fetch F "api.betterttv.net" ("3/cached/users/twitch/" +:+ channel))]; set_solver. }
  assert (Hf : upholds F (ffz http_date ip_literal channel)).
  { apply upholds_both; [| |done];
      [apply (upholds_fetch F "api.frankerfacez.com" "v1/set/global")
      |apply (upholds_fetch F "api.frankerfacez.com" ("v1/room/id/" +:+ channel))]; set_solver. }
  assert (Hs : upholds F (sevenTV http_date ip_literal channel)).
  { apply upholds_both; [| |done];
      [apply (upholds_fetch F "7tv.io" "v3/emote-sets/global")
      |apply (upholds_fetch F "7tv.io" ("v3/users/twitch/" +:+ channel))]; set_solver. }
  apply upholds_par; [done| |intros; leaf]. apply upholds_par; [done..|intros; leaf].
Qed.

(** The requests of emotes, with the caller's token. *)
Lemma upholds_emote_page F token path q : stable F → name = "getEmotes" → (∀ t, F t → user_granted uid token t) →
  path ∈ ["users"; "chat/emotes/user"; "chat/emotes/set"] → upholds F (twitch http_date TwitchClientID path token q).
Proof.
  intros HF Hn HT Hp. apply upholds_twitch; [done|]. intros t Ht. right. exists uid. split; [by apply HT|]. left. done.
Qed.

(** The caller's token, known by [F]. *)
Definition holds_token (token : string) (F : trace geff → Prop) : Prop :=
  stable F ∧ name = "getEmotes" ∧ ∀ t, F t → user_granted uid token t.
Ltac emote_page := solve [apply upholds_emote_page; [keep|done|naive_solver|set_solver]].

Lemma upholds_user_pages F token n id channel after acc : holds_token token F →
  upholds F (user_pages http_date TwitchClientID n token id channel after acc).
Proof.
  intros (HF & Hn & HT). revert after acc. induction n as [|n IH]; intros after acc; [leaf|].
  apply upholds_try; [done|emote_page|]. intros d. cbv zeta. branch. apply IH.
Qed.
Lemma upholds_setEmotes F token login : holds_token token F → upholds F (setEmotes http_date TwitchClientID token login).
Proof.
  intros (HF & Hn & HT). unfold setEmotes. apply upholds_op; [done|cbn; by auto|].
  intros sets. branch. apply upholds_bind; [|intros; leaf].
  apply upholds_all; [keep|]. intros p (ids & -> & _)%list_elem_of_fmap. apply upholds_bind; [emote_page|intros; leaf].
Qed.
Lemma upholds_ownerNames F token owners : holds_token token F → upholds F (ownerNames http_date TwitchClientID token owners).
Proof.
  intros (HF & Hn & HT). unfold ownerNames. apply upholds_bind.
  - apply upholds_all; [done|]. intros p (ids & -> & _)%list_elem_of_fmap.
    apply upholds_try; [done|emote_page|intros; leaf].
  - intros names. branch. apply upholds_op; [done|done|]. intros. leaf.
Qed.
Lemma upholds_twitchEmotes F token channel : holds_token token F →
  upholds F (twitchEmotes http_date TwitchClientID token channel).
Proof.
  intros H. destruct H as (HF & Hn & HT) eqn:EH. clear EH. unfold twitchEmotes.
  apply upholds_try; [done|emote_page|]. intros user. cbv zeta. branch.
  apply upholds_bind; [unfold userEmotes; branch; by apply upholds_user_pages|].
  intros emotes. apply upholds_try; [done|branch; by apply upholds_setEmotes|].
  intros l. apply upholds_try; [done|by apply upholds_ownerNames|intros; leaf].
Qed.

Lemma upholds_Emotes F d : stable F → name = "getEmotes" →
  upholds F (Emotes http_date ip_literal TwitchClientID uid d).
Proof.
  intros HF Hn. unfold Emotes. branch.
  eapply safe_bind; [apply (safe_userToken F); [done|]|].
  { intros t _ Hu. split; [done|by left]. }
  intros [e|token].
  - apply (upholds_weaken _ _ F); [|naive_solver|done].
    destruct (is_no_token e); [|leaf]. apply upholds_par; [by apply upholds_sources|leaf|intros; leaf].
  - eapply (upholds_weaken _ _ (λ t, F t ∧ user_granted uid token t)); [|naive_solver|naive_solver].
    apply upholds_par; [apply upholds_sources; [keep|done]| |intros; leaf].
    branch. apply upholds_twitchEmotes. split_and!; [keep|done|naive_solver].
Qed.

(** With an app token for Twitch. *)
Lemma upholds_try_app {A} F (k : string → prog (result A)) : stable F → name ∈ ["search"; "getBadges"; "getStatistics"] →
  (∀ token, upholds (λ t, F t ∧ Ev (GApp "twitch") (inr token) ∈ t) (k token)) → upholds F (try (app_token "twitch") k).
Proof.
  intros HF Hn Hk. eapply safe_try; [done|by apply upholds_app; auto|intros; keep|].
  intros token. eapply upholds_weaken; [apply Hk|naive_solver|naive_solver].
Qed.

Lemma upholds_Badges F d : stable F → name = "getBadges" → upholds F (Badges http_date TwitchClientID d).
Proof.
  intros HF Hn. unfold Badges. branch. apply upholds_try_app; [done|set_solver|]. intros token.
  apply upholds_try; [keep| |intros; leaf].
  branch; (apply upholds_twitch; [keep|]); intros t [_ Ht]; left; (split; [done|]); left; set_solver.
Qed.

Lemma upholds_Statistics F d : stable F → name = "getStatistics" → upholds F (Statistics http_date TwitchClientID d).
Proof.
  intros HF Hn. unfold Statistics. branch. apply upholds_try_app; [done|set_solver|]. intros token.
  assert (H : ∀ path q, path ∈ ["streams"; "channels/followers"; "channels"] →
    upholds (λ t, F t ∧ Ev (GApp "twitch") (inr token) ∈ t) (twitch http_date TwitchClientID path token q)).
  { intros path q Hp. apply upholds_twitch; [keep|]. intros t [_ Ht]. left. split; [done|]. right. by left. }
  apply upholds_try; [keep|apply H; set_solver|]. intros streams.
  apply upholds_try; [keep|apply H; set_solver|]. intros followers.
  apply upholds_try; [keep|apply H; set_solver|]. intros channels. cbv zeta. branch.
Qed.

(** A viewer list with the token of [u], for the account [id]. *)
Definition viewer_of (channel u token id : string) (F : trace geff → Prop) : Prop :=
  stable F ∧ name = "getViewerList" ∧ viewer_channel data = Some channel ∧ numericID id = true ∧
  ∀ t, F t → user_granted u token t ∧ account u id t.

Lemma upholds_chatters_from F channel u token id n after seen users : viewer_of channel u token id F →
  upholds F (chatters_from http_date TwitchClientID n channel id token after seen users).
Proof.
  intros (HF & Hn & Hc & Hid & HT). revert after seen users. induction n as [|n IH]; intros after seen users;
    (apply upholds_try; [done| |intros res; cbv zeta; branch]); [| |apply IH];
    (apply upholds_twitch; [done|]; intros t [Hg Ha]%HT; right; exists u; split; [done|]; right; right; split; [done|];
     exists channel; split; [done|]; split; [set_solver|]; right; split; [done|]; exists id; split_and!; [done..|set_solver]).
Qed.

Lemma upholds_roles F path channel u token id users : viewer_of channel u token id F →
  path ∈ ["moderation/moderators"; "channels/vips"] → upholds F (roles http_date TwitchClientID path channel token users).
Proof.
  intros (HF & Hn & Hc & Hid & HT) Hp. unfold roles. generalize (@nil doc) as acc.
  induction (Jobs.chunks 100 users) as [|batch l IH]; intros acc; cbn [roles_from]; [leaf|].
  apply upholds_bind; [|intros [e|res]; [leaf|apply IH]]. apply upholds_twitch; [done|]. intros t [Hg Ha]%HT.
  right. exists u. split; [done|]. right. right. split; [done|]. exists channel. split; [done|]. split; [set_solver|]. by left.
Qed.

Lemma upholds_chatters F channel u : stable F → name = "getViewerList" → viewer_channel data = Some channel →
  (∀ t, F t → u ≠ "" → subject u t) → upholds F (chatters ToLower http_date TwitchClientID channel u).
Proof.
  intros HF Hn Hc HS. unfold chatters. eapply safe_bind; [by apply (safe_userToken F)|].
  intros [e|token]; [apply safe_ret; [keep|naive_solver]|].
  apply (upholds_weaken _ _ (λ t, F t ∧ user_granted u token t)); [|naive_solver|naive_solver].
  eapply safe_bind; [apply (safe_Profile _ u); [keep|by intros t [_ [? _]]|done]|].
  intros [e|profile]; [apply safe_ret; [keep|naive_solver]|]. cbv zeta.
  destruct (numericID (text (field profile "id"))) eqn:En; cbn [negb]; [|apply safe_ret; [keep|naive_solver]].
  assert (Hne : text (field profile "id") ≠ "") by (by intros H; rewrite H in En).
  set (id := text (field profile "id")) in *.
  apply (upholds_weaken _ _ (λ t, (F t ∧ user_granted u token t) ∧ account u id t)); [|naive_solver|naive_solver].
  assert (Hv : viewer_of channel u token id (λ t, (F t ∧ user_granted u token t) ∧ account u id t)).
  { split_and!; [keep|done..|naive_solver]. }
  apply upholds_try; [keep|by eapply upholds_chatters_from|]. intros users.
  apply upholds_bind; [eapply upholds_roles; [exact Hv|set_solver]|]. intros mods.
  apply upholds_bind; [eapply upholds_roles; [exact Hv|set_solver]|]. intros vips. leaf.
Qed.

Lemma upholds_ViewerList F : stable F → name = "getViewerList" →
  upholds F (ViewerList ToLower http_date TwitchClientID uid data).
Proof.
  intros HF Hn. unfold ViewerList. destruct (String.eqb_spec uid "") as [|Huid]; [leaf|].
  destruct (viewer_channel data) as [channel|] eqn:Ec; [|leaf].
  assert (Hown : ∀ G, stable G → upholds G (chatters ToLower http_date TwitchClientID channel uid)).
  { intros G HG. apply upholds_chatters; [done..|]. intros t _ _. split; [done|by left]. }
  unfold BroadcasterUID. eapply (safe_bind _ _ _ _ (λ r t, F t ∧ ∀ u, r = inr u → u ≠ "" → subject u t)).
  - apply safe_step; [done|intros t a _; cbn; eauto|]. intros a. apply safe_ret; [keep|]. intros t [Ht Ha]. split; [done|].
    intros u Hr Hu. split; [done|]. right. split_and!; [done..|].
    destruct a as [e|[|[u' d] l]]; simplify_eq. by exists channel, d, l.
  - intros [e|u]; [apply safe_ret; [auto 20 using stable_all with effects|naive_solver]|].
    apply (upholds_weaken _ _ (λ t, F t ∧ (u ≠ "" → subject u t))); [|naive_solver|naive_solver].
    assert (HS : stable (λ t, F t ∧ (u ≠ "" → subject u t))).
    { apply stable_and; [done|]. intros e t H Hu. by apply stable_subject, H. }
    apply upholds_bind.
    + destruct (String.eqb_spec u ""); [by apply upholds_ret|].
      apply upholds_bind; [|intros; by apply upholds_ret]. apply upholds_chatters; [done..|]. intros t [_ H] Hu. by apply H.
    + intros [v|]; [by apply upholds_ret|]. by apply Hown.
Qed.

(** ** Search *)

Lemma upholds_followed F token : stable F → name = "search" → uid ≠ "" → (∀ t, F t → user_granted uid token t) →
  upholds F (followed http_date TwitchClientID uid token).
Proof.
  intros HF Hn Hu HT. unfold followed.
  eapply safe_bind; [apply (safe_Profile F uid); [done|by intros t [? _]%HT|done]|].
  intros [e|profile]; [apply safe_ret; [keep|naive_solver]|]. cbv zeta.
  destruct (String.eqb_spec (text (field profile "id")) "") as [|Hne]; [apply safe_ret; [keep|naive_solver]|].
  set (id := text (field profile "id")) in *.
  apply (upholds_weaken _ _ (λ t, F t ∧ account uid id t)); [|naive_solver|naive_solver].
  apply upholds_try; [keep| |intros; leaf]. apply upholds_twitch; [keep|]. intros t [Hg%HT Ha].
  right. exists uid. split; [done|]. right. left. split_and!; [done..|]. by exists id.
Qed.

Lemma upholds_searchTwitch F query : stable F → asks query "twitch" → upholds F (searchTwitch http_date TwitchClientID query).
Proof.
  intros HF Ha. unfold searchTwitch. destruct (String.eqb_spec query "") as [|Hne]; [leaf|].
  apply upholds_try_app; [done|destruct Ha as [-> _]; set_solver|]. intros token.
  apply upholds_try; [keep| |intros; leaf]. apply upholds_twitch; [keep|]. intros t [_ Ht]. left. split; [done|].
  right. right. split; [done|]. by exists query.
Qed.

Lemma upholds_searchKick F query : stable F → asks query "kick" → upholds F (searchKick ToLower http_date query).
Proof.
  intros HF Ha. unfold searchKick. cbv zeta. branch.
  apply upholds_op; [done|intros t a _; right; destruct Ha as [-> _]; done|]. intros [e|token]; [leaf|].
  assert (H : ∀ path, (path = "/channels?slug=" +:+ query_escape (ToLower (Text.TrimSpace query)) ∨ has_prefix path "/users?id=" = true) →
    upholds (λ t, F t ∧ Ev (GApp "kick") (inr token) ∈ t) (Get (KickClient token) path into_any_map)).
  { intros path Hp. apply upholds_get; [keep|]. intros t [_ Ht]. right. left. by exists token, query. }
  apply upholds_bind; [apply H; by left|]. intros [e|d]; [leaf|]. branch.
  apply upholds_bind; [apply H; right; apply has_prefix_app|intros; leaf].
Qed.

Lemma upholds_CachedYouTube F l : stable F → looks_up l → upholds F (CachedYouTube (youtube_key l)).
Proof.
  intros HF Hl. apply upholds_op; [done|intros t a _; right; by exists l|]. intros [e|d]; [leaf|]. branch.
  apply upholds_op; [keep|done|]. intros. leaf.
Qed.

Lemma upholds_searchYouTube F query : stable F → asks query "youtube" →
  upholds F (searchYouTube ToLower http_date ip_literal has_key query).
Proof.
  intros HF Ha. unfold searchYouTube. destruct (parseYouTube query) as [l|] eqn:El; [|leaf]. cbv zeta.
  assert (Hl : looks_up l) by (by exists query).
  apply upholds_bind; [by apply upholds_CachedYouTube|]. intros cached.
  assert (H : upholds F (if negb has_key then Ret [] else
      apiKey ←! Op GKey;
      match apiKey with
      | inl _ => Ret []
      | inr apiKey =>
        if String.eqb apiKey "" then Ret []
        else
          d ←! Get (YouTubeClient "") (youtube_path l apiKey) into_items;
          match d with
          | inr (Some items) =>
            match youtube_results ToLower (l_handle l) items with
            | None => Ret []
            | Some results => CacheYouTube (youtube_key l) results ;! Ret results
            end
          | _ => Ret []
          end
      end)); [|by destruct cached as [e|[r|]]; [|leaf|]].
  destruct (negb has_key); [leaf|]. apply upholds_op; [done|by destruct Ha|].
  intros [e|key]; [leaf|]. destruct (String.eqb_spec key "") as [|Hk]; [leaf|].
  eapply safe_bind.
  { apply safe_lookup; [keep|]. intros t [_ Ht]. right. right. left. by exists l, key. }
  intros d. apply (upholds_weaken _ _ (λ t, (F t ∧ Ev GKey (inr key) ∈ t) ∧ ∀ b, d = inr b →
    ∃ w, Ev (GClient (KDo (YouTubeClient "") GET (youtube_path l key) None)) (inr w) ∈ t ∧ Err w = None ∧
      Decode into_items w = inr b)); [|naive_solver|naive_solver].
  destruct d as [e|[items|]]; [leaf| |leaf]. destruct (youtube_results _ _ _) as [results|] eqn:Er; [|leaf].
  apply upholds_bind; [|intros; leaf]. apply safe_op; [keep|intros; keep|]. intros t a [Ht H]. split.
  - destruct (H _ eq_refl) as (w & ? & ? & ?). exists l, results. split_and!; [done..|]. by exists key, w, items.
  - split; [destruct Ht; split; [by apply HF|by apply list_elem_of_further]|].
    intros b Hb. destruct (H b Hb) as (w & ? & ?). exists w. split; [by apply list_elem_of_further|done].
Qed.

Lemma upholds_search_all F query providers : stable F → name = "search" → parseSearch data = inr (query, providers) →
  upholds F (search_all ToLower http_date ip_literal TwitchClientID has_key query providers).
Proof.
  intros HF Hn Hp. unfold search_all. apply upholds_bind.
  - apply upholds_all; [done|]. intros p (provider & -> & Hin)%list_elem_of_fmap.
    assert (Ha : asks query provider) by (split; [done|by exists providers]).
    unfold search_one. destruct (String.eqb_spec provider "twitch") as [->|]; [by apply upholds_searchTwitch|].
    destruct (String.eqb_spec provider "kick") as [->|].
    { apply upholds_bind; [by apply upholds_searchKick|intros; leaf]. }
    destruct (String.eqb_spec provider "youtube") as [->|]; [|leaf].
    apply upholds_bind; [by apply upholds_searchYouTube|intros; leaf].
  - intros l. branch. apply upholds_op; [done|done|]. intros. leaf.
Qed.

Lemma upholds_Search F : stable F → name = "search" →
  upholds F (Search ToLower http_date ip_literal TwitchClientID has_key uid data).
Proof.
  intros HF Hn. unfold Search. destruct (parseSearch data) as [e|[query providers]] eqn:Ep; [leaf|].
  destruct (_ && _) eqn:Eu; [|by apply upholds_search_all]. apply andb_true_iff in Eu as [[Eu _]%andb_true_iff _].
  apply negb_true_iff, String.eqb_neq in Eu.
  eapply safe_bind; [apply (safe_userToken F); [done|]; intros t _ _; split; [done|by left]|].
  intros [e|token].
  - apply (upholds_weaken _ _ F); [|naive_solver|done]. destruct (is_no_token e); [by apply upholds_search_all|leaf].
  - apply (upholds_weaken _ _ (λ t, F t ∧ user_granted uid token t)); [|naive_solver|naive_solver].
    apply upholds_followed; [keep|done..|naive_solver].
Qed.
End Justified.

(** C34. Whatever the providers, the database and the interleaving of its
    requests do, each effect of a catalog call is justified: requests only
    read; a user's Twitch token is used only for the caller, or for the user
    whose profile is the channel of a viewer list that a signed-in user asks
    for, and viewer lists and followed streams name that user's own account;
    app tokens serve searches, badges and statistics only; third-party hosts
    get no credentials; and the only write caches what YouTube answered for the
    looked-up channel, when the answer is well formed. *)
Theorem catalog_justified ToLower http_date ip_literal id has_key name auth h uid data p t :
  handler ToLower http_date ip_literal id has_key name = Some (auth, h) → reachable (h uid data) p t →
  justified (catalog_ok ToLower ip_literal id name uid data) t.
Proof.
  intros Hh Hr. eapply (safe_justified _ _ _ (λ _ _, True)); [|exact Hr].
  assert (H : safe_from (catalog_ok ToLower ip_literal id name uid data) (λ _, True) (h uid data) (λ _ _, True)); [|by apply H].
  unfold handler in Hh.
  destruct (String.eqb_spec name "search") as [->|]; [simplify_eq; by apply upholds_Search|].
  destruct (String.eqb_spec name "getEmotes") as [->|]; [simplify_eq; by apply upholds_Emotes|].
  destruct (String.eqb_spec name "getBadges") as [->|]; [simplify_eq; by apply upholds_Badges|].
  destruct (String.eqb_spec name "getViewerList") as [->|]; [simplify_eq; by apply upholds_ViewerList|].
  destruct (String.eqb_spec name "getStatistics") as [->|]; [simplify_eq; by apply upholds_Statistics|done].
Qed.

Lemma catalog_justified_witness :
  ∃ v t, solo viewer_env (ViewerList to_lower (λ _, None) "id" "me" (quoted "'twitch:1'")) [] = Some (inr v, t) ∧
    justified (catalog_ok to_lower (λ _, None) "id" "getViewerList" "me" (quoted "'twitch:1'")) t.
Proof.
  assert (∃ v t, solo viewer_env (ViewerList to_lower (λ _, None) "id" "me" (quoted "'twitch:1'")) [] = Some (inr v, t)) as (v & t & E).
  { eexists _, _. vm_compute. reflexivity. }
  exists v, t. split; [exact E|].
  exact (catalog_justified to_lower (λ _, None) (λ _, None) "id" true "getViewerList" true
    (ViewerList to_lower (λ _, None) "id") "me" (quoted "'twitch:1'") _ t eq_refl (solo_reachable _ _ _ _ E)).
Defined.
