(* ===== verification/CatalogViewers.v ===== *)
(** * What a viewer list says

    A viewer list that is returned is complete and grouped right: it is made of
    all pages of chatters up to the one without a cursor, and every chatter is
    in the groups it belongs to. *)

From stdpp Require Import base gmap strings list sorting.
From S2P Require Import Prelude Sorting GoErr Json Effects Conc Store JsonText HttpServer Http Url Clients Fetch Catalog.
From S2P Require Jobs.

(** ** The groups *)

(** Users in the order of their names. *)
Definition by_name (ToLower : string → string) : list doc → Prop :=
  StronglySorted (λ u v, String.ltb (ToLower (name_of v)) (ToLower (name_of u)) = false).

(** A member of a viewer list and its data hold [users] in order. *)
Definition lists (ToLower : string → string) (d : doc) (name : string) (users : list doc) : Prop :=
  ∃ l, l ≡ₚ users ∧ by_name ToLower l ∧ field d name = VList (map (λ u, VString (name_of u)) l) ∧
    field d (name +:+ "Data") = objects l.

Definition grouped (ToLower : string → string) (channel : string) (users mods vips : list doc) (d : doc) : Prop :=
  ∃ broadcaster viewers,
    (∀ u, u ∈ broadcaster ↔ u ∈ users ∧ id_of u = channel) ∧
    (∀ u, u ∈ viewers ↔ u ∈ users ∧ id_of u ∉ map id_of (broadcaster ++ mods ++ vips)) ∧
    users ≡ₚ viewers ++ filter (λ u, id_of u ∈ map id_of (broadcaster ++ mods ++ vips)) users ∧
    lists ToLower d "broadcaster" broadcaster ∧ lists ToLower d "moderators" mods ∧
    lists ToLower d "vips" vips ∧ lists ToLower d "viewers" viewers.

Lemma filter_split {A} (P : A → Prop) `{HP : !∀ a, Decision (P a)} (l : list A) :
  l ≡ₚ filter (λ a, ¬ P a) l ++ filter P l.
Proof.
  induction l as [|a l IH]; [done|]. rewrite !filter_cons. destruct (decide (P a)), (decide (¬ P a)); try done.
  - by rewrite <-Permutation_middle, <-IH.
  - cbn. by rewrite <-IH.
Qed.

Lemma viewer_groups_grouped ToLower channel users mods vips :
  grouped ToLower channel users mods vips (viewer_groups ToLower channel users mods vips).
Proof.
  assert (Hl : ∀ less_users (l : list doc), less_users = sort_by (λ u v, String.ltb (ToLower (name_of u)) (ToLower (name_of v))) l →
    less_users ≡ₚ l ∧ by_name ToLower less_users).
  { intros ? l ->. split; [apply sort_by_perm|]. apply sort_by_sorted; intros *; [apply string_ltb_asym|apply string_geb_trans]. }
  unfold viewer_groups. cbv zeta. set (b := filter (λ u, id_of u = channel) users).
  set (w := filter (λ u, id_of u ∉ map id_of (b ++ mods ++ vips)) users). exists b, w. split_and!.
  - intros u. unfold b. rewrite list_elem_of_filter. naive_solver.
  - intros u. unfold w. rewrite list_elem_of_filter. naive_solver.
  - apply (filter_split (λ u, id_of u ∈ map id_of (b ++ mods ++ vips))).
  - eexists. split_and!; [by eapply Hl|by eapply Hl|reflexivity|reflexivity].
  - eexists. split_and!; [by eapply Hl|by eapply Hl|reflexivity|reflexivity].
  - eexists. split_and!; [by eapply Hl|by eapply Hl|reflexivity|reflexivity].
  - eexists. split_and!; [by eapply Hl|by eapply Hl|reflexivity|reflexivity].
Qed.

(** ** The pages *)

Section Answers.
Variables (ToLower : string → string) (http_date : string → option time) (TwitchClientID : string).
Local Abbreviation safe_from := (safe_from (λ _ _, True)).

Definition page_path (channel moderator after : string) : string :=
  "/chat/chatters?" +:+ values_encode ([("broadcaster_id", channel); ("moderator_id", moderator); ("first", "1000")] ++
    if String.eqb after "" then [] else [("after", after)]).
(** Twitch answered this page. *)
Definition answered (channel moderator token after : string) : doc → trace geff → Prop :=
  fetched (@GClient) (TwitchClient TwitchClientID token) (page_path channel moderator after) into_any_map.
Definition cursor (page : doc) : string := text (field (object (field page "pagination")) "cursor").
(** All pages from [after]: each names the next, the last names none. *)
Fixpoint all_pages (channel moderator token after : string) (pages : list doc) (t : trace geff) : Prop :=
  match pages with
  | [] => False
  | page :: rest =>
    answered channel moderator token after page t ∧
    if String.eqb (cursor page) "" then rest = [] else all_pages channel moderator token (cursor page) rest t
  end.
Definition users_of (pages : list doc) : list doc := concat (map (λ p, array (field p "data")) pages).

Lemma stable_answered_page channel moderator token after page : stable (answered channel moderator token after page).
Proof. apply stable_fetched. Qed.
Lemma stable_all_pages channel moderator token pages : ∀ after, stable (all_pages channel moderator token after pages).
Proof.
  induction pages as [|p pages IH]; intros after; cbn; [by intros e t|].
  apply stable_and; [apply stable_answered_page|]. destruct (String.eqb _ _); [apply stable_const|apply IH].
Qed.
Hint Resolve stable_answered_page stable_all_pages stable_fetched stable_refused : effects.
Hint Extern 2 (stable _) => apply stable_all; intros : effects.
Ltac keep := solve [auto 20 with effects].

Lemma safe_page channel moderator token after F : stable F →
  safe_from F (twitch http_date TwitchClientID "chat/chatters" token
      ([("broadcaster_id", channel); ("moderator_id", moderator); ("first", "1000")] ++
       if String.eqb after "" then [] else [("after", after)]))
    (λ r t, F t ∧ ∀ page, r = inr page → answered channel moderator token after page t).
Proof.
  intros HF. unfold twitch. eapply safe_bind; [by apply (safe_Get (@GClient))|]. intros r. apply safe_ret; [keep|].
  intros t [Ht H]. split; [done|]. intros page Hr. destruct r as [e|d]; [done|]. injection Hr as <-. exact (H _ eq_refl).
Qed.

(** What a list of chatters says. *)
Definition complete (channel moderator token after : string) (n : nat) (before : list doc) (r : result (list doc)) (t : trace geff) : Prop :=
  ∀ l, r = inr l → ∃ pages, l = before ++ users_of pages ∧ all_pages channel moderator token after pages t ∧ (length pages <= S n)%nat.
Lemma stable_complete channel moderator token after n before r : stable (complete channel moderator token after n before r).
Proof. unfold complete. auto 20 with effects. Qed.
Hint Resolve stable_complete : effects.

Lemma safe_chatters_from channel moderator token n : ∀ after seen users F, stable F →
  safe_from F (chatters_from http_date TwitchClientID n channel moderator token after seen users)
    (complete channel moderator token after n users).
Proof.
  induction n as [|n IH]; intros after seen users F HF; cbn [chatters_from]; unfold try;
    (eapply safe_bind; [by apply safe_page|]); (intros [e|page]; [apply safe_ret; [keep|by intros t _ l]|]); cbv zeta;
    fold (cursor page); destruct (String.eqb (cursor page) "") eqn:Ec.
  1, 3: apply safe_ret; [keep|]; intros t [_ Ha] l [= <-]; exists [page]; split_and!; [|cbn; rewrite Ec; auto|cbn; lia];
    unfold users_of; cbn; by rewrite app_nil_r.
  - apply safe_ret; [keep|by intros t _ l].
  - destruct (existsb _ _); [apply safe_ret; [keep|by intros t _ l]|].
    eapply safe_conseq; [apply (safe_frame _ F (answered channel moderator token after page)); [keep|by apply IH]| |].
    + intros t [Ht Ha]. split; [done|by apply Ha].
    + intros r t [H Ha] l Hl. destruct (H l Hl) as (pages & -> & Hp & Hn). exists (page :: pages). split_and!.
      * unfold users_of. cbn. by rewrite <-app_assoc.
      * cbn. by rewrite Ec.
      * cbn. lia.
Qed.

(** The holders of a role among [users]: Twitch was asked about all of them, a
    hundred at a time, and listed these; or it did not answer about some. *)
Definition role_path (path channel : string) (users : list doc) : string :=
  "/" +:+ path +:+ "?" +:+ values_encode ([("broadcaster_id", channel); ("first", "100")] ++ map (λ u, ("user_id", id_of u)) users).
Definition role_answered (path channel token : string) (t : trace geff) (users : list doc) (page : doc) : Prop :=
  fetched (@GClient) (TwitchClient TwitchClientID token) (role_path path channel users) into_any_map page t.
Definition role_refused (path channel token : string) (users : list doc) : trace geff → Prop :=
  refused (@GClient) (TwitchClient TwitchClientID token) (role_path path channel users) into_any_map.
Definition holders (path channel token : string) (users l : list doc) (t : trace geff) : Prop :=
  (∃ pages, Forall2 (role_answered path channel token t) (Jobs.chunks 100 users) pages ∧ l = users_of pages) ∨
  (l = [] ∧ ∃ batch, batch ∈ Jobs.chunks 100 users ∧ role_refused path channel token batch t).

Lemma stable_role_answered path channel token users page : stable (λ t, role_answered path channel token t users page).
Proof. apply stable_fetched. Qed.
Lemma stable_role_refused path channel token users : stable (role_refused path channel token users).
Proof. apply stable_refused. Qed.
Lemma stable_holders path channel token users l : stable (holders path channel token users l).
Proof.
  apply stable_or.
  - apply stable_ex. intros pages. apply stable_and; [|apply stable_const]. apply Forall2_stable, stable_role_answered.
  - apply stable_and; [apply stable_const|]. apply stable_ex. intros batch. apply stable_and; [apply stable_const|apply stable_role_refused].
Qed.
Hint Resolve stable_holders : effects.

Lemma safe_roles path channel token users F : stable F → (∀ users, relative (role_path path channel users) = true) →
  safe_from F (roles http_date TwitchClientID path channel token users) (λ l t, F t ∧ holders path channel token users l t).
Proof.
  intros HF Hrel. unfold roles. set (chunks := Jobs.chunks 100 users).
  assert (H : ∀ batches before pages, chunks = before ++ batches →
    safe_from (λ t, F t ∧ Forall2 (role_answered path channel token t) before pages)
      (roles_from http_date TwitchClientID path channel token batches (users_of pages))
      (λ l t, F t ∧ holders path channel token users l t)).
  { induction batches as [|b batches IH]; intros before pages Hc; cbn [roles_from];
      assert (HG : stable (λ t, F t ∧ Forall2 (role_answered path channel token t) before pages))
        by (apply stable_and; [done|]; apply Forall2_stable, stable_role_answered).
    { apply safe_ret; [done|]. intros t [Ht Hp]. split; [done|]. left. exists pages. split; [|done].
      fold chunks. by rewrite Hc, app_nil_r. }
    unfold twitch. eapply (safe_bind _ _ _ _ (λ r t, (F t ∧ Forall2 (role_answered path channel token t) before pages) ∧
      match r with inr page => role_answered path channel token t b page | inl _ => role_refused path channel token b t end)).
    { eapply safe_bind; [by apply (safe_outcome (@GClient))|]. intros [e|d]; apply safe_ret.
      - apply stable_and; [done|]. apply stable_all. intros. apply stable_refused.
      - intros t [Ht Hr]. split; [done|]. by apply Hr, Hrel.
      - apply stable_and; [done|]. apply stable_fetched.
      - done. }
    intros [e|page].
    - apply safe_ret; [by apply stable_and; [|apply stable_role_refused]|].
      intros t [[Ht _] Hr]. split; [done|]. right. split; [done|]. exists b. split; [|done].
      fold chunks. rewrite Hc. apply elem_of_app. right. apply list_elem_of_here.
    - replace (users_of pages ++ array (field page "data")) with (users_of (pages ++ [page]))
        by (unfold users_of; by rewrite map_app, concat_app; cbn; rewrite app_nil_r).
      eapply safe_conseq; [apply (IH (before ++ [b]) (pages ++ [page]))|cbn|done].
      + by rewrite Hc, <-app_assoc.
      + intros t [[Ht Hp] Hr]. split; [done|]. apply Forall2_app; [done|]. by constructor. }
  eapply safe_conseq; [apply (H chunks [] [])|cbn|done]; [done|]. intros t Ht. by split; [|constructor].
Qed.

(** What a viewer list says. *)
Definition viewers_say (channel : string) (r : result value) (t : trace geff) : Prop :=
  ∀ v, r = inr v → ∃ moderator token pages mods vips d, v = VMap d ∧
    all_pages channel moderator token "" pages t ∧ (length pages <= 100)%nat ∧
    holders "moderation/moderators" channel token (users_of pages) mods t ∧
    holders "channels/vips" channel token (users_of pages) vips t ∧
    d = viewer_groups ToLower channel (users_of pages) mods vips.
Lemma stable_viewers_say channel r : stable (viewers_say channel r).
Proof. unfold viewers_say. auto 30 with effects. Qed.
Hint Resolve stable_viewers_say : effects.

(** Any part, when nothing is asked of it. *)
Lemma safe_any {A} F (p : prog A) : stable F → safe_from F p (λ _, F).
Proof.
  intros HF t Ht. apply (safe_inv _ (λ t _, F t)); [done| |intros; by apply HF|done].
  intros t1 p1 p2 t2 Hf Hs. destruct (step_trace _ _ _ _ Hs) as [->|[e ->]].
  - split; [by left|done].
  - split; [right; by exists e|by apply HF].
Qed.

Lemma safe_chatters channel uid F : stable F →
  safe_from F (chatters ToLower http_date TwitchClientID channel uid) (viewers_say channel).
Proof.
  intros HF. unfold chatters. eapply safe_bind; [by apply (safe_any F)|]. intros [e|token]; [apply safe_ret; [keep|by intros t _ v]|].
  eapply safe_bind; [by apply (safe_any F)|]. intros [e|profile]; [apply safe_ret; [keep|by intros t _ v]|]. cbv zeta.
  destruct (negb _); [apply safe_ret; [keep|by intros t _ v]|]. unfold try.
  eapply safe_bind; [by apply safe_chatters_from|]. intros [e|users]; [apply safe_ret; [keep|by intros t _ v]|].
  eapply safe_bind; [apply safe_roles; [keep|done]|]. intros mods. eapply safe_bind; [apply safe_roles; [keep|done]|]. intros vips.
  apply safe_ret; [keep|]. intros t [[H Hm] Hv] v [= <-]. destruct (H _ eq_refl) as (pages & -> & Hp & Hn).
  by eexists _, _, pages, mods, vips, _.
Qed.
End Answers.

(** C35. A viewer list that is returned is complete and grouped right: it comes
    from at most a hundred pages of chatters, each the answer to the request
    that the one before named, the last one naming none. The moderators and the
    VIPs are those that Twitch listed, asked with the same token about every
    chatter, a hundred at a time; a group is empty instead when Twitch did not
    answer for some. The broadcaster's group holds the chatters with the
    channel's id, every other chatter is a viewer unless it is listed as a
    moderator or a VIP, and each group is sorted by name with its data beside
    it. *)
Theorem viewer_list_complete ToLower http_date id uid data v t :
  reachable (ViewerList ToLower http_date id uid data) (Ret (inr v)) t →
  ∃ channel moderator token pages mods vips d, viewer_channel data = Some channel ∧ v = VMap d ∧
    all_pages id channel moderator token "" pages t ∧ (length pages <= 100)%nat ∧
    holders id "moderation/moderators" channel token (users_of pages) mods t ∧
    holders id "channels/vips" channel token (users_of pages) vips t ∧
    grouped ToLower channel (users_of pages) mods vips d.
Proof.
  intros Hr. destruct (viewer_channel data) as [channel|] eqn:Ec.
  - assert (H : viewers_say ToLower id channel (inr v) t).
    2:{ destruct (H v eq_refl) as (moderator & token & pages & mods & vips & d & -> & Hp & Hn & Hm & Hv & ->).
        exists channel, moderator, token, pages, mods, vips. eexists. split_and!; try done. apply viewer_groups_grouped. }
    eapply safe_reachable; [|exact Hr].
    assert (H : safe_from (λ _ _, True) (λ _, True) (ViewerList ToLower http_date id uid data) (viewers_say ToLower id channel)); [|by apply H].
    unfold ViewerList. rewrite Ec. destruct (String.eqb uid ""); [apply safe_ret; [done|by intros ? _ ?]|].
    eapply safe_bind; [by apply safe_any|]. intros [e|u]; [apply safe_ret; [done|by intros ? _ ?]|].
    eapply (safe_bind _ _ _ _ (λ o t, ∀ v, o = Some v → viewers_say ToLower id channel (inr v) t)).
    + destruct (String.eqb u ""); [by apply safe_ret|].
      eapply safe_bind; [by apply safe_chatters|]. intros [e|x]; (apply safe_ret; [apply stable_viewers_say|naive_solver]).
    + intros [x|]; [apply safe_ret; [|naive_solver]|].
      * do 2 (apply stable_all; intros). apply stable_viewers_say.
      * apply safe_chatters. do 2 (apply stable_all; intros). apply stable_viewers_say.
  - exfalso.
    assert (H : safe_from (λ _ _, True) (λ _, True) (ViewerList ToLower http_date id uid data) (λ r _, ∀ v, r ≠ inr v)).
    { unfold ViewerList. rewrite Ec. destruct (String.eqb uid ""); by apply safe_ret. }
    by destruct (safe_reachable _ _ _ _ _ (H [] I) Hr v eq_refl).
Qed.

Lemma viewer_list_complete_witness :
  ∃ v t channel moderator token pages mods vips d,
    reachable (ViewerList to_lower (λ _, None) "id" "me" (quoted "'twitch:1'")) (Ret (inr v)) t ∧
    viewer_channel (quoted "'twitch:1'") = Some channel ∧ v = VMap d ∧
    all_pages "id" channel moderator token "" pages t ∧ (length pages <= 100)%nat ∧
    holders "id" "moderation/moderators" channel token (users_of pages) mods t ∧
    holders "id" "channels/vips" channel token (users_of pages) vips t ∧
    grouped to_lower channel (users_of pages) mods vips d.
Proof.
  assert (∃ v t, solo viewer_env (ViewerList to_lower (λ _, None) "id" "me" (quoted "'twitch:1'")) [] = Some (inr v, t)) as (v & t & E).
  { eexists _, _. vm_compute. reflexivity. }
  apply solo_reachable in E. exists v, t.
  destruct (viewer_list_complete to_lower (λ _, None) "id" "me" (quoted "'twitch:1'") v t E) as (c & m & tk & ps & ms & vs & d & H).
  exists c, m, tk, ps, ms, vs, d. split; [exact E|exact H].
Defined.
