(* ===== verification/PublicHttp.v ===== *)
(** * Public HTTP

    Models agent/internal/publichttp: the redirects of stream previews and the
    metadata that registered third parties attach to a channel (handlers.go),
    with the registry of their client identifiers (config.go). App tokens,
    requests and the Firestore collection are effects. *)

From stdpp Require Import base gmap strings list.
From Stdlib Require Import Ascii.
From S2P Require Import Prelude GoErr Json Effects Store JsonText HttpServer Http Text Url Clients.

Inductive peff : Type → Type :=
  | PClient {A} (op : keff A) : peff A
  | PToken (provider : string) : peff (result string)
  | PAdd (collection : string) (data : doc) : peff (option error).     (* a new document *)

(** ** Registered clients *)

Definition into_names (j : json) : option (option (gmap string string)) :=
  match j with
  | JNull => Some None
  | JObj l => Some <$> foldl (λ acc p, m ← acc; s ← into_string "" p.2; Some (<[p.1 := s]> m)) (Some ∅) l
  | _ => None
  end.
Definition ParseMetadataClients (s : string) : result (gmap string string) :=
  if String.eqb s "" then inr ∅
  else
    match unmarshal into_names s with
    | None => inl (ErrMsg "METADATA_CLIENT_IDS must be a JSON object of client IDs to reviewed names")
    | Some None => inl (ErrMsg "metadata clients must be an object")
    | Some (Some clients) =>
      if existsb (λ p, String.eqb p.1 "" || String.eqb p.2 "") (map_to_list clients)
      then inl (ErrMsg "metadata client ID and name must be nonempty")
      else inr clients
    end.

(** ** Handlers *)

Definition channelPattern (s : string) : bool :=
  (1 <=? String.length s)%nat && (String.length s <=? 30)%nat && all_chars is_digit s.
Definition youtubeChannelPattern (s : string) : bool :=
  has_prefix s "UC" && (String.length s =? 24)%nat && all_chars id_char (drop_str 2 s).

(** Every answer of these handlers. *)
Definition answer (s : Z) (msg : string) : reply := Reply s [("Cache-Control", "no-store")] msg.
Definition NotFound_ : reply := answer 404 "404 page not found".
Definition Redirect (url : string) : reply := Reply 302 [("Cache-Control", "no-store"); ("Location", url)] "".

Definition youtube_player (channel : string) : string :=
  "https://www.youtube.com/embed/live_stream?channel=" +:+ channel +:+ "&autoplay=1&mute=1".
Definition twitch_player (login : string) : string :=
  "https://player.twitch.tv/?" +:+
  values_encode [("channel", login); ("controls", "false"); ("parent", "chat.rtirl.com"); ("muted", "true")].
Definition kick_player (slug : string) : string := "https://player.kick.com/" +:+ path_escape slug +:+ "?muted=true".

(** The first channel's slug. *)
Definition decode_slugs : json → option (list string) :=
  into_field "Data" (λ _, into_list (into_field "Slug" into_string "")) [].
Definition slug_path (channel : string) : string := "/channels?broadcaster_user_id=" +:+ channel.

(** The body of a metadata request. *)
Record metadata_body := MetadataBody { b_key : string; b_value : value; b_token : string; b_provider : string }.
Definition decode_body : json → option metadata_body :=
  into_struct (λ b k j,
    if names k "key" then (λ s, MetadataBody s (b_value b) (b_token b) (b_provider b)) <$> into_string (b_key b) j
    else if names k "value" then (λ v, MetadataBody (b_key b) v (b_token b) (b_provider b)) <$> iface j
    else if names k "token" then (λ s, MetadataBody (b_key b) (b_value b) s (b_provider b)) <$> into_string (b_token b) j
    else if names k "provider" then (λ s, MetadataBody (b_key b) (b_value b) (b_token b) s) <$> into_string (b_provider b) j
    else Some b) (MetadataBody "" VNull "" "").
(** A decoder takes the value that the first 64 KiB start with. *)
Definition read_metadata (r : incoming) : option metadata_body :=
  '(j, _) ← json_prefix (String.substring 0 (64 * 1024) (r_body r));
  b ← decode_body j;
  if String.eqb (b_key b) "" || is_nil (b_value b) || String.eqb (b_token b) "" ||
     negb (String.eqb (b_provider b) "twitch") || (256 <? String.length (b_key b))%nat
  then None else Some b.

(** The client and the user of a token. *)
Definition decode_validation : json → option (string * string) :=
  into_struct (λ v k j,
    if names k "client_id" then (λ s, (s, v.2)) <$> into_string v.1 j
    else if names k "user_id" then (λ s, (v.1, s)) <$> into_string v.2 j
    else Some v) ("", "").
Definition ValidateClient (token : string) : client := Client "https://id.twitch.tv/oauth2" ("OAuth " +:+ token) "".

(** [Metadata] of the store. *)
Definition metadata_collection (user : string) : string := "channels/twitch:" +:+ user +:+ "/third-party".
Definition metadata_doc (b : metadata_body) (clientId name : string) : doc :=
  [("key", VString (b_key b)); ("value", b_value b); ("clientId", VString clientId); ("name", VString name);
   ("createdAt", VServerTimestamp)].

Section Server.
Context (η : env peff).
(** [http.ParseTime]. *)
Variable http_date : string → option time.
Variable TwitchClientID : string.
(** Whether the server has an AppToken. *)
Variable has_token : bool.
Variable MetadataClients : gmap string string.
Local Abbreviation M := (M (world peff unit)).
Local Abbreviation K := (@PClient).

Definition Validate (token : string) : M (result (string * string)) :=
  CGet η K http_date (ValidateClient token) "/validate" decode_validation.

Definition parameter (r : incoming) (k : string) : string := default "" (r_query r !! k).

Definition embed (r : incoming) : M reply :=
  if negb (String.eqb (r_method r) "GET") then mret (answer 405 "method not allowed")
  else
    let provider := parameter r "provider" in
    let channel := parameter r "channelId" in
    if String.eqb provider "youtube" then
      mret (if youtubeChannelPattern channel then Redirect (youtube_player channel) else NotFound_)
    else if negb (channelPattern channel) || (negb (String.eqb provider "twitch") && negb (String.eqb provider "kick"))
    then mret (answer 400 "invalid provider or channelId")
    else if negb has_token then mret (answer 503 "provider unavailable")
    else
      token ← ask η (PToken provider);
      match token with
      | inl _ => mret (answer 503 "provider unavailable")
      | inr token =>
        if String.eqb provider "twitch" then
          user ← TwitchUser η K http_date (TwitchClient TwitchClientID token) "id" channel;
          mret (match user with
                | inl _ => answer 502 "provider unavailable"
                | inr user => if String.eqb (Login user) "" then NotFound_ else Redirect (twitch_player (Login user))
                end)
        else
          data ← CGet η K http_date (KickClient token) (slug_path channel) decode_slugs;
          mret (match data with
                | inl _ => answer 502 "provider unavailable"
                | inr l => let slug := default "" (head l) in
                           if String.eqb slug "" then NotFound_ else Redirect (kick_player slug)
                end)
      end.

Definition metadata (r : incoming) : M reply :=
  if negb (String.eqb (r_method r) "POST") then mret (answer 405 "method not allowed")
  else
    match read_metadata r with
    | None => mret (answer 400 "invalid metadata")
    | Some b =>
      validation ← Validate (b_token b);
      match validation with
      | inl _ => mret (answer 401 "invalid token")
      | inr (clientId, user) =>
        if negb (channelPattern user) then mret (answer 401 "invalid token")
        else
          let name := default "" (MetadataClients !! clientId) in
          if String.eqb name "" then mret (answer 403 "client id not registered, contact kevin@muxable.com")
          else
            e ← ask η (PAdd (metadata_collection user) (metadata_doc b clientId name));
            mret (match e with Some _ => answer 503 "temporarily unavailable" | None => answer 204 "" end)
      end
    end.

(** [Register]: the answer of a path that is served here. *)
Definition serve (r : incoming) : option (M reply) :=
  if existsb (String.eqb (r_path r)) ["/embed"; "/embedRedirect"] then Some (embed r)
  else if existsb (String.eqb (r_path r)) ["/metadata"; "/api/metadata"] then Some (metadata r)
  else None.
End Server.

(** ** What a request may do *)

Section Allowed.
Variables (TwitchClientID : string) (clients : gmap string string) (r : incoming).
Local Abbreviation provider := (parameter r "provider").
Local Abbreviation channel := (parameter r "channelId").

Definition embeds : Prop :=
  (r_path r = "/embed" ∨ r_path r = "/embedRedirect") ∧ r_method r = "GET" ∧ channelPattern channel = true ∧
  (provider = "twitch" ∨ provider = "kick").
Definition posts (b : metadata_body) : Prop :=
  (r_path r = "/metadata" ∨ r_path r = "/api/metadata") ∧ r_method r = "POST" ∧ read_metadata r = Some b.

(** What Twitch says of a token. *)
Definition validated (token clientId user : string) (t : trace peff) : Prop :=
  ∃ w, Ev (PClient (KDo (ValidateClient token) GET "/validate" None)) (inr w) ∈ t ∧ Err w = None ∧
    Decode decode_validation w = inr (clientId, user).
(** The registered name of the client that obtained the token, and its user. *)
Definition registered (b : metadata_body) (user : string) (data : doc) (t : trace peff) : Prop :=
  ∃ clientId name, validated (b_token b) clientId user t ∧ channelPattern user = true ∧
    clients !! clientId = Some name ∧ name ≠ "" ∧ data = metadata_doc b clientId name.

Definition public_ok (t : trace peff) (e : ev peff) : Prop :=
  match e with
  | Ev op _ =>
    match op with
    | PClient op =>
      match op with
      | KDo c m path body => m = GET ∧ body = None ∧
        ((∃ b, posts b ∧ c = ValidateClient (b_token b) ∧ path = "/validate") ∨
         (∃ token, embeds ∧ Ev (PToken provider) (inr token) ∈ t ∧
            ((provider = "twitch" ∧ c = TwitchClient TwitchClientID token ∧ path = "/users?" +:+ values_encode [("id", channel)]) ∨
             (provider = "kick" ∧ c = KickClient token ∧ path = slug_path channel))))
      | KNow | KSleep _ => True
      | _ => False
      end
    | PToken p => embeds ∧ p = provider
    | PAdd collection data => ∃ b user, posts b ∧ collection = metadata_collection user ∧ registered b user data t ∧
                              (∀ c d a, Ev (PAdd c d) a ∉ t)
    end
  end.

(** An answer that says so was earned. *)
Definition reply_ok (rep : reply) (t : trace peff) : Prop :=
  (200 <= status rep < 300 → status rep = 204 ∧ ∃ b user data, posts b ∧ registered b user data t ∧
     Ev (PAdd (metadata_collection user) data) None ∈ t) ∧
  (∀ url, ("Location", url) ∈ reply_header rep → status rep = 302 ∧
     (url = youtube_player channel ∧ provider = "youtube" ∧ youtubeChannelPattern channel = true ∨
      provider = "twitch" ∧ (∃ login, url = twitch_player login) ∨ provider = "kick" ∧ ∃ slug, url = kick_player slug)).

Lemma answer_ok s msg t : 300 <= s → reply_ok (answer s msg) t.
Proof. intros Hs. split; [cbn; lia|]. intros url. cbn. set_solver. Qed.
Lemma redirect_ok url t :
  (url = youtube_player channel ∧ provider = "youtube" ∧ youtubeChannelPattern channel = true ∨
      provider = "twitch" ∧ (∃ login, url = twitch_player login) ∨ provider = "kick" ∧ ∃ slug, url = kick_player slug) →
  reply_ok (Redirect url) t.
Proof. intros H. split; [cbn; lia|]. intros url'. cbn. intros Hin. split; [done|]. by assert (url' = url) as -> by set_solver. Qed.
Lemma ok_answer {F : trace peff → Prop} s msg : 300 <= s →
  runs (S:=unit) public_ok F (mret (answer s msg)) reply_ok.
Proof. intros Hs. apply runs_ret. intros. by apply answer_ok. Qed.

Context (η : env peff) (http_date : string → option time) (has_token : bool).
Local Abbreviation runs := (runs (S:=unit) public_ok).

(** Clock reads and pauses are free, and keep facts. *)
Lemma idle_stable F : stable F → idle (@PClient) public_ok F.
Proof. intros HF t Ht. split; intros; (split; [done|by apply HF]). Qed.

Lemma runs_embed : (r_path r = "/embed" ∨ r_path r = "/embedRedirect") →
  runs (λ t, t = []) (embed η http_date TwitchClientID has_token r) reply_ok.
Proof.
  intros Hp. unfold embed. destruct (String.eqb_spec (r_method r) "GET") as [Hm|]; cbn [negb]; [|by apply ok_answer].
  destruct (String.eqb_spec provider "youtube") as [Hy|Hy].
  { apply runs_ret. intros t _. destruct (youtubeChannelPattern channel) eqn:Ec; [|by apply answer_ok].
    apply redirect_ok. by left. }
  destruct (channelPattern channel) eqn:Ec; cbn [negb orb]; [|by apply ok_answer].
  destruct (negb _ && negb _) eqn:Epr; [by apply ok_answer|]. destruct has_token; cbn [negb]; [|by apply ok_answer].
  assert (Hprov : provider = "twitch" ∨ provider = "kick").
  { apply andb_false_iff in Epr as [H|H]; apply negb_false_iff, String.eqb_eq in H; auto. }
  assert (He : embeds) by (split_and!; done).
  eapply runs_ask_bind with (λ a t, Ev (PToken provider) a ∈ t).
  { intros t a ->. split; [done|apply list_elem_of_here]. }
  intros [e|token]; [by apply ok_answer|].
  assert (Hget : ∀ B c path (f : json → option B),
    (provider = "twitch" ∧ c = TwitchClient TwitchClientID token ∧ path = "/users?" +:+ values_encode [("id", channel)]) ∨
    (provider = "kick" ∧ c = KickClient token ∧ path = slug_path channel) →
    runs (λ t, Ev (PToken provider) (inr token) ∈ t) (CGet η (@PClient) http_date c path f)
      (λ _ t, Ev (PToken provider) (inr token) ∈ t)).
  { intros B c path f Hc. apply runs_CGet; [apply idle_stable, stable_event|]. intros t a Ht.
    split; [|by apply list_elem_of_further]. split_and!; [done..|]. right. by exists token. }
  destruct (String.eqb_spec provider "twitch") as [Ht|Ht].
  - unfold TwitchUser. apply runs_bind with (λ _ _, True).
    + eapply runs_bindE; [apply Hget; left; done|done|]. intros l. by apply runs_ret.
    + intros [e|u]; [by apply ok_answer|]. destruct (String.eqb (Login u) ""); [by apply ok_answer|].
      apply runs_ret. intros t _. apply redirect_ok. right. left. eauto.
  - destruct Hprov as [|Hk]; [done|].
    eapply runs_bind; [apply Hget; right; done|]. intros [e|l]; [by apply ok_answer|].
    destruct (String.eqb _ ""); [by apply ok_answer|]. apply runs_ret. intros t _. apply redirect_ok. right. right. eauto.
Qed.

Lemma runs_metadata : (r_path r = "/metadata" ∨ r_path r = "/api/metadata") →
  runs (λ t, t = []) (metadata η http_date clients r) reply_ok.
Proof.
  intros Hp. unfold metadata. destruct (String.eqb_spec (r_method r) "POST") as [Hm|]; cbn [negb]; [|by apply ok_answer].
  destruct (read_metadata r) as [b|] eqn:Eb; [|by apply ok_answer].
  assert (Hb : posts b) by (split_and!; done).
  set (quiet := λ t : trace peff, ∀ c d a, Ev (PAdd c d) a ∉ t).
  assert (Hq : ∀ t A (op : keff A) a, quiet t → quiet (Ev (PClient op) a :: t)).
  { intros t A op a Ht c d x [H|H]%elem_of_cons; [by inversion H|by eapply Ht]. }
  eapply runs_bind.
  { apply runs_conseq with quiet (λ res t, quiet t ∧ ∀ v, res = inr v →
      ∃ w, Ev (PClient (KDo (ValidateClient (b_token b)) GET "/validate" None)) (inr w) ∈ t ∧ Err w = None ∧
        Decode decode_validation w = inr v).
    - apply runs_CGet_answer.
      + intros t Ht. split; intros; (split; [done|by apply Hq]).
      + intros t a Ht. split; [|by apply Hq]. split_and!; [done..|]. left. by exists b.
    - intros t ->. intros c d a H. by apply elem_of_nil in H.
    - intros a t H. exact H. }
  intros [e|[clientId user]]; [by apply ok_answer|].
  destruct (channelPattern user) eqn:Eu; cbn [negb]; [|by apply ok_answer]. cbv zeta.
  destruct (String.eqb_spec (default "" (clients !! clientId)) "") as [|Hname]; [by apply ok_answer|].
  destruct (clients !! clientId) as [name|] eqn:En; [|done]. cbn in Hname |- *.
  eapply runs_ask_bind with (λ a t, registered b user (metadata_doc b clientId name) t ∧
    Ev (PAdd (metadata_collection user) (metadata_doc b clientId name)) a ∈ t).
  - intros t a [Ht Hv]. assert (Hr : registered b user (metadata_doc b clientId name) t).
    { exists clientId, name. split_and!; [by apply Hv|done..]. }
    split; [by exists b, user|]. split; [|apply list_elem_of_here].
    destruct Hr as (i & n & (w & Hw & ?) & ?). exists i, n. split; [|done]. exists w. split; [by apply list_elem_of_further|done].
  - intros [e|]; [by apply ok_answer|]. apply runs_ret. intros t [Hr Ha]. split; [|cbn; set_solver].
    intros _. split; [done|]. by exists b, user, (metadata_doc b clientId name).
Qed.
End Allowed.

Lemma runs_public η http_date id has_token clients r m :
  serve η http_date id has_token clients r = Some m →
  runs (S:=unit) (public_ok id clients r) (λ t, t = []) m (reply_ok clients r).
Proof.
  unfold serve. intros Hs.
  destruct (existsb _ ["/embed"; "/embedRedirect"]) eqn:E1.
  - injection Hs as <-. apply runs_embed. apply existsb_exists in E1 as (p & Hin & ->%String.eqb_eq). cbn in Hin. naive_solver.
  - destruct (existsb _ ["/metadata"; "/api/metadata"]) eqn:E2; [|done]. injection Hs as <-. apply runs_metadata.
    apply existsb_exists in E2 as (p & Hin & ->%String.eqb_eq). cbn in Hin. naive_solver.
Qed.

(** C36. A public request, whatever the providers answer: an embed asks for an
    app token only for a numeric channel of Twitch or Kick, looks up that
    channel, writes nothing, and redirects only to the players' own pages;
    metadata is stored at most once, only for a token that Twitch validated, in
    the channel of the token's user, under the reviewed name of the client that
    obtained it; and 204 is answered only after that write succeeded. *)
Theorem public_contract η http_date id has_token clients r m :
  serve η http_date id has_token clients r = Some m →
  let '(rep, w) := m (World [] tt) in
  justified (public_ok id clients r) (w_tr w) ∧ reply_ok clients r rep (w_tr w).
Proof.
  intros Hs. destruct (m (World [] tt)) as [rep w] eqn:E.
  pose proof (runs_public η http_date id has_token clients r m Hs (World [] tt)) as Hw. rewrite E in Hw. by apply Hw.
Qed.

(** ** Examples *)

(** Twitch validates the token [good] for client [c1] and user 7, and knows the
    login of a channel. *)
Definition public_env : env peff := λ A _ op,
  match op in peff A return A with
  | PClient op =>
    match op in keff A return A with
    | KDo c _ path _ =>
      if String.eqb path "/validate" then
        if String.eqb (c_auth c) "OAuth good" then inr (Raw 200 ∅ (quoted "{'client_id':'c1','user_id':'7'}")) else inr (Raw 401 ∅ "")
      else if has_prefix path "/users?id=" then inr (Raw 200 ∅ (quoted "{'data':[{'login':'a&b'}]}"))
      else inr (Raw 200 ∅ (quoted "{'data':[{'slug':'x/y'}]}"))
    | KNow => 0
    | KSleep _ | KDial | KSay _ => None
    end
  | PToken _ => inr "app"
  | PAdd _ _ => None
  end.
Definition reviewed : gmap string string := {["c1" := "Some App"]}.
Definition get_embed (provider channel : string) : incoming :=
  Incoming "GET" "/embed" (<["provider" := provider]> {["channelId" := channel]}) ∅ "" false.
Definition post_metadata (token : string) : incoming :=
  Incoming "POST" "/api/metadata" ∅ ∅ (quoted ("{'key':'k','value':[1],'provider':'twitch','token':'" +:+ token +:+ "'} tail")) false.
Definition public_answer (r : incoming) : option (Z * list (string * string)) :=
  m ← serve public_env (λ _, None) "id" true reviewed r;
  let rep := (m (World [] tt)).1 in Some (status rep, tail (reply_header rep)).

Example public_answers :
  public_answer (get_embed "twitch" "7") =
    Some (302, [("Location", "https://player.twitch.tv/?channel=a%26b&controls=false&muted=true&parent=chat.rtirl.com")]) ∧
  public_answer (get_embed "kick" "7") = Some (302, [("Location", "https://player.kick.com/x%2Fy?muted=true")]) ∧
  public_answer (get_embed "kick" "x") = Some (400, []) ∧ public_answer (get_embed "youtube" "UCx") = Some (404, []) ∧
  public_answer (post_metadata "good") = Some (204, []) ∧ public_answer (post_metadata "bad") = Some (401, []).
Proof. vm_compute. split_and!; reflexivity. Qed.

Example reviewed_clients :
  ParseMetadataClients (quoted "{'c1':'Some App'}") = inr reviewed ∧ ParseMetadataClients "" = inr ∅ ∧
  ParseMetadataClients (quoted "{'c1':''}") = inl (ErrMsg "metadata client ID and name must be nonempty") ∧
  ParseMetadataClients "null" = inl (ErrMsg "metadata clients must be an object").
Proof. vm_compute. split_and!; reflexivity. Qed.

Lemma public_contract_witness :
  let '(rep, w) := metadata public_env (λ _, None) reviewed (post_metadata "good") (World [] tt) in
  status rep = 204 ∧ justified (public_ok "id" reviewed (post_metadata "good")) (w_tr w) ∧
  reply_ok reviewed (post_metadata "good") rep (w_tr w).
Proof.
  pose proof (public_contract public_env (λ _, None) "id" true reviewed (post_metadata "good") _ eq_refl) as H.
  destruct (metadata _ _ _ _ _) as [rep w] eqn:E. split; [|exact H].
  apply (f_equal fst) in E. cbn [fst] in E. rewrite <-E. vm_compute. reflexivity.
Defined.
