(* ===== verification/Chat.v ===== *)
(** * Chat actions

    Models agent/cmd/chat.go and chat_twitch.go, chat_kick.go, chat_youtube.go
    and chat_firestore.go: the callables that send and moderate chat for a
    signed-in user. Tokens, Firestore, the providers (Clients.v) and the cache
    of live chats, which concurrent calls share, are effects. *)

From stdpp Require Import base gmap strings list pretty.
From Stdlib Require Import Ascii.
From S2P Require Import Prelude GoErr GoTime Float64 Json Effects Store JsonText HttpServer Http Url Clients.
From S2P Require ChatMessage.

Record chatRequest := ChatRequest {
  Provider : string;
  ChannelID : string;
  Message : string;
  MessageID : string;
  Username : string;
  UserID : string;
  ReplyID : string;
  VideoID : option string;
  Length : string;          (* the text of a float64 *)
  Reason : string;
  From_ : string;
  To : string
}.

Definition into_float (old : string) (j : json) : option string :=
  match j with JNull => Some old | JNum t => float_text t | _ => None end.
Definition into_pointer (j : json) : option (option string) :=
  match j with JNull => Some None | JStr s => Some (Some s) | _ => None end.

Definition decode_request (r : chatRequest) (k : string) (j : json) : option chatRequest :=
  let '(ChatRequest p c m i n u y v l w f t) := r in
  if names k "provider" then (λ x, ChatRequest x c m i n u y v l w f t) <$> into_string p j
  else if names k "channelId" then (λ x, ChatRequest p x m i n u y v l w f t) <$> into_string c j
  else if names k "message" then (λ x, ChatRequest p c x i n u y v l w f t) <$> into_string m j
  else if names k "messageId" then (λ x, ChatRequest p c m x n u y v l w f t) <$> into_string i j
  else if names k "username" then (λ x, ChatRequest p c m i x u y v l w f t) <$> into_string n j
  else if names k "userId" then (λ x, ChatRequest p c m i n x y v l w f t) <$> into_string u j
  else if names k "replyToMessageId" then (λ x, ChatRequest p c m i n u x v l w f t) <$> into_string y j
  else if names k "videoId" then (λ x, ChatRequest p c m i n u y x l w f t) <$> into_pointer j
  else if names k "length" then (λ x, ChatRequest p c m i n u y v x w f t) <$> into_float l j
  else if names k "reason" then (λ x, ChatRequest p c m i n u y v l x f t) <$> into_string w j
  else if names k "fromChannelId" then (λ x, ChatRequest p c m i n u y v l w x t) <$> into_string f j
  else if names k "toChannelId" then (λ x, ChatRequest p c m i n u y v l w f x) <$> into_string t j
  else Some r.

(** The data of a call; identifiers lose their provider's prefix. *)
Definition parse_request (data : string) : option chatRequest :=
  if String.eqb data "null" then None
  else
    '(ChatRequest p c m i n u y v l w f t) ←
      unmarshal (into_struct decode_request (ChatRequest "" "" "" "" "" "" "" None "0" "" "" "")) data;
    Some (ChatRequest p c m (trim_prefix i (p +:+ ":")) n u (trim_prefix y (p +:+ ":")) v l w f t).

(** [utf8.RuneCountInString]. *)
Fixpoint rune_count (fuel : nat) (s : string) : Z :=
  match fuel, s with
  | S fuel, String _ _ => 1 + rune_count fuel (drop_str (Nat.max 1 (rune_len s)) s)
  | _, _ => 0
  end.
Definition RuneCount (s : string) : Z := rune_count (String.length s) s.

Definition channelPattern (s : string) : bool :=
  has_prefix s "UC" && (String.length s =? 24)%nat && all_chars id_char (drop_str 2 s).
Definition videoPattern (s : string) : bool := (String.length s =? 11)%nat && all_chars id_char s.

Definition invalid (msg : string) : option error := Some (ErrCallable "invalid-argument" msg).
Definition one_of_ (s : string) (l : list string) : bool := existsb (String.eqb s) l.
Definition empty (s : string) : bool := String.eqb s "".

(** The parameters that an action needs. *)
Definition validate_parameters (action : string) (r : chatRequest) : option error :=
  if String.eqb action "send" then
    if empty (ChannelID r) || empty (Message r) then invalid "missing provider, channelId, message" else None
  else if one_of_ action ["ban"; "unban"; "timeout"] then
    if empty (ChannelID r) || (empty (Username r) && empty (UserID r)) then invalid "missing provider, channelId, username"
    else if String.eqb action "timeout" && (float_is_zero (Length r) || empty (Reason r))
    then invalid "missing provider, channelId, username, length, reason"
    else if String.eqb action "timeout" && String.eqb (Provider r) "twitch" &&
            (negb (float_between 1 1209600 (Length r)) || negb (float_integral (Length r)) || (500 <? RuneCount (Reason r)))
    then invalid "invalid length, reason"
    else None
  else if String.eqb action "deleteMessage" then
    if empty (ChannelID r) || empty (MessageID r) then invalid "missing provider, channelId, messageId" else None
  else if one_of_ action ["clear"; "cancelRaid"] then
    if empty (ChannelID r) then invalid "missing provider, channelId" else None
  else if one_of_ action ["raid"; "shoutout"] then
    if empty (From_ r) || empty (To r) then invalid "missing provider, fromChannelId, toChannelId"
    else if String.eqb action "shoutout" && negb (String.eqb (Provider r) "twitch") then invalid "invalid provider"
    else None
  else None.

(** What a provider supports. *)
Definition validate_provider (action : string) (r : chatRequest) : option error :=
  if one_of_ action ["raid"; "cancelRaid"] then None
  else if String.eqb (Provider r) "twitch" then None
  else if String.eqb (Provider r) "kick" then
    if String.eqb action "clear" then invalid "invalid provider" else None
  else if String.eqb (Provider r) "youtube" then
    if negb (one_of_ action ["send"; "ban"; "timeout"; "deleteMessage"]) then invalid "invalid provider"
    else if match VideoID r with Some v => negb (videoPattern v) | None => false end then invalid "invalid videoId"
    else if negb (String.eqb action "deleteMessage") then
      if negb (channelPattern (ChannelID r)) then invalid "invalid channel"
      else if String.eqb action "send" && (200 <? RuneCount (Message r))
      then invalid "YouTube messages can be at most 200 characters."
      else if one_of_ action ["ban"; "timeout"] && negb (channelPattern (UserID r)) then invalid "invalid user"
      else None
    else None
  else invalid "invalid provider".

Definition validate (action : string) (r : chatRequest) : option error :=
  if empty (Provider r) then invalid "missing provider"
  else match validate_parameters action r with Some e => Some e | None => validate_provider action r end.

(** ** Errors *)

Definition providerName (p : string) : string :=
  if String.eqb p "twitch" then "Twitch" else if String.eqb p "kick" then "Kick"
  else if String.eqb p "youtube" then "YouTube" else "".
Definition providerRejection (p action : string) (e : error) : option error :=
  match as_http e with
  | Some (s, explained) =>
    if s =? 429 then Some (ErrCallable "resource-exhausted" "too many requests, try again shortly")
    else if ((s =? 400) || (s =? 404) || (s =? 409) || (s =? 422)) && explained
    then Some (ErrCallable "failed-precondition" (providerName p +:+ " rejected this " +:+ action +:+ " request."))
    else None
  | None => None
  end.

Definition chatGone (reason : string) : bool :=
  one_of_ reason ["liveChatEnded"; "liveChatNotFound"; "liveChatDisabled"].
Definition quotaMessage : string :=
  "YouTube's daily quota for sending and moderating chat is used up. It resets at midnight Pacific time.".
Definition youtubeError (e : error) : error :=
  match as_api e with
  | None => e
  | Some (status, reason) =>
    let '(code, message) :=
      if one_of_ reason ["quotaExceeded"; "dailyLimitExceeded"] then ("resource-exhausted", quotaMessage)
      else if one_of_ reason ["rateLimitExceeded"; "userRateLimitExceeded"] then
        ("resource-exhausted", "YouTube is rate limiting chat actions. Try again in a moment.")
      else if chatGone reason then ("failed-precondition", "This YouTube live chat isn't active.")
      else if status =? 401 then ("unauthenticated", "YouTube sign-in expired. Sign in with YouTube again.")
      else if status =? 403 then ("permission-denied", "YouTube didn't allow this action.")
      else if status =? 404 then ("not-found", "Not found on YouTube.")
      else if 500 <=? status then ("unavailable", "YouTube request failed.")
      else ("internal", "YouTube request failed.") in
    ErrDetailed code message reason (Some status)
  end.
Definition map_error {A} (f : error → error) (r : result A) : result A :=
  match r with inl e => inl (f e) | inr a => inr a end.

(** ** Effects *)

Inductive xeff : Type → Type :=
  | XClient {A} (op : keff A) : xeff A
  | XDb {A} (op : db A) : xeff A
  | XAccess (uid provider : string) : xeff (result string)
  | XApp (provider : string) : xeff (result string)
  | XCredentials (provider : string) : xeff (result string)       (* the client's identifier *)
  | XCached (uid channel : string) : xeff (option (string * time))
  | XCache (uid channel : string) (chat : option (string * time)) : xeff unit.

Section Routes.
Context (η : env xeff).
Variable http_date : string → option time.
Local Abbreviation M := (M (world xeff unit)).
Local Abbreviation K := (@XClient).
Local Abbreviation user_of := (TwitchUser η K http_date).

Definition object (v : value) : doc := match v with VMap d => d | _ => [] end.
Definition text (d : doc) (k : string) : string := match field d k with VString s => s | _ => "" end.

(** ** Profiles and raids in Firestore *)

Definition profileID (uid p : string) : M (result string) :=
  r ← db_ η (@XDb) (Store.Get ("profiles/" +:+ uid));
  match r with
  | inl e => if decide (status_code (Some e) = NotFound) then ok "" else throw e
  | inr d => ok (text (object (field d p)) "id")
  end.

Definition channel_ref (id : string) : string := "channels/twitch:" +:+ id.
Definition raidMessage (id kind : string) (raid : doc) (at_ : time) : M (result unit) :=
  now ← ask η (XClient KNow);
  r ← exec η (@XDb) (Store.Create (channel_ref id +:+ "/messages/" +:+ kind +:+ "-" +:+ text raid "id")
        [("channelId", VString ("twitch:" +:+ id)); ("type", VString kind); ("raid", VMap raid);
         ("timestamp", VTime at_); ("expiresAt", VTime (now + ChatMessage.TTL))]);
  mret (match r with
        | inl e => if decide (status_code (Some e) = AlreadyExists) then inr tt else inl e
        | inr _ => inr tt
        end).

Definition unix_milli (t : time) : Z := (t - unix_offset * second) / millisecond.
Definition RaidStart (id : string) (target : User) (at_ : time) : M (result unit) :=
  let name := if empty (DisplayName target) then Login target else DisplayName target in
  let raid := [("id", VString (ID target +:+ "-" +:+ pretty (unix_milli at_))); ("target_id", VString (ID target));
               ("target_login", VString (Login target)); ("target_display_name", VString name);
               ("force_raid_now_seconds", VInt 90)] in
  raidMessage id "raid_update_v2" raid at_ ;?
  exec η (@XDb) (Set_ (channel_ref id) [("outgoingRaid", VMap raid)] true).

Definition RaidCancel (id : string) (at_ : time) : M (result unit) :=
  r ← db_ η (@XDb) (Store.Get (channel_ref id));
  match r with
  | inl e => if decide (status_code (Some e) = NotFound) then ok tt else throw e
  | inr d =>
    match field d "outgoingRaid" with
    | VMap raid =>
      raidMessage id "raid_cancel_v2" raid at_ ;?
      exec η (@XDb) (Set_ (channel_ref id) [("outgoingRaid", VNull)] true)
    | _ => ok tt
    end
  end.

(** ** Twitch *)

Definition app_client (id : string) : M (result client) :=
  token ←? ask η (XApp "twitch"); ok (TwitchClient id token).

(** The fallback of a message that Twitch refused to authorize. *)
Definition irc_fallback (id client_id token : string) (r : chatRequest) : M (result json) :=
  app ←? app_client client_id;
  target ←? user_of app "id" (ChannelID r);
  if empty (Login target) then ok JNull
  else
    sender ←? user_of app "id" id;
    if empty (Login sender) then throw (ErrMsg "sender unavailable on Twitch")
    else SendIRC η K token (Login sender) (Login target) (Message r) ;? ok JNull.

Definition twitch_send (id client_id token : string) (r : chatRequest) : M (result json) :=
  m ← TwitchSend η K (TwitchClient client_id token) (ChannelID r) id (Message r) (ReplyID r);
  match m with
  | inl e =>
    match as_http e with
    | Some (s, _) => if (s =? 401) || (s =? 403) then irc_fallback id client_id token r else throw e
    | None => throw e
    end
  | inr m => ok (if empty m then JNull else JStr m)
  end.

(** The user that a moderation action is about. *)
Definition twitch_target (action client_id : string) (r : chatRequest) : M (result string) :=
  if one_of_ action ["ban"; "unban"; "timeout"] && empty (UserID r) then
    app ←? app_client client_id;
    u ←? user_of app "login" (Username r);
    if empty (ID u) then throw (ErrCallable "not-found" "Twitch user not found") else ok (ID u)
  else ok (UserID r).

Definition raid_refusal (e : error) : error :=
  match as_raid e with Some m => ErrCallable "failed-precondition" m | None => e end.

Definition twitch_act (action id target : string) (c : client) (r : chatRequest) : M (result unit) :=
  if String.eqb action "ban" then TwitchBan η K c (ChannelID r) id target "0" ""
  else if String.eqb action "timeout" then TwitchBan η K c (ChannelID r) id target (Length r) (Reason r)
  else if String.eqb action "unban" then TwitchUnban η K c (ChannelID r) id target
  else if String.eqb action "deleteMessage" then DeleteMessages η K c (ChannelID r) id (MessageID r)
  else if String.eqb action "clear" then DeleteMessages η K c (ChannelID r) id ""
  else if String.eqb action "raid" then
    started ← StartRaid η K c (From_ r) (To r);
    match started with
    | inl e => throw (raid_refusal e)
    | inr started =>
      if time_is_zero started then ok tt
      else
        u ← user_of c "id" (To r);
        match u with
        | inl _ => ok tt
        | inr u => x ← RaidStart (From_ r) (MkUser (To r) (Login u) (DisplayName u)) started; ok tt
        end
    end
  else if String.eqb action "shoutout" then
    reason ←? Shoutout η K c (From_ r) (To r) id;
    if empty reason then ok tt else throw (ErrCallable "failed-precondition" reason)
  else if String.eqb action "cancelRaid" then
    e ← CancelRaid η K c (ChannelID r);
    match e with
    | inl e => throw (raid_refusal e)
    | inr _ => now ← ask η (XClient KNow); x ← RaidCancel (ChannelID r) now; ok tt
    end
  else ok tt.

Definition moderation_error (e : error) : error :=
  match as_moderation e with Some m => ErrCallable "failed-precondition" m | None => e end.

Definition twitch (uid token action : string) (r : chatRequest) : M (result json) :=
  id ←? profileID uid "twitch";
  if empty id then ok (if String.eqb action "send" then JStr "not signed in with twitch" else JNull)
  else
    client_id ←? ask η (XCredentials "twitch");
    if String.eqb action "send" then twitch_send id client_id token r
    else
      target ←? twitch_target action client_id r;
      a ← twitch_act action id target (TwitchClient client_id token) r;
      match a with inl e => throw (moderation_error e) | inr _ => ok JNull end.

(** ** Kick *)

Definition kickID (v : string) : result Z :=
  match parse_int v with
  | Some id => if id <=? 0 then inl (ErrCallable "invalid-argument" "invalid Kick user id") else inr id
  | None => inl (ErrCallable "invalid-argument" "invalid Kick user id")
  end.

Definition kick_target (r : chatRequest) : M (result string) :=
  if empty (UserID r) then
    app ←? ask η (XApp "kick");
    u ←? ChannelUser η K http_date (KickClient app) (Username r);
    if empty u then throw (ErrCallable "not-found" "kick user not found") else ok u
  else ok (UserID r).

Definition kick (token action : string) (r : chatRequest) : M (result json) :=
  let c := KickClient token in
  let done_ m := (m : M (result unit)) ;? ok JNull in
  if String.eqb action "deleteMessage" then done_ (KickDelete η K c (MessageID r))
  else
    broadcaster ←? mret (kickID (ChannelID r));
    if String.eqb action "send" then done_ (KickSend η K c broadcaster (Message r) (ReplyID r))
    else
      target ←? kick_target r;
      user ←? mret (kickID target);
      if String.eqb action "unban" then done_ (KickUnban η K c broadcaster user)
      else if String.eqb action "timeout" then done_ (KickBan η K c broadcaster user (Length r) (Reason r))
      else done_ (KickBan η K c broadcaster user "0" "").

(** ** YouTube *)

(** The chat that YouTube names, or why there is none. *)
Definition find_chat (uid token channel : string) (video : option string) : M (result string) :=
  own ←? (match video with None => profileID uid "youtube" | Some _ => ok "" end);
  id ← LiveChat η K (YouTubeClient token) channel video (String.eqb own channel);
  match id with
  | inl e => throw (youtubeError e)
  | inr id =>
    if empty id then throw (ErrDetailed "failed-precondition" "This YouTube channel isn't live." "notLive" None)
    else ok id
  end.

(** An explicit video neither uses nor changes the cache. *)
Definition liveChat (uid token channel : string) (video : option string) : M (result string) :=
  cached ← ask η (XCached uid channel);
  let '(cached_id, until) := default ("", zero_time) cached in
  match video with
  | Some _ => find_chat uid token channel video
  | None =>
    now ← ask η (XClient KNow);
    if now <? until then ok cached_id
    else
      id ←? find_chat uid token channel video;
      now ← ask η (XClient KNow);
      ask η (XCache uid channel (Some (id, now + 5 * minute))) ;; ok id
  end.

Definition youtube_act (action chat : string) (c : client) (r : chatRequest) : M (result unit) :=
  if String.eqb action "send" then YTSend η K c chat (Message r)
  else if String.eqb action "timeout" then YTBan η K c chat (UserID r) (Length r)
  else YTBan η K c chat (UserID r) "0".

Definition youtube (uid token action : string) (r : chatRequest) : M (result json) :=
  let c := YouTubeClient token in
  if String.eqb action "deleteMessage" then
    if empty (MessageID r) then throw (ErrCallable "invalid-argument" "invalid message")
    else
      e ← YTDelete η K c (MessageID r);
      match e with inl e => throw (youtubeError e) | inr _ => ok JNull end
  else
    chat ←? liveChat uid token (ChannelID r) (VideoID r);
    e ← youtube_act action chat c r;
    match e with
    | inr _ => ok JNull
    | inl e =>
      (if match VideoID r, as_api e with None, Some (_, reason) => chatGone reason | _, _ => false end
       then ask η (XCache uid (ChannelID r) None) else mret tt) ;;
      throw (youtubeError e)
    end.

(** ** The handlers *)

Definition not_linked (p : string) : error := ErrCallable "failed-precondition" (p +:+ " account not linked").

Definition chat (uid action data : string) : M (result json) :=
  match parse_request data with
  | None => throw (ErrCallable "invalid-argument" "invalid data")
  | Some r =>
    match validate action r with
    | Some e => throw e
    | None =>
      if one_of_ action ["raid"; "cancelRaid"] && negb (String.eqb (Provider r) "twitch") then ok JNull
      else
        token ← ask η (XAccess uid (Provider r));
        match token with
        | inl e => throw (if is_no_token e then not_linked (Provider r) else e)
        | inr token =>
          if empty token then throw (not_linked (Provider r))
          else if one_of_ (Provider r) ["twitch"; "kick"; "youtube"] then
            x ← (if String.eqb (Provider r) "twitch" then twitch uid token action r
                 else if String.eqb (Provider r) "kick" then kick token action r
                 else youtube uid token action r);
            mret (match x with
                  | inl e => inl (default e (providerRejection (Provider r) action e))
                  | inr v => inr v
                  end)
          else throw (ErrCallable "invalid-argument" "invalid provider")
        end
    end
  end.
End Routes.

(** ** What is within a provider's limits *)

(** The UTF-16 units of a text. *)
Fixpoint utf16_units (fuel : nat) (s : string) : Z :=
  match fuel, s with
  | S fuel, String _ _ => (if (rune_len s =? 4)%nat then 2 else 1) + utf16_units fuel (drop_str (Nat.max 1 (rune_len s)) s)
  | _, _ => 0
  end.
Definition UnitCount (s : string) : Z := utf16_units (String.length s) s.

Lemma units_rune g r k X :
  slen r = S k → rune_len (r +:+ X) = S k →
  utf16_units (S g) (r +:+ X) = (if (S k =? 4)%nat then 2 else 1) + utf16_units g X.
Proof.
  intros Hl Hk. destruct r as [|a r]; [done|]. pose proof (drop_str_app (String a r) X) as Hd. rewrite Hl in Hd.
  rewrite app_str_cons in *. cbn [utf16_units]. by rewrite Hk, Nat.max_r, Hd by lia.
Qed.

Lemma utf16_prefix_units f : ∀ n s g, 0 <= n → utf16_units g (utf16_prefix f n s) <= n.
Proof.
  induction f as [|f IH]; intros n s g Hn; [by destruct g|]. destruct s as [|a s]; [by destruct g|].
  cbn [utf16_prefix]. destruct (Z.leb_spec n 0); [by destruct g|]. destruct g as [|g]; [done|].
  destruct (rune_cases (String a s)) as [H0|[(b & t & [= <- <-] & Ha & H1)|(k & r & t & b & r' & Hk & Hs & Hl & -> & Hb & HX)]].
  - rewrite H0. rewrite (units_rune g (utf8_encode rune_error) 2) by done.
    cbn [Nat.eqb]. specialize (IH (n - 1) (drop_str 1 (String a s)) g). lia.
  - rewrite H1. change (String.substring 0 1 (String a s)) with (String a (String.substring 0 0 s)).
    rewrite (units_rune g (String a (String.substring 0 0 s)) 0).
    + cbn [Nat.eqb]. specialize (IH (n - 1) (drop_str 1 (String a s)) g). lia.
    + by destruct s.
    + rewrite app_str_cons. cbn [rune_len]. unfold between. unfold code_of in *.
      by rewrite (proj2 (Z.leb_le 0 _)), (proj2 (Z.leb_le _ 127)) by lia.
  - rewrite Hk, Hs. destruct k as [|[|[|k]]].
    all: try (rewrite <-Hl, substring_app, drop_str_app).
    + rewrite (units_rune g _ 1) by done. cbn [Nat.eqb]. specialize (IH (n - 1) t g). lia.
    + rewrite (units_rune g _ 2) by done. cbn [Nat.eqb]. specialize (IH (n - 1) t g). lia.
    + destruct (Z.eqb_spec n 1) as [->|].
      { change (utf8_encode rune_error) with (utf8_encode rune_error +:+ ""). rewrite (units_rune g _ 2) by done. by destruct g. }
      rewrite (units_rune g _ 3) by done. cbn [Nat.eqb]. specialize (IH (n - 2) t g). lia.
    + exfalso. clear -Hk. destruct s as [|b' s]; cbn in Hk; repeat case_match; lia.
Qed.

Lemma truncateReason_units s : UnitCount (truncateReason s) <= 100.
Proof. by apply utf16_prefix_units. Qed.

Lemma kick_minutes_range t : 1 <= kick_minutes t <= 10080.
Proof. unfold kick_minutes. lia. Qed.

(** The member [k] of an object, when it is a string or a number. *)
Definition string_member (k : string) (l : list (string * json)) : option string :=
  match member k l with Some (JStr s) => Some s | _ => None end.
Definition number_member (k : string) (l : list (string * json)) : option string :=
  match member k l with Some (JNum s) => Some s | _ => None end.
Definition object_member (k : string) (l : list (string * json)) : list (string * json) :=
  match member k l with Some (JObj l) => l | _ => [] end.

(** What the provider documents of timeouts, reasons and messages. *)
Definition within_limits (p : string) (body : option json) : Prop :=
  match body with
  | Some (JObj l) =>
    if String.eqb p "twitch" then
      (∀ t, number_member "duration" (object_member "data" l) = Some t →
         ∃ x, t = float_json x ∧ float_between 1 1209600 x = true ∧ float_integral x = true) ∧
      (∀ s, string_member "reason" (object_member "data" l) = Some s → RuneCount s <= 500)
    else if String.eqb p "kick" then
      (∀ t, number_member "duration" l = Some t → ∃ n, t = pretty n ∧ 1 <= n <= 10080) ∧
      (∀ s, string_member "reason" l = Some s → UnitCount s <= 100)
    else
      ∀ s, string_member "messageText" (object_member "textMessageDetails" (object_member "snippet" l)) = Some s →
        RuneCount s <= 200
  | _ => True
  end.

(** ** What an action may do *)

Definition mutates (e : ev xeff) : bool :=
  match e with Ev op _ => match op with XClient (KDo _ m _ _) => negb (bool_decide (m = GET)) | _ => false end end.
Definition dials (e : ev xeff) : bool :=
  match e with Ev op _ => match op with XClient KDial => true | _ => false end end.
Definition counted (f : ev xeff → bool) (t : trace xeff) : nat := List.length (List.filter f t).

Section Actions.
Context (uid action data : string).

(** The valid request, and the user's token for its provider. *)
Definition granted (r : chatRequest) (token : string) (t : trace xeff) : Prop :=
  parse_request data = Some r ∧ validate action r = None ∧ token ≠ "" ∧ Ev (XAccess uid (Provider r)) (inr token) ∈ t.

Definition client_of (p id token : string) : client :=
  if String.eqb p "twitch" then TwitchClient id token else if String.eqb p "kick" then KickClient token
  else YouTubeClient token.

(** Twitch refused to authorize the message that was sent with the token. *)
Definition unauthorized (token : string) (t : trace xeff) : Prop :=
  ∃ id body s h b, Ev (XClient (KDo (TwitchClient id token) POST "/chat/messages" body)) (inr (Raw s h b)) ∈ t ∧
    (s = 401 ∨ s = 403).

Definition chat_ok (t : trace xeff) (e : ev xeff) : Prop :=
  match e with
  | Ev op _ =>
    match op with
    | XAccess u p => u = uid ∧ t = [] ∧ ∃ r, parse_request data = Some r ∧ validate action r = None ∧ p = Provider r
    | XClient op =>
      ∃ r token, granted r token t ∧
      match op with
      | KDo c m _ body =>
        if bool_decide (m = GET) then
          c = DiscoveryClient ∨ (∃ id, c = client_of (Provider r) id token) ∨
          (∃ id app, Ev (XApp (Provider r)) (inr app) ∈ t ∧ c = client_of (Provider r) id app)
        else
          (∃ id, c = client_of (Provider r) id token) ∧ counted mutates t = 0%nat ∧ within_limits (Provider r) body
      | KDial => Provider r = "twitch" ∧ action = "send" ∧ unauthorized token t ∧ counted dials t = 0%nat
      | KSay line => unauthorized token t ∧ ∃ login target, line ∈ irc_lines token login target (Message r)
      | KNow | KSleep _ => True
      end
    | XDb op =>
      ∃ r token, granted r token t ∧
      match op with
      | Store.Get p => p = "profiles/" +:+ uid ∨ (action = "cancelRaid" ∧ p = channel_ref (ChannelID r))
      | Store.Create p _ | Set_ p _ _ =>
        counted mutates t = 1%nat ∧
        ((action = "raid" ∧ has_prefix p (channel_ref (From_ r)) = true) ∨
         (action = "cancelRaid" ∧ has_prefix p (channel_ref (ChannelID r)) = true))
      | _ => False
      end
    | XApp p | XCredentials p => ∃ r token, granted r token t ∧ p = Provider r
    | XCached u c => u = uid ∧ ∃ r token, granted r token t ∧ c = ChannelID r
    | XCache u c _ => u = uid ∧ ∃ r token, granted r token t ∧ c = ChannelID r ∧ VideoID r = None
    end
  end.
End Actions.

Section Walk.
Context (η : env xeff) (http_date : string → option time) (uid action data : string) (r : chatRequest) (token : string).
Local Abbreviation runs := (runs (S:=unit) (chat_ok uid action data)).
Local Abbreviation granted := (granted uid action data r token).
Local Abbreviation K := (@XClient).

Definition base (n : nat) (t : trace xeff) : Prop := counted mutates t = n ∧ counted dials t = 0%nat.
(** At most one mutation, and no dial. *)
Definition mid (t : trace xeff) : Prop := (counted mutates t <= 1)%nat ∧ counted dials t = 0%nat.
Definition final (t : trace xeff) : Prop := (counted mutates t <= 1)%nat ∧ (counted dials t <= 1)%nat.

Lemma counted_cons f e (t : trace xeff) : counted f (e :: t) = ((if f e then 1 else 0) + counted f t)%nat.
Proof. unfold counted. cbn. by destruct (f e). Qed.

Lemma calm_base n e t : mutates e = false → dials e = false → base n t → base n (e :: t).
Proof. intros H1 H2 [??]. unfold base. by rewrite !counted_cons, H1, H2. Qed.
Lemma base_mid n t : (n <= 1)%nat → base n t → mid t.
Proof. intros ? [<- ?]. by split. Qed.
Lemma mid_final t : mid t → final t.
Proof. intros [? H]. split; [done|]. rewrite H. lia. Qed.
Lemma base_final n t : (n <= 1)%nat → base n t → final t.
Proof. intros. by eapply mid_final, base_mid. Qed.

Lemma base0_final t : base 0 t → final t.
Proof. apply base_final. lia. Qed.

Lemma grant_stable : stable granted.
Proof. intros e t (?&?&?&?). split_and!; try done. by right. Qed.
Lemma unauthorized_stable : stable (unauthorized token).
Proof. intros e t (id & body & s & h & b & H & ?). exists id, body, s, h, b. split; [by right|done]. Qed.
#[local] Hint Resolve grant_stable unauthorized_stable : effects.

(** An effect that neither mutates nor dials, under stable facts [G]. *)
Lemma runs_calm {A B} n (op : xeff A) (f : A → M (world xeff unit) B) G Q :
  stable G → (∀ a, mutates (Ev op a) = false ∧ dials (Ev op a) = false) →
  (∀ t a, base n t → G t → chat_ok uid action data t (Ev op a)) →
  (∀ a, runs (λ t, base n t ∧ G t ∧ Ev op a ∈ t) (f a) Q) →
  runs (λ t, base n t ∧ G t) (ask η op ≫= f) Q.
Proof.
  intros HG Hq Hok. apply runs_step; [|done]. intros t a Hb Hg. destruct (Hq a).
  split; [by apply Hok|by apply calm_base].
Qed.

(** The clients a request may read with. *)
Definition reads (c : client) (t : trace xeff) : Prop :=
  c = DiscoveryClient ∨ (∃ id, c = client_of (Provider r) id token) ∨
  (∃ id app, Ev (XApp (Provider r)) (inr app) ∈ t ∧ c = client_of (Provider r) id app).

Lemma reads_ok c path body t a : granted t → reads c t → chat_ok uid action data t (Ev (XClient (KDo c GET path body)) a).
Proof. intros Hg Hc. cbn. exists r, token. split; [done|]. exact Hc. Qed.

Lemma runs_read {B} n c path (f : json → option B) G :
  stable G → (∀ t, G t → granted t ∧ reads c t) →
  runs (λ t, base n t ∧ G t) (CGet η K http_date c path f) (λ _ t, base n t ∧ G t).
Proof.
  intros HG Hr. apply runs_CGet.
  - intros t [Hb Hg]. destruct (Hr t Hg) as [Hgr _].
    split; intros; (split; [exists r, token; done|split; [by apply calm_base|by apply HG]]).
  - intros t a [Hb Hg]. destruct (Hr t Hg). split; [by apply reads_ok|]. split; [by apply calm_base|by apply HG].
Qed.

(** The one request that mutates. *)
Lemma runs_mutate c m path body G :
  stable G → m ≠ GET → (∀ t, G t → granted t) → (∃ id, c = client_of (Provider r) id token) →
  within_limits (Provider r) body →
  runs (λ t, base 0 t ∧ G t) (Do η K c m path body) (λ a t, mid t ∧ G t ∧
    match a with inl e => as_http e = None | inr w => base 1 t ∧ Ev (XClient (KDo c m path body)) (inr w) ∈ t end).
Proof.
  intros HG Hm Hgr Hc Hl. apply runs_Do.
  - intros t a [[Hb Hd] Hg]. split.
    + cbn. exists r, token. rewrite bool_decide_false by done. by split_and!; [apply Hgr|..].
    + assert (Hb' : base 1 (Ev (XClient (KDo c m path body)) a :: t)).
      { unfold base. rewrite !counted_cons. cbn. rewrite bool_decide_false by done. cbn. by rewrite Hb. }
      split_and!; [by eapply base_mid|by apply HG|].
      destruct a as [[[]|]|]; [done..|]. split; [done|left].
  - intros t [Hb Hg]. split_and!; [by eapply base_mid, Hb; lia|done|done].
Qed.

(** What follows the request decides only what is returned. *)
Ltac pure_rest :=
  repeat match goal with |- Effects.runs _ _ (match ?x with _ => _ end) _ => destruct x end;
  apply runs_ret; naive_solver.

(** The operations that write, each over one request. *)
Section Writes.
Context (G : trace xeff → Prop) (c : client) (m : method) (path : string) (body : option json).
Context (HG : stable G) (Hm : m ≠ GET) (Hgr : ∀ t, G t → granted t) (Hc : ∃ id, c = client_of (Provider r) id token).
Context (Hl : within_limits (Provider r) body).

Lemma runs_bind_mutate {A} (k : result raw → M (world xeff unit) A) Q :
  (∀ a, runs (λ t, mid t ∧ G t ∧ match a with inl e => as_http e = None | inr w =>
                base 1 t ∧ Ev (XClient (KDo c m path body)) (inr w) ∈ t end) (k a) Q) →
  runs (λ t, base 0 t ∧ G t) (Do η K c m path body ≫= k) Q.
Proof. intros Hk. eapply runs_bind; [by apply runs_mutate|done]. Qed.

Lemma runs_write : runs (λ t, base 0 t ∧ G t) (write η K c m path body) (λ _ t, mid t ∧ G t).
Proof. apply runs_bind_mutate. intros [e|a]; pure_rest. Qed.
Lemma runs_writeBan : runs (λ t, base 0 t ∧ G t) (writeBan η K c m path body) (λ _ t, mid t ∧ G t).
Proof. apply runs_bind_mutate. intros [e|a]; pure_rest. Qed.
Lemma runs_DoJSON : runs (λ t, base 0 t ∧ G t) (DoJSON η K c m path body) (λ _ t, mid t ∧ G t).
Proof. apply runs_bind_mutate. intros [e|a]; pure_rest. Qed.
Lemma runs_yt_write {B} (zero : B) f :
  runs (λ t, base 0 t ∧ G t) (yt_request η K c m path body zero f) (λ _ t, mid t ∧ G t).
Proof. apply runs_bind_mutate. intros [e|a]; pure_rest. Qed.
End Writes.

Lemma runs_yt_read {B} n G c path (zero : B) f :
  stable G → (∀ t, G t → granted t ∧ reads c t) →
  runs (λ t, base n t ∧ G t) (yt_request η K c GET path None zero f) (λ _ t, base n t ∧ G t).
Proof.
  intros HG Hr. unfold yt_request, bindE. apply runs_bind with (λ _ t, base n t ∧ G t).
  - apply runs_Do; [|done]. intros t a [Hb Hg]. destruct (Hr t Hg).
    split; [by apply reads_ok|]. split; [by apply calm_base|by apply HG].
  - intros [e|a]; pure_rest.
Qed.

(** *** Kick *)

Lemma kick_ban_limits ch u secs reason :
  within_limits "kick" (Some (JObj (kick_ids ch u ++
    if float_is_zero secs then []
    else ("duration", JNum (pretty (kick_minutes secs))) ::
         if String.eqb reason "" then [] else [("reason", JStr (truncateReason reason))]))).
Proof.
  cbn [within_limits String.eqb]. split.
  - intros t. destruct (float_is_zero secs); [done|]. destruct (String.eqb reason ""); intros [= <-];
      (eexists; split; [reflexivity|apply kick_minutes_range]).
  - intros s. destruct (float_is_zero secs); [done|]. destruct (String.eqb reason ""); [done|]. intros [= <-].
    apply truncateReason_units.
Qed.

Section Kick.
Context (Hp : Provider r = "kick").

Lemma kick_client : ∃ id, KickClient token = client_of (Provider r) id token.
Proof. exists "". by rewrite Hp. Qed.

Lemma runs_kick_write (op : M (world xeff unit) (result unit)) G :
  runs (λ t, base 0 t ∧ G t) op (λ _ t, mid t ∧ G t) →
  runs (λ t, base 0 t ∧ G t) (op ;? ok JNull) (λ _ t, final t).
Proof.
  intros H. eapply runs_bindE; [apply H| |]; [intros e t [? _]; by apply mid_final|].
  intros []. apply runs_ret. intros t [? _]. by apply mid_final.
Qed.

Lemma runs_kick : runs (λ t, base 0 t ∧ granted t) (kick η http_date token action r) (λ _ t, final t).
Proof.
  pose proof kick_client as Hc. pose proof grant_stable as Hs.
  assert (Hret : ∀ (G : trace xeff → Prop) (a : result json),
    runs (λ t, base 0 t ∧ G t) (mret a) (λ _ t, final t)).
  { intros G a. apply runs_ret. intros t [? _]. by apply base0_final. }
  unfold kick. cbv zeta. destruct (String.eqb action "deleteMessage").
  { apply (runs_kick_write _ granted). by apply runs_DoJSON. }
  unfold bindE at 1. apply runs_ret_bind. destruct (kickID (ChannelID r)) as [e|ch]; [apply Hret|].
  destruct (String.eqb action "send").
  { apply (runs_kick_write _ granted). apply runs_DoJSON; try done. rewrite Hp.
    cbn [within_limits String.eqb]. by destruct (String.eqb (ReplyID r) ""). }
  eapply runs_bindE with (λ _ t, base 0 t ∧ granted t).
  - unfold kick_target. destruct (empty (UserID r)); [|by apply runs_ret].
    unfold bindE. apply runs_calm; [done|done|intros t a _ Hg; exists r, token; by rewrite Hp|].
    intros [e|app]; [apply runs_ret; naive_solver|].
    set (G t := granted t ∧ Ev (XApp "kick") (inr app) ∈ t).
    assert (HG : stable G) by (unfold G; auto with effects).
    apply runs_conseq with (λ t, base 0 t ∧ G t) (λ _ t, base 0 t ∧ G t); [|done|unfold G; naive_solver].
    apply runs_bindE with (λ _ t, base 0 t ∧ G t); [|done|].
    + apply runs_bindE with (λ _ t, base 0 t ∧ G t); [|done|intros l; by apply runs_ret].
      apply runs_read; [done|]. intros t [Hg Ha]. split; [done|]. right; right. exists "", app. by rewrite Hp.
    + intros u. destruct (empty u); by apply runs_ret.
  - intros e t [? _]. by apply base0_final.
  - intros target. unfold bindE at 1. apply runs_ret_bind. destruct (kickID target) as [e|u]; [apply Hret|].
    destruct (String.eqb action "unban"); [|destruct (String.eqb action "timeout")];
      apply (runs_kick_write _ granted); apply runs_DoJSON; try done; rewrite Hp;
      [done|apply kick_ban_limits|apply (kick_ban_limits ch u "0" "")].
Qed.
End Kick.

(** A program that only reads, under the user's grant. *)
Definition reading {A} (m : M (world xeff unit) A) : Prop :=
  runs (λ t, base 0 t ∧ granted t) m (λ _ t, base 0 t ∧ granted t).

Lemma reading_ret {A} (a : A) : reading (mret a).
Proof. by apply runs_ret. Qed.
Lemma reading_bind {A B} (m : M (world xeff unit) A) (k : A → M (world xeff unit) B) :
  reading m → (∀ a, reading (k a)) → reading (m ≫= k).
Proof. intros Hm Hk. eapply runs_bind; [apply Hm|done]. Qed.
Lemma reading_bindE {A B} (m : M (world xeff unit) (result A)) (k : A → M (world xeff unit) (result B)) :
  reading m → (∀ a, reading (k a)) → reading (bindE m k).
Proof. intros Hm Hk. eapply runs_bindE; [apply Hm|done|done]. Qed.
Lemma reading_ask {A} (op : xeff A) :
  (∀ a, mutates (Ev op a) = false ∧ dials (Ev op a) = false) →
  (∀ t a, granted t → chat_ok uid action data t (Ev op a)) → reading (ask η op).
Proof.
  intros Hq Hok. apply runs_ask. intros t [Hb Hg]. destruct (Hq (η A t op)).
  split; [by apply Hok|]. split; [by apply calm_base|by apply grant_stable].
Qed.
Lemma reading_now : reading (ask η (XClient KNow)).
Proof. apply reading_ask; [done|]. intros t a Hg. by exists r, token. Qed.
Lemma reading_own {B} id path (f : json → option B) :
  reading (CGet η K http_date (client_of (Provider r) id token) path f).
Proof. apply runs_read; [apply grant_stable|]. intros t Hg. split; [done|]. right; left. by exists id. Qed.

Lemma reading_profileID p : reading (profileID η uid p).
Proof.
  unfold profileID, Store.db_. apply reading_bind.
  - apply reading_ask; [done|]. intros t a Hg. exists r, token. split; [done|]. by left.
  - intros [e|d]; [destruct (decide _)|]; apply reading_ret.
Qed.

(** *** YouTube *)

Section YouTube.
Context (Hp : Provider r = "youtube").

Lemma youtube_client : ∃ id, YouTubeClient token = client_of (Provider r) id token.
Proof. exists "". by rewrite Hp. Qed.

Lemma reading_yt {B} path (zero : B) f : reading (yt_request η K (YouTubeClient token) GET path None zero f).
Proof.
  apply runs_yt_read; [apply grant_stable|]. intros t Hg. split; [done|]. right; left. apply youtube_client.
Qed.

Lemma reading_find_chat channel video : reading (find_chat η uid token channel video).
Proof.
  assert (Hv : ∀ id, reading (video_chat η K (YouTubeClient token) channel id)).
  { intros id. unfold video_chat. destruct (String.eqb id ""); [apply reading_ret|].
    apply reading_bindE; [apply reading_yt|]. intros [|[o c] l]; apply reading_ret. }
  unfold find_chat. apply reading_bindE; [destruct video; [apply reading_ret|apply reading_profileID]|]. intros own.
  apply reading_bind; [|intros [e|id]; [|destruct (empty id)]; apply reading_ret].
  unfold LiveChat. destruct video as [id|]; [apply Hv|]. apply reading_bindE.
  { destruct (String.eqb own channel); [|apply reading_ret]. apply reading_bindE; [apply reading_yt|].
    intros l. apply reading_ret. }
  intros [c|]; [apply reading_ret|]. apply reading_bindE.
  { apply runs_Do; [|done]. intros t a [Hb Hg]. split; [apply reads_ok; [done|by left]|].
    split; [by apply calm_base|by apply grant_stable]. }
  intros a. destruct (Err a); [apply reading_ret|]. destruct (canonical_match _); [apply Hv|apply reading_ret].
Qed.

Lemma reading_liveChat : parse_request data = Some r → reading (liveChat η uid token (ChannelID r) (VideoID r)).
Proof.
  intros Hd. unfold liveChat. apply reading_bind.
  { apply reading_ask; [done|]. intros t a Hg. split; [done|]. by exists r, token. }
  intros cached. destruct (default _ cached) as [cid until]. destruct (VideoID r) eqn:Ev; [apply reading_find_chat|].
  apply reading_bind; [apply reading_now|]. intros now. destruct (now <? until); [apply reading_ret|].
  apply reading_bindE; [apply reading_find_chat|]. intros id. apply reading_bind; [apply reading_now|]. intros now'.
  apply reading_bind; [|intros; apply reading_ret].
  apply reading_ask; [done|]. intros t a Hg. split; [done|]. by exists r, token.
Qed.

Lemma youtube_send_limits : validate "send" r = None → RuneCount (Message r) <= 200.
Proof.
  unfold validate. destruct (empty (Provider r)); [done|].
  destruct (validate_parameters "send" r); [done|].
  unfold validate_provider. rewrite Hp. cbn [one_of_ existsb String.eqb orb negb].
  destruct (match VideoID r with Some v => negb (videoPattern v) | None => false end); [done|].
  destruct (negb (channelPattern (ChannelID r))); [done|]. destruct (Z.ltb_spec 200 (RuneCount (Message r))); [done|lia].
Qed.

Lemma runs_youtube :
  parse_request data = Some r → validate action r = None →
  runs (λ t, base 0 t ∧ granted t) (youtube η uid token action r) (λ _ t, final t).
Proof.
  intros Hd Hv. pose proof youtube_client as Hc. pose proof grant_stable as Hs.
  assert (Hret : ∀ (F : trace xeff → Prop) (a : result json), (∀ t, F t → mid t) → runs F (mret a) (λ _ t, final t)).
  { intros F a HF. apply runs_ret. intros t Ht. by apply mid_final, HF. }
  unfold youtube. cbv zeta. destruct (String.eqb action "deleteMessage").
  { destruct (empty (MessageID r)); [apply Hret; intros t [? _]; by apply (base_mid 0); [lia|]|].
    apply runs_bind with (λ _ t, mid t ∧ granted t); [by apply runs_yt_write|].
    intros [e|[]]; apply Hret; naive_solver. }
  apply runs_bindE with (λ _ t, base 0 t ∧ granted t); [by apply reading_liveChat|intros e t [? _]; by apply base0_final|].
  intros chat. apply runs_bind with (λ _ t, mid t ∧ granted t).
  - unfold youtube_act. destruct (String.eqb_spec action "send") as [Ea|]; [|destruct (String.eqb action "timeout")];
      apply runs_yt_write; try done; rewrite Hp; cbn [within_limits String.eqb].
    + intros x [= <-]. apply youtube_send_limits. by rewrite <-Ea.
    + by destruct (float_is_zero (Length r)).
    + done.
  - intros [e|[]]; [|apply Hret; naive_solver].
    apply runs_bind with (λ _ t, mid t); [|intros _; by apply Hret].
    destruct (match VideoID r, as_api e with None, Some (_, reason) => chatGone reason | _, _ => false end) eqn:Eg;
      [|apply runs_ret; naive_solver].
    apply runs_ask. intros t [[Hm Hn] Hg]. split.
    + split; [done|]. exists r, token. split_and!; try done. by destruct (VideoID r).
    + unfold mid. by rewrite !counted_cons.
Qed.
End YouTube.

(** *** Twitch *)

Section Twitch.
Context (Hp : Provider r = "twitch").

Lemma twitch_client id : ∃ id', TwitchClient id token = client_of (Provider r) id' token.
Proof. exists id. by rewrite Hp. Qed.

(** Looking users up with the application's token. *)
Lemma runs_app_client {B} n cid (k : client → M (world xeff unit) (result B)) G Q :
  stable G → (∀ t, G t → granted t) →
  (∀ e t, base n t → G t → Q (inl e) t) →
  (∀ app, runs (λ t, base n t ∧ (G t ∧ Ev (XApp "twitch") (inr app) ∈ t)) (k (TwitchClient cid app)) Q) →
  runs (λ t, base n t ∧ G t) (bindE (app_client η cid) k) Q.
Proof.
  intros HG Hgr He Hk. unfold app_client, bindE, ok. apply runs_assoc.
  apply runs_calm; [done|done|intros t a _ Hg; exists r, token; rewrite Hp; split; [by apply Hgr|done]|].
  intros [e|app]; apply runs_ret_bind; [apply runs_ret; naive_solver|apply Hk].
Qed.

Lemma runs_app_user n cid app key v (G : trace xeff → Prop) :
  stable G → (∀ t, G t → granted t) →
  runs (λ t, base n t ∧ (G t ∧ Ev (XApp "twitch") (inr app) ∈ t))
    (TwitchUser η K http_date (TwitchClient cid app) key v)
    (λ _ t, base n t ∧ (G t ∧ Ev (XApp "twitch") (inr app) ∈ t)).
Proof.
  intros HG Hgr. set (G' t := G t ∧ Ev (XApp "twitch") (inr app) ∈ t).
  assert (HG' : stable G') by (unfold G'; auto with effects).
  apply runs_bindE with (λ _ t, base n t ∧ G' t); [|done|intros l; by apply runs_ret].
  apply runs_read; [done|]. intros t [Hg Ha]. split; [by apply Hgr|]. right; right. exists cid, app. by rewrite Hp.
Qed.

Lemma runs_say (l : list string) login target G :
  stable G → (∀ t, G t → granted t ∧ unauthorized token t) →
  (∀ line, line ∈ l → line ∈ irc_lines token login target (Message r)) →
  runs (λ t, final t ∧ G t) (say η K l) (λ _ t, final t).
Proof.
  intros HG Hgr. induction l as [|line l IH]; intros Hl; cbn; [apply runs_ret; naive_solver|].
  apply runs_ask_bind with (λ _ t, final t ∧ G t).
  - intros t a [Hf Hg]. destruct (Hgr t Hg) as [Hg1 Hg2]. split.
    + exists r, token. split; [done|]. split; [done|]. exists login, target. apply Hl. left.
    + split; [|by apply HG]. unfold final. rewrite !counted_cons. exact Hf.
  - intros [e|]; [apply runs_ret; naive_solver|]. apply IH. intros x Hx. apply Hl. by right.
Qed.

Lemma runs_SendIRC login target G :
  action = "send" → stable G → (∀ t, G t → granted t ∧ unauthorized token t) →
  runs (λ t, base 1 t ∧ G t) (SendIRC η K token login target (Message r)) (λ _ t, final t).
Proof.
  intros Ha HG Hgr. unfold SendIRC. apply runs_ask_bind with (λ _ t, final t ∧ G t).
  - intros t a [[Hb Hd] Hg]. destruct (Hgr t Hg) as [Hg1 Hg2]. split; [by exists r, token|].
    split; [|by apply HG]. unfold final. rewrite !counted_cons, Hb, Hd. cbn. lia.
  - intros [e|]; [apply runs_ret; naive_solver|]. by apply (runs_say _ login target).
Qed.

Lemma runs_twitch_send id cid : action = "send" →
  runs (λ t, base 0 t ∧ granted t) (twitch_send η http_date id cid token r) (λ _ t, final t).
Proof.
  intros Ha. unfold twitch_send.
  set (U t := granted t ∧ unauthorized token t).
  assert (HU : stable U) by (unfold U; auto with effects).
  apply runs_bind with (λ a t, mid t ∧ granted t ∧ match a with
    | inl e => ∀ s x, as_http e = Some (s, x) → (s = 401 ∨ s = 403) → base 1 t ∧ U t | inr _ => True end).
  - apply runs_bind_mutate; [apply grant_stable|done|done|apply twitch_client|rewrite Hp; cbn [within_limits String.eqb]|].
    { by destruct (String.eqb (ReplyID r) ""). }
    intros [e|w]; [apply runs_ret; intros t (?&?&He); split_and!; [done..|]; intros s x; by rewrite He|].
    destruct (_ || _) eqn:Ew.
    + apply runs_ret. intros t (?&?&Hb&He). split_and!; [done..|]. intros s x [= <- <-] Hs. split; [done|].
      split; [done|]. destruct w as [ws h b]. do 5 eexists. split; [exact He|done].
    + destruct (Decode decode_answer w) as [e|a] eqn:Ed; apply runs_ret; [|naive_solver].
      intros t (?&?&_). split_and!; [done..|]. unfold Decode in Ed. apply decode_error in Ed as ->. done.
  - intros [e|m]; [|apply runs_ret; intros t (?&_); by apply mid_final].
    assert (Hthrow : ∀ F : trace xeff → Prop, (∀ t, F t → mid t) → runs F (throw (A:=json) e) (λ _ t, final t)).
    { intros F HF. apply runs_ret. intros t Ht. by apply mid_final, HF. }
    destruct (as_http e) as [[s x]|] eqn:Eh; [|apply Hthrow; naive_solver].
    destruct (_ || _) eqn:Es; [|apply Hthrow; naive_solver].
    assert (Hs : s = 401 ∨ s = 403) by (apply orb_true_iff in Es as [?%Z.eqb_eq|?%Z.eqb_eq]; auto).
    apply runs_conseq with (λ t, base 1 t ∧ U t) (λ _ t, final t); [|naive_solver|done]. clear Hthrow Es.
    unfold irc_fallback. apply runs_app_client; [done|by intros t [? _]|intros; by apply (base_final 1); [lia|]|].
    intros app. set (F t := base 1 t ∧ (U t ∧ Ev (XApp "twitch") (inr app) ∈ t)).
    assert (HF : ∀ t, F t → final t) by (intros t [Hb _]; by apply (base_final 1); [lia|]).
    apply runs_bindE with (λ _, F); [apply runs_app_user; [done|by intros t [? _]]|intros e' t; apply HF|].
    intros target. destruct (empty (Login target)); [apply runs_ret; apply HF|].
    apply runs_bindE with (λ _, F); [apply runs_app_user; [done|by intros t [? _]]|intros e' t; apply HF|].
    intros sender. destruct (empty (Login sender)); [apply runs_ret; apply HF|].
    apply runs_bindE with (λ _ t, final t); [|done|by intros; apply runs_ret].
    apply runs_conseq with (λ t, base 1 t ∧ U t) (λ _ t, final t); [by apply runs_SendIRC|unfold F; naive_solver|done].
Qed.

(** Recording a raid, after the request that started or canceled it. *)
Definition recording {A} (m : M (world xeff unit) A) : Prop :=
  runs (λ t, base 1 t ∧ granted t) m (λ _ t, base 1 t ∧ granted t).

Lemma recording_ret {A} (a : A) : recording (mret a).
Proof. by apply runs_ret. Qed.
Lemma recording_bind {A B} (m : M (world xeff unit) A) (k : A → M (world xeff unit) B) :
  recording m → (∀ a, recording (k a)) → recording (m ≫= k).
Proof. intros Hm Hk. eapply runs_bind; [apply Hm|done]. Qed.
Lemma recording_bindE {A B} (m : M (world xeff unit) (result A)) (k : A → M (world xeff unit) (result B)) :
  recording m → (∀ a, recording (k a)) → recording (bindE m k).
Proof. intros Hm Hk. eapply runs_bindE; [apply Hm|done|done]. Qed.
Lemma recording_ask {A} (op : xeff A) :
  (∀ a, mutates (Ev op a) = false ∧ dials (Ev op a) = false) →
  (∀ t a, base 1 t → granted t → chat_ok uid action data t (Ev op a)) → recording (ask η op).
Proof.
  intros Hq Hok. apply runs_ask. intros t [Hb Hg]. destruct (Hq (η A t op)).
  split; [by apply Hok|]. split; [by apply calm_base|by apply grant_stable].
Qed.
Lemma recording_now : recording (ask η (XClient KNow)).
Proof. apply recording_ask; [done|]. intros t a _ Hg. by exists r, token. Qed.

(** The channel whose raid the action is about. *)
Definition raids (id : string) : Prop :=
  (action = "raid" ∧ id = From_ r) ∨ (action = "cancelRaid" ∧ id = ChannelID r).

Lemma recording_write id (op : db (option error)) :
  raids id →
  (∃ d, (∃ s, op = Store.Create (channel_ref id +:+ s) d) ∨ op = Set_ (channel_ref id) d true) →
  recording (exec η (@XDb) op).
Proof.
  intros Hid Hop. unfold exec, Store.db_. apply recording_bind; [|intros [e|]; apply recording_ret].
  assert (Hpre : ∀ p s, has_prefix (p +:+ s) p = true) by apply has_prefix_app.
  assert (Hself : ∀ p, has_prefix p p = true) by (unfold has_prefix; intros p; induction p; cbn; [done|by case_match]).
  apply recording_ask; destruct Hop as [d [[s ->]| ->]]; try done;
    intros t a [Hb _] Hg; exists r, token; (split; [done|]); (split; [done|]);
    destruct Hid as [[-> ->]|[-> ->]]; auto.
Qed.

Lemma recording_raidMessage id kind raid at_ : raids id → recording (raidMessage η id kind raid at_).
Proof.
  intros Hid. unfold raidMessage. apply recording_bind; [apply recording_now|]. intros now.
  apply recording_bind; [|intros; apply recording_ret]. apply (recording_write id); [done|].
  eexists. left. by exists ("/messages/" +:+ kind +:+ "-" +:+ text raid "id").
Qed.

Lemma recording_RaidStart target at_ : action = "raid" → recording (RaidStart η (From_ r) target at_).
Proof.
  intros Ha. assert (raids (From_ r)) by (by left). apply recording_bindE; [by apply recording_raidMessage|].
  intros _. apply (recording_write (From_ r)); [done|]. eexists. by right.
Qed.

Lemma recording_RaidCancel at_ : action = "cancelRaid" → recording (RaidCancel η (ChannelID r) at_).
Proof.
  intros Ha. assert (raids (ChannelID r)) by (by right). unfold RaidCancel, Store.db_. apply recording_bind.
  { apply recording_ask; [done|]. intros t a _ Hg. exists r, token. split; [done|]. by right. }
  intros [e|d]; [destruct (decide _); apply recording_ret|].
  destruct (field d "outgoingRaid"); try apply recording_ret.
  apply recording_bindE; [by apply recording_raidMessage|]. intros _.
  apply (recording_write (ChannelID r)); [done|]. eexists. by right.
Qed.

(** The requests whose answer matters afterwards. *)
Definition acted {A} (m : M (world xeff unit) (result A)) : Prop :=
  runs (λ t, base 0 t ∧ granted t) m
    (λ a t, mid t ∧ granted t ∧ match a with inl _ => True | inr _ => base 1 t end).

Ltac act_rest :=
  repeat match goal with |- Effects.runs _ _ (match ?x with _ => _ end) _ => destruct x end;
  apply runs_ret; naive_solver.

Lemma acted_do {A} id m path body (k : result raw → M (world xeff unit) (result A)) :
  m ≠ GET → within_limits "twitch" body →
  (∀ a, runs (λ t, mid t ∧ granted t ∧ match a with inl e => as_http e = None | inr w =>
         base 1 t ∧ Ev (XClient (KDo (TwitchClient id token) m path body)) (inr w) ∈ t end) (k a)
       (λ a t, mid t ∧ granted t ∧ match a with inl _ => True | inr _ => base 1 t end)) →
  acted (Do η K (TwitchClient id token) m path body ≫= k).
Proof.
  intros Hm Hl Hk. apply runs_bind_mutate; [apply grant_stable|done|done|apply twitch_client| |exact Hk].
  by rewrite Hp.
Qed.

Lemma acted_StartRaid id from to : acted (StartRaid η K (TwitchClient id token) from to).
Proof. apply acted_do; [done|done|]. intros [e|w]; act_rest. Qed.
Lemma acted_CancelRaid id channel : acted (CancelRaid η K (TwitchClient id token) channel).
Proof. apply acted_do; [done|done|]. intros [e|w]; act_rest. Qed.
Lemma acted_Shoutout id from to moderator : acted (Shoutout η K (TwitchClient id token) from to moderator).
Proof. apply acted_do; [done|done|]. intros [e|w]; act_rest. Qed.

Lemma timeout_valid :
  validate "timeout" r = None →
  float_between 1 1209600 (Length r) = true ∧ float_integral (Length r) = true ∧ RuneCount (Reason r) <= 500.
Proof.
  unfold validate. destruct (empty (Provider r)); [done|]. unfold validate_parameters. rewrite Hp.
  cbn [one_of_ existsb String.eqb orb andb].
  destruct (_ || (_ && _)); [done|]. destruct (float_is_zero _ || _); [done|].
  destruct (float_between _ _ _); [|done]. destruct (float_integral _); [|done].
  destruct (Z.ltb_spec 500 (RuneCount (Reason r))); [done|]. intros _. by split_and!.
Qed.

Lemma ban_limits user duration reason :
  (float_is_zero duration = true ∨
   (float_between 1 1209600 duration = true ∧ float_integral duration = true ∧ RuneCount reason <= 500)) →
  within_limits "twitch" (Some (JObj [("data", JObj (("user_id", JStr user) ::
    if float_is_zero duration then [] else [("duration", JNum (float_json duration)); ("reason", JStr reason)]))])).
Proof.
  intros H. cbn [within_limits String.eqb]. unfold object_member. cbn [member String.eqb].
  destruct (float_is_zero duration) eqn:E; [done|]. destruct H as [|(H1 & H2 & H3)]; [done|]. split.
  - intros t [= <-]. by exists duration.
  - by intros s [= <-].
Qed.

Lemma reading_twitch_target cid : reading (twitch_target η http_date action cid r).
Proof.
  unfold twitch_target. destruct (_ && _); [|apply reading_ret].
  apply runs_app_client; [apply grant_stable|done|done|]. intros app.
  set (F t := base 0 t ∧ (granted t ∧ Ev (XApp "twitch") (inr app) ∈ t)).
  apply runs_conseq with F (λ _ : result string, F); [|done|unfold F; naive_solver].
  apply runs_bindE with (λ _, F); [by apply runs_app_user; [apply grant_stable|]|done|].
  intros u. destruct (empty (ID u)); by apply runs_ret.
Qed.

Lemma runs_twitch_act id cid target :
  validate action r = None →
  runs (λ t, base 0 t ∧ granted t) (twitch_act η http_date action id target (TwitchClient cid token) r)
    (λ _ t, mid t ∧ granted t).
Proof.
  intros Hv. pose proof grant_stable as Hs. pose proof (twitch_client cid) as Hc.
  assert (Hacted : ∀ A (m : M (world xeff unit) (result A)), acted m →
    runs (λ t, base 0 t ∧ granted t) m (λ _ t, mid t ∧ granted t)).
  { intros A m Hm. eapply runs_conseq; [apply Hm|done|naive_solver]. }
  assert (Hrec : ∀ A (m : M (world xeff unit) A) (B : Type) (b : B), recording m →
    runs (λ t, mid t ∧ granted t ∧ base 1 t) (m ≫= λ _, ok b) (λ _ t, mid t ∧ granted t)).
  { intros A m B b Hm. eapply runs_bind with (λ _ t, base 1 t ∧ granted t).
    - eapply runs_conseq; [apply Hm|naive_solver|done].
    - intros a. apply runs_ret. intros t [? ?]. split; [by apply (base_mid 1); [lia|]|done]. }
  unfold twitch_act.
  destruct (String.eqb action "ban"); [apply runs_writeBan; try done; rewrite Hp; by apply (ban_limits target "0" ""); left|].
  destruct (String.eqb_spec action "timeout") as [Ea|].
  { apply runs_writeBan; try done. rewrite Hp. apply ban_limits. right. apply timeout_valid. by rewrite <-Ea. }
  destruct (String.eqb action "unban"); [by apply runs_writeBan|].
  destruct (String.eqb action "deleteMessage"); [by apply runs_write|].
  destruct (String.eqb action "clear"); [by apply runs_write|].
  destruct (String.eqb_spec action "raid") as [Ea|].
  { eapply runs_bind; [apply acted_StartRaid|]. intros [e|started]; [apply runs_ret; naive_solver|].
    destruct (time_is_zero started); [apply runs_ret; naive_solver|].
    apply runs_bind with (λ _ t, mid t ∧ granted t ∧ base 1 t).
    - apply runs_conseq with (λ t, base 1 t ∧ granted t) (λ _ t, base 1 t ∧ granted t); [|naive_solver|].
      + apply runs_bindE with (λ _ t, base 1 t ∧ granted t); [|done|intros l; by apply runs_ret].
        apply runs_read; [done|]. intros t Hg. split; [done|]. right; left. exact Hc.
      + intros a t [? ?]. split_and!; [by apply (base_mid 1); [lia|]|done..].
    - intros [e|u]; [apply runs_ret; naive_solver|]. apply Hrec. by apply recording_RaidStart. }
  destruct (String.eqb action "shoutout").
  { apply Hacted. unfold acted. eapply runs_bindE; [apply acted_Shoutout|naive_solver|].
    intros reason. destruct (empty reason); apply runs_ret; naive_solver. }
  destruct (String.eqb_spec action "cancelRaid") as [Ea|]; [|apply runs_ret; intros t [? ?]; split; [by apply (base_mid 0); [lia|]|done]].
  eapply runs_bind; [apply acted_CancelRaid|]. intros [e|[]]; [apply runs_ret; naive_solver|].
  apply runs_bind with (λ _ t, mid t ∧ granted t ∧ base 1 t).
  - apply runs_conseq with (λ t, base 1 t ∧ granted t) (λ _ t, base 1 t ∧ granted t); [apply recording_now|naive_solver|].
    intros a t [? ?]. split_and!; [by apply (base_mid 1); [lia|]|done..].
  - intros now. apply Hrec. by apply recording_RaidCancel.
Qed.

Lemma runs_twitch : validate action r = None →
  runs (λ t, base 0 t ∧ granted t) (twitch η http_date uid token action r) (λ _ t, final t).
Proof.
  intros Hv. unfold twitch. eapply runs_bindE; [apply reading_profileID|intros e t [? _]; by apply base0_final|].
  intros id. cbv beta. destruct (empty id); [apply runs_ret; intros t [? _]; by apply base0_final|].
  eapply runs_bindE; [apply reading_ask; [done|]; intros t a Hg; exists r, token; by rewrite Hp|intros e t [? _]; by apply base0_final|].
  intros cid. cbv beta. destruct (String.eqb_spec action "send") as [Ea|]; [by apply runs_twitch_send|].
  eapply runs_bindE; [apply reading_twitch_target|intros e t [? _]; by apply base0_final|].
  intros target. cbv beta. eapply runs_bind; [by apply runs_twitch_act|].
  intros [e|[]]; apply runs_ret; intros t [? _]; by apply mid_final.
Qed.
End Twitch.
End Walk.

Lemma runs_chat η http_date uid action data :
  runs (S:=unit) (chat_ok uid action data) (λ t, t = []) (chat η http_date uid action data) (λ _ t, final t).
Proof.
  assert (Hret : ∀ a : result json,
    runs (S:=unit) (chat_ok uid action data) (λ t, t = []) (mret a) (λ _ t, final t)).
  { intros a. apply runs_ret. intros t ->. unfold final. cbn. lia. }
  unfold chat. destruct (parse_request data) as [r|] eqn:Hd; [|apply Hret].
  destruct (validate action r) eqn:Hv; [apply Hret|]. destruct (_ && _); [apply Hret|].
  apply runs_ask_bind with (λ a t, base 0 t ∧ Ev (XAccess uid (Provider r)) a ∈ t).
  { intros t a ->. split; [split_and!; [done..|]; by exists r|]. split; [done|left]. }
  intros [e|token]; [apply runs_ret; intros t [? _]; by apply base0_final|].
  destruct (empty token) eqn:Et; [apply runs_ret; intros t [? _]; by apply base0_final|].
  destruct (one_of_ (Provider r) _) eqn:Ep; [|apply runs_ret; intros t [? _]; by apply base0_final].
  apply runs_bind with (λ _ t, final t); [|intros; by apply runs_ret].
  apply runs_conseq with (λ t, base 0 t ∧ granted uid action data r token t) (λ _ t, final t); [| |done].
  2:{ intros t [Hb He]. split; [done|]. split_and!; try done. intros ->. done. }
  destruct (String.eqb_spec (Provider r) "twitch"); [by apply runs_twitch|].
  destruct (String.eqb_spec (Provider r) "kick"); [by apply runs_kick|].
  assert (Provider r = "youtube"); [|by apply runs_youtube].
  unfold one_of_ in Ep. cbn [existsb] in Ep. apply String.eqb_eq.
  rewrite (proj2 (String.eqb_neq (Provider r) "twitch")), (proj2 (String.eqb_neq (Provider r) "kick")) in Ep by done.
  by rewrite orb_false_r in Ep.
Qed.

(** C30. A chat action, however the providers, tokens and other calls behave:
    it asks only for the caller's token, once the request is valid; sends at
    most one request that changes anything, to the request's provider with
    that token (what is ambiguous is never sent again), within the provider's
    documented limits; falls back to IRC at most once, only for a message that
    Twitch refused to authorize with 401 or 403, without adding lines to it;
    and records a raid only of the channel it was about, after the request. *)
Theorem chat_once (η : env xeff) http_date uid action data :
  let w := (chat η http_date uid action data (World [] tt)).2 in
  justified (chat_ok uid action data) (w_tr w) ∧
  (counted mutates (w_tr w) <= 1)%nat ∧ (counted dials (w_tr w) <= 1)%nat ∧
  (∀ message, all_chars (λ a, negb (Ascii.eqb a (byte_of 13) || Ascii.eqb a (byte_of 10))) (one_line message) = true).
Proof.
  cbn. destruct (runs_chat η http_date uid action data (World [] tt)) as [H1 [H2 H3]]; [done|].
  split_and!; [done..|]. intros m. induction m as [|a m IH]; [done|]. cbn.
  rewrite IH. destruct (Ascii.eqb a (byte_of 13) || Ascii.eqb a (byte_of 10)) eqn:E; [done|by rewrite E].
Qed.
