(* ===== verification/YouTubeActions.v ===== *)
(** * YouTube chat actions

    Models agent/internal/youtube/actions.go: the message document of one
    InnerTube chat action, or none when the action is unsupported or malformed.
    The raw text of an action is kept, as it names a ban. *)

From stdpp Require Import base gmap strings list pretty.
From Stdlib Require Import Ascii.
From S2P Require Import Prelude GoErr Sha256 GoTime Json JsonText Text HttpServer Store.
From S2P Require ChatMessage.

(** ** Renderers *)

Record emoji := Emoji { EmojiID : string; Shortcuts : list string }.
Record run := Run { RunText : string; RunEmoji : option emoji }.
Record text := MkText { Simple : string; Runs : list run }.
Definition no_text : text := MkText "" [].

Definition emoji_text (e : emoji) : string := match Shortcuts e with s :: _ => s | [] => EmojiID e end.
Definition plain (t : text) : string :=
  if negb (String.eqb (Simple t) "") then Simple t
  else String.concat "" (map (λ r, RunText r +:+ match RunEmoji r with Some e => emoji_text e | None => "" end) (Runs t)).

Record thumbnail := Thumbnail { URL : string; Width : Z; Height : Z }.
(** The last of the largest; sizes wrap. *)
Definition largest (l : list thumbnail) : string :=
  (foldl (λ best t, let size := wrap64 (Width t * Height t) in
                    if best.2 <=? size then (URL t, size) else best) ("", -1) l).1.

Record badge := Badge { IconType : string; HasCustom : bool }.

Record giftRenderer := GiftRenderer {
  g_id : string; g_text : string; g_author : string; g_avatar : list thumbnail; g_image : list thumbnail; g_alt : string }.

(** The author, photo and badges of a sponsorship's header, and its text. *)
Record sponsorship := Sponsorship { sp_author : text; sp_primary : text; sp_photo : list thumbnail; sp_badges : list badge }.
Record renderer := Renderer {
  r_id : string; r_timestamp : string; r_author : text; r_channel : string; r_photo : list thumbnail;
  r_badges : list badge; r_message : text; r_amount : text; r_subtext : text; r_primary : text;
  r_sponsorship : sponsorship; r_label : string }.

Definition into_text : text → json → option text :=
  into_struct (λ t k j,
    if names k "simpleText" then (λ s, MkText s (Runs t)) <$> into_string (Simple t) j
    else if names k "runs" then
      (λ l, MkText (Simple t) l) <$> into_list (into_struct (λ r k j,
        if names k "text" then (λ s, Run s (RunEmoji r)) <$> into_string (RunText r) j
        else if names k "emoji" then
          (λ e, Run (RunText r) e) <$> into_ptr (into_struct (λ e k j,
            if names k "emojiId" then (λ s, Emoji s (Shortcuts e)) <$> into_string (EmojiID e) j
            else if names k "shortcuts" then (λ l, Emoji (EmojiID e) l) <$> into_list (into_string "") j
            else Some e) (Emoji "" [])) j
        else Some r) (Run "" None)) j
    else Some t).

Definition into_thumbnail : json → option thumbnail :=
  into_struct (λ t k j,
    if names k "url" then (λ s, Thumbnail s (Width t) (Height t)) <$> into_string (URL t) j
    else if names k "width" then (λ n, Thumbnail (URL t) n (Height t)) <$> into_int (Width t) j
    else if names k "height" then (λ n, Thumbnail (URL t) (Width t) n) <$> into_int (Height t) j
    else Some t) (Thumbnail "" 0 0).
Definition into_items (tag : string) : list thumbnail → json → option (list thumbnail) :=
  into_field tag (λ _, into_list into_thumbnail).
Definition into_thumbnails : list thumbnail → json → option (list thumbnail) := into_items "thumbnails".

Definition into_badges : json → option (list badge) :=
  into_list (into_field "liveChatAuthorBadgeRenderer" (into_struct (λ b k j,
    if names k "icon" then (λ s, Badge s (HasCustom b)) <$> into_field "iconType" into_string (IconType b) j
    else if names k "customThumbnail" then Some (Badge (IconType b) (match j with JNull => false | _ => true end))
    else if names k "tooltip" then (λ _, b) <$> into_string "" j
    else Some b)) (Badge "" false)).

Definition into_gift : json → option giftRenderer :=
  into_struct (λ g k j,
    let '(GiftRenderer i t a v m l) := g in
    if names k "id" then (λ x, GiftRenderer x t a v m l) <$> into_string i j
    else if names k "text" then (λ x, GiftRenderer i x a v m l) <$> into_field "content" into_string t j
    else if names k "authorName" then (λ x, GiftRenderer i t x v m l) <$> into_field "content" into_string a j
    else if names k "authorAvatar" then
      (λ x, GiftRenderer i t a x m l) <$> into_field "avatarViewModel" (into_field "image" (into_items "sources")) v j
    else if names k "giftImage" then (λ x, GiftRenderer i t a v x l) <$> into_items "sources" m j
    else if names k "giftImageA11yLabel" then (λ x, GiftRenderer i t a v m x) <$> into_string l j
    else Some g) (GiftRenderer "" "" "" [] [] "").

Definition into_sponsorship : sponsorship → json → option sponsorship :=
  into_struct (λ s k j,
    let '(Sponsorship a p h b) := s in
    if names k "authorName" then (λ x, Sponsorship x p h b) <$> into_text a j
    else if names k "primaryText" then (λ x, Sponsorship a x h b) <$> into_text p j
    else if names k "authorPhoto" then (λ x, Sponsorship a p x b) <$> into_thumbnails h j
    else if names k "authorBadges" then (λ x, Sponsorship a p h x) <$> into_badges j
    else Some s).

Definition into_renderer : json → option renderer :=
  into_struct (λ r k j,
    let '(Renderer i t a c p b m x s h o l) := r in
    if names k "id" then (λ y, Renderer y t a c p b m x s h o l) <$> into_string i j
    else if names k "timestampUsec" then (λ y, Renderer i y a c p b m x s h o l) <$> into_string t j
    else if names k "authorName" then (λ y, Renderer i t y c p b m x s h o l) <$> into_text a j
    else if names k "authorExternalChannelId" then (λ y, Renderer i t a y p b m x s h o l) <$> into_string c j
    else if names k "authorPhoto" then (λ y, Renderer i t a c y b m x s h o l) <$> into_thumbnails p j
    else if names k "authorBadges" then (λ y, Renderer i t a c p y m x s h o l) <$> into_badges j
    else if names k "message" then (λ y, Renderer i t a c p b y x s h o l) <$> into_text m j
    else if names k "purchaseAmountText" then (λ y, Renderer i t a c p b m y s h o l) <$> into_text x j
    else if names k "headerSubtext" then (λ y, Renderer i t a c p b m x y h o l) <$> into_text s j
    else if names k "headerPrimaryText" then (λ y, Renderer i t a c p b m x s y o l) <$> into_text h j
    else if names k "header" then
      (λ y, Renderer i t a c p b m x s h y l) <$> into_field "liveChatSponsorshipsHeaderRenderer" into_sponsorship o j
    else if names k "sticker" then
      (λ y, Renderer i t a c p b m x s h o y) <$>
        into_field "accessibility" (into_field "accessibilityData" (into_field "label" into_string)) l j
    else Some r)
  (Renderer "" "" no_text "" [] [] no_text no_text no_text no_text (Sponsorship no_text no_text [] []) "").

(** ** Memberships and money *)

(** A prefix up to simple case folding, where U+017F folds to s. *)
Fixpoint fold_prefix (p s : string) : option string :=
  match p, s with
  | "", _ => Some s
  | String a p, String b s' =>
    if Ascii.eqb a (lower_char b) then fold_prefix p s'
    else if Ascii.eqb a "s" && (code_of b =? 197) then
      match s' with String c s' => if code_of c =? 191 then fold_prefix p s' else None | "" => None end
    else None
  | _, _ => None
  end.

(** [\s*[!.！]?$] *)
Definition level_end (s : string) : bool :=
  let s := skip_s s in existsb (String.eqb s) [""; "!"; "."; utf8_encode 65281].
(** [(.+?)\s*[!.！]?$]: the shortest. *)
Fixpoint level_from (level s : string) : option string :=
  if negb (String.eqb level "") && level_end s then Some level
  else match s with
       | String a s => if code_of a =? 10 then None else level_from (level +:+ String a "") s
       | "" => None
       end.

(** [levelPattern]: whether it is an upgrade, and the level. *)
Definition level_match (s : string) : option (bool * string) :=
  let rest upgrade s := level ← skip_s1 (level_from "") s; Some (upgrade, level) in
  match fold_prefix "welcome to" s ≫= rest false with
  | Some x => Some x
  | None => fold_prefix "upgraded membership to" s ≫= rest true
  end.

Definition membershipLevel (t : text) : string * bool :=
  match level_match (TrimSpace (plain t)) with
  | None => ("", false)
  | Some (upgrade, level) =>
    let middle :=
      match Runs t with
      | [a; b; c] =>
        if is_some (RunEmoji a) || is_some (RunEmoji b) then ""
        else if existsb (String.eqb (TrimSpace (RunText c))) ["!"; utf8_encode 65281] then TrimSpace (RunText b) else ""
      | _ => ""
      end in
    (if String.eqb middle "" then level else middle, upgrade)
  end.

(** [moneyPattern]: the currency, the whole part and the fraction. *)
Definition money_match (s : string) : option (string * string * string) :=
  let '(cur, rest) := (String.substring 0 3 s, skip_s (drop_str 3 s)) in
  if negb (existsb (String.eqb cur) ["USD"; "EUR"; "GBP"; "JPY"; "CAD"; "AUD"]) then None
  else
    let '(whole, rest) := span_digit rest in
    if String.eqb whole "" then None
    else match rest with
         | "" => Some (cur, whole, "")
         | String "."%char rest =>
           let '(fraction, rest) := span_digit rest in
           if String.eqb rest "" && (1 <=? String.length fraction)%nat && (String.length fraction <=? 6)%nat
           then Some (cur, whole, fraction) else None
         | _ => None
         end.

Fixpoint zeros (n : nat) : string := match n with O => "" | S n => String "0" (zeros n) end.

(** The currency and the micros of an amount; [None] when it would overflow. *)
Definition amount_micros (s : string) : option (string * Z) :=
  '(cur, whole, fraction) ← money_match s;
  w ← parse_int whole;
  let f := default 0 (parse_int (fraction +:+ zeros (6 - String.length fraction))) in
  if w <=? (max_int64 - f) / 1000000 then Some (cur, wrap64 (w * 1000000 + f)) else None.

(** ** The document of an action *)

Record author := Author {
  a_channel : string; a_name : string; a_image : string;
  a_verified : bool; a_owner : bool; a_sponsor : bool; a_moderator : bool }.
Definition no_author : author := Author "" "" "" false false false false.
Definition author_value (a : author) : value :=
  VMap [("channelId", VString (a_channel a));
        ("channelUrl", VString (if String.eqb (a_channel a) "" then "" else "https://www.youtube.com/channel/" +:+ a_channel a));
        ("displayName", VString (a_name a)); ("profileImageUrl", VString (a_image a));
        ("isVerified", VBool (a_verified a)); ("isChatOwner", VBool (a_owner a));
        ("isChatSponsor", VBool (a_sponsor a)); ("isChatModerator", VBool (a_moderator a))].

(** What the branches of [actionData] fill in. *)
Record event := MkEvent {
  e_kind : string; e_id : string; e_author_id : string; e_display : string;
  e_time : option time;       (* the renderer's; now when there is none *)
  e_author : author; e_details : doc }.

(** The three deletions, by the first key present: [None] when there is none,
    [Some None] when it is malformed. *)
Definition deletion (now : time) (video raw : string) (action : list (string * string)) : option (option event) :=
  let deleted key payload :=
    match unmarshal (into_struct (λ d k j,
            if names k "targetItemId" then (λ s, (s, d.2)) <$> into_string d.1 j
            else if names k "externalChannelId" then (λ s, (d.1, s)) <$> into_string d.2 j
            else Some d) ("", "")) payload with
    | None => None
    | Some (target, channel) =>
      if String.eqb key "removeChatItemByAuthorAction" then
        if String.eqb channel "" then None
        else Some (MkEvent "userBannedEvent" ("ban-" +:+ hex_encode (sha256 (video +:+ raw +:+ format_rfc3339nano now)))
                     "" "" None no_author
                     [("userBannedDetails", VMap [("bannedUserDetails", VMap [("channelId", VString channel)])])])
      else if String.eqb target "" then None
      else Some (MkEvent "tombstone" target "" "" None no_author [])
    end in
  foldr (λ key rest, match raw_member key action with Some p => Some (deleted key p) | None => rest end) None
    ["removeChatItemAction"; "markChatItemAsDeletedAction"; "removeChatItemByAuthorAction"].

Definition gift_event (g : giftRenderer) : option event :=
  if blank (g_id g) || contains_char (g_id g) "/" || blank (g_author g) || blank (g_text g) then None
  else
    let display := TrimSpace (g_text g) in
    let name := TrimSpace (g_author g) in
    let image := largest (g_image g) in
    let image := if has_prefix image "//" then "https:" +:+ image else image in
    let gift := TrimSpace (trim_prefix display "sent ") in
    let gift := if String.eqb gift "" then display else gift in
    let prefix := name +:+ " sent a gift, " in
    let label := if has_prefix (g_alt g) prefix then TrimSpace (trim_prefix (g_alt g) prefix) else "" in
    let gift := if String.eqb label "" then gift else label in
    Some (MkEvent "giftEvent" (g_id g) "" display None
            (Author "" name (largest (g_avatar g)) false false false false)
            [("giftDetails", VMap ([("altText", VString (g_alt g)); ("giftName", VString gift)] ++
                                   if String.eqb image "" then [] else [("giftUrl", VString image)]))]).

Definition badge_author (a : author) (b : badge) : author :=
  let '(Author c n i v o s m) := a in
  Author c n i (v || String.eqb (IconType b) "VERIFIED") (o || String.eqb (IconType b) "OWNER")
    (s || HasCustom b) (m || String.eqb (IconType b) "MODERATOR").
Definition renderer_author (r : renderer) : author :=
  let sp := r_sponsorship r in
  let author := if String.eqb (plain (r_author r)) "" then sp_author sp else r_author r in
  let photo := match r_photo r with [] => sp_photo sp | l => l end in
  let badges := match r_badges r with [] => sp_badges sp | l => l end in
  foldl badge_author (Author (r_channel r) (plain author) (largest photo) false false false false) badges.

(** The time of a renderer, in microseconds since 1970. *)
Definition renderer_time (r : renderer) : option time :=
  micros ← parse_int (r_timestamp r);
  if micros <=? 0 then None else Some (time_unix (micros / 1000000) (micros mod 1000000 * 1000)).

(** The kind, display text and details of each renderer. *)
Definition renderer_details (name : string) (r : renderer) : option (string * string * doc) :=
  let display := plain (r_message r) in
  if String.eqb name "liveChatTextMessageRenderer" then
    Some ("textMessageEvent", display, [("textMessageDetails", VMap [("messageText", VString display)])])
  else if String.eqb name "liveChatPaidMessageRenderer" then
    Some ("superChatEvent", display, [("superChatDetails", VMap
      ([("amountDisplayString", VString (plain (r_amount r))); ("userComment", VString display)] ++
       match amount_micros (plain (r_amount r)) with
       | Some (cur, n) => [("currency", VString cur); ("amountMicros", VString (pretty n))]
       | None => []
       end))])
  else if String.eqb name "liveChatPaidStickerRenderer" then
    Some ("superStickerEvent", r_label r, [("superStickerDetails", VMap
      [("amountDisplayString", VString (plain (r_amount r)));
       ("superStickerMetadata", VMap [("altText", VString (r_label r))])])])
  else if String.eqb name "liveChatMembershipItemRenderer" then
    let primary := plain (r_primary r) in
    if negb (String.eqb primary "") then
      Some ("memberMilestoneChatEvent", if String.eqb display "" then primary else display,
            [("memberMilestoneChatDetails", VMap
               ([("memberLevelName", VString (TrimSpace (plain (r_subtext r)))); ("userComment", VString display)] ++
                match number_match primary ≫= parse_int with Some n => [("memberMonth", VInt n)] | None => [] end))])
    else
      let '(level, upgrade) := membershipLevel (r_subtext r) in
      Some ("newSponsorEvent", if String.eqb display "" then plain (r_subtext r) else display,
            [("newSponsorDetails", VMap [("memberLevelName", VString level); ("isUpgrade", VBool upgrade)])])
  else if String.eqb name "liveChatSponsorshipsGiftPurchaseAnnouncementRenderer" then
    let display := plain (sp_primary (r_sponsorship r)) in
    count ← number_match display ≫= parse_int;
    if count <=? 0 then None
    else Some ("membershipGiftingEvent", display,
               [("membershipGiftingDetails", VMap [("giftMembershipsCount", VInt count)])])
  else if String.eqb name "liveChatSponsorshipsGiftRedemptionAnnouncementRenderer" then
    Some ("giftMembershipReceivedEvent", display,
          [("giftMembershipReceivedDetails", VMap [("memberLevelName", VString (membershipLevel (r_subtext r)).1)])])
  else None.

(** [before]: what a gift of the same item filled in. *)
Definition renderer_event (name : string) (before : option event) (r : renderer) : option event :=
  t ← renderer_time r;
  if String.eqb (r_id r) "" || contains_char (r_id r) "/" then None
  else
    '(kind, display, details) ← renderer_details name r;
    Some (MkEvent kind (r_id r) (r_channel r) display (Some t) (renderer_author r)
            (match before with Some e => e_details e | None => [] end ++ details)).

Definition renderer_names : list string :=
  ["liveChatTextMessageRenderer"; "liveChatPaidMessageRenderer"; "liveChatPaidStickerRenderer";
   "liveChatMembershipItemRenderer"; "liveChatSponsorshipsGiftPurchaseAnnouncementRenderer";
   "liveChatSponsorshipsGiftRedemptionAnnouncementRenderer"].

(** The item of addChatItemAction; a duplicate adds to the map, and null
    clears it. *)
Definition add_item (payload : string) : option (list (string * string)) :=
  l ← raw_map payload;
  foldl (λ acc p,
    item ← acc;
    if names p.1 "item" then
      j ← parse_json p.2;
      match j with JNull => Some [] | _ => app item <$> raw_map p.2 end
    else Some item) (Some []) l.

(** The first renderer present, over the gift. *)
Fixpoint added_renderer (before : option event) (item : list (string * string)) (l : list string) : option event :=
  match l with
  | [] => before
  | name :: l =>
    match raw_member name item with
    | Some payload => unmarshal into_renderer payload ≫= renderer_event name before
    | None => added_renderer before item l
    end
  end.
Definition added (action : list (string * string)) : option event :=
  payload ← raw_member "addChatItemAction" action;
  item ← add_item payload;
  gift ← match raw_member "giftMessageViewModel" item with
         | Some payload => (λ e, Some e) <$> (unmarshal into_gift payload ≫= gift_event)
         | None => Some None
         end;
  added_renderer gift item renderer_names.

Definition action_event (video raw : string) (now : time) : option event :=
  action ← raw_map raw;
  match deletion now video raw action with
  | Some e => e
  | None => added action
  end.

Definition event_doc (channel video : string) (now : time) (e : event) : doc :=
  let t := default now (e_time e) in
  [("type", VString ("youtube." +:+ e_kind e)); ("channelId", VString ("youtube:" +:+ channel));
   ("timestamp", VTime t); ("expiresAt", VTime (now + ChatMessage.TTL));
   ("event", VMap [("id", VString (e_id e));
     ("snippet", VMap ([("type", VString (e_kind e)); ("liveChatId", VString ("innertube:" +:+ video));
        ("authorChannelId", VString (e_author_id e)); ("publishedAt", VString (format_rfc3339nano t));
        ("hasDisplayContent", VBool true); ("displayMessage", VString (e_display e))] ++ e_details e));
     ("authorDetails", author_value (e_author e))])].

Definition actionData (channel video raw : string) (now : time) : option doc :=
  e ← action_event video raw now;
  if contains_char (e_id e) "/" then None else Some (event_doc channel video now e).

(** ** The type of a message document *)

Inductive ty := TString | TBool | TInt | TTime | TMap (fields : list (string * bool * ty)).

(** [typed τ v]: a map has its required fields, each of its type, and no
    others. *)
Fixpoint typed (τ : ty) (v : value) : bool :=
  match τ, v with
  | TString, VString _ | TBool, VBool _ | TInt, VInt _ | TTime, VTime _ => true
  | TMap fs, VMap d =>
    (fix go (fs : list (string * bool * ty)) : bool :=
       match fs with
       | [] => true
       | (k, required, τ) :: fs => (if is_nil (field d k) then negb required else typed τ (field d k)) && go fs
       end) fs &&
    forallb (λ p, existsb (λ f, String.eqb f.1.1 p.1) fs) d
  | _, _ => false
  end.

Definition needs (l : list string) (τ : ty) : list (string * bool * ty) := map (λ k, (k, true, τ)) l.

Definition author_type : ty :=
  TMap (needs ["channelId"; "channelUrl"; "displayName"; "profileImageUrl"] TString ++
        needs ["isVerified"; "isChatOwner"; "isChatSponsor"; "isChatModerator"] TBool).
Definition gift_type : ty := TMap [("altText", true, TString); ("giftName", true, TString); ("giftUrl", false, TString)].

(** The details of each kind of event. *)
Definition details_type (kind : string) : option (list (string * bool * ty)) :=
  let l :=
    [("textMessageEvent", [("textMessageDetails", true, TMap (needs ["messageText"] TString))]);
     ("superChatEvent", [("superChatDetails", true, TMap
        [("amountDisplayString", true, TString); ("userComment", true, TString);
         ("currency", false, TString); ("amountMicros", false, TString)])]);
     ("superStickerEvent", [("superStickerDetails", true, TMap
        [("amountDisplayString", true, TString); ("superStickerMetadata", true, TMap (needs ["altText"] TString))])]);
     ("memberMilestoneChatEvent", [("memberMilestoneChatDetails", true, TMap
        [("memberLevelName", true, TString); ("userComment", true, TString); ("memberMonth", false, TInt)])]);
     ("newSponsorEvent", [("newSponsorDetails", true, TMap [("memberLevelName", true, TString); ("isUpgrade", true, TBool)])]);
     ("membershipGiftingEvent", [("membershipGiftingDetails", true, TMap (needs ["giftMembershipsCount"] TInt))]);
     ("giftMembershipReceivedEvent", [("giftMembershipReceivedDetails", true, TMap (needs ["memberLevelName"] TString))]);
     ("userBannedEvent", [("userBannedDetails", true, TMap
        [("bannedUserDetails", true, TMap (needs ["channelId"] TString))])]);
     ("tombstone", []);
     ("giftEvent", [("giftDetails", true, gift_type)])] in
  snd <$> List.find (λ p, String.eqb p.1 kind) l.

(** A renderer's item may hold a gift too. *)
Definition snippet_type (details : list (string * bool * ty)) : ty :=
  TMap (needs ["type"; "liveChatId"; "authorChannelId"; "publishedAt"; "displayMessage"] TString ++
        [("hasDisplayContent", true, TBool)] ++ details ++ [("giftDetails", false, gift_type)]).
Definition message_type (details : list (string * bool * ty)) : ty :=
  TMap (needs ["type"; "channelId"] TString ++ needs ["timestamp"; "expiresAt"] TTime ++
        [("event", true, TMap [("id", true, TString); ("snippet", true, snippet_type details);
                               ("authorDetails", true, author_type)])]).

(** An event of one of the kinds, whose identifier names a document. *)
Definition well_formed (e : event) : Prop :=
  e_id e ≠ "" ∧ (∀ t, e_time e = Some t → time_unix 0 0 < t) ∧
  ∃ τ, details_type (e_kind e) = Some τ ∧
    ∀ channel video now, typed (message_type τ) (VMap (event_doc channel video now e)) = true.

Lemma typed_author a : typed author_type (author_value a) = true.
Proof. reflexivity. Qed.

(** The envelope is typed when the snippet's details are. *)
Lemma event_typed τ e :
  (∀ kind chat id at_ text, typed (snippet_type τ) (VMap ([("type", VString kind); ("liveChatId", VString chat);
        ("authorChannelId", VString id); ("publishedAt", VString at_);
        ("hasDisplayContent", VBool true); ("displayMessage", VString text)] ++ e_details e)) = true) →
  ∀ channel video now, typed (message_type τ) (VMap (event_doc channel video now e)) = true.
Proof.
  intros H channel video now. unfold message_type, event_doc. cbn -[author_type author_value snippet_type].
  rewrite typed_author, !andb_true_r. cbn [app] in H. by rewrite H.
Qed.

Lemma deletion_formed now video raw action e : deletion now video raw action = Some (Some e) → well_formed e.
Proof.
  unfold deletion, foldr, well_formed. intros H.
  repeat match type of H with context [match raw_member ?k ?a with _ => _ end] =>
    destruct (raw_member k a) as [p|]; [destruct (unmarshal _ p) as [[target channel]|]; [|done]|] end; cbn in H;
    repeat case_match; simplify_eq; cbn [e_id e_time e_kind e_details];
    (split; [first [done | by apply String.eqb_neq]|]); (split; [done|]);
    (eexists; split; [reflexivity|apply event_typed; reflexivity]).
Qed.

(** What a gift fills in before a renderer of the same item. *)
Definition gift_details (d : doc) : Prop :=
  d = [] ∨ ∃ alt name url, d = [("giftDetails", VMap ([("altText", VString alt); ("giftName", VString name)] ++ url))] ∧
    (url = [] ∨ ∃ u, url = [("giftUrl", VString u)]).

Lemma gift_formed g e : gift_event g = Some e → well_formed e ∧ gift_details (e_details e).
Proof.
  unfold gift_event. destruct (_ || _) eqn:E; [done|]. intros [= <-].
  rewrite !orb_false_iff in E. destruct E as [[[Hid _] _] _]. split.
  - split; [|split; [done|]].
    + cbn. intros Hn. by rewrite Hn in Hid.
    + eexists. split; [reflexivity|]. apply event_typed. cbn [e_details]. intros.
      match goal with |- context [if ?b then [] else _] => by destruct b end.
  - right. cbn [e_details]. eexists _, _, _. split; [reflexivity|].
    match goal with |- context [if ?b then [] else _] => destruct b end; [by left|right; by eexists].
Qed.

Lemma renderer_time_positive r t : renderer_time r = Some t → time_unix 0 0 < t.
Proof.
  unfold renderer_time. destruct (parse_int _) as [n|]; cbn; [|done].
  destruct (n <=? 0) eqn:E; [done|]. intros [= <-]. apply Z.leb_gt in E.
  unfold time_unix, second. pose proof (Z.div_mod n 1000000). lia.
Qed.

(** A renderer's details have the type of its kind, next to a gift's. *)
Lemma renderer_details_typed name r kind display details before :
  renderer_details name r = Some (kind, display, details) → gift_details before →
  ∃ τ, details_type kind = Some τ ∧
    ∀ kind chat id at_ text, typed (snippet_type τ) (VMap ([("type", VString kind); ("liveChatId", VString chat);
        ("authorChannelId", VString id); ("publishedAt", VString at_);
        ("hasDisplayContent", VBool true); ("displayMessage", VString text)] ++ (before ++ details))) = true.
Proof.
  unfold renderer_details. intros H Hb.
  repeat case_match; simplify_eq; try done;
    repeat match type of H with mbind _ ?o = _ => destruct o; cbn in H; [|done] end;
    repeat case_match; simplify_eq; (eexists; split; [reflexivity|]); intros;
    destruct Hb as [->|(alt & nm & url & -> & [->|[u ->]])]; reflexivity.
Qed.

Lemma renderer_formed name before r e : renderer_event name before r = Some e →
  (∀ g, before = Some g → gift_details (e_details g)) → well_formed e.
Proof.
  unfold renderer_event. intros H Hb.
  destruct (renderer_time r) as [t|] eqn:Ht; cbn in H; [|done].
  destruct (_ || _) eqn:E; [done|]. apply orb_false_iff in E as [E _].
  destruct (renderer_details name r) as [[[kind display] details]|] eqn:Hd; cbn in H; [|done].
  injection H as <-. split; [by apply String.eqb_neq|]. split.
  - intros u [= <-]. by eapply renderer_time_positive.
  - cbn [e_kind]. edestruct (renderer_details_typed _ _ _ _ _ (match before with Some e => e_details e | None => [] end) Hd)
      as (τ & ? & Hτ); [destruct before; [by apply Hb|by left]|].
    exists τ. split; [done|]. by apply event_typed.
Qed.

Lemma added_formed gift item l e : added_renderer gift item l = Some e →
  (∀ g, gift = Some g → well_formed g ∧ gift_details (e_details g)) → well_formed e.
Proof.
  induction l as [|name l IH]; cbn; intros H Hg; [by destruct (Hg e H)|].
  destruct (raw_member name item) as [p|]; [|by apply IH].
  destruct (unmarshal into_renderer p) as [r|]; cbn in H; [|done].
  eapply renderer_formed; [done|]. intros g ->. by destruct (Hg g eq_refl).
Qed.

Lemma action_formed video raw now e : action_event video raw now = Some e → well_formed e.
Proof.
  unfold action_event. destruct (raw_map raw) as [action|]; cbn [mbind option_bind]; [|done].
  destruct (deletion now video raw action) as [d|] eqn:Hd.
  - intros ->. by eapply deletion_formed.
  - unfold added. destruct (raw_member "addChatItemAction" action); cbn [mbind option_bind fmap option_fmap option_map]; [|done].
    destruct (add_item _) as [item|]; cbn [mbind option_bind fmap option_fmap option_map]; [|done].
    destruct (raw_member "giftMessageViewModel" item) as [p|].
    + destruct (unmarshal into_gift p ≫= gift_event) as [g|] eqn:Eg; cbn [mbind option_bind fmap option_fmap option_map]; [|done].
      intros H. refine (added_formed _ _ _ _ H _). intros ? [= <-].
      destruct (unmarshal into_gift p); cbn [mbind option_bind] in Eg; [|done]. by eapply gift_formed.
    + intros H. by refine (added_formed _ _ _ _ H _).
Qed.

(** C31. The document [actionData] makes of an InnerTube action is a well-typed
    chat message: it has exactly the envelope, snippet, author and per-kind
    detail fields of one of the ten event kinds, each of its type, whatever
    the renderer's text holds; its identifier is not empty and has no slash,
    so it names a document, and a renderer's own time is after 1970. *)
Theorem actions_typed channel video raw now d :
  actionData channel video raw now = Some d →
  ∃ e τ, d = event_doc channel video now e ∧
    e_id e ≠ "" ∧ contains_char (e_id e) "/" = false ∧
    details_type (e_kind e) = Some τ ∧ typed (message_type τ) (VMap d) = true ∧
    (∀ t, e_time e = Some t → time_unix 0 0 < t).
Proof.
  unfold actionData. destruct (action_event video raw now) as [e|] eqn:He; cbn; [|done].
  destruct (contains_char (e_id e) "/") eqn:Hs; [done|]. intros [= <-].
  destruct (action_formed _ _ _ _ He) as (Hid & Ht & τ & Hτ & Hty).
  exists e, τ. split_and!; [done|done|done|done|apply Hty|done].
Qed.

Definition text_action : string := quoted
  "{'addChatItemAction':{'item':{'liveChatTextMessageRenderer':{'id':'m1','timestampUsec':'1700000000123456','authorName':{'simpleText':'Ann'},'authorExternalChannelId':'UC1','message':{'runs':[{'text':'hi '},{'emoji':{'emojiId':'e','shortcuts':[':e:']}}]},'authorBadges':[{'liveChatAuthorBadgeRenderer':{'icon':{'iconType':'MODERATOR'}}}]}}}}".

Definition test_now : time := time_unix 1700000000 0.
Definition item_action (name body : string) : string :=
  quoted "{'clickTrackingParams':'ignored','addChatItemAction':{'item':{'" +:+ name +:+
  quoted "':{'id':'item','timestampUsec':'1700000000123456'," +:+ quoted body +:+ "}}}}".

(** The display text and details of the kinds of actions_test.go. *)
Example action_examples :
  (λ p, (λ e, (e_kind e, e_display e, e_details e)) <$> action_event "video" (item_action p.1 p.2) test_now) <$>
    [("liveChatPaidMessageRenderer", "'message':{'runs':[{'text':'hello '},{'emoji':{'emojiId':'emoji','shortcuts':[':wave:',':hi:']}},{'emoji':{'emojiId':'E'}}]},'purchaseAmountText':{'simpleText':'USD 5.25'}");
     ("liveChatMembershipItemRenderer", "'headerSubtext':{'runs':[{'text':'Upgraded membership to '},{'text':'Gold'},{'text':'!'}]}");
     ("liveChatMembershipItemRenderer", "'message':{'simpleText':'x'},'headerPrimaryText':{'runs':[{'text':'Member for '},{'text':'12'},{'text':' months'}]},'headerSubtext':{'simpleText':'Gold'}");
     ("liveChatSponsorshipsGiftPurchaseAnnouncementRenderer", "'header':{'liveChatSponsorshipsHeaderRenderer':{'primaryText':{'runs':[{'text':'Gifted '},{'text':'5'},{'text':' memberships'}]}}}");
     ("liveChatSponsorshipsGiftRedemptionAnnouncementRenderer", "'headerSubtext':{'simpleText':'Welcome to Gold!'}");
     ("liveChatPlaceholderItemRenderer", "'message':{}")] =
  [Some ("superChatEvent", "hello :wave:E", [("superChatDetails", VMap
     [("amountDisplayString", VString "USD 5.25"); ("userComment", VString "hello :wave:E");
      ("currency", VString "USD"); ("amountMicros", VString "5250000")])]);
   Some ("newSponsorEvent", "Upgraded membership to Gold!", [("newSponsorDetails", VMap
     [("memberLevelName", VString "Gold"); ("isUpgrade", VBool true)])]);
   Some ("memberMilestoneChatEvent", "x", [("memberMilestoneChatDetails", VMap
     [("memberLevelName", VString "Gold"); ("userComment", VString "x"); ("memberMonth", VInt 12)])]);
   Some ("membershipGiftingEvent", "Gifted 5 memberships", [("membershipGiftingDetails", VMap [("giftMembershipsCount", VInt 5)])]);
   Some ("giftMembershipReceivedEvent", "", [("giftMembershipReceivedDetails", VMap [("memberLevelName", VString "Gold")])]);
   None].
Proof. vm_compute. reflexivity. Qed.

(** The malformed and unsupported actions of actions_test.go. *)
Example malformed_actions :
  forallb (λ raw, negb (is_some (actionData "channel" "video" (quoted raw) test_now)))
    ["null"; "[]"; "{}"; "{'unknown':{}}"; "{'removeChatItemAction':{}}"; "{'removeChatItemByAuthorAction':{}}";
     "{'addChatItemAction':{'item':{'liveChatTextMessageRenderer':{'id':'item','timestampUsec':'bad'}}}}";
     "{'addChatItemAction':{'item':{'liveChatTextMessageRenderer':{'id':'bad/id','timestampUsec':'1234'}}}}"] = true.
Proof. vm_compute. reflexivity. Qed.

Example actions_typed_witness : ∃ e τ,
  default [] (actionData "channel" "video" text_action test_now) = event_doc "channel" "video" test_now e ∧
  details_type (e_kind e) = Some τ.
Proof.
  destruct (actions_typed "channel" "video" text_action test_now
    (default [] (actionData "channel" "video" text_action test_now))) as (e & τ & Hd & _ & _ & Hτ & _).
  { destruct (actionData "channel" "video" text_action test_now) eqn:E; [done|].
    assert (is_some (actionData "channel" "video" text_action test_now) = true) as H by (vm_compute; reflexivity).
    by rewrite E in H. }
  exact (ex_intro _ e (ex_intro _ τ (conj Hd Hτ))).
Defined.
