(* ===== verification/YouTubeInfo.v ===== *)
(** * YouTube pages

    Models what agent/internal/youtube reads from InnerTube pages and answers:
    the chat pages of protocol.go, the channel metadata of metadata.go and the
    live video of discovery.go. The HTML tokenizer of golang.org/x/net is an
    argument: the start tags of a page in order. *)

From stdpp Require Import base gmap strings list.
From Stdlib Require Import Ascii.
From S2P Require Import Prelude GoErr GoTime Json JsonText Text Url UrlParse HttpServer Store YouTubeActions.

(** A pointer field: null clears it, a value goes into what it points to. *)
Definition into_opt {A} (zero : A) (f : A → json → option A) (old : option A) (j : json) : option (option A) :=
  match j with JNull => Some None | _ => Some <$> f (default zero old) j end.
Definition into_str_ptr : option string → json → option (option string) := into_opt "" into_string.

(** ** Chat pages: protocol.go *)

Record continuation := Continuation { Token : string; TimeoutMs : Z }.
Record chatPage := ChatPage { Actions : list string; Continuations : list (list (string * continuation)) }.
Definition no_page : chatPage := ChatPage [] [].

Definition into_continuation : json → option continuation :=
  into_struct (λ c k j,
    if names k "continuation" then (λ s, Continuation s (TimeoutMs c)) <$> into_string (Token c) j
    else if names k "timeoutMs" then (λ n, Continuation (Token c) n) <$> into_int (TimeoutMs c) j
    else Some c) (Continuation "" 0).
Definition into_continuations : json → option (list (list (string * continuation))) :=
  into_list (λ j, match j with
                  | JNull => Some []
                  | JObj l => mapM (λ p, (λ c, (p.1, c)) <$> into_continuation p.2) l
                  | _ => None
                  end).
(** Of the page's text: an action stays text. *)
Definition decode_page : chatPage → string → option chatPage :=
  raw_struct (λ p k raw,
    if names k "actions" then (λ l, ChatPage l (Continuations p)) <$> raw_list raw
    else if names k "continuations" then (λ l, ChatPage (Actions p) l) <$> unmarshal into_continuations raw
    else Some p).

(** A member of a map; the last duplicate wins. *)
Definition map_get {A} (k : string) (l : list (string * A)) : option A :=
  snd <$> List.find (λ p, String.eqb p.1 k) (reverse l).

Definition next (p : chatPage) : string * duration :=
  match Continuations p with
  | [] => ("", 0)
  | c :: _ =>
    foldr (λ kind rest, match map_get kind c with
                        | Some c => (Token c, wrap64 (TimeoutMs c * millisecond))
                        | None => rest
                        end) ("", 0)
      ["invalidationContinuationData"; "timedContinuationData"; "reloadContinuationData"]
  end.

Definition dquote_char : ascii := byte_of 34.
(** A quoted string with escapes, quotes included; what is inside an escape
    is not a newline. *)
Fixpoint quoted_body (s : string) : option string :=
  match s with
  | "" => None
  | String a s =>
    if Ascii.eqb a dquote_char then Some (String a "")
    else if Ascii.eqb a "\" then
      match s with
      | "" => None
      | String b s => if code_of b =? 10 then None else (λ r, String a (String b r)) <$> quoted_body s
      end
    else String a <$> quoted_body s
  end.
(** [keyPattern] and [versionPattern]: the quoted text. *)
Definition config_match (name : string) : string → option string :=
  leftmost (after (dquote name) (λ s, after ":" (λ s,
    match skip_s s with
    | String a s => if Ascii.eqb a dquote_char then String a <$> quoted_body s else None
    | "" => None
    end) (skip_s s))).
(** [initialPattern] and [playerPattern]: what follows the assignment. *)
Definition assigned (name : string) : string → option string :=
  let equals s := after "=" (λ s, Some (skip_s s)) (skip_s s) in
  let quote_mark s := match s with
                      | String a s => if Ascii.eqb a dquote_char || Ascii.eqb a "'" then Some s else None
                      | "" => None
                      end in
  leftmost (λ s,
    match after "window" (λ s, after "[" (λ s,
            s ← quote_mark (skip_s s); after name (λ s, s ← quote_mark s; after "]" equals (skip_s s)) s)
          (skip_s s)) s with
    | Some r => Some r
    | None => after "var" (skip_s1 (after name equals)) s
    end).
Definition initial_data : string → option string := assigned "ytInitialData".
Definition player_data : string → option string := assigned "ytInitialPlayerResponse".

(** [json.NewDecoder(r).Decode(&x)]: the value the text starts with. *)
Definition decode_first {A} (f : string → option A) (s : string) : option A := '(v, _) ← raw_prefix s; f v.

Definition config_value (name html : string) : option string :=
  raw ← config_match name html; s ← unmarshal (into_string "") raw;
  if String.eqb s "" then None else Some s.

(** The page, the key and the version. *)
Definition initialPage (html : string) : result (chatPage * string * string) :=
  match config_value "INNERTUBE_API_KEY" html, config_value "INNERTUBE_CLIENT_VERSION" html with
  | Some key, Some version =>
    match initial_data html with
    | None => inl (ErrMsg "missing ytInitialData")
    | Some rest =>
      match decode_first (raw_struct (λ chat k raw,
              if names k "contents" then raw_struct (λ chat k raw,
                if names k "liveChatRenderer" then
                  j ← parse_json raw;
                  match j with JNull => Some None | _ => Some <$> decode_page (default no_page chat) raw end
                else Some chat) chat raw
              else Some chat) None) rest with
      | None => inl (ErrMsg "invalid ytInitialData")
      | Some None => inl (ErrMsg "missing liveChatRenderer")
      | Some (Some chat) => inr (chat, key, version)
      end
    end
  | _, _ => inl (ErrMsg "missing InnerTube configuration")
  end.

Definition poll_page (body : string) : option chatPage :=
  raw_struct (λ p k raw,
    if names k "continuationContents" then
      raw_struct (λ p k raw, if names k "liveChatContinuation" then decode_page p raw else Some p) p raw
    else Some p) no_page body.

(** ** Channel metadata: metadata.go *)

Record streamInfo := StreamInfo {
  Live : option bool; Title : option string; DisplayName : option string; Login : option string;
  Category : option string; ViewerCount : option Z; StartedAt : option time; EndedAt : option time }.
Definition no_info : streamInfo := StreamInfo None None None None None None None None.

(** The fields of [o] over those of [s]. *)
Definition over {A} (s o : option A) : option A := match o with Some _ => o | None => s end.
Definition merge (s o : streamInfo) : streamInfo :=
  StreamInfo (over (Live s) (Live o)) (over (Title s) (Title o)) (over (DisplayName s) (DisplayName o))
    (over (Login s) (Login o)) (over (Category s) (Category o)) (over (ViewerCount s) (ViewerCount o))
    (over (StartedAt s) (StartedAt o)) (over (EndedAt s) (EndedAt o)).

Definition categoryIDs : list (string * string) :=
  [("Film & Animation", "1"); ("Autos & Vehicles", "2"); ("Music", "10"); ("Pets & Animals", "15");
   ("Sports", "17"); ("Travel & Events", "19"); ("Gaming", "20"); ("People & Blogs", "22");
   ("Comedy", "23"); ("Entertainment", "24"); ("News & Politics", "25"); ("Howto & Style", "26");
   ("Education", "27"); ("Science & Technology", "28"); ("Nonprofits & Activism", "29")].

(** The fields of channels/youtube:<channel>. *)
Definition channelFields (channel : string) (info : streamInfo) (onlineAt : option time) : doc :=
  let login := match DisplayName info, Login info with Some _, None => Some channel | _, l => l end in
  let string_field k (v : option string) := match v with Some s => [(k, VString s)] | None => [] end in
  match onlineAt with
  | None => [("onlineAt", VNull); ("viewerCount", VInt 0)]
  | Some t => ("onlineAt", VTime (time_truncate t millisecond)) ::
              match ViewerCount info with Some n => [("viewerCount", VInt n)] | None => [] end
  end ++ string_field "title" (Title info) ++ string_field "displayName" (DisplayName info) ++
  string_field "login" login ++
  match Category info with
  | Some c => [("categoryName", VString c);
               ("categoryId", match map_get c categoryIDs with Some id => VString id | None => VNull end)]
  | None => []
  end.

Definition nonEmpty (s : option string) : option string :=
  match s with Some t => if String.eqb t "" then None else s | None => None end.

Record viewCountRenderer := ViewCountRenderer { IsLive : bool; OriginalViewCount : string }.
(** A *viewCount, nil when absent: its Renderer. *)
Definition viewCount : Type := option (option viewCountRenderer).
Definition into_viewCount : viewCount → json → option viewCount :=
  into_opt None (into_field "videoViewCountRenderer" (into_opt (ViewCountRenderer false "")
    (into_struct (λ v k j,
      if names k "isLive" then (λ b, ViewCountRenderer b (OriginalViewCount v)) <$> into_bool (IsLive v) j
      else if names k "originalViewCount" then (λ s, ViewCountRenderer (IsLive v) s) <$> into_string (OriginalViewCount v) j
      else Some v)))).

(** [(v *viewCount).info]. *)
Definition viewers_info (v : viewCount) : streamInfo :=
  match v with
  | Some (Some r) =>
    StreamInfo (Some (IsLive r)) None None None None
      (if IsLive r then parse_int (OriginalViewCount r) else None) None None
  | _ => no_info
  end.

Record videoDetails := VideoDetails { vd_title : option string; vd_author : option string; vd_live : bool; vd_upcoming : bool }.
Record broadcast := Broadcast { IsLiveNow : bool; StartTimestamp : string; EndTimestamp : string }.
Record playerMicroformat := PlayerMicroformat {
  pm_category : option string; OwnerProfileURL : string; OwnerChannelName : option string;
  LiveBroadcastDetails : option broadcast }.
Record playerResponse := PlayerResponse {
  pr_details : option videoDetails; pr_data : option (option string); pr_player : option playerMicroformat }.

Definition into_player : json → option playerResponse :=
  into_struct (λ p k j,
    let '(PlayerResponse d m q) := p in
    if names k "videoDetails" then
      (λ x, PlayerResponse x m q) <$> into_opt (VideoDetails None None false false) (into_struct (λ v k j,
        let '(VideoDetails t a l u) := v in
        if names k "title" then (λ x, VideoDetails x a l u) <$> into_str_ptr t j
        else if names k "author" then (λ x, VideoDetails t x l u) <$> into_str_ptr a j
        else if names k "isLive" then (λ x, VideoDetails t a x u) <$> into_bool l j
        else if names k "isUpcoming" then (λ x, VideoDetails t a l x) <$> into_bool u j
        else Some v)) d j
    else if names k "microformat" then
      (λ '(x, y), PlayerResponse d x y) <$> into_struct (λ '(m, q) k j,
        if names k "microformatDataRenderer" then
          (λ x, (x, q)) <$> into_opt None (into_field "category" into_str_ptr) m j
        else if names k "playerMicroformatRenderer" then
          (λ y, (m, y)) <$> into_opt (PlayerMicroformat None "" None None) (into_struct (λ v k j,
            let '(PlayerMicroformat c o n b) := v in
            if names k "category" then (λ x, PlayerMicroformat x o n b) <$> into_str_ptr c j
            else if names k "ownerProfileUrl" then (λ x, PlayerMicroformat c x n b) <$> into_string o j
            else if names k "ownerChannelName" then (λ x, PlayerMicroformat c o x b) <$> into_str_ptr n j
            else if names k "liveBroadcastDetails" then
              (λ x, PlayerMicroformat c o n x) <$> into_opt (Broadcast false "" "") (into_struct (λ v k j,
                let '(Broadcast l s e) := v in
                if names k "isLiveNow" then (λ x, Broadcast x s e) <$> into_bool l j
                else if names k "startTimestamp" then (λ x, Broadcast l x e) <$> into_string s j
                else if names k "endTimestamp" then (λ x, Broadcast l s x) <$> into_string e j
                else Some v)) b j
            else Some v)) q j
        else Some (m, q)) (m, q) j
    else Some p) (PlayerResponse None None None).

Section Pages.
Variable ip_literal : string → option string.    (* net/netip, of a host's IP literal *)
Variable start_tags : string → list (string * list (string * string)).   (* of a page, with their attributes *)

(** The @handle of a channel's URL. *)
Definition handle (profile : string) : option string :=
  u ← Parse ip_literal profile;
  if has_prefix (Path u) "/@" && negb (String.length (Path u) =? 2)%nat && negb (contains_char (drop_str 2 (Path u)) "/")
  then Some (drop_str 2 (Path u)) else None.

(** [(p *playerResponse).info]. *)
Definition player_info (p : playerResponse) : streamInfo :=
  let d := pr_details p in
  let m := pr_player p in
  let b := m ≫= LiveBroadcastDetails in
  StreamInfo
    ((λ d, vd_live d && negb (vd_upcoming d)) <$> d)
    (d ≫= λ d, nonEmpty (vd_title d))
    (over (d ≫= λ d, nonEmpty (vd_author d)) (m ≫= λ m, nonEmpty (OwnerChannelName m)))
    (m ≫= λ m, handle (OwnerProfileURL m))
    (over (pr_data p ≫= nonEmpty) (m ≫= λ m, nonEmpty (pm_category m)))
    None
    (b ≫= λ b, if IsLiveNow b then parse_rfc3339 (StartTimestamp b) else None)
    (b ≫= λ b, if IsLiveNow b then None else parse_rfc3339 (EndTimestamp b)).
Definition playerInfo (body : string) : option streamInfo := player_info <$> unmarshal into_player body.

(** A title that overwrites, as metadata.go reads it. *)
Definition set_title (info : streamInfo) (t : option string) : streamInfo :=
  let '(StreamInfo l _ d g c v s e) := info in StreamInfo l t d g c v s e.
Definition set_channel (info : streamInfo) (name login : option string) : streamInfo :=
  let '(StreamInfo l t _ _ c v s e) := info in StreamInfo l t name login c v s e.
Definition not_live (info : streamInfo) : streamInfo :=
  let '(StreamInfo _ t d g c v s e) := info in StreamInfo None t d g c v s e.
Definition no_viewers (info : streamInfo) : streamInfo :=
  let '(StreamInfo l t d g c _ s e) := info in StreamInfo l t d g c None s e.

(** What pageInfo reads of ytInitialData: the primary infos of the watch page,
    and the title and vanity URL of a channel page. *)
Definition primary : Type := option text * viewCount.
Definition pageData : Type := list (option primary) * option (option string * string).
Definition into_pageData : json → option pageData :=
  into_struct (λ '(contents, channel) k j,
    if names k "contents" then
      (λ l, (l, channel)) <$>
        into_field "twoColumnWatchNextResults" (into_field "results" (into_field "results" (into_field "contents"
          (λ _, into_list (into_field "videoPrimaryInfoRenderer" (into_opt (None, None) (into_struct (λ '(t, v) k j,
            if names k "title" then (λ x, (x, v)) <$> into_opt no_text into_text t j
            else if names k "viewCount" then (λ x, (t, x)) <$> into_viewCount v j
            else Some (t, v)))) None))))) contents j
    else if names k "metadata" then
      (λ c, (contents, c)) <$>
        into_field "channelMetadataRenderer" (into_opt (None, "") (into_struct (λ '(t, u) k j,
          if names k "title" then (λ x, (x, u)) <$> into_str_ptr t j
          else if names k "vanityChannelUrl" then (λ x, (t, x)) <$> into_string u j
          else Some (t, u)))) channel j
    else Some (contents, channel)) ([], None).

Definition primary_info (info : streamInfo) (p : option primary) : streamInfo :=
  match p with
  | None => info
  | Some (title, v) =>
    let info := merge info (not_live (viewers_info v)) in
    match Title info, title with
    | None, Some t => set_title info (nonEmpty (Some (plain t)))
    | _, _ => info
    end
  end.

(** The info is used whether or not there is an error. *)
Definition pageInfo (html : string) : streamInfo * option error :=
  let player :=
    match player_data html with
    | Some rest => player_info <$> decode_first (unmarshal into_player) rest
    | None => Some no_info
    end in
  match player with
  | None => (no_info, Some (ErrMsg "invalid player response"))
  | Some info =>
    match initial_data html with
    | None => (info, Some (ErrMsg "missing ytInitialData"))
    | Some rest =>
      match decode_first (unmarshal into_pageData) rest with
      | None => (info, Some (ErrMsg "invalid ytInitialData"))
      | Some (contents, channel) =>
        let info := foldl primary_info info contents in
        (match channel with
         | Some (title, vanity) => set_channel info (nonEmpty title) (handle vanity)
         | None => info
         end, None)
      end
    end
  end.

Definition update : Type := option viewCount * option (option text).
Definition update_info (info : streamInfo) (a : update) : streamInfo :=
  let info := match a.1 with Some v => merge info (viewers_info v) | None => info end in
  match a.2 with Some (Some t) => set_title info (nonEmpty (Some (plain t))) | _ => info end.
Definition updatedMetadataInfo (body : string) : option streamInfo :=
  actions ← unmarshal (into_field "actions" (λ _, into_list (into_struct (λ '(v, t) k j,
      if names k "updateViewershipAction" then
        (λ x, (x, t)) <$> into_opt None (into_field "viewCount" into_viewCount) v j
      else if names k "updateTitleAction" then
        (λ x, (v, x)) <$> into_opt None (into_field "title" (into_opt no_text into_text)) t j
      else Some (v, t)) (None, None))) []) body;
  Some (foldl update_info no_info actions).

(** ** Discovery: discovery.go *)

Definition video_char (a : ascii) : bool := is_alnum a || one_of "_-" a.
(** [videoIDPattern] *)
Definition video_id (s : string) : bool := (String.length s =? 11)%nat && all_chars video_char s.

(** [strings.EqualFold] with a lower-case ASCII word. *)
Definition equal_fold (p s : string) : bool := match fold_prefix p s with Some "" => true | _ => false end.
Definition last_attr (k : string) (l : list (string * string)) : string :=
  foldl (λ v p, if String.eqb p.1 k then p.2 else v) "" l.
Definition canonical_link (tag : string * list (string * string)) : option string :=
  if String.eqb tag.1 "link" && existsb (equal_fold "canonical") (Fields (last_attr "rel" tag.2))
  then Some (last_attr "href" tag.2) else None.
(** Of the first canonical link; nothing when it is not a watch page. *)
Definition canonicalVideoID (page : string) : string :=
  match head (omap canonical_link (start_tags page)) with
  | None => ""
  | Some href =>
    match Parse ip_literal href with
    | None => ""
    | Some u =>
      let id := query_get "v" (RawQuery u) in
      if String.eqb (Scheme u) "https" && String.eqb (Host u) "www.youtube.com" && String.eqb (Path u) "/watch" && video_id id
      then id else ""
    end
  end.

Definition player_video (page : string) : option string :=
  rest ← player_data page;
  decode_first (unmarshal (into_field "videoDetails" (into_field "videoId" into_string) "")) rest.
(** The video that ytInitialData names, and whether it is a channel page. *)
Definition initial_video (page : string) : option (string * bool) :=
  rest ← initial_data page;
  decode_first (unmarshal (into_struct (λ '(id, channel) k j,
    if names k "currentVideoEndpoint" then
      (λ x, (x, channel)) <$> into_field "watchEndpoint" (into_field "videoId" into_string) id j
    else if names k "metadata" then
      (λ x, (id, x)) <$> into_struct (λ c k j,
        if names k "channelMetadataRenderer" then Some (match j with JNull => false | _ => true end) else Some c) channel j
    else Some (id, channel)) ("", false))) rest.

(** The live video of a channel's page, nothing for a channel that is offline. *)
Definition liveVideoID (page : string) : result string :=
  let id := canonicalVideoID page in
  if negb (String.eqb id "") then inr id
  else
    match (id ← player_video page; if video_id id then Some id else None) with
    | Some id => inr id
    | None =>
      match initial_video page with
      | Some (id, channel) =>
        if video_id id then inr id
        else if channel then inr "" else inl ErrUnrecognizedPage
      | None => inl ErrUnrecognizedPage
      end
    end.
End Pages.

Definition no_tags (_ : string) : list (string * list (string * string)) := [].
Definition no_literal (_ : string) : option string := None.

(** The pages of discovery_test.go. *)
Example discovery_examples :
  map (λ page, liveVideoID no_literal no_tags (quoted page))
    ["<script>var ytInitialPlayerResponse = {'videoDetails':{'videoId':'abc_DEF-123'}};</script>";
     "<script>var ytInitialData = {'currentVideoEndpoint':{'watchEndpoint':{'videoId':'abc_DEF-123'}}};</script>";
     "<script>window['ytInitialData'] = {'currentVideoEndpoint':{'watchEndpoint':{'videoId':'abc_DEF-123'}}};</script>";
     "<script>var ytInitialData = {'metadata':{'channelMetadataRenderer':{'title':'x'}}};</script>";
     ""; "<html>offline</html>";
     "<script>var ytInitialData = {'currentVideoEndpoint':{'watchEndpoint':{'videoId':'short'}}};</script>";
     "<script>var ytInitialData = {'metadata':{'channelMetadataRenderer':{";
     "<script>var ytInitialData = {'contents':{}};</script>"] =
  [inr "abc_DEF-123"; inr "abc_DEF-123"; inr "abc_DEF-123"; inr ""; inl ErrUnrecognizedPage; inl ErrUnrecognizedPage;
   inl ErrUnrecognizedPage; inl ErrUnrecognizedPage; inl ErrUnrecognizedPage] ∧
  canonicalVideoID no_literal (λ _, [("meta", []); ("link", [("rel", "icon"); ("href", "x")]);
    ("link", [("rel", "a CANONICAL"); ("href", "https://www.youtube.com/watch?v=1-LpQekNa9g")])]) "" = "1-LpQekNa9g".
Proof. vm_compute. done. Qed.

Definition chat_html : string := quoted
  "x 'INNERTUBE_API_KEY': 'k\'\u0041', 'INNERTUBE_CLIENT_VERSION':'2.0' <script>window['ytInitialData'] = {'contents':{'liveChatRenderer':{'actions':[{'a': 1}, 2],'continuations':[{'timedContinuationData':{'continuation':'t','timeoutMs':5000}}]}}};var x".
Example page_examples :
  ∃ key, initialPage chat_html =
    inr (ChatPage [quoted "{'a': 1}"; "2"] [[("timedContinuationData", Continuation "t" 5000)]], key, "2.0") ∧
  next (ChatPage [] [[("timedContinuationData", Continuation "t" 5000)]]) = ("t", 5 * second) ∧
  initialPage "" = inl (ErrMsg "missing InnerTube configuration") ∧
  handle no_literal "http://www.youtube.com/@LofiGirl" = Some "LofiGirl" ∧
  handle no_literal "http://www.youtube.com/@a/b" = None ∧
  updatedMetadataInfo (quoted "{'actions':[{'updateViewershipAction':{'viewCount':{'videoViewCountRenderer':{'isLive':true,'originalViewCount':'12'}}}},{'updateTitleAction':{'title':{'simpleText':'T'}}}]}") =
    Some (StreamInfo (Some true) (Some "T") None None None (Some 12) None None) ∧
  pageInfo no_literal (quoted "var ytInitialData = {'metadata':{'channelMetadataRenderer':{'title':'N','vanityChannelUrl':'http://www.youtube.com/@n'}}};") =
    (StreamInfo None None (Some "N") (Some "n") None None None None, None).
Proof. eexists. vm_compute. split_and!; reflexivity. Qed.

(** ** What the metadata keeps *)

(** Later info wins field by field, so it does not matter how a sequence of
    responses is grouped. *)
Lemma merge_assoc a b c : merge a (merge b c) = merge (merge a b) c.
Proof.
  assert (H : ∀ A (x y z : option A), over x (over y z) = over (over x y) z) by by intros ? [] [] [].
  unfold merge. cbn. by rewrite !H.
Qed.
Lemma merge_no_info a : merge a no_info = a ∧ merge no_info a = a.
Proof. destruct a as [[] [] [] [] [] [] [] []]; done. Qed.

(** Channel search needs a login wherever there is a display name. *)
Lemma channel_named channel info online :
  field (channelFields channel info online) "displayName" ≠ VNull →
  ∃ s, field (channelFields channel info online) "login" = VString s.
Proof.
  unfold channelFields. destruct info as [l t [d|] [g|] c v s e], online, v, t, c; cbn; intros H; try done; by eexists.
Qed.

(** A channel without a start time is offline, with no viewers. *)
Lemma channel_offline channel info :
  field (channelFields channel info None) "onlineAt" = VNull ∧ field (channelFields channel info None) "viewerCount" = VInt 0.
Proof. done. Qed.
