(* ===== verification/YouTube.v ===== *)
(** * The YouTube reader

    Models agent/internal/youtube/client.go with the requests of protocol.go
    and metadata.go: the lease loop, the session of an owner with its
    heartbeat, discovery, and a video's chat read side by side with its
    metadata. Documents are written through the store of store.go, whose
    leases are in Readers.v. Counters that are only logged are effects. *)

From stdpp Require Import base gmap strings list pretty.
From S2P Require Import Prelude GoErr GoTime Json JsonText Effects Conc Url Store YouTubeActions YouTubeInfo.
From S2P Require ChatMessage Readers.

(** The contexts: of the client, of an owned session, of its metadata. *)
Inductive ctx := Client | Owned | Metadata.

Inductive yeff : Type → Type :=
  | YErr (c : ctx) : yeff bool                          (* ctx.Err() != nil *)
  | YWait (c : ctx) (d : duration) : yeff bool          (* wait: not done before *)
  | YTick (c : ctx) : yeff bool                         (* the ticker's, not ctx.Done *)
  | YCancel (c : ctx) : yeff unit
  | YNow : yeff time
  (* the status, and up to 8 MiB of the body or the error of reading it *)
  | YHttp (c : ctx) (method path body : string) : yeff (result (Z * result string))
  | YCount (counter : string) : yeff unit
  | YAcquire (c : ctx) (channel owner : string) (now expires : time) : yeff (result bool)
  | YRelease (channel owner : string) : yeff (option error)
  | YCreate (c : ctx) (channel id : string) (data : doc) : yeff (option error)
  | YMerge (c : ctx) (channel : string) (data : doc) : yeff (option error)
  | YRecord (provider kind : string) (o : ChatMessage.Outcome) : yeff unit.

Abbreviation prog := (prog yeff).

(** The intervals of [newClient]; the others are in Readers. *)
Definition pollInterval : duration := 3 * minute.
Definition metadataInterval : duration := minute.
Definition acquireInterval : duration := minute.
Definition minPoll : duration := second.
Definition maxPoll : duration := 30 * second.

(** [youtubeKind] *)
Definition youtubeKind (documentType : string) : string :=
  let kind := trim_prefix documentType "youtube." in
  if String.eqb kind "textMessageEvent" then "message" else kind.

Section Client.
Variable ip_literal : string → option string.
Variable start_tags : string → list (string * list (string * string)).
Variables channel owner : string.

Definition document : string := "youtube:" +:+ channel.

Definition acquire (c : ctx) : prog (result bool) :=
  now ←! Op YNow;
  Op (YAcquire c channel owner now (now + Readers.leaseTTL)).

(** ** Requests *)

Definition request (c : ctx) (method path body : string) : prog (result string) :=
  Op (YCount "requests") ;!
  r ←! Op (YHttp c method path body);
  match r with
  | inl e => Ret (inl e)
  | inr (status, body) =>
    (if status =? 429 then Op (YCount "rateLimits") else Ret tt) ;!
    (if negb (status =? 200) then Ret (inl (ErrMsg ("YouTube HTTP status " +:+ pretty status))) else Ret body)
  end.

(** A body read by [parse]; a failure is counted. *)
Definition parsed {A} (parse : string → result A) (r : result string) : prog (result A) :=
  match r with
  | inl e => Ret (inl e)
  | inr body =>
    match parse body with
    | inl e => Op (YCount "parseFailures") ;! Ret (inl e)
    | inr a => Ret (inr a)
    end
  end.
Definition or_invalid {A} (o : option A) : result A :=
  match o with Some a => inr a | None => inl (ErrMsg "invalid response") end.

Definition live_path : string := "/channel/" +:+ path_escape channel +:+ "/live".
Definition chat_path (video : string) : string := "/live_chat?v=" +:+ query_escape video +:+ "&is_popout=1".
Definition innertube_path (endpoint key : string) : string :=
  "/youtubei/v1/" +:+ endpoint +:+ "?key=" +:+ query_escape key +:+ "&prettyPrint=false".
Definition client_context (fields : doc) : string * value := ("context", VMap [("client", VMap fields)]).
Definition poll_body (version token : string) : string :=
  marshal_map [client_context [("clientName", VString "WEB"); ("clientVersion", VString version)];
               ("continuation", VString token)].
Definition video_body (version video : string) : string :=
  marshal_map [client_context [("clientName", VString "WEB"); ("clientVersion", VString version); ("hl", VString "en")];
               ("videoId", VString video)].

Definition initial (video : string) : prog (result (chatPage * string * string)) :=
  r ←! request Owned "GET" (chat_path video) ""; parsed initialPage r.
Definition poll (key version token : string) : prog (result chatPage) :=
  r ←! request Owned "POST" (innertube_path "live_chat/get_live_chat" key) (poll_body version token);
  parsed (λ body, or_invalid (poll_page body)) r.
Definition innertube (c : ctx) (endpoint key version video : string) (parse : string → option streamInfo) :
    prog (result streamInfo) :=
  r ←! request c "POST" (innertube_path endpoint key) (video_body version video);
  parsed (λ body, or_invalid (parse body)) r.
Definition player (c : ctx) (key version video : string) : prog (result streamInfo) :=
  innertube c "player" key version video (playerInfo ip_literal).
Definition updatedMetadata (c : ctx) (key version video : string) : prog (result streamInfo) :=
  innertube c "updated_metadata" key version video updatedMetadataInfo.

(** ** Writes *)

Definition written (e : option error) : bool :=
  match e with None => true | Some e => bool_decide (status_code (Some e) = AlreadyExists) end.

(** Until a write succeeds: what it returned, or nothing once the context
    ended. *)
Definition retryWrite (c : ctx) (write : prog (option error)) : prog (option (option error)) :=
  loop (λ delay,
    over ←! Op (YErr c);
    if (over : bool) then leave None
    else
      e ←! write;
      if written e then leave (Some e)
      else
        w ←! Op (YWait c delay);
        if (w : bool) then again (Readers.nextBackoff delay) else leave None) Readers.retryInitial.

Definition stream_data (video kind : string) (at_ now : time) : doc :=
  [("channelId", VString document); ("type", VString ("stream." +:+ kind));
   ("timestamp", VTime (time_truncate at_ millisecond));
   ("expiresAt", VTime (time_truncate now millisecond + ChatMessage.StreamStateTTL));
   ("event", VMap [("videoId", VString video)])].
Definition stream_id (video kind : string) : string := "youtube:" +:+ video +:+ ":" +:+ kind.
Definition streamMessage (c : ctx) (video kind : string) (at_ : time) : prog bool :=
  now ←! Op YNow;
  r ←! retryWrite c (Op (YCreate c document (stream_id video kind) (stream_data video kind at_ now)));
  Ret (is_some r).
(** channels/youtube:<channel>. *)
Definition write (c : ctx) (info : streamInfo) (online : option time) : prog bool :=
  r ←! retryWrite c (Op (YMerge c document (channelFields channel info online)));
  Ret (is_some r).
Definition onlineAt (info : streamInfo) : prog time :=
  match StartedAt info with Some t => Ret t | None => Op YNow end.
(** [goLive]: when the stream went online, and whether that was written. *)
Definition goLive (c : ctx) (video : string) (info : streamInfo) : prog (time * bool) :=
  t ←! onlineAt info;
  ok ←! streamMessage c video "online" t;
  Ret (t, ok).

(** ** A video's chat *)

Definition string_field (d : doc) (k : string) : string := match field d k with VString s => s | _ => "" end.
(** The document of an event: a tombstone needs its own. *)
Definition message_id (data : doc) : string :=
  let id := match field data "event" with VMap e => string_field e "id" | _ => "" end in
  "youtube:" +:+ id +:+ if String.eqb (string_field data "type") "youtube.tombstone" then ":tombstone" else "".

(** The actions of a page; false once the context ended. *)
Fixpoint write_actions (video : string) (l : list string) : prog bool :=
  match l with
  | [] => Ret true
  | raw :: l =>
    now ←! Op YNow;
    match actionData channel video raw now with
    | None =>
      Op (YCount "skippedActions") ;!
      Op (YRecord "youtube" "unrecognized" ChatMessage.Skipped) ;! write_actions video l
    | Some data =>
      r ←! retryWrite Owned (Op (YCreate Owned document (message_id data) data));
      match r with
      | None => Ret false
      | Some last =>
        Op (YRecord "youtube" (youtubeKind (string_field data "type")) (ChatMessage.OutcomeOf last)) ;!
        write_actions video l
      end
    end
  end.

(** The next page: [Some None] once the context ended, [None] when a pause was
    cut short. *)
Definition poll_until (key version token : string) : prog (option (option chatPage)) :=
  loop (λ delay,
    over ←! Op (YErr Owned);
    if (over : bool) then leave (Some None)
    else
      r ←! poll key version token;
      match r with
      | inr page => leave (Some (Some page))
      | inl _ =>
        w ←! Op (YWait Owned delay);
        if (w : bool) then again (Readers.nextBackoff delay) else leave None
      end) Readers.retryInitial.

Definition pause (timeout : duration) : duration :=
  let timeout := if timeout <? minPoll then minPoll else timeout in
  if maxPoll <? timeout then maxPoll else timeout.

Definition stream (video key version : string) : chatPage → prog unit :=
  loop (λ page,
    over ←! Op (YErr Owned);
    if (over : bool) then leave tt
    else
      ok ←! write_actions video (Actions page);
      if negb ok then leave tt
      else
        let '(token, timeout) := next page in
        if String.eqb token "" then leave tt
        else
          w ←! Op (YWait Owned (pause timeout));
          if negb w then leave tt
          else
            r ←! poll_until key version token;
            match r with
            | None => leave tt
            | Some p => again (default page p)
            end).

(** The metadata goroutine: when the stream went online, if it did. *)
Definition metadata (video key version : string) : option time → prog (option time) :=
  loop (λ online,
    w ←! Op (YWait Metadata metadataInterval);
    if negb w then leave online
    else
      u ←! updatedMetadata Metadata key version video;
      match u with
      | inl _ => again online
      | inr update =>
        r ←! match Live update, online with
             | Some false, Some _ => Ret (no_viewers update, online, true)
             | Some true, None =>
               p ←! player Metadata key version video;
               let update := match p with inr p => merge p update | inl _ => update end in
               l ←! goLive Metadata video update;
               Ret (update, Some l.1, l.2)
             | _, _ => Ret (update, online, true)
             end;
        let '(update, online, ok) := r in
        if negb ok then leave online
        else
          ok ←! write Metadata update online;
          if (ok : bool) then again online else leave online
      end).

(** Whether the stream is still live after its chat ended. *)
Definition session (video key version : string) (page : chatPage) (watch : string) : prog bool :=
  let info := (pageInfo ip_literal watch).1 in
  p ←! player Owned key version video;
  let info := match p with inr p => merge info p | inl _ => info end in
  l ←! match Live info with
       | Some false => Ret (None, true)
       | _ => l ←! goLive Owned video info; Ret (Some l.1, l.2)
       end;
  if negb l.2 then Ret false
  else
    ok ←! write Owned info l.1;
    if negb ok then Ret false
    else
      Par (stream video key version page ;! Op (YCancel Metadata)) (metadata video key version l.1) (λ _ online,
        match online with
        | None => Ret false
        | Some _ =>
          over ←! Op (YErr Owned);
          if (over : bool) then Ret false
          else
            now ←! Op YNow;
            p ←! player Owned key version video;
            let offline at_ := streamMessage Owned video "offline" at_ ;! Ret false in
            match p with
            | inr p =>
              match Live p with
              | Some true => Ret true
              | _ => offline (default now (EndedAt p))
              end
            | inl _ => offline now
            end
        end).

(** ** Discovery and leases *)

(** What an iteration of [read] learnt: whether to stop, the error, whether
    the stream is still live, and the page of an offline channel. *)
Inductive found := Stop | Failed | StillLive | Offline (page : option string).

Definition discover : prog found :=
  r ←! request Owned "GET" live_path "";
  match r with
  | inl _ => Ret Failed
  | inr body =>
    match liveVideoID ip_literal start_tags body with
    | inl e => (if is_unrecognized e then Op (YCount "unrecognizedPages") else Ret tt) ;! Ret Failed
    | inr video =>
      if String.eqb video "" then Ret (Offline (Some body))
      else
        r ←! initial video;
        match r with
        | inl _ => Ret Failed
        | inr (page, key, version) =>
          live ←! session video key version page body;
          over ←! Op (YErr Owned);
          Ret (if (over : bool) then Stop else if (live : bool) then StillLive else Offline None)
        end
    end
  end.

(** An offline channel's page still names it. *)
Definition offline_info (page : option string) : streamInfo :=
  match page with
  | Some body =>
    let '(StreamInfo l _ d g _ v s e) := (pageInfo ip_literal body).1 in StreamInfo l None d g None v s e
  | None => no_info
  end.

Definition read : prog unit :=
  loop (λ delay,
    over ←! Op (YErr Owned);
    if (over : bool) then leave tt
    else
      let then_wait d delay := w ←! Op (YWait Owned d); if (w : bool) then again delay else leave tt in
      f ←! discover;
      match f with
      | Stop => leave tt
      | Failed => then_wait delay (Readers.nextBackoff delay)
      | StillLive => then_wait pollInterval Readers.retryInitial
      | Offline page =>
        ok ←! write Owned (offline_info page) None;
        if (ok : bool) then then_wait pollInterval Readers.retryInitial else leave tt
      end) Readers.retryInitial.

Definition heartbeat : prog unit :=
  loop (λ _,
    tick ←! Op (YTick Owned);
    if negb tick then leave tt
    else
      r ←! acquire Owned;
      match r with
      | inr true => again tt
      | _ => Op (YCancel Owned) ;! leave tt
      end) tt.

Definition ownedSession : prog unit :=
  Par (read ;! Op (YCancel Owned)) heartbeat (λ _ _, Op (YRelease channel owner) ;! Ret tt).

Definition run : prog unit :=
  loop (λ delay,
    over ←! Op (YErr Client);
    if (over : bool) then leave tt
    else
      r ←! acquire Client;
      match r with
      | inl _ =>
        w ←! Op (YWait Client delay);
        if (w : bool) then again (Readers.nextBackoff delay) else leave tt
      | inr acquired =>
        (if (acquired : bool) then ownedSession else Ret tt) ;!
        w ←! Op (YWait Client acquireInterval);
        if (w : bool) then again Readers.retryInitial else leave tt
      end) Readers.retryInitial.

(** ** What justifies each effect *)

(** Some [acquire] of the client was granted. *)
Definition owned (t : trace yeff) : Prop :=
  ∃ now, Ev (YAcquire Client channel owner now (now + Readers.leaseTTL)) (inr true) ∈ t.
Definition answered (c : ctx) (method path body : string) (ans : string) (t : trace yeff) : Prop :=
  Ev (YHttp c method path body) (inr (200, inr ans)) ∈ t.

(** The channel's page named this live video. *)
Definition discovered (video : string) (t : trace yeff) : Prop :=
  video ≠ "" ∧ ∃ html, answered Owned "GET" live_path "" html t ∧ liveVideoID ip_literal start_tags html = inr video.
(** The channel's page was a live or an offline one. *)
Definition recognized (t : trace yeff) : Prop :=
  ∃ html video, answered Owned "GET" live_path "" html t ∧ liveVideoID ip_literal start_tags html = inr video.
(** A page of a discovered video's chat, from its HTML or from a poll. *)
Definition opened (video key version : string) (t : trace yeff) : Prop :=
  discovered video t ∧
  ∃ html page, answered Owned "GET" (chat_path video) "" html t ∧ initialPage html = inr (page, key, version).
Definition page_seen (video key version : string) (page : chatPage) (t : trace yeff) : Prop :=
  (∃ html, answered Owned "GET" (chat_path video) "" html t ∧ initialPage html = inr (page, key, version)) ∨
  (∃ token body, answered Owned "POST" (innertube_path "live_chat/get_live_chat" key) (poll_body version token) body t ∧
     poll_page body = Some page).
(** The token of a page, after its pause. *)
Definition polled (video key version token : string) (t : trace yeff) : Prop :=
  ∃ page, page_seen video key version page t ∧ (next page).1 = token ∧ token ≠ "" ∧
    Ev (YWait Owned (pause (next page).2)) true ∈ t.

Definition request_ok (c : ctx) (method path body : string) (t : trace yeff) : Prop :=
  (c = Owned ∧ method = "GET" ∧ path = live_path ∧ body = "") ∨
  (∃ video, c = Owned ∧ method = "GET" ∧ path = chat_path video ∧ body = "" ∧ discovered video t) ∨
  (∃ video key version token, c = Owned ∧ method = "POST" ∧ path = innertube_path "live_chat/get_live_chat" key ∧
     body = poll_body version token ∧ opened video key version t ∧ polled video key version token t) ∨
  (∃ video endpoint key version, method = "POST" ∧ endpoint ∈ ["player"; "updated_metadata"] ∧
     path = innertube_path endpoint key ∧ body = video_body version video ∧ opened video key version t).

(** A document of the stream state, for a write answered as [written]. *)
Definition announced (video : string) (at_ : time) (t : trace yeff) : Prop :=
  ∃ c now e, Ev (YCreate c document (stream_id video "online") (stream_data video "online" at_ now)) e ∈ t ∧ written e = true.
(** The context was seen to end. *)
Definition ended (c : ctx) (t : trace yeff) : Prop :=
  Ev (YErr c) true ∈ t ∨ ∃ d, Ev (YWait c d) false ∈ t.
(** The player endpoint was asked and did not say that the stream is live. *)
Definition player_not_live (key version video : string) (t : trace yeff) : Prop :=
  ∃ ans, Ev (YHttp Owned "POST" (innertube_path "player" key) (video_body version video)) ans ∈ t ∧
    ∀ body info, ans = inr (200, inr body) → playerInfo ip_literal body = Some info → Live info ≠ Some true.

Definition create_ok (c : ctx) (id : string) (data : doc) (t : trace yeff) : Prop :=
  (∃ video key version page raw now, c = Owned ∧ opened video key version t ∧ page_seen video key version page t ∧
     raw ∈ Actions page ∧ Ev YNow now ∈ t ∧ actionData channel video raw now = Some data ∧ id = message_id data) ∨
  (∃ video key version at_ now, opened video key version t ∧ Ev YNow now ∈ t ∧
     id = stream_id video "online" ∧ data = stream_data video "online" at_ now) ∨
  (∃ video key version at_ now, c = Owned ∧ opened video key version t ∧ Ev YNow now ∈ t ∧
     id = stream_id video "offline" ∧ data = stream_data video "offline" at_ now ∧
     player_not_live key version video t ∧ ((∃ at_, announced video at_ t) ∨ ended Metadata t)).

Definition merge_ok (data : doc) (t : trace yeff) : Prop :=
  ∃ info online, data = channelFields channel info online ∧
    match online with
    | Some at_ => ∃ video, discovered video t ∧ announced video at_ t
    | None => recognized t
    end.

Definition youtube_ok (t : trace yeff) (e : ev yeff) : Prop :=
  match e with
  | Ev op _ =>
    match op with
    | YHttp c method path body => owned t ∧ request_ok c method path body t
    | YCreate c ch id data => owned t ∧ ch = document ∧ create_ok c id data t
    | YMerge _ ch data => owned t ∧ ch = document ∧ merge_ok data t
    | YAcquire _ ch o now expires =>
      ch = channel ∧ o = owner ∧ expires = now + Readers.leaseTTL ∧ Ev YNow now ∈ t
    | YRelease ch o => ch = channel ∧ o = owner ∧ owned t
    | _ => True
    end
  end.

(** All of it only grows. *)
Lemma stable_owned : stable owned.
Proof. apply stable_ex. intros. apply stable_event. Qed.
Lemma stable_answered c m p b a : stable (answered c m p b a).
Proof. apply stable_event. Qed.
Lemma stable_discovered video : stable (discovered video).
Proof.
  apply stable_and, stable_ex; [apply stable_const|]. intros html.
  apply stable_and; [apply stable_answered|apply stable_const].
Qed.
Lemma stable_recognized : stable recognized.
Proof. do 2 (apply stable_ex; intros). apply stable_and; [apply stable_answered|apply stable_const]. Qed.
Lemma stable_opened video key version : stable (opened video key version).
Proof.
  apply stable_and; [apply stable_discovered|]. do 2 (apply stable_ex; intros).
  apply stable_and; [apply stable_answered|apply stable_const].
Qed.
Lemma stable_page_seen video key version page : stable (page_seen video key version page).
Proof.
  apply stable_or; repeat (apply stable_ex; intros); (apply stable_and; [apply stable_answered|apply stable_const]).
Qed.
Lemma stable_polled video key version token : stable (polled video key version token).
Proof.
  apply stable_ex. intros. apply stable_and; [apply stable_page_seen|].
  repeat first [apply stable_and|apply stable_const|apply stable_event].
Qed.
Lemma stable_announced video at_ : stable (announced video at_).
Proof. do 3 (apply stable_ex; intros). apply stable_and; [apply stable_event|apply stable_const]. Qed.
Lemma stable_ended c : stable (ended c).
Proof. apply stable_or, stable_ex; intros; apply stable_event. Qed.
Lemma stable_player_not_live key version video : stable (player_not_live key version video).
Proof. apply stable_ex. intros. apply stable_and; [apply stable_event|apply stable_const]. Qed.
Hint Resolve stable_owned stable_discovered stable_recognized stable_opened stable_page_seen
  stable_polled stable_announced stable_ended stable_player_not_live : effects.

Hint Extern 2 (stable _) => apply stable_all; intros : effects.

Abbreviation safe_from := (safe_from youtube_ok).

(** An effect that needs no justification. *)
Definition free {A} (op : yeff A) : Prop :=
  match op with
  | YHttp _ _ _ _ | YCreate _ _ _ _ | YMerge _ _ _ | YAcquire _ _ _ _ _ | YRelease _ _ => False
  | _ => True
  end.
Lemma safe_free {A B} (op : yeff B) (k : B → prog A) F Q :
  free op → stable F → (∀ a, safe_from (λ t, F t ∧ Ev op a ∈ t) (k a) Q) → safe_from F (Bind (Op op) k) Q.
Proof. intros Ho HF. apply safe_step; [done|]. intros t a _. by destruct op. Qed.

(** Stability by the hints; an effect without justification; a return. *)
Ltac keep := solve [auto 20 with effects].
Ltac quiet := apply safe_free; [exact I|keep|intros ?].
Ltac return_ := apply safe_ret; [keep|].

Definition http_answer (c : ctx) (m path body : string) (r : result string) (t : trace yeff) : Prop :=
  ∃ x, Ev (YHttp c m path body) x ∈ t ∧ ∀ ans, r = inr ans ↔ x = inr (200, inr ans).
Lemma stable_http_answer c m path body r : stable (http_answer c m path body r).
Proof. apply stable_ex. intros. apply stable_and; [apply stable_event|apply stable_const]. Qed.
Hint Resolve stable_http_answer : effects.

Lemma safe_request c m path body F : stable F →
  (∀ t, F t → owned t ∧ request_ok c m path body t) →
  safe_from F (request c m path body) (λ r t, F t ∧ http_answer c m path body r t).
Proof.
  intros HF HP. unfold request. quiet. apply safe_step; [keep| |].
  { intros t x [Ht _]. by apply HP. }
  intros [e|[status ans]].
  - return_. intros t [[Ht _] He]. split; [done|]. eexists. split; [exact He|]. naive_solver.
  - apply safe_bind with (λ _ t, (F t ∧ Ev (YCount "requests") a ∈ t) ∧
      Ev (YHttp c m path body) (inr (status, ans)) ∈ t).
    { destruct (status =? 429); [|return_; done]. apply safe_op; [keep|intros; keep|].
      intros t x [[? ?] ?]. split; [done|]. split_and!; try (by apply list_elem_of_further). by apply HF. }
    intros []. destruct (Z.eqb_spec status 200) as [->|Hne]; cbn; return_; intros t [[Ht _] He]; (split; [done|]);
      eexists; (split; [exact He|]); intros a'; split; intros H; simplify_eq; done.
Qed.

Lemma safe_parsed {A} (parse : string → result A) r F : stable F →
  safe_from F (parsed parse r) (λ x t, F t ∧ x = match r with inl e => inl e | inr body => parse body end).
Proof.
  intros HF. unfold parsed. destruct r as [e|body]; [return_; done|].
  destruct (parse body) as [e|a]; [|return_; done]. quiet. return_. naive_solver.
Qed.

(** A request read by [parse]: what it says of the trace. *)
Lemma safe_get {A} (parse : string → result A) c m path body F : stable F →
  (∀ t, F t → owned t ∧ request_ok c m path body t) →
  safe_from F (r ←! request c m path body; parsed parse r)
    (λ x t, F t ∧ (∃ r, http_answer c m path body r t ∧ x = match r with inl e => inl e | inr body => parse body end)).
Proof.
  intros HF HP. eapply safe_bind; [by apply safe_request|]. intros r.
  eapply safe_conseq; [apply safe_parsed|intros t Ht; exact Ht|]; [keep|]. intros x t [[? ?] ->]. eauto.
Qed.

Lemma safe_retryWrite c (write : prog (option error)) F (G : option error → trace yeff → Prop) :
  stable F → (∀ e, stable (G e)) →
  safe_from F write (λ e t, F t ∧ G e t) →
  safe_from F (retryWrite c write)
    (λ r t, F t ∧ match r with Some e => written e = true ∧ G e t | None => ended c t end).
Proof.
  intros HF HG Hw. unfold retryWrite. apply (safe_loop_from _ (λ _ t, F t)).
  { intros [e|]; keep. }
  intros delay. quiet. destruct a.
  { return_. intros t [Ht ?]. split; [done|by left]. }
  apply safe_bind with (λ e t, F t ∧ G e t).
  { eapply safe_conseq; [exact Hw|naive_solver|done]. }
  intros e. destruct (written e) eqn:Ee; [return_; naive_solver|]. quiet.
  destruct a; return_; [naive_solver|]. intros t [[Ht _] ?]. split; [done|]. right. eauto.
Qed.

(** ** The parts of a session *)

(** A session of a video's chat. *)
Definition open (video key version : string) (t : trace yeff) : Prop := owned t ∧ opened video key version t.
Lemma stable_open video key version : stable (open video key version).
Proof. apply stable_and; keep. Qed.
Hint Resolve stable_open : effects.

Lemma opened_discovered video key version t : opened video key version t → discovered video t ∧ recognized t.
Proof. intros [Hd _]. split; [done|]. destruct Hd as [_ (html & ? & ?)]. by exists html, video. Qed.

Lemma safe_player c video key version F : stable F → (∀ t, F t → open video key version t) →
  safe_from F (player c key version video)
    (λ p t, F t ∧ (c = Owned → (∀ i, p = inr i → Live i ≠ Some true) → player_not_live key version video t)).
Proof.
  intros HF HO. unfold player, innertube. eapply safe_conseq; [eapply safe_get|intros t Ht; exact Ht|]; [done| |].
  - intros t Ht. destruct (HO t Ht) as [Hown Hop]. split; [done|]. right. right. right.
    exists video, "player", key, version. split_and!; try done. by left.
  - intros p t [Ht (r & (x & Hx & Hr) & ->)]. split; [done|]. intros -> Hp. exists x. split; [done|].
    intros body info Hb Hi Hl. apply Hr in Hb as ->. unfold or_invalid in Hp. rewrite Hi in Hp. by apply (Hp info).
Qed.
Lemma safe_updatedMetadata c video key version F : stable F → (∀ t, F t → open video key version t) →
  safe_from F (updatedMetadata c key version video) (λ _, F).
Proof.
  intros HF HO. eapply safe_conseq; [eapply safe_get|intros t Ht; exact Ht|]; [done| |naive_solver].
  intros t Ht. destruct (HO t Ht) as [Hown Hop]. split; [done|]. right. right. right.
  exists video, "updated_metadata", key, version. split_and!; try done. right. by left.
Qed.

Lemma safe_streamMessage c video kind at_ F : stable F →
  (∀ t now, F t → Ev YNow now ∈ t → owned t ∧ create_ok c (stream_id video kind) (stream_data video kind at_ now) t) →
  safe_from F (streamMessage c video kind at_) (λ ok t, F t ∧
    if (ok : bool) then ∃ now e, Ev (YCreate c document (stream_id video kind) (stream_data video kind at_ now)) e ∈ t ∧ written e = true
    else ended c t).
Proof.
  intros HF HP. unfold streamMessage. apply safe_free; [exact I|keep|]. intros now.
  eapply safe_bind.
  - apply (safe_retryWrite c _ _ (λ e t, Ev (YCreate c document (stream_id video kind) (stream_data video kind at_ now)) e ∈ t));
      [keep|intros; keep|]. apply safe_op; [keep|intros; keep|]. intros t e [Ht Hnow].
    destruct (HP t now Ht Hnow). split; [done|]. split_and!; [by apply HF|by apply list_elem_of_further|apply list_elem_of_here].
  - intros [e|]; return_; [|naive_solver]. cbn. naive_solver.
Qed.

Lemma safe_write c info online F : stable F → (∀ t, F t → owned t ∧ merge_ok (channelFields channel info online) t) →
  safe_from F (write c info online) (λ _, F).
Proof.
  intros HF HP. unfold write. eapply safe_bind.
  - apply (safe_retryWrite c _ _ (λ _ _, True)); [done|intros; keep|].
    apply safe_op; [keep|intros; keep|]. intros t e Ht. destruct (HP t Ht). split; [done|]. split; [by apply HF|done].
  - intros [e|]; return_; naive_solver.
Qed.

Lemma safe_goLive c video info key version F : stable F → (∀ t, F t → open video key version t) →
  safe_from F (goLive c video info) (λ l t, F t ∧ if l.2 then announced video l.1 t else ended c t).
Proof.
  intros HF HO. unfold goLive. apply safe_bind with (λ _, F).
  { unfold onlineAt. destruct (StartedAt info); [by return_|]. apply safe_op; [done|done|]. intros t a Ht. split; [done|]. by apply HF. }
  intros at_. eapply safe_bind; [apply (safe_streamMessage c video "online" at_ F HF)|].
  - intros t now Ht Hnow. destruct (HO t Ht). split; [done|]. right. left. by exists video, key, version, at_, now.
  - intros [|]; return_; [|naive_solver]. intros t [Ht (now & e & He)]. split; [done|]. by exists c, now, e.
Qed.

Lemma safe_write_actions video key version page l F : stable F →
  (∀ t, F t → open video key version t ∧ page_seen video key version page t) → (∀ raw, raw ∈ l → raw ∈ Actions page) →
  safe_from F (write_actions video l) (λ _, F).
Proof.
  intros HF HO Hl. assert (∀ G, stable G → (∀ t, G t → F t) → safe_from G (write_actions video l) (λ _, F)) as H; [|by apply H].
  revert Hl. induction l as [|raw l IH]; intros Hl G HG HGF; cbn [write_actions]; [by return_|].
  assert (Hl' : ∀ r, r ∈ l → r ∈ Actions page) by (intros; apply Hl; by right).
  apply safe_free; [exact I|done|]. intros now.
  destruct (actionData channel video raw now) as [data|] eqn:Ed.
  - eapply safe_bind.
    + apply (safe_retryWrite Owned _ _ (λ _ _, True)); [keep|intros; keep|].
      apply safe_op; [keep|intros; keep|]. intros t e [Ht Hnow]. destruct (HO t (HGF t Ht)) as [[Hown Hop] Hp].
      split; [|split; [split; [by apply HG|by apply list_elem_of_further]|done]].
      split_and!; [done|done|]. left. exists video, key, version, page, raw, now. split_and!; try done.
      apply Hl. by left.
    + intros [e|]; [|return_; naive_solver]. quiet. apply IH; [done|keep|naive_solver].
  - quiet. quiet. apply IH; [done|keep|naive_solver].
Qed.

Lemma safe_poll key version token video F : stable F →
  (∀ t, F t → open video key version t ∧ polled video key version token t) →
  safe_from F (poll_until key version token) (λ r t, F t ∧ ∀ p, r = Some (Some p) → page_seen video key version p t).
Proof.
  intros HF HO. unfold poll_until. apply (safe_loop_from _ (λ _, F)); [intros; keep|].
  intros delay. quiet. destruct a; [return_; naive_solver|].
  eapply safe_bind.
  - apply safe_get; [keep|]. intros t [Ht _]. destruct (HO t Ht) as [[Hown Hop] Hp]. split; [done|].
    right. right. left. by exists video, key, version, token.
  - intros [e|p]; [quiet; destruct a; return_; naive_solver|]. return_.
    intros t [[Ht _] (r & (x & Hx & Hr) & Hp)]. split; [done|]. intros p' [= <-]. right.
    destruct r as [e|body]; [done|]. exists token, body. rewrite (proj1 (Hr body) eq_refl) in Hx.
    split; [done|]. unfold or_invalid in Hp. by case_match; simplify_eq.
Qed.

Lemma safe_stream video key version page F : stable F → (∀ t, F t → open video key version t) →
  safe_from (λ t, F t ∧ page_seen video key version page t) (stream video key version page) (λ _, F).
Proof.
  intros HF HO. unfold stream.
  apply (safe_loop_from _ (λ page t, F t ∧ page_seen video key version page t)); [done|]. clear page. intros page.
  quiet. destruct a; [return_; naive_solver|].
  eapply safe_bind; [apply (safe_write_actions video key version page); [keep| |done]|].
  { intros t [[Ht Hp] _]. split; [by apply HO|done]. }
  intros [|]; cbn [negb]; [|return_; naive_solver].
  destruct (next page) as [token timeout] eqn:En. destruct (String.eqb_spec token "") as [|Htok]; [return_; naive_solver|].
  quiet. destruct a; cbn [negb]; [|return_; naive_solver].
  eapply safe_bind; [apply (safe_poll key version token video); [keep|]|].
  { intros t [[[Ht Hp] _] Hw]. split; [by apply HO|]. exists page. by rewrite En. }
  intros [[p|]|]; return_; naive_solver.
Qed.

(** When the stream went online, if it did: it was announced, unless the
    metadata's context ended first. *)
Definition since (video : string) (online : option time) (t : trace yeff) : Prop :=
  ∀ at_, online = Some at_ → announced video at_ t.
Definition since_or_ended (video : string) (online : option time) (t : trace yeff) : Prop :=
  ∀ at_, online = Some at_ → announced video at_ t ∨ ended Metadata t.
Lemma stable_since video online : stable (since video online).
Proof. do 2 (apply stable_all; intros). keep. Qed.
Lemma stable_since_or_ended video online : stable (since_or_ended video online).
Proof. do 2 (apply stable_all; intros). keep. Qed.
Hint Resolve stable_since stable_since_or_ended : effects.

Lemma merge_open video key version info online t :
  open video key version t → since video online t → owned t ∧ merge_ok (channelFields channel info online) t.
Proof.
  intros [Hown [Hd Hr]%opened_discovered] Hs. split; [done|]. exists info, online. split; [done|].
  destruct online as [at_|]; [|done]. exists video. split; [done|]. by apply Hs.
Qed.

(** After an update: its info, since when the stream is online, and whether
    to go on. *)
Definition updated (video : string) (F : trace yeff → Prop) (r : streamInfo * option time * bool) (t : trace yeff) : Prop :=
  F t ∧ if r.2 then since video r.1.2 t else since_or_ended video r.1.2 t.
Lemma stable_updated video F r : stable F → stable (updated video F r).
Proof. intros HF. apply stable_and; [done|]. destruct r as [? []]; keep. Qed.
Hint Resolve stable_updated : effects.

Lemma safe_metadata video key version online F : stable F → (∀ t, F t → open video key version t) →
  safe_from (λ t, F t ∧ since video online t) (metadata video key version online) (since_or_ended video).
Proof.
  intros HF HO. unfold metadata.
  apply (safe_loop_from _ (λ online t, F t ∧ since video online t)); [intros; keep|]. clear online. intros online.
  assert (Hl : ∀ t at_, since video online t → online = Some at_ → announced video at_ t ∨ ended Metadata t)
    by (intros; left; auto).
  quiet. destruct a; cbn [negb]; [|return_; intros t [[_ Hs] _] at_; by apply Hl].
  eapply safe_bind; [apply (safe_updatedMetadata Metadata video key version); [keep|]; intros t [[Ht _] _]; by apply HO|].
  intros [e|update]; [return_; naive_solver|].
  apply safe_bind with (updated video F).
  - assert (Hsame : ∀ u : streamInfo, safe_from (λ t, (F t ∧ since video online t) ∧ Ev (YWait Metadata metadataInterval) true ∈ t)
      (Ret (u, online, true)) (updated video F)).
    { intros u. return_. naive_solver. }
    destruct (Live update) as [[|]|], online as [at_|]; try apply Hsame.
    eapply safe_bind; [apply (safe_player Metadata video key version); [keep|]; intros t [[Ht _] _]; by apply HO|].
    intros p. eapply safe_then; [apply (safe_goLive Metadata video _ key version F HF HO)|naive_solver|].
    intros [at_ [|]]; cbn [fst snd]; return_; intros t [Ht Ha]; (split; [done|]); intros ? [= <-]; [done|by right].
  - intros [[u o] [|]]; cbn [fst snd negb]; [|return_; by intros t [_ Hs]].
    eapply safe_bind; [apply (safe_write Metadata u o (updated video F (u, o, true))); [keep|]|].
    { intros t [Ht Hs]. eapply merge_open; [by apply HO|done]. }
    intros [|]; return_; [done|]. intros t [_ Hs] at_ Hat. left. auto.
Qed.

Lemma safe_offline video key version at_ F : stable F →
  (∀ t, F t → open video key version t ∧ player_not_live key version video t ∧
     ((∃ at_, announced video at_ t) ∨ ended Metadata t)) →
  safe_from F (streamMessage Owned video "offline" at_ ;! Ret false) (λ _ _, True).
Proof.
  intros HF HO. eapply safe_bind; [apply (safe_streamMessage Owned video "offline" at_ F HF)|intros [|]; by return_].
  intros t now Ht Hnow. destruct (HO t Ht) as ([Hown Hop] & Hp & Ha). split; [done|]. right. right.
  by exists video, key, version, at_, now.
Qed.

Lemma safe_session video key version page watch F : stable F →
  (∀ t, F t → open video key version t ∧ page_seen video key version page t) →
  safe_from F (session video key version page watch) (λ _ _, True).
Proof.
  intros HF HO. assert (HO' : ∀ t, F t → open video key version t) by (intros t Ht; by apply HO).
  unfold session. apply safe_bind with (λ _, F).
  { eapply safe_conseq; [apply (safe_player Owned video key version F HF HO')|done|by intros ? ? [? _]]. }
  intros p.
  set (info := match p with inr p => merge _ p | inl _ => _ end).
  apply safe_bind with (λ l : option time * bool, λ t, F t ∧ if l.2 then since video l.1 t else True).
  { assert (safe_from F (l ←! goLive Owned video info; Ret (Some l.1, l.2))
      (λ (l : option time * bool) t, F t ∧ if l.2 then since video l.1 t else True)) as Hlive.
    { eapply safe_bind; [apply (safe_goLive Owned video info key version F HF HO')|].
      intros [at_ [|]]; cbn [fst snd]; return_; [|naive_solver]. intros t [Ht Ha]. split; [done|]. by intros ? [= <-]. }
    destruct (Live info) as [[|]|]; [exact Hlive|return_; intros t Ht; by split|exact Hlive]. }
  intros [online [|]]; cbn [fst snd negb]; [|return_; done].
  set (G t := F t ∧ since video online t). assert (HG : stable G) by (unfold G; keep).
  eapply safe_then; [apply (safe_write Owned info online G HG)|done|].
  { intros t [Ht Hs]. eapply merge_open; [by apply HO'|done]. }
  intros [|]; cbn [negb]; [|return_; done].
  apply safe_par with (λ _, F) (since_or_ended video).
  - eapply safe_then; [apply (safe_stream video key version page F HF HO')|intros t [Ht _]; split; [done|by apply HO]|].
    intros []. apply safe_op; [done|done|]. intros t a Ht. split; [done|by apply HF].
  - eapply safe_conseq; [apply (safe_metadata video key version online F HF HO')|done|done].
  - intros _ [at_|]; [|return_; done]. quiet. destruct a; [return_; done|]. quiet.
    set (H t := F t ∧ since_or_ended video (Some at_) t). assert (HH : stable H) by (unfold H; keep).
    eapply safe_then; [apply (safe_player Owned video key version H HH); intros t [Ht _]; by apply HO'|naive_solver|].
    assert (Hoff : ∀ at2 (p : result streamInfo), (∀ i, p = inr i → Live i ≠ Some true) →
      safe_from (λ t, H t ∧ (Owned = Owned → (∀ i, p = inr i → Live i ≠ Some true) → player_not_live key version video t))
        (streamMessage Owned video "offline" at2 ;! Ret false) (λ _ _, True)).
    { intros at2 q Hq. apply (safe_offline video key version); [keep|]. intros t [[Ht Hs] Hp].
      split_and!; [by apply HO'|by apply Hp|]. destruct (Hs at_ eq_refl); [left; by exists at_|by right]. }
    intros [e|q]; [by apply Hoff|]. destruct (Live q) as [[|]|] eqn:El; [return_; done|..]; apply Hoff; congruence.
Qed.

Lemma safe_initial video F : stable F → (∀ t, F t → owned t ∧ discovered video t) →
  safe_from F (initial video) (λ r t, F t ∧ ∀ page key version, r = inr (page, key, version) →
    open video key version t ∧ page_seen video key version page t).
Proof.
  intros HF HO. unfold initial. eapply safe_conseq; [apply safe_get|intros t Ht; exact Ht|]; [done| |].
  - intros t Ht. destruct (HO t Ht). split; [done|]. right. left. by exists video.
  - intros r t [Ht (r0 & (x & Hx & Hr) & Hp)]. split; [done|]. intros page key version ->.
    destruct r0 as [e|html]; [done|]. rewrite (proj1 (Hr html) eq_refl) in Hx. destruct (HO t Ht).
    assert (initialPage html = inr (page, key, version)) by done. split; [|left; by exists html].
    split; [done|]. split; [done|]. by exists html, page.
Qed.

Lemma safe_discover F : stable F → (∀ t, F t → owned t) →
  safe_from F discover (λ f t, F t ∧ ∀ page, f = Offline page → recognized t).
Proof.
  intros HF HO. unfold discover. eapply safe_bind; [apply (safe_request Owned "GET" live_path "" F HF)|].
  { intros t Ht. split; [by apply HO|]. by left. }
  intros [e|body]; [return_; naive_solver|]. destruct (liveVideoID ip_literal start_tags body) as [e|video] eqn:Ev_.
  - apply safe_bind with (λ _, F); [|intros; return_; naive_solver].
    destruct (is_unrecognized e); [|return_; naive_solver]. apply safe_op; [keep|done|].
    intros t a [Ht _]. split; [done|by apply HF].
  - set (G t := F t ∧ recognized t). assert (HG : stable G) by (unfold G; keep).
    assert (HR : ∀ t, http_answer Owned "GET" live_path "" (inr body) t → answered Owned "GET" live_path "" body t).
    { intros t (x & Hx & Hr). by rewrite (proj1 (Hr body) eq_refl) in Hx. }
    destruct (String.eqb_spec video "") as [|Hne]; [return_; intros t [Ht Ha]; split; [done|]; exists body, video; auto|].
    eapply safe_then; [apply (safe_initial video (λ t, G t ∧ owned t ∧ discovered video t)); [keep|naive_solver]| |].
    { intros t [Ht Ha%HR]. split; [split; [done|by exists body, video]|]. split; [by apply HO|]. split; [done|]. by exists body. }
    intros [e|[[page key] version]]; [return_; intros t [[[Ht _] _] _]; by split|].
    apply safe_bind with (λ _, G).
    + eapply safe_conseq; [apply (safe_frame _ (λ t, open video key version t ∧ page_seen video key version page t) G);
        [done|apply safe_session; [keep|done]]|naive_solver|by intros a t [_ ?]].
    + intros live. quiet. destruct a; [|destruct live]; return_; intros t [[Ht Hr] _]; (split; [done|]); by intros.
Qed.

Lemma safe_read F : stable F → (∀ t, F t → owned t) → safe_from F read (λ _, F).
Proof.
  intros HF HO. unfold read. apply (safe_loop_from _ (λ _, F)); [done|]. intros delay.
  quiet. destruct a; [return_; naive_solver|].
  assert (Hwait : ∀ G d delay, stable G → (∀ t, G t → F t) →
    safe_from G (w ←! Op (YWait Owned d); if (w : bool) then again delay else leave tt)
      (λ r : duration + unit, λ t, match r with inl _ => F t | inr _ => F t end)).
  { intros G d delay' HG HGF. apply safe_free; [exact I|done|]. intros [|]; return_; naive_solver. }
  eapply safe_then; [apply (safe_discover F HF HO)|naive_solver|].
  intros [| | |page]; [return_; naive_solver|apply Hwait; [keep|naive_solver]..|].
  set (G t := F t ∧ recognized t). assert (HG : stable G) by (unfold G; keep).
  eapply safe_then; [apply (safe_write Owned (offline_info page) None G HG)| |].
  - intros t [Ht Hr]. split; [by apply HO|]. by exists (offline_info page), None.
  - intros t [Ht Hr]. split; [done|]. by apply (Hr page).
  - intros [|]; [apply Hwait; [done|by intros t [? _]]|]. return_. by intros t [? _].
Qed.

Lemma safe_acquire c F : stable F →
  safe_from F (acquire c) (λ r t, F t ∧ (c = Client → r = inr true → owned t)).
Proof.
  intros HF. unfold acquire. apply safe_free; [exact I|done|]. intros now.
  apply safe_op; [keep|intros; keep|]. intros t r [Ht Hn]. split; [done|]. split; [by apply HF|].
  intros -> ->. exists now. apply list_elem_of_here.
Qed.

Lemma safe_heartbeat F : stable F → safe_from F heartbeat (λ _ _, True).
Proof.
  intros HF. unfold heartbeat. apply (safe_loop_from _ (λ _, F)); [intros; keep|]. intros _.
  quiet. destruct a; cbn [negb]; [|return_; done].
  eapply safe_then; [apply (safe_acquire Owned F HF)|by intros t [? _]|].
  intros [e|[|]]; [quiet; return_; done|return_; by intros t [? _]|quiet; return_; done].
Qed.

Lemma safe_ownedSession : safe_from owned ownedSession (λ _ _, True).
Proof.
  unfold ownedSession. apply safe_par with (λ _, owned) (λ _ _, True).
  - eapply safe_bind; [apply (safe_read owned); [keep|done]|]. intros []. apply safe_op; [keep|intros; keep|].
    intros t a Ht. split; [done|by apply stable_owned].
  - apply safe_heartbeat. keep.
  - intros _ _. apply safe_step; [keep|by intros t a [Ht _]|]. intros r. return_. done.
Qed.

Lemma safe_run : safe_from (λ _, True) run (λ _ _, True).
Proof.
  unfold run. apply (safe_loop_from _ (λ _ _, True)); [intros; keep|]. intros delay.
  quiet. destruct a; [return_; done|].
  eapply safe_then; [apply (safe_acquire Client (λ _, True)); keep|done|].
  intros [e|acquired]; [quiet; destruct a; return_; done|].
  apply safe_bind with (λ _ _, True); [|intros; quiet; destruct a; return_; done].
  destruct acquired; [|return_; done].
  eapply safe_conseq; [apply safe_ownedSession|intros t [_ H]; by apply H|done].
Qed.
End Client.

(** C32. Whatever YouTube, Firestore and the clock answer, and however the
    goroutines of a reader interleave, every effect of [Client.run] is
    justified by what happened before. Requests and writes come only after the
    lease was granted; a chat is opened only for a video that the channel's
    page named, and polled only with the token of a page of that chat, after
    that page's pause, bounded to 1 to 30 seconds. A message document is the one
    [actionData] makes of an action of such a page, under its own identifier.
    A channel is written as offline only after its page was recognised (an
    unknown page is not offline), as online since a time only after that
    time's stream.online message was written; and stream.offline only when the
    player did not say live, after stream.online or after the metadata
    context ended while it was being written. Leases are taken for 90 seconds
    from a clock reading and released only as their own. *)
Theorem reader_justified ip_literal start_tags channel owner p t :
  reachable (run ip_literal start_tags channel owner) p t →
  justified (youtube_ok ip_literal start_tags channel owner) t.
Proof.
  intros H. eapply safe_justified; [|exact H]. by apply safe_run.
Qed.

(** *** A session *)

(** The answers of an environment where [page] serves each request, waits run
    their time, and [over] says which contexts have ended. *)
Definition serving (page : string → string) (over : ctx → bool) : env yeff :=
  λ A t op,
    match op in yeff A return A with
    | YErr c => over c
    | YWait _ _ => (List.length t <? 100)%nat
    | YTick _ => false
    | YCancel _ | YCount _ | YRecord _ _ _ => tt
    | YNow => test_now
    | YHttp _ _ path _ => inr (200, inr (quoted (page path)))
    | YAcquire _ _ _ _ _ => inr true
    | YRelease _ _ | YCreate _ _ _ _ | YMerge _ _ _ => None
    end.

Definition live_page : string :=
  "var ytInitialData = {'currentVideoEndpoint':{'watchEndpoint':{'videoId':'abc_DEF-123'}}};".
Definition chat_page (actions : string) : string :=
  "'INNERTUBE_API_KEY':'k','INNERTUBE_CLIENT_VERSION':'2' var ytInitialData = {'contents':{'liveChatRenderer':{'actions':[" +:+
  actions +:+ "],'continuations':[{'timedContinuationData':{'continuation':'t','timeoutMs':5000}}]}}};".
Definition test_pages (live : bool) (path : string) : string :=
  if has_prefix path "/channel/" then live_page
  else if has_prefix path "/live_chat" then chat_page text_action
  else if has_prefix path "/youtubei/v1/updated_metadata" then
    "{'actions':[{'updateViewershipAction':{'viewCount':{'videoViewCountRenderer':{'isLive':true,'originalViewCount':'12'}}}}]}"
  else if has_prefix path "/youtubei/v1/player" then
    if live then "{'videoDetails':{'isLive':true}}" else "{'videoDetails':{'isUpcoming':true}}"
  else "{}".

Definition created (t : trace yeff) : list string :=
  reverse (omap (λ e, match e with Ev op _ => match op with YCreate _ _ id _ => Some id | _ => None end end) t).
Definition test_run (live : bool) (over : ctx → bool) : prog unit * trace yeff :=
  drive 300 (serving (test_pages live) over) (run no_literal no_tags "UC1" "me", []).

Example session_creates :
  created (test_run true (λ _, false)).2 = ["youtube:abc_DEF-123:online"; "youtube:m1"].
Proof. vm_compute. reflexivity. Qed.

(** An upcoming stream goes live while its chat ends: the metadata context ends
    before stream.online is written, and stream.offline follows all the same. *)
Example offline_without_online :
  take 2 (created (test_run false (λ c, match c with Metadata => true | _ => false end)).2) =
  ["youtube:m1"; "youtube:abc_DEF-123:offline"].
Proof. vm_compute. reflexivity. Qed.

Lemma reader_justified_witness :
  created (test_run true (λ _, false)).2 = ["youtube:abc_DEF-123:online"; "youtube:m1"] ∧
  justified (youtube_ok no_literal no_tags "UC1" "me") (test_run true (λ _, false)).2.
Proof.
  split; [vm_compute; reflexivity|].
  exact (reader_justified no_literal no_tags "UC1" "me" _ _
    (drive_reachable 300 (serving (test_pages true) (λ _, false)) (run no_literal no_tags "UC1" "me"))).
Defined.
