(* ===== verification/Provider.v ===== *)
(** * Provider tokens

    Models agent/internal/provider: the token document with its refresh lease
    (firestore.go), all replicas refreshing one grant, and the service
    (service.go): credentials, token requests, AccessToken with its refresh
    protocol, and AppAccessToken. golang.org/x/oauth2, the secret manager and
    the random lease ids are effects the environment answers. *)

From stdpp Require Import base gmap strings list.
From Stdlib Require Import Ascii.
From S2P Require Import Prelude GoErr GoTime Float64 Json Effects LeaseSpec Store JsonText.

(** ** The token document

    The document tokens/<uid> keeps one JSON text per provider and, beside it,
    the lease of the refresh in progress. *)

Record Lease := MkLease {
  UID : string;
  Provider_ : string;
  Token : string;
  Owner : string;
  Until : time
}.

Record RefreshResult := MkRefreshResult { NewToken : string; Revoked : bool }.

Definition lease_key (p : string) : string := "_refresh_" +:+ p.
Definition lease_map (d : doc) (p : string) : doc :=
  match field d (lease_key p) with VMap l => l | _ => [] end.

(** The token is the claimed one, and no lease is live. *)
Definition token_matches (d : doc) (p token : string) : bool :=
  match field d p with VString s => String.eqb s token | _ => false end.
Definition lease_live (d : doc) (p : string) (now : time) : bool :=
  match field (lease_map d p) "until" with VTime u => time_before now u | _ => false end.
Definition claimable (d : doc) (claim : Lease) (now : time) : bool :=
  token_matches d (Provider_ claim) (Token claim) && negb (lease_live d (Provider_ claim) now).

Definition lease_value (claim : Lease) : value :=
  VMap [("owner", VString (Owner claim)); ("until", VTime (Until claim))].

(** The transaction of Acquire on a document: it merges the owner and the expiry
    into the lease's map. *)
Definition claimed_map (claim : Lease) (d : doc) : doc :=
  map_set (map_set (lease_map d (Provider_ claim)) "owner" (VString (Owner claim))) "until" (VTime (Until claim)).
Definition acquire_doc (claim : Lease) (now : time) (d : doc) : bool * doc :=
  if claimable d claim now then (true, map_set d (lease_key (Provider_ claim)) (VMap (claimed_map claim d)))
  else (false, d).

Definition owns (d : doc) (claim : Lease) : bool :=
  match field (lease_map d (Provider_ claim)) "owner" with
  | VString o => String.eqb o (Owner claim)
  | _ => false
  end.

Definition remove_key (k : string) (d : doc) : doc := List.filter (λ p, negb (String.eqb p.1 k)) d.

(** The document after Finish, once it found its own lease. *)
Definition finish_doc (claim : Lease) (r : RefreshResult) (d : doc) : doc :=
  let p := Provider_ claim in
  let d' := remove_key (lease_key p) d in
  if token_matches d p (Token claim) then
    let d' := if negb (String.eqb (NewToken r) "") then map_set d' p (VString (NewToken r)) else d' in
    if Revoked r then remove_key p d' else d'
  else d'.

(** The operations, over the effects of the store. *)
Inductive seff : Type → Type :=
  | SDb {A} (op : db A) : seff A
  | SNow : seff time.

Section Firestore.
Context {S : Type} (η : env seff).
Local Abbreviation M := (M (world seff S)).

Definition tokens_ref (uid : string) : string := "tokens/" +:+ uid.

Definition Load (uid p : string) : M (result string) :=
  r ← db_ η (@SDb) (Get (tokens_ref uid));
  match r with
  | inl e => if decide (status_code (Some e) = NotFound) then throw ErrNoToken else throw e
  | inr d => match field d p with
             | VString s => if String.eqb s "" then throw ErrNoToken else ok s
             | _ => throw ErrNoToken
             end
  end.

Definition acquire_tx (claim : Lease) : M (result bool) :=
  d ←? db_ η (@SDb) (TxGet (tokens_ref (UID claim)));
  if negb (token_matches d (Provider_ claim) (Token claim)) then ok false
  else
    now ← ask η SNow;
    if lease_live d (Provider_ claim) now then ok false
    else
      exec η (@SDb) (TxSet (tokens_ref (UID claim)) [(lease_key (Provider_ claim), lease_value claim)] true) ;?
      ok true.
Definition Acquire (claim : Lease) : M (result bool) := RunTransaction η (@SDb) (acquire_tx claim).

Definition finish_tx (claim : Lease) (r : RefreshResult) : M (result unit) :=
  let p := Provider_ claim in
  d ←? db_ η (@SDb) (TxGet (tokens_ref (UID claim)));
  if negb (owns d claim) then throw ErrRefreshBusy
  else
    let updates := [(lease_key p, VDelete)] in
    if token_matches d p (Token claim) then
      let updates := updates ++ (if negb (String.eqb (NewToken r) "") then [(p, VString (NewToken r))] else []) in
      if Revoked r then
        snap ← db_ η (@SDb) (TxGet ("profiles/" +:+ UID claim));
        match snap with
        | inl e => if decide (status_code (Some e) = NotFound)
                   then exec η (@SDb) (Update (tokens_ref (UID claim)) (updates ++ [(p, VDelete)]))
                   else throw e
        | inr _ => exec η (@SDb) (Update ("profiles/" +:+ UID claim) [(p, VDelete)]) ;?
                   exec η (@SDb) (Update (tokens_ref (UID claim)) (updates ++ [(p, VDelete)]))
        end
      else exec η (@SDb) (Update (tokens_ref (UID claim)) updates)
    else exec η (@SDb) (Update (tokens_ref (UID claim)) updates).
Definition Finish (claim : Lease) (r : RefreshResult) : M (result unit) :=
  RunTransaction η (@SDb) (finish_tx claim r).
End Firestore.

Lemma field_remove k k' d : field (remove_key k d) k' = if String.eqb k k' then VNull else field d k'.
Proof.
  unfold remove_key. induction d as [|[k1 v1] d IH]; cbn; [by destruct (String.eqb k k')|].
  destruct (String.eqb_spec k1 k) as [->|Hne]; cbn.
  - rewrite IH. by destruct (String.eqb k k').
  - destruct (String.eqb_spec k1 k') as [->|]; [|done].
    destruct (String.eqb_spec k k'); [congruence|done].
Qed.

Lemma lease_key_ne p : String.eqb p (lease_key p) = false.
Proof.
  apply String.eqb_neq. intros H. apply (f_equal String.length) in H.
  unfold lease_key in H. assert (∀ a b, String.length (a +:+ b) = (String.length a + String.length b)%nat) as Hl.
  { induction a as [|x a IH]; intros b; [done|]. rewrite app_str_cons. cbn. by rewrite IH. }
  rewrite Hl in H. cbn in H. lia.
Qed.

(** ** The transactions do what the document operations say *)

(** Firestore's merging write sets the leaves of [new] and keeps what else the
    maps around them hold; an update sets whole fields, or deletes them. *)
Fixpoint merge_value (old new : value) : value :=
  match new with
  | VMap (x :: l) =>
    VMap ((fix go l (acc : doc) := match l with
           | [] => acc
           | (k, v) :: l => go l (map_set acc k (merge_value (field acc k) v))
           end) (x :: l) (match old with VMap o => o | _ => [] end))
  | v => v
  end.
Definition apply_merge (d : doc) (ups : doc) : doc :=
  foldl (λ d p, map_set d p.1 (merge_value (field d p.1) p.2)) d ups.
Definition apply_update (d : doc) (ups : doc) : doc :=
  foldl (λ d p, match p.2 with VDelete => remove_key p.1 d | v => map_set d p.1 v end) d ups.

(** The document at [path], [d] before the trace, after its writes. *)
Fixpoint written (path : string) (d : doc) (t : trace seff) : doc :=
  match t with
  | [] => d
  | Ev op _ :: t =>
    let d' := written path d t in
    match op with
    | SDb op =>
      match op with
      | TxSet p ups true => if String.eqb p path then apply_merge d' ups else d'
      | TxSet p ups false => if String.eqb p path then ups else d'
      | Update p ups => if String.eqb p path then apply_update d' ups else d'
      | _ => d'
      end
    | SNow => d'
    end
  end.

Lemma remove_map_set k k' v d :
  k' ≠ k → remove_key k (map_set d k' v) = map_set (remove_key k d) k' v.
Proof.
  intros Hne. unfold remove_key. induction d as [|[k1 v1] d IH]; cbn.
  - by rewrite (proj2 (String.eqb_neq _ _) Hne).
  - destruct (String.eqb_spec k1 k') as [->|]; cbn.
    + rewrite (proj2 (String.eqb_neq _ _) Hne). cbn. by rewrite String.eqb_refl.
    + rewrite IH. destruct (String.eqb_spec k1 k); cbn; [done|].
      by rewrite (proj2 (String.eqb_neq k1 k')).
Qed.

(** What a run of a transaction's function adds to the trace. *)
Definition tx_adds {A} (t : trace seff) (x : A * world seff unit) (Q : A → trace seff → Prop) : Prop :=
  ∃ new, w_tr x.2 = new ++ t ∧ Q x.1 new.

Lemma update_adds (η : env seff) p ups d pre t (Q : result unit → trace seff → Prop) :
  written p d pre = d → (∀ e new, Q (inl e) new) →
  (∀ new, written p d new = apply_update d ups → Q (inr tt) new) →
  tx_adds t (exec η (@SDb) (Update p ups) (World (pre ++ t) tt)) Q.
Proof.
  intros Hp He Ho. rewrite exec_run. cbn. eexists (_ :: pre). split; [done|]. cbn.
  destruct (η _ _ _); [done|]. apply Ho. cbn. by rewrite String.eqb_refl, Hp.
Qed.

(** C21. The transactions of Acquire and Finish implement the operations on the
    token document that exclusivity is proved of. On a document [d], Acquire
    answers whether the document operation claims the lease at the time it
    read, and its writes are that operation's; Finish fails without writing
    when it does not own the lease, and when it succeeds its writes are those
    of the finished document. *)
Theorem firestore_refines (η : env seff) claim r d t :
  (∀ t, η _ t (SDb (TxGet (tokens_ref (UID claim)))) = inr d) →
  tx_adds t (acquire_tx η claim (World t tt)) (λ a new,
    match a with
    | inl _ => True
    | inr b => ∃ now, (token_matches d (Provider_ claim) (Token claim) = true → Ev SNow now ∈ new) ∧
                 acquire_doc claim now d = (b, written (tokens_ref (UID claim)) d new)
    end) ∧
  tx_adds t (finish_tx η claim r (World t tt)) (λ a new,
    match a with
    | inl _ => owns d claim = false → written (tokens_ref (UID claim)) d new = d
    | inr _ => owns d claim = true ∧ written (tokens_ref (UID claim)) d new = finish_doc claim r d
    end).
Proof.
  intros Hd. split.
  - unfold acquire_tx, bindE, db_. rewrite M_bind_run. cbn. rewrite Hd. unfold acquire_doc, claimable.
    destruct (token_matches d _ _) eqn:Em; cbn.
    2:{ eexists [_]. split; [done|]. by exists 0. }
    rewrite M_bind_run. cbn. set (now := η _ _ SNow).
    destruct (lease_live d (Provider_ claim) now) eqn:El; cbn.
    { eexists [_; _]. split; [done|]. exists now. rewrite El. split; [intros _; apply list_elem_of_here|done]. }
    rewrite M_bind_run, exec_run. cbn. destruct (η (option error) _ _) as [e|];
      (eexists [_; _; _]; split; [done|]); cbn; [done|].
    exists now. rewrite El. split; [intros _; apply list_elem_of_further, list_elem_of_here|].
    by rewrite String.eqb_refl.
  - unfold finish_tx, bindE, db_. rewrite M_bind_run. cbn. rewrite Hd.
    destruct (owns d claim) eqn:Eo; cbn; [|eexists [_]; by split].
    pose proof (λ ups, update_adds η (tokens_ref (UID claim)) ups d) as Hu.
    set (Q := λ (a : result unit) (new : trace seff), match a with inl _ => _ | inr _ => _ end).
    assert (He : ∀ e new, Q (inl e) new) by done.
    destruct (token_matches d _ _) eqn:Em; cbn.
    2:{ apply (Hu _ [_] t); [done..|]. intros new Hn. split; [done|]. rewrite Hn. unfold finish_doc. by rewrite Em. }
    destruct (Revoked r) eqn:Er; cbn.
    2:{ apply (Hu _ [_] t); [done..|]. intros new Hn. split; [done|]. rewrite Hn. unfold finish_doc. rewrite Em, Er.
        by destruct (negb _). }
    set (ups := (_, _) :: _ ++ _).
    assert (Hr : apply_update d ups = finish_doc claim r d).
    { unfold finish_doc, ups. rewrite Em, Er. by destruct (negb _). }
    rewrite M_bind_run. cbn. destruct (η _ _ _) as [e|prof]; cbn; [case_decide|].
    + apply (Hu _ [_; _] t); [done..|]. intros new Hn. split; [done|]. by rewrite Hn.
    + by eexists [_; _].
    + rewrite M_bind_run, exec_run. cbn. destruct (η (option error) _ _) as [e|]; cbn; [by eexists [_; _; _]|].
      apply (Hu _ [_; _; _] t); [done..|]. intros new Hn. split; [done|]. by rewrite Hn.
Qed.

(** The witness: a replica that finds the expired lease of another. *)
Definition stale_doc : doc :=
  [("twitch", VString "tok"); ("_refresh_twitch", VMap [("owner", VString "b"); ("until", VTime 1)])].
Definition store_env : env seff := λ A t op,
  match op in seff A return A with
  | @SDb A op => match op in db A return A with
    | Get _ | TxGet _ => inr stale_doc
    | Query _ _ _ => inr []
    | _ => None
    end
  | SNow => 1000 * second
  end.

Lemma firestore_refines_witness :
  let claim := MkLease "u" "twitch" "tok" "a" (1060 * second) in
  tx_adds [] (acquire_tx store_env claim (World [] tt)) (λ a new,
    match a with
    | inl _ => True
    | inr b => ∃ now, (token_matches stale_doc (Provider_ claim) (Token claim) = true → Ev SNow now ∈ new) ∧
                 acquire_doc claim now stale_doc = (b, written (tokens_ref (UID claim)) stale_doc new)
    end) ∧
  (acquire_tx store_env claim (World [] tt)).1 = inr true.
Proof.
  intros claim. split; [|vm_compute; reflexivity].
  apply (firestore_refines store_env claim (MkRefreshResult "" false) stale_doc []). reflexivity.
Defined.

(** ** The lease of one provider's grant *)

Section Grant.
Context (p : string).

Definition grant_holder (d : doc) : option (string * time) :=
  match field (lease_map d p) "owner", field (lease_map d p) "until" with
  | VString o, VTime u => Some (o, u)
  | _, _ => None
  end.

Definition claim_of (token owner : string) (until : time) : Lease := MkLease "" p token owner until.

Definition grant_acquire (token owner : string) (now until : time) (d : doc) : option doc :=
  let '(acquired, d') := acquire_doc (claim_of token owner until) now d in
  if acquired then Some d' else None.

Definition grant_release (owner : string) (d : doc) : doc :=
  if owns d (claim_of "" owner zero_time) then remove_key (lease_key p) d else d.

(** The lease is absent or what Acquire writes. *)
Definition lease_formed (d : doc) : bool :=
  match field (lease_map d p) "owner", field (lease_map d p) "until" with
  | VString _, VTime _ => true
  | _, VTime _ => false
  | _, _ => true
  end.

Lemma acquired_holder claim now d d' :
  Provider_ claim = p → acquire_doc claim now d = (true, d') →
  grant_holder d' = Some (Owner claim, Until claim) ∧ token_matches d p (Token claim) = true ∧
  ∀ o u, grant_holder d = Some (o, u) → u <= now.
Proof.
  intros Hp. unfold acquire_doc, claimable. rewrite Hp.
  destruct (token_matches d p (Token claim)) eqn:Et; [|done].
  destruct (lease_live d p now) eqn:El; [done|]. cbn [andb negb]. intros [= <-]. split_and!; [|done|].
  - unfold grant_holder, lease_map, claimed_map. rewrite field_map_set, String.eqb_refl. by rewrite !field_map_set.
  - unfold grant_holder, lease_live, time_before in *. intros o u.
    destruct (field (lease_map d p) "owner"); try done.
    destruct (field (lease_map d p) "until"); try done.
    intros [= <- <-]. destruct (Z.ltb_spec now t); [done|lia].
Qed.

#[export, refine] Instance token_leasing : Leasing doc string := {|
  holder := grant_holder;
  try_acquire := grant_acquire;
  do_release := grant_release;
  admits token d := token_matches d p token && lease_formed d
|}.
Proof.
  - unfold grant_acquire. intros token o now u d d'.
    destruct (acquire_doc _ _ _) as [b d1] eqn:E. destruct b; [|done]. intros [= <-].
    destruct (acquired_holder (claim_of token o u) now d d1 eq_refl E) as (H1 & _ & H2). split; [|done].
    intros o' u' H. right. by eapply H2.
  - unfold grant_acquire, acquire_doc, claimable. intros token o now u d Hadm H. cbn.
    apply andb_true_iff in Hadm as [-> Hf]. unfold lease_live, lease_formed, time_before in *.
    unfold grant_holder in H. destruct (field (lease_map d p) "until"); try by eexists.
    destruct (field (lease_map d p) "owner"); try done.
    specialize (H _ _ eq_refl). destruct (Z.ltb_spec now t); [lia|]. by eexists.
  - unfold grant_release, grant_holder, owns. cbn. intros o d o' u' H Hne.
    destruct (field (lease_map d p) "owner") as [| | | |s| | | | | |] eqn:Eo; try done.
    destruct (field (lease_map d p) "until") as [| | | | |u| | | | |] eqn:Eu; try done.
    injection H as <- <-. destruct (String.eqb_spec s o); [congruence|]. by rewrite Eo, Eu.
Defined.

Lemma finish_keeps_others claim r d :
  Provider_ claim = p → owns d claim = true → keeps_others (Owner claim) d (finish_doc claim r d).
Proof.
  intros Hp Ho o' u' H Hne. exfalso. unfold owns in Ho. cbn in H. unfold grant_holder in H.
  rewrite Hp in Ho. destruct (field (lease_map d p) "owner") as [| | | |s| | | | | |]; try done.
  destruct (field (lease_map d p) "until") as [| | | | |u| | | | |]; try done.
  apply String.eqb_eq in Ho. injection H as <- <-. congruence.
Qed.

Lemma finish_released claim r d :
  Provider_ claim = p → grant_holder (finish_doc claim r d) = None.
Proof.
  intros Hp. unfold finish_doc. rewrite Hp.
  assert (∀ d, field d (lease_key p) = VNull → grant_holder d = None) as Hn.
  { intros d0 H. unfold grant_holder, lease_map. by rewrite H. }
  pose proof (lease_key_ne p) as Hk. apply Hn.
  destruct (token_matches d p (Token claim)); [|by rewrite field_remove, String.eqb_refl].
  destruct (negb _), (Revoked r);
    rewrite ?field_remove, ?field_map_set, ?Hk, ?field_remove, ?String.eqb_refl; done.
Qed.
End Grant.

(** ** All replicas refreshing one grant *)

Definition refreshWorkBudget : duration := 30 * second.
Definition refreshLeaseDuration : duration := 60 * second.
Definition refreshLeaseSafety : duration := 30 * second.

Definition refreshLeaseExpiry (deadline : option time) (now : time) : time :=
  let until := now + refreshLeaseDuration in
  match deadline with
  | Some d => if time_after (d + refreshLeaseSafety) until then d + refreshLeaseSafety else until
  | None => until
  end.

Lemma refreshLeaseExpiry_covers d now : d + refreshLeaseSafety <= refreshLeaseExpiry (Some d) now.
Proof.
  unfold refreshLeaseExpiry, time_after.
  destruct (Z.ltb_spec (now + refreshLeaseDuration) (d + refreshLeaseSafety)); lia.
Qed.

(** The check after Acquire: the lease covers the work budget and its safety
    window, and is not about to expire. *)
Definition lease_usable (until deadline now : time) : bool :=
  negb (time_before until (deadline + refreshLeaseSafety) || (time_sub until now <=? refreshLeaseSafety)).

(** [rf_flight]: the replicas with a token request the provider may still act
    on, with the lease's expiry and the work's deadline. *)
Record refreshes := Refreshes {
  rf_now : time;
  rf_doc : doc;
  rf_flight : gmap string (time * time)
}.

Section System.
Context (p : string).

Inductive refresh_step : refreshes → refreshes → Prop :=
  (** A canceled request settles within the safety window. *)
  | refresh_tick s now :
      rf_now s <= now →
      (∀ o u deadline, rf_flight s !! o = Some (u, deadline) → now < deadline + refreshLeaseSafety) →
      refresh_step s (Refreshes now (rf_doc s) (rf_flight s))
  (** Acquire succeeded and AccessToken goes on to refresh. *)
  | refresh_start s claim seen deadline d' :
      Provider_ claim = p → seen <= rf_now s →
      Until claim = refreshLeaseExpiry (Some deadline) seen →
      acquire_doc claim seen (rf_doc s) = (true, d') →
      rf_now s <= deadline → lease_usable (Until claim) deadline (rf_now s) = true →
      rf_flight s !! Owner claim = None →
      refresh_step s (Refreshes (rf_now s) d' (<[Owner claim := (Until claim, deadline)]> (rf_flight s)))
  (** Acquire lands, but nothing is requested. *)
  | refresh_commit s claim seen deadline d' :
      Provider_ claim = p → seen <= rf_now s →
      Until claim = refreshLeaseExpiry (Some deadline) seen →
      acquire_doc claim seen (rf_doc s) = (true, d') →
      rf_flight s !! Owner claim = None →
      refresh_step s (Refreshes (rf_now s) d' (rf_flight s))
  (** The request ended: an error that keeps the lease, or a crash. *)
  | refresh_over s o :
      refresh_step s (Refreshes (rf_now s) (rf_doc s) (delete o (rf_flight s)))
  (** Finish commits, with the rotated token, a revocation or neither. *)
  | refresh_finish s claim r :
      Provider_ claim = p → owns (rf_doc s) claim = true → rf_flight s !! Owner claim = None →
      refresh_step s (Refreshes (rf_now s) (finish_doc claim r (rf_doc s)) (rf_flight s))
  (** An OAuth callback or the user replaces other fields of the document. *)
  | refresh_other s d' :
      field d' (lease_key p) = field (rf_doc s) (lease_key p) →
      refresh_step s (Refreshes (rf_now s) d' (rf_flight s)).

Inductive refreshes_reachable : refreshes → Prop :=
  | refreshes_init s : rf_flight s = ∅ → refreshes_reachable s
  | refreshes_next s s' : refreshes_reachable s → refresh_step s s' → refreshes_reachable s'.

(** The refreshes as guarded work: a request in flight ends before the end of
    its safety window. *)
Definition refreshes_abs (s : refreshes) : gstate doc :=
  GState (rf_now s) (rf_doc s)
    ((λ x : time * time, (x.1, x.2 + refreshLeaseSafety - 1)) <$> rf_flight s).

#[local] Existing Instance token_leasing.

Lemma refresh_simulation s s' :
  refresh_step s s' → gstep (Leasing0:=token_leasing p) (refreshes_abs s) (refreshes_abs s').
Proof.
  destruct 1 as [s now Hle Hend|s claim seen dl d' Hp Hs Hu Ha Hd Hus Hno|s claim seen dl d' Hp Hs Hu Ha Hno|s o
    |s claim r Hp Ho Hno|s d' Hf]; unfold refreshes_abs; cbn.
  - apply (gstep_tick (Leasing0:=token_leasing p) (refreshes_abs s)); [done|]. cbn. intros o u e.
    rewrite lookup_fmap_Some. intros ([u' dl] & [= <- <-] & Ho). specialize (Hend _ _ _ Ho). cbn. lia.
  - rewrite fmap_insert. cbn.
    eapply (gstep_acquire (Leasing0:=token_leasing p) (refreshes_abs s) (Token claim) (Owner claim) seen); cbn.
    + done.
    + unfold grant_acquire, acquire_doc, claimable in *. cbn in *. rewrite Hp in Ha.
      unfold claimed_map in *. cbn in *. rewrite Hp in Ha. destruct (_ && _); [by injection Ha as <-|done].
    + unfold refreshLeaseSafety, second. lia.
    + rewrite Hu. pose proof (refreshLeaseExpiry_covers dl seen). lia.
  - eapply (gstep_ghost (Leasing0:=token_leasing p) (refreshes_abs s) (Token claim) (Owner claim) seen (Until claim)); cbn.
    + done.
    + unfold grant_acquire, acquire_doc, claimable in *. cbn in *. rewrite Hp in Ha.
      unfold claimed_map in *. cbn in *. rewrite Hp in Ha. destruct (_ && _); [by injection Ha as <-|done].
    + intros u e. rewrite lookup_fmap, Hno. done.
  - rewrite fmap_delete. apply (gstep_end (Leasing0:=token_leasing p) (refreshes_abs s)). by intros o1 u1 H1 _.
  - pose proof (gstep_end (Leasing0:=token_leasing p) (refreshes_abs s) (Owner claim) _
      (finish_keeps_others p claim r (rf_doc s) Hp Ho)) as H.
    unfold refreshes_abs in H. cbn in H. rewrite delete_id in H; [exact H|]. by rewrite lookup_fmap, Hno.
  - apply (gstep_other (Leasing0:=token_leasing p) (refreshes_abs s)). cbn. unfold grant_holder, lease_map. by rewrite Hf.
Qed.

Lemma refreshes_guarded s : refreshes_reachable s → greachable (Leasing0:=token_leasing p) (refreshes_abs s).
Proof.
  induction 1 as [s Hi|s s' _ IH Hstep].
  - apply greach_init. cbn. by rewrite Hi, fmap_empty.
  - eapply greach_step; [exact IH|]. by apply refresh_simulation.
Qed.
End System.

(** C19. At most one replica has a rotation of a grant's refresh token in flight,
    for any interleaving of acquisitions, lost answers, finishes, crashes and
    OAuth callbacks, as long as a canceled request settles within the safety
    window of 30 seconds: the lease in the document is the one it was granted,
    and outlasts that window. *)
Theorem refresh_exclusive p s o1 o2 x1 x2 :
  refreshes_reachable p s → rf_flight s !! o1 = Some x1 → rf_flight s !! o2 = Some x2 →
  o1 = o2 ∧ rf_now s < x1.2 + refreshLeaseSafety <= x1.1 ∧
  ∃ u, grant_holder p (rf_doc s) = Some (o1, u) ∧ x1.1 <= u.
Proof.
  intros Hr H1 H2. pose proof (refreshes_guarded p s Hr) as Hg.
  assert (∀ o x, rf_flight s !! o = Some x →
    g_work (refreshes_abs s) !! o = Some (x.1, x.2 + refreshLeaseSafety - 1)) as Hw.
  { intros o x Ho. cbn. rewrite lookup_fmap_Some. by exists x. }
  split.
  - exact (greachable_exclusive (Leasing0:=token_leasing p) _ _ _ _ _ Hg (Hw _ _ H1) (Hw _ _ H2)).
  - destruct (greachable_guarded (Leasing0:=token_leasing p) _ Hg _ _ _ (Hw _ _ H1)) as (Hn & He & u & Hu & Hle).
    cbn in Hn, Hu. split; [lia|]. by exists u.
Qed.

(** A refresh in progress, after its replica's claim. *)
Definition claim_a : Lease :=
  MkLease "u" "twitch" "tok" "a" (refreshLeaseExpiry (Some (1030 * second)) (1000 * second)).
Definition grant_doc : doc := [("twitch", VString "tok")].

Lemma refresh_exclusive_witness :
  ∃ s x, refreshes_reachable "twitch" s ∧ rf_flight s !! "a" = Some x ∧
    ("a" = "a" ∧ rf_now s < x.2 + refreshLeaseSafety <= x.1 ∧
     ∃ u, grant_holder "twitch" (rf_doc s) = Some ("a", u) ∧ x.1 <= u).
Proof.
  assert (R : refreshes_reachable "twitch" (Refreshes (1000 * second)
    (acquire_doc claim_a (1000 * second) grant_doc).2
    (<["a" := (Until claim_a, 1030 * second)]> ∅))).
  { eapply refreshes_next; [by apply (refreshes_init "twitch" (Refreshes (1000 * second) grant_doc ∅))|].
    apply (refresh_start "twitch" (Refreshes (1000 * second) grant_doc ∅) claim_a (1000 * second) (1030 * second));
      [reflexivity|cbn; lia|reflexivity|vm_compute; reflexivity|cbn; unfold second; lia|vm_compute; reflexivity|reflexivity]. }
  eexists _, _. split; [exact R|]. split; [apply lookup_insert_eq|].
  eapply (refresh_exclusive "twitch" _ "a" "a"); [exact R|apply lookup_insert_eq..].
Defined.

(** ** The service *)

Record Credentials_ := MkCredentials { ClientID : string; ClientSecret : string }.

Record providerConfig := ProviderConfig {
  endpoint : string;
  secretPrefix : string;
  clientID : string;
  appToken : bool
}.

Definition TwitchClientID : string := "edfnh2q85za8phifif9jxt3ey6t9b9".

Definition providers (p : string) : option providerConfig :=
  if String.eqb p "twitch" then
    Some (ProviderConfig "https://id.twitch.tv/oauth2/token" "twitch-client" TwitchClientID true)
  else if String.eqb p "kick" then
    Some (ProviderConfig "https://id.kick.com/oauth/token" "kick-client" "" true)
  else if String.eqb p "youtube" then
    Some (ProviderConfig "https://oauth2.googleapis.com/token" "youtube-oauth-client" "" false)
  else if String.eqb p "streamlabs" then
    Some (ProviderConfig "https://www.streamlabs.com/api/v1.0/token" "streamlabs-client" "" false)
  else if String.eqb p "streamelements" then
    Some (ProviderConfig "https://api.streamelements.com/oauth2/token" "streamelements-client" "" false)
  else None.

Definition decodeToken (encoded : string) : option doc :=
  match parse_json encoded with
  | Some (JObj l) => decode_entries [] l
  | _ => None
  end.
Definition tokenString (token : doc) (key : string) : string :=
  match field token key with VString s => s | _ => "" end.

(** [valid]: the clock is read only for an expiry that parses. *)
Definition valid_at (token : doc) (now : time) : bool :=
  if String.eqb (tokenString token "access_token") "" then false
  else if String.eqb (tokenString token "expires_at") "" then true
  else match parse_rfc3339 (tokenString token "expires_at") with
       | None => false
       | Some t => 300 * second <? time_sub t now
       end.

(** What golang.org/x/oauth2 answers: a token, a RetrieveError with its status
    and body, or another error. *)
Record oauth_token := OauthToken {
  AccessToken_ : string;
  RefreshToken_ : string;
  Expiry : time;
  Extra : doc
}.
Inductive oauth_answer := OToken (t : oauth_token) | ORetrieve (status : Z) (body : string) | OOther.

Inductive peff : Type → Type :=
  | PSecret (name : string) : peff (result string)
  | POauth (p : string) (c : Credentials_) (refresh : string) : peff oauth_answer
  | PLoad (ctx : time) (uid p : string) : peff (result string)
  | PAcquire (ctx : time) (l : Lease) : peff (result bool)
  | PFinish (l : Lease) (r : RefreshResult) : peff (option error)
  | PNow : peff time
  | PParent : peff (option time)                  (* the Deadline() of the caller's context *)
  | PCtx (ctx : time) : peff (option error)       (* its Err() *)
  | PPause (ctx : time) : peff (option error)     (* 100 ms, or its Done() *)
  | PNewID : peff string.

(** The deadline of [context.WithTimeout]: never after the parent's. The
    effects above name the context they run under by it. *)
Definition with_timeout (parent : option time) (now : time) (timeout : duration) : time :=
  match parent with
  | Some d => if time_before d (now + timeout) then d else now + timeout
  | None => now + timeout
  end.

Record provider_state := ProviderState {
  ps_credentials : gmap string Credentials_;
  ps_app : gmap string doc
}.

(** A revoked grant, from the answer's status and body. *)
Definition revoked_answer (status : Z) (body : string) : bool :=
  let d := default [] (decodeToken body) in
  ((status =? 400) || (status =? 401)) &&
  (String.eqb (tokenString d "error") "invalid_grant" ||
   String.eqb (tokenString d "message") "Invalid refresh token").

Definition extra_fields (t : oauth_token) : doc :=
  concat (map (λ k, if is_nil (field (Extra t) k) then [] else [(k, field (Extra t) k)])
              ["scope"; "token_type"; "expires_in"]).

(** The token as it is stored. *)
Definition stored_token (t : oauth_token) : doc :=
  [("access_token", VString (AccessToken_ t)); ("refresh_token", VString (RefreshToken_ t))] ++
  extra_fields t ++
  (if time_is_zero (Expiry t) then [] else [("expires_at", VString (format_rfc3339nano (Expiry t)))]).

(** [previous] with the fields of [result]; an expiry does not outlive its
    token. *)
Definition merge_token (previous result : doc) : doc :=
  let d := foldl (λ d p, map_set d p.1 p.2) previous result in
  if is_nil (field result "expires_at") then remove_key "expires_at" d else d.

Section Service.
Context (η : env peff).
Local Abbreviation M := (M (world peff provider_state)).

Definition Credentials (p : string) : M (result Credentials_) :=
  match providers p with
  | None => throw (ErrMsg "unknown provider")
  | Some config =>
    s ← get_st;
    match ps_credentials s !! p with
    | Some c => ok c
    | None =>
      id ←? (if String.eqb (clientID config) "" then ask η (PSecret (secretPrefix config +:+ "-id"))
             else ok (clientID config));
      secret ←? ask η (PSecret (secretPrefix config +:+ "-secret"));
      if String.eqb id "" || String.eqb secret "" then throw (ErrMsg "missing provider credentials")
      else
        let c := MkCredentials id secret in
        modify_st (λ s, ProviderState (<[p := c]> (ps_credentials s)) (ps_app s));;
        ok c
    end
  end.

Definition valid (token : doc) : M bool :=
  if String.eqb (tokenString token "access_token") "" then mret false
  else if String.eqb (tokenString token "expires_at") "" then mret true
  else match parse_rfc3339 (tokenString token "expires_at") with
       | None => mret false
       | Some _ => now ← ask η PNow; mret (valid_at token now)
       end.

(** The result, or whether the grant was revoked and the error. *)
Definition requestToken (p refresh : string) : M (doc + bool * error) :=
  c ← Credentials p;
  match c with
  | inl e => mret (inr (false, e))
  | inr c =>
    a ← ask η (POauth p c refresh);
    match a with
    | ORetrieve status body => mret (inr (revoked_answer status body, ErrMsg "provider token request returned HTTP"))
    | OOther => mret (inr (false, ErrMsg "provider token request failed"))
    | OToken t =>
      if time_is_zero (Expiry t) then mret (inl (stored_token t))
      else
        now ← ask η PNow;
        if time_sub (Expiry t) now <=? 5 * minute
        then mret (inr (false, ErrMsg "provider token expiry too short"))
        else mret (inl (stored_token t))
    end
  end.

Definition refresh (p : string) (previous : doc) : M (doc + bool * error) :=
  if String.eqb (tokenString previous "refresh_token") "" then mret (inr (false, ErrNoToken))
  else
    r ← requestToken p (tokenString previous "refresh_token");
    mret (match r with
          | inl result => inl (merge_token previous result)
          | inr e => inr e
          end).

Definition release (l : Lease) (revoked : bool) : M (option error) :=
  ask η (PFinish l (MkRefreshResult "" revoked)).

(** After a granted Acquire: [inl None] to read the token again, or what
    AccessToken returns. *)
Definition refresh_owned (p : string) (l : Lease) (ctx : time) (token : doc) : M (option error) :=
  e ← ask η (PCtx ctx);
  match e with
  | Some e => release l false;; mret (Some e)
  | None =>
    now ← ask η PNow;
    if negb (lease_usable (Until l) ctx now) then release l false;; mret (Some ErrRefreshBusy)
    else
      r ← refresh p token;
      match r with
      | inr (revoked, e) =>
        if (revoked : bool) then
          f ← release l true;
          mret (Some (match f with Some f => f | None => ErrNoToken end))
        else if is_no_token e then release l false;; mret (Some e)
        else mret (Some e)
      | inl refreshed => ask η (PFinish l (MkRefreshResult (marshal_map refreshed) false))
      end
  end.

(** The loop of AccessToken; [None] when the fuel runs out. *)
Fixpoint access_loop (fuel : nat) (uid p : string) (ctx : time) : M (option (result string)) :=
  match fuel with
  | O => mret None
  | S fuel =>
    encoded ← ask η (PLoad ctx uid p);
    match encoded with
    | inl e => mret (Some (inl e))
    | inr encoded =>
      match decodeToken encoded with
      | None => mret (Some (inl (ErrMsg "invalid stored provider token")))
      | Some token =>
        ok_ ← valid token;
        if (ok_ : bool) then mret (Some (inr (tokenString token "access_token")))
        else
          owner ← ask η PNewID;
          now ← ask η PNow;
          let l := MkLease uid p encoded owner (refreshLeaseExpiry (Some ctx) now) in
          acquired ← ask η (PAcquire ctx l);
          match acquired with
          | inl e => mret (Some (inl e))
          | inr false =>
            e ← ask η (PPause ctx);
            match e with
            | Some e => mret (Some (inl e))
            | None => access_loop fuel uid p ctx
            end
          | inr true =>
            e ← refresh_owned p l ctx token;
            match e with
            | Some e => mret (Some (inl e))
            | None => access_loop fuel uid p ctx
            end
          end
      end
    end
  end.

Definition AccessToken (fuel : nat) (uid p : string) : M (option (result string)) :=
  match providers p with
  | None => mret (Some (inl (ErrMsg "unknown provider")))
  | Some _ =>
    if String.eqb uid "" || contains_char uid "/"%char then mret (Some (inl ErrNoToken))
    else
      now ← ask η PNow;
      parent ← ask η PParent;
      access_loop fuel uid p (with_timeout parent now refreshWorkBudget)
  end.

Definition AppAccessToken (p : string) : M (result string) :=
  match providers p with
  | Some config =>
    if negb (appToken config) then throw (ErrMsg "provider has no app token")
    else
      s ← get_st;
      let token := default [] (ps_app s !! p) in
      ok_ ← valid token;
      if (ok_ : bool) then ok (tokenString token "access_token")
      else
        r ← requestToken p "";
        match r with
        | inr (_, e) => throw e
        | inl result =>
          modify_st (λ s, ProviderState (ps_credentials s) (<[p := result]> (ps_app s)));;
          ok (tokenString result "access_token")
        end
  | None => throw (ErrMsg "provider has no app token")
  end.
End Service.

(** ** The discipline of a refresh *)

Definition is_oauth (e : ev peff) : bool :=
  match e with Ev op _ => match op with POauth _ _ _ => true | _ => false end end.

(** The work's deadline is 30 seconds after its start, or the caller's if that
    comes first. *)
Definition budgeted (ctx : time) (t : trace peff) : Prop :=
  ∃ now parent, Ev PNow now ∈ t ∧ Ev PParent parent ∈ t ∧ ctx = with_timeout parent now refreshWorkBudget.

(** The lease was granted; [F] since. *)
Definition granted (ctx : time) (l : Lease) : (trace peff → Prop) → trace peff → Prop :=
  since (Ev (PAcquire ctx l) (inr true)).

(** The provider was not asked. *)
Definition unasked (u : trace peff) : Prop := ∀ e, e ∈ u → is_oauth e = false.

(** The work was found not to be canceled, and the lease to cover the rest of
    it by a clock reading. *)
Definition covered (ctx : time) (l : Lease) (u : trace peff) : Prop :=
  Ev (PCtx ctx) None ∈ u ∧ ∃ now, Ev PNow now ∈ u ∧ lease_usable (Until l) ctx now = true.

Definition asked (l : Lease) (token : doc) (a : oauth_answer) (u : trace peff) : Prop :=
  ∃ c, Ev (POauth (Provider_ l) c (tokenString token "refresh_token")) a ∈ u.

(** What a lease may be given back with, after what happened under it. *)
Definition settled (l : Lease) (token : doc) (r : RefreshResult) (u : trace peff) : Prop :=
  (* nothing was asked: the lease is only released *)
  (NewToken r = "" ∧ Revoked r = false ∧ unasked u) ∨
  (* the provider said that the grant is revoked *)
  (NewToken r = "" ∧ Revoked r = true ∧ ∃ s b, asked l token (ORetrieve s b) u ∧ revoked_answer s b = true) ∨
  (* the provider rotated the grant *)
  (Revoked r = false ∧ ∃ tk, asked l token (OToken tk) u ∧
     NewToken r = marshal_map (merge_token token (stored_token tk))).

Definition refresh_ok (t : trace peff) (e : ev peff) : Prop :=
  match e with
  | Ev op _ =>
    match op with
    (* a rotation: under a usable lease on the very token that is sent *)
    | POauth p c r =>
      ∃ ctx l token, Provider_ l = p ∧ decodeToken (Token l) = Some token ∧
        r = tokenString token "refresh_token" ∧ r ≠ "" ∧ budgeted ctx t ∧
        granted ctx l (λ u, unasked u ∧ covered ctx l u) t
    | PFinish l r =>
      ∃ ctx token, decodeToken (Token l) = Some token ∧ granted ctx l (settled l token r) t
    | _ => True
    end
  end.

(** What AccessToken may return: the access token of a stored token that was
    loaded, and that is good for five minutes by the clock or has no expiry. *)
Definition usable_token (uid p tok : string) (t : trace peff) : Prop :=
  tok ≠ "" ∧ ∃ ctx encoded token, Ev (PLoad ctx uid p) (inr encoded) ∈ t ∧ decodeToken encoded = Some token ∧
    tok = tokenString token "access_token" ∧
    (tokenString token "expires_at" = "" ∨
     ∃ expiry now, parse_rfc3339 (tokenString token "expires_at") = Some expiry ∧ Ev PNow now ∈ t ∧
       300 * second < time_sub expiry now).

(** A predicate that effects other than token requests keep. *)
Abbreviation quiet := (kept (λ e, is_oauth e = false)) (only parsing).

Lemma budgeted_stable ctx : stable (budgeted ctx).
Proof. unfold budgeted. auto 10 with effects. Qed.
Lemma asked_stable l k a : stable (asked l k a).
Proof. unfold asked. auto with effects. Qed.
Lemma covered_stable ctx l : stable (covered ctx l).
Proof. unfold covered. auto 10 with effects. Qed.
Lemma unasked_quiet : quiet unasked.
Proof. intros e t He Ht x [->|Hx]%elem_of_cons; [done|by apply Ht]. Qed.
Lemma granted_frame K ctx l : frame K (granted ctx l).
Proof. apply frame_since. Qed.

Section Proofs.
Context (η : env peff).
Local Abbreviation runs := (runs (S:=provider_state) refresh_ok).

Lemma runs_valid token F :
  quiet F → runs F (valid η token) (λ b t, F t ∧ (b = true → tokenString token "access_token" ≠ "" ∧
    (tokenString token "expires_at" = "" ∨
     ∃ expiry now, parse_rfc3339 (tokenString token "expires_at") = Some expiry ∧ Ev PNow now ∈ t ∧
       300 * second < time_sub expiry now))).
Proof.
  intros HF. unfold valid.
  destruct (String.eqb_spec (tokenString token "access_token") "") as [E1|E1]; [by apply runs_ret|].
  destruct (String.eqb_spec (tokenString token "expires_at") "") as [E2|E2].
  { apply runs_ret. intros t Ht. split; [done|]. intros _. split; [done|]. by left. }
  destruct (parse_rfc3339 _) as [ex|] eqn:E3; [|by apply runs_ret].
  apply runs_ask_bind with (λ now t, F t ∧ Ev PNow now ∈ t).
  { intros t now Ht. split_and!; [done|by apply HF|apply list_elem_of_here]. }
  intros now. apply runs_ret. intros t [Ht Hn]. split; [done|].
  unfold valid_at. apply String.eqb_neq in E1, E2. rewrite E1, E2, E3. intros Hlt%Z.ltb_lt.
  split; [by apply String.eqb_neq|]. right. by exists ex, now.
Qed.

Lemma runs_Credentials p F : quiet F → runs F (Credentials η p) (λ _ t, F t).
Proof.
  intros HF. unfold Credentials. destruct (providers p) as [cf|]; [|by apply runs_ret].
  apply runs_bind with (λ _ t, F t); [apply runs_get_st|]. intros s.
  destruct (ps_credentials s !! p); [by apply runs_ret|].
  assert (∀ name, runs F (ask η (PSecret name)) (λ _ t, F t)) as Hs.
  { intros name. apply runs_ask. intros t Ht. split; [done|by apply HF]. }
  apply runs_bindE with (λ _ t, F t); [destruct (String.eqb _ _); [apply Hs|by apply runs_ret]|done|].
  intros id. apply runs_bindE with (λ _ t, F t); [apply Hs|done|]. intros secret.
  destruct (_ || _); [by apply runs_ret|].
  apply runs_bind with (λ _ t, F t); [apply runs_modify_st|]. intros ?. by apply runs_ret.
Qed.

Definition refreshed (l : Lease) (token : doc) (r : doc + bool * error) (u : trace peff) : Prop :=
  match r with
  | inl d => ∃ tk, asked l token (OToken tk) u ∧ d = merge_token token (stored_token tk)
  | inr (true, _) => ∃ s b, asked l token (ORetrieve s b) u ∧ revoked_answer s b = true
  | inr (false, e) => is_no_token e = true → unasked u
  end.

(** What the token request says. *)
Lemma runs_requestToken ctx l token :
  decodeToken (Token l) = Some token → tokenString token "refresh_token" ≠ "" →
  runs (λ t, budgeted ctx t ∧ granted ctx l (λ u, unasked u ∧ covered ctx l u) t)
    (requestToken η (Provider_ l) (tokenString token "refresh_token"))
    (λ r t, budgeted ctx t ∧ granted ctx l (λ u, match r with
       | inl d => ∃ tk, asked l token (OToken tk) u ∧ d = stored_token tk
       | inr x => refreshed l token (inr x) u end) t).
Proof.
  intros Hd Hr. pose proof (granted_frame (λ _, True) ctx l) as HX.
  set (F t := budgeted ctx t ∧ granted ctx l (λ u, unasked u ∧ covered ctx l u) t).
  assert (quiet F) as HF.
  { apply kept_and; [apply stable_kept, budgeted_stable|]. apply frame_kept; [apply granted_frame|].
    apply kept_and; [apply unasked_quiet|apply stable_kept, covered_stable]. }
  unfold requestToken. apply runs_bind with (λ _ t, F t); [by apply runs_Credentials|].
  intros [e|c].
  { apply runs_ret. intros t [Hb Hg]. split; [done|]. eapply (frame_mono _ _ HX); [|exact Hg]. by intros u [Hu _] _. }
  apply runs_ask_bind with (λ a t, budgeted ctx t ∧ granted ctx l (asked l token a) t).
  { intros t a [Hb Hg]. split; [by exists ctx, l, token|]. split; [by apply budgeted_stable|].
    eapply (frame_next _ _ HX); [done| |exact Hg]. intros u _. exists c. apply list_elem_of_here. }
  assert (∀ a, stable (λ t, budgeted ctx t ∧ granted ctx l (asked l token a) t)) as Ha.
  { intros a. apply stable_and; [apply budgeted_stable|]. intros e t. apply (frame_kept _ _ _ HX); [|done].
    apply stable_kept, asked_stable. }
  intros [tk|st b|].
  - destruct (time_is_zero (Expiry tk)).
    { apply runs_ret. intros t [Hb Hg]. split; [done|]. eapply (frame_mono _ _ HX); [|exact Hg]. intros u Hu. by exists tk. }
    apply runs_ask_bind with (λ _ t, budgeted ctx t ∧ granted ctx l (asked l token (OToken tk)) t).
    { intros t a Ht. split; [done|by apply Ha]. }
    intros now. destruct (_ <=? _); apply runs_ret; intros t [Hb Hg]; (split; [done|]);
      (eapply (frame_mono _ _ HX); [|exact Hg]); intros u Hu; [by intros ?|by exists tk].
  - apply runs_ret. intros t [Hb Hg]. split; [done|]. eapply (frame_mono _ _ HX); [|exact Hg]. intros u Hu.
    unfold refreshed. destruct (revoked_answer st b) eqn:E; [by exists st, b|by intros ?].
  - apply runs_ret. intros t [Hb Hg]. split; [done|]. eapply (frame_mono _ _ HX); [|exact Hg]. by intros u _ ?.
Qed.

Lemma runs_refresh ctx l token :
  decodeToken (Token l) = Some token →
  runs (λ t, budgeted ctx t ∧ granted ctx l (λ u, unasked u ∧ covered ctx l u) t) (refresh η (Provider_ l) token)
    (λ r t, budgeted ctx t ∧ granted ctx l (refreshed l token r) t).
Proof.
  intros Hd. pose proof (granted_frame (λ _, True) ctx l) as HX.
  unfold refresh. destruct (String.eqb_spec (tokenString token "refresh_token") "") as [|Hr].
  { apply runs_ret. intros t [Hb Hg]. split; [done|]. eapply (frame_mono _ _ HX); [|exact Hg]. by intros u [Hu _] _. }
  eapply runs_bind; [by apply runs_requestToken|]. intros [d|x]; apply runs_ret; [|done].
  intros t [Hb Hg]. split; [done|]. eapply (frame_mono _ _ HX); [|exact Hg]. intros u (tk & Ha & ->). by exists tk.
Qed.

(** Giving the lease back. *)
Lemma runs_settle ctx l token r (F : trace peff → Prop) :
  decodeToken (Token l) = Some token →
  (∀ t, F t → budgeted ctx t ∧ granted ctx l (settled l token r) t) →
  runs F (ask η (PFinish l r)) (λ _ t, budgeted ctx t).
Proof.
  intros Hd HF. apply runs_ask. intros t Ht. destruct (HF t Ht) as (Hb & Hg).
  split; [by exists ctx, token|by apply budgeted_stable].
Qed.

Lemma runs_refresh_owned ctx l token :
  decodeToken (Token l) = Some token →
  runs (λ t, budgeted ctx t ∧ granted ctx l unasked t) (refresh_owned η (Provider_ l) l ctx token)
    (λ _ t, budgeted ctx t).
Proof.
  intros Hd. pose proof (granted_frame (λ _, True) ctx l) as HX.
  pose proof (granted_frame (λ e, is_oauth e = false) ctx l) as HQ.
  assert (Hrel : ∀ b (F : trace peff → Prop) e,
    (∀ t, F t → budgeted ctx t ∧ granted ctx l (settled l token (MkRefreshResult "" b)) t) →
    runs F (release η l b ≫= λ _, mret (e : option error)) (λ _ t, budgeted ctx t)).
  { intros b F e HF. eapply runs_bind; [by eapply (runs_settle ctx l token)|]. intros ?. by apply runs_ret. }
  assert (Hnone : ∀ u, unasked u → settled l token (MkRefreshResult "" false) u) by (intros u Hu; by left).
  unfold refresh_owned.
  apply runs_ask_bind with (λ e t, budgeted ctx t ∧ granted ctx l (λ u, unasked u ∧ Ev (PCtx ctx) e ∈ u) t).
  { intros t a [Hb Hg]. split; [done|]. split; [by apply budgeted_stable|].
    eapply (frame_next _ _ HQ); [done| |exact Hg]. intros u Hu. split; [by apply unasked_quiet|apply list_elem_of_here]. }
  intros [e|].
  { apply Hrel. intros t [Hb Hg]. split; [done|]. eapply (frame_mono _ _ HX); [|exact Hg]. intros u [Hu _]. by apply Hnone. }
  apply runs_ask_bind with (λ now t, budgeted ctx t ∧
    granted ctx l (λ u, unasked u ∧ Ev (PCtx ctx) None ∈ u ∧ Ev PNow now ∈ u) t).
  { intros t a [Hb Hg]. split; [done|]. split; [by apply budgeted_stable|].
    eapply (frame_next _ _ HQ); [done| |exact Hg]. intros u [Hu Hc].
    split_and!; [by apply unasked_quiet|by apply list_elem_of_further|apply list_elem_of_here]. }
  intros now. destruct (lease_usable (Until l) ctx now) eqn:Eu; cbn [negb].
  2:{ apply Hrel. intros t [Hb Hg]. split; [done|]. eapply (frame_mono _ _ HX); [|exact Hg]. intros u [Hu _]. by apply Hnone. }
  apply runs_bind with (λ r t, budgeted ctx t ∧ granted ctx l (refreshed l token r) t).
  { eapply runs_conseq; [by apply (runs_refresh ctx l token)| |done]. intros t [Hb Hg]. split; [done|].
    eapply (frame_mono _ _ HX); [|exact Hg]. intros u (Hu & Hc & Hn). split; [done|]. split; [done|]. by exists now. }
  intros [d|[[|] e]].
  - eapply (runs_settle ctx l token); [done|]. intros t [Hb Hg]. split; [done|].
    eapply (frame_mono _ _ HX); [|exact Hg]. intros u (tk & Ha & ->). right; right. split; [done|]. by exists tk.
  - eapply runs_bind; [apply (runs_settle ctx l token); [done|]|intros ?; by apply runs_ret].
    intros t [Hb Hg]. split; [done|]. eapply (frame_mono _ _ HX); [|exact Hg]. intros u Hu. right; left. by split_and!.
  - destruct (is_no_token e) eqn:En; [|apply runs_ret; by intros t [Hb _]].
    apply Hrel. intros t [Hb Hg]. split; [done|]. eapply (frame_mono _ _ HX); [|exact Hg]. intros u Hu. by apply Hnone, Hu.
Qed.

Lemma runs_access_loop fuel uid p ctx :
  runs (budgeted ctx) (access_loop η fuel uid p ctx)
    (λ r t, ∀ tok, r = Some (inr tok) → usable_token uid p tok t).
Proof.
  induction fuel as [|fuel IH]; cbn [access_loop]; [by apply runs_ret|].
  assert (∀ (F : trace peff → Prop) e, runs F (mret (Some (inl e) : option (result string)))
    (λ r t, ∀ tok, r = Some (inr tok) → usable_token uid p tok t)) as Hbad by (intros; by apply runs_ret).
  apply runs_ask_bind with (λ a t, budgeted ctx t ∧ Ev (PLoad ctx uid p) a ∈ t).
  { intros t a Ht. split_and!; [done|by apply budgeted_stable|apply list_elem_of_here]. }
  intros [e|encoded]; [apply Hbad|]. destruct (decodeToken encoded) as [token|] eqn:Ed; [|apply Hbad].
  set (F t := budgeted ctx t ∧ Ev (PLoad ctx uid p) (inr encoded) ∈ t).
  assert (stable F) as HF by (apply stable_and; [apply budgeted_stable|apply stable_event]).
  eapply runs_bind; [apply (runs_valid token F), stable_kept, HF|]. intros [|].
  { apply runs_ret. intros t ([Hdl Hl] & Hv) tok [= <-]. destruct (Hv eq_refl) as [Hne Hex].
    split; [done|]. exists ctx, encoded, token. by split_and!. }
  apply runs_ask_bind with (λ _ t, F t); [intros t a [Ht _]; split; [done|by apply HF]|]. intros owner.
  apply runs_ask_bind with (λ _ t, F t); [intros t a Ht; split; [done|by apply HF]|]. intros now.
  set (l := MkLease uid p encoded owner _).
  apply runs_ask_bind with (λ a t, F t ∧ (a = inr true → granted ctx l unasked t)).
  { intros t a Ht. split_and!; [done|by apply HF|]. intros ->. apply since_here. by intros e ?%elem_of_nil. }
  intros [e|[|]]; [apply Hbad| |].
  - apply runs_bind with (λ _, budgeted ctx).
    + eapply runs_conseq; [apply (runs_refresh_owned ctx l token Ed)| |done].
      intros t [[Hdl _] Hu]. auto.
    + intros [e|]; [apply Hbad|apply IH].
  - apply runs_ask_bind with (λ _, budgeted ctx).
    { intros t a [[Hdl _] _]. split; [done|by apply budgeted_stable]. }
    intros [e|]; [apply Hbad|apply IH].
Qed.

Lemma runs_AccessToken fuel uid p :
  runs (λ _, True) (AccessToken η fuel uid p)
    (λ r t, ∀ tok, r = Some (inr tok) → usable_token uid p tok t).
Proof.
  unfold AccessToken. destruct (providers p); [|by apply runs_ret].
  destruct (_ || _); [by apply runs_ret|].
  apply runs_ask_bind with (λ now t, Ev PNow now ∈ t); [intros t d _; split; [done|apply list_elem_of_here]|]. intros now.
  apply runs_ask_bind with (λ parent, budgeted (with_timeout parent now refreshWorkBudget)); [|intros; apply runs_access_loop].
  intros t parent Ht. split; [done|]. exists now, parent. split_and!; [by right|by left|done].
Qed.

Lemma grows_valid token : grows (S:=provider_state) (valid η token).
Proof. unfold valid. repeat grows_step. Qed.
Lemma grows_refresh_owned p l deadline token : grows (refresh_owned η p l deadline token).
Proof. unfold refresh_owned, refresh, requestToken, Credentials, throw, ok, release. repeat grows_step. Qed.
End Proofs.

(** C20. However the store, the provider, the clocks and the other replicas
    behave: AccessToken rotates a refresh token only under a lease granted on
    the very token that is sent, and only after it saw, since the grant, that
    its context is not canceled and, by a clock reading, that the lease covers
    the rest of its 30 s budget (or of the caller's deadline) with the safety
    window; and nothing was sent before under that lease. It gives a lease back
    only when, since the grant, the provider rotated the grant (with the rotated
    token merged into the stored one) or said that it is revoked, or nothing was
    sent. The access token it returns was loaded and has five minutes left by
    the clock or no expiry. *)
Theorem refresh_disciplined (η : env peff) fuel uid p s :
  let '(r, w) := AccessToken η fuel uid p (World [] s) in
  justified refresh_ok (w_tr w) ∧ ∀ tok, r = Some (inr tok) → usable_token uid p tok (w_tr w).
Proof.
  pose proof (runs_AccessToken η fuel uid p (World [] s)) as H.
  destruct (AccessToken η fuel uid p (World [] s)) as [r w]. apply H. by split.
Qed.

(** *** Termination *)

Definition is_load (e : ev peff) : bool :=
  match e with Ev op _ => match op with PLoad _ _ _ => true | _ => false end end.
Definition loads (t : trace peff) : nat := List.length (List.filter is_load t).

Lemma loads_suffix t t' : t `suffix_of` t' → (loads t <= loads t')%nat.
Proof. intros [l ->]. unfold loads. rewrite List.filter_app, length_app. lia. Qed.

(** How time passes: the clock of the trace does not run back, is what a
    reading says, and moves by [δ] at least during a load (a round trip to the
    store); a load whose context's deadline has passed fails. *)
Record timely (η : env peff) (clock : trace peff → time) (δ : duration) : Prop := Timely {
  timely_reading t : η _ t PNow = clock t;
  timely_forward e t : clock t <= clock (e :: t);
  timely_load ctx uid p a t : clock t + δ <= clock (Ev (PLoad ctx uid p) a :: t);
  timely_deadline ctx uid p t : ctx <= clock t → ∃ e, η _ t (PLoad ctx uid p) = inl e
}.

Lemma timely_suffix η clock δ t t' : timely η clock δ → t `suffix_of` t' → clock t <= clock t'.
Proof.
  intros H [l ->]. induction l as [|e l IH]; cbn; [done|]. etrans; [apply IH|apply (timely_forward _ _ _ H)].
Qed.

Lemma access_loop_returns (η : env peff) clock δ uid p ctx fuel (w : world peff provider_state) :
  timely η clock δ → 0 < δ → ctx <= clock (w_tr w) + Z.of_nat fuel * δ →
  (access_loop η (S fuel) uid p ctx w).1 ≠ None.
Proof.
  intros Hη Hδ. revert w. induction fuel as [|fuel IH]; intros w Hc.
  { cbn [access_loop]. rewrite M_bind_run. cbn. by destruct (timely_deadline _ _ _ Hη ctx uid p (w_tr w)) as [e ->]; [lia|]. }
  remember (S fuel) as n. cbn [access_loop]. subst n. rewrite M_bind_run.
  assert (∀ w' : world peff provider_state, w_tr (ask η (PLoad ctx uid p) w).2 `suffix_of` w_tr w' →
    ctx <= clock (w_tr w') + Z.of_nat fuel * δ) as Hw.
  { intros w' H%(timely_suffix _ _ _ _ _ Hη). cbn in H.
    pose proof (timely_load _ _ _ Hη ctx uid p (η _ (w_tr w) (PLoad ctx uid p)) (w_tr w)). lia. }
  clear Hc. destruct (ask η (PLoad ctx uid p) w) as [[e|encoded] w1]; [done|]. cbn [fst snd] in *.
  destruct (decodeToken encoded) as [token|]; [|done].
  rewrite M_bind_run. pose proof (grows_valid η token w1) as H1.
  destruct (valid η token w1) as [[|] w2]; [done|]. cbn [fst snd] in *.
  do 3 rewrite M_bind_run. set (l := MkLease _ _ _ _ _).
  pose proof (grows_ask (S:=provider_state) η (PAcquire ctx l)) as H2. unfold grows in H2.
  eassert (H3 : _ `suffix_of` _) by (etrans; [exact H1|]; etrans; [apply (grows_ask η PNewID w2)|];
    etrans; [apply (grows_ask η PNow)|]; apply H2).
  destruct (ask η (PAcquire ctx l) _) as [[e|[|]] w3]; [done| |]; cbn [fst snd] in H3 |- *.
  - rewrite M_bind_run. pose proof (grows_refresh_owned η p l ctx token w3) as H4.
    destruct (refresh_owned η p l ctx token w3) as [[e|] w4]; [done|].
    apply IH, Hw. by etrans.
  - rewrite M_bind_run. pose proof (grows_ask η (PPause ctx) w3) as H4.
    destruct (ask η (PPause ctx) w3) as [[e|] w4]; [done|]. apply IH, Hw. by etrans.
Qed.

(** C22. AccessToken returns within its budget, also when the caller has no
    deadline: where a load takes at least [δ] and fails once its context's
    deadline has passed, the loop takes at most one turn more than the loads
    that fit into the work budget of 30 seconds. *)
Theorem access_terminates (η : env peff) clock δ n uid p s :
  timely η clock δ → 0 < δ → refreshWorkBudget <= Z.of_nat n * δ →
  (AccessToken η (S n) uid p (World [] s)).1 ≠ None.
Proof.
  intros Hη Hδ Hn. unfold AccessToken. destruct (providers p); [|done]. destruct (_ || _); [done|].
  do 2 rewrite M_bind_run. apply (access_loop_returns η clock δ); [done..|]. cbn [fst snd ask w_tr].
  set (now := η _ [] PNow). set (parent := η _ _ PParent).
  assert (Hc : clock [] <= clock [Ev PParent parent; Ev PNow now]) by (etrans; apply (timely_forward _ _ _ Hη)).
  assert (Ht : with_timeout parent now refreshWorkBudget <= now + refreshWorkBudget).
  { unfold with_timeout, time_before. destruct parent as [d|]; [|done]. destruct (Z.ltb_spec d (now + refreshWorkBudget)); lia. }
  unfold now in Ht at 2. rewrite (timely_reading _ _ _ Hη) in Ht. lia.
Qed.

(** The lease is busy for ever, a load takes ten seconds, and the caller has no
    deadline. *)
Definition slow_clock (t : trace peff) : time := 10 * second * Z.of_nat (loads t).
Definition busy_env : env peff := λ A t op,
  match op in peff A return A with
  | PSecret _ => inr "secret"
  | POauth _ _ _ => OOther
  | PLoad ctx _ _ => if ctx <=? slow_clock t then inl ErrDeadline else inr (quoted "{'access_token':''}")
  | PAcquire _ _ => inr false
  | PFinish _ _ => None
  | PNow => slow_clock t
  | PParent => None
  | PCtx _ => None
  | PPause _ => None
  | PNewID => "id"
  end.

Lemma busy_timely : timely busy_env slow_clock (10 * second).
Proof.
  split.
  - done.
  - intros e t. unfold slow_clock, second. pose proof (loads_suffix t (e :: t)) as H. destruct H; [by exists [e]|lia..].
  - intros ctx uid p a t. unfold slow_clock, loads. cbn [List.filter is_load length]. unfold second. lia.
  - intros ctx uid p t H%Z.leb_le. exists ErrDeadline. cbn. by rewrite H.
Qed.

Lemma access_terminates_witness :
  (AccessToken busy_env 4 "u" "twitch" (World [] (ProviderState ∅ ∅))).1 ≠ None.
Proof.
  apply (access_terminates busy_env slow_clock (10 * second) 3 "u" "twitch" (ProviderState ∅ ∅)).
  - apply busy_timely.
  - reflexivity.
  - unfold refreshWorkBudget, second. lia.
Defined.

(** Four turns, and then the budget is over. *)
Example busy_until_deadline :
  (AccessToken busy_env 4 "u" "twitch" (World [] (ProviderState ∅ ∅))).1 = Some (inl ErrDeadline) ∧
  (AccessToken busy_env 3 "u" "twitch" (World [] (ProviderState ∅ ∅))).1 = None.
Proof. split; vm_compute; reflexivity. Qed.
