(* ===== verification/Manager.v ===== *)
(** * Channel connections

    Models agent/cmd: the request manager that keeps one connection per
    assigned channel (requests.go) with its per-key lock (KeyedMutex of
    main.go), the readiness of an instance (ready.go) and the snapshot loop
    that feeds them (main.go, stuck.go), as step relations over their state. *)

From stdpp Require Import base gmap strings list.
From Stdlib Require Import Ascii.
From S2P Require Import Prelude GoErr.

(** ** Requests: agent/internal/agent/requests.go *)

(** The text around the first [c]. *)
Fixpoint cut_char (c : ascii) (s : string) : option (string * string) :=
  match s with
  | EmptyString => None
  | String a s' =>
    if Ascii.eqb a c then Some ("", s')
    else match cut_char c s' with Some (x, y) => Some (String a x, y) | None => None end
  end.

Definition ProviderTwitch : string := "twitch".
Definition ProviderYouTube : string := "youtube".
Definition Provider (id : string) : string :=
  match cut_char ":"%char id with Some (p, _) => p | None => "" end.
Definition Channel (id : string) : string :=
  match cut_char ":"%char id with Some (_, c) => c | None => "" end.

Inductive change_kind := DocumentAdded | DocumentRemoved | DocumentModified.
#[export] Instance change_kind_eq_dec : EqDecision change_kind.
Proof. solve_decision. Defined.

(** What newClient returned: the concrete type behind its io.Closer. *)
Inductive client_kind := Anonymous | Authenticated | Reader.

(** ** Applying a change

    A connection is a number; [live] holds those that were opened and not
    closed, [opened] is the next number. *)
Record conns := Conns {
  clients : gmap string (nat * client_kind);
  live : gset nat;
  opened : nat
}.

Definition count (s : conns) : nat := size (clients s).

Definition close (existing : option (nat * client_kind)) (s : conns) : conns :=
  match existing with
  | Some (c, _) => Conns (clients s) (live s ∖ {[c]}) (opened s)
  | None => s
  end.

(** newClient returned a client, and it becomes the channel's. *)
Definition replace (id : string) (k : client_kind) (s : conns) : conns :=
  Conns (<[id := (opened s, k)]> (clients s)) (live s ∪ {[opened s]}) (S (opened s)).

Definition applyLocked (id : string) (kind : change_kind) (skipUpgrade : bool)
    (newClient : result client_kind) (s : conns) : conns :=
  let existing := clients s !! id in
  if decide (kind = DocumentRemoved) then
    close existing (Conns (delete id (clients s)) (live s) (opened s))
  else
    let p := Provider id in
    if negb (String.eqb p ProviderTwitch) && negb (String.eqb p ProviderYouTube) then s
    else if String.eqb p ProviderYouTube && is_some existing then s
    else match existing with
    | Some (_, Anonymous) => s
    | _ =>
      if (match existing with Some (_, Authenticated) => true | _ => false end) && skipUpgrade then s
      else match newClient with
           | inl _ => s
           | inr k => close existing (replace id k s)
           end
    end.

(** ** Readiness: ready.go *)

Record initialJoins := InitialJoins {
  ij_pending : gset string;
  sealed : bool;
  fired : bool;
  fires : nat                     (* the calls of onDone *)
}.
Definition newInitialJoins : initialJoins := InitialJoins ∅ false false 0.

Definition add (key : string) (j : initialJoins) : initialJoins :=
  if sealed j then j else InitialJoins (ij_pending j ∪ {[key]}) (sealed j) (fired j) (fires j).
(** [seal] and [done], up to their call of [check]. *)
Definition seal (j : initialJoins) : initialJoins :=
  InitialJoins (ij_pending j) true (fired j) (fires j).
Definition done_ (key : string) (j : initialJoins) : initialJoins :=
  InitialJoins (ij_pending j ∖ {[key]}) (sealed j) (fired j) (fires j).
Definition check (j : initialJoins) : initialJoins :=
  if sealed j && bool_decide (ij_pending j = ∅) && negb (fired j)
  then InitialJoins (ij_pending j) (sealed j) true (S (fires j)) else j.

(** ** The snapshot loop: stuck.go *)

Definition stuckAfter : duration := minute.
Definition stuck (busySince : option time) (now : time) : bool :=
  match busySince with Some t => stuckAfter <? time_sub now t | None => false end.

(** ** The manager

    [submit] and the worker it starts, one critical section of the queue's
    mutex per step. A worker applies a change in one step: for its channel no
    other goroutine touches the client map, as its lock and the invariant below
    have it. *)

Inductive worker :=
  | Looping
  | Applying (c : change_kind)
  | Applied                        (* about to call applied *)
  | Checking.                      (* inside it, past the deletion *)

(** The snapshot loop, between its calls. *)
Inductive main_pc := Listening | Submitting (k : string) (c : change_kind) | Sealed.

Record mstate := MState {
  connections : conns;
  queued : gmap string change_kind;
  running : gset string;
  workers : gmap string worker;
  joins : initialJoins;
  first : bool;                             (* still the first snapshot *)
  pc : main_pc;
  (* history *)
  submitted : gmap string change_kind;      (* the last change of a channel *)
  applied : gmap string change_kind;        (* the last that was applied *)
  initial : gset string                     (* the channels of the first snapshot *)
}.

Definition start_state : mstate :=
  MState (Conns ∅ ∅ 0) ∅ ∅ ∅ newInitialJoins true Listening ∅ ∅ ∅.

(** The critical section of [submit]. *)
Definition submit (k : string) (c : change_kind) (s : mstate) : mstate :=
  let q := <[k := c]> (queued s) in
  let sub := <[k := c]> (submitted s) in
  if decide (k ∈ running s) then
    MState (connections s) q (running s) (workers s) (joins s) (first s) Listening sub (applied s) (initial s)
  else
    MState (connections s) q (running s ∪ {[k]}) (<[k := Looping]> (workers s)) (joins s) (first s)
           Listening sub (applied s) (initial s).

(** The critical section at the top of a worker's loop. *)
Definition take_change (k : string) (s : mstate) : mstate :=
  match queued s !! k with
  | None => MState (connections s) (queued s) (running s ∖ {[k]}) (delete k (workers s)) (joins s)
                   (first s) (pc s) (submitted s) (applied s) (initial s)
  | Some c => MState (connections s) (delete k (queued s)) (running s) (<[k := Applying c]> (workers s))
                     (joins s) (first s) (pc s) (submitted s) (applied s) (initial s)
  end.

Definition with_worker (s : mstate) (c : conns) (k : string) (w : worker) (j : initialJoins)
    (a : gmap string change_kind) : mstate :=
  MState c (queued s) (running s) (<[k := w]> (workers s)) j (first s) (pc s) (submitted s) a (initial s).
Definition with_main (s : mstate) (j : initialJoins) (f : bool) (p : main_pc) (i : gset string) : mstate :=
  MState (connections s) (queued s) (running s) (workers s) j f p (submitted s) (applied s) i.

Inductive mstep : mstate → mstate → Prop :=
  (* the snapshot loop *)
  | m_add s k c : pc s = Listening → first s = true →
      mstep s (with_main s (add k (joins s)) true (Submitting k c) (initial s ∪ {[k]}))
  | m_submit s k c : pc s = Submitting k c ∨ (pc s = Listening ∧ first s = false) →
      mstep s (submit k c s)
  | m_seal s : pc s = Listening → first s = true →
      mstep s (with_main s (seal (joins s)) false Sealed (initial s))
  | m_sealed s : pc s = Sealed →
      mstep s (with_main s (check (joins s)) (first s) Listening (initial s))
  (* a worker *)
  | m_take s k : workers s !! k = Some Looping → mstep s (take_change k s)
  | m_apply s k c skip answer : workers s !! k = Some (Applying c) →
      mstep s (with_worker s (applyLocked k c skip answer (connections s)) k Applied (joins s)
                 (<[k := c]> (applied s)))
  | m_done s k : workers s !! k = Some Applied →
      mstep s (with_worker s (connections s) k Checking (done_ k (joins s)) (applied s))
  | m_check s k : workers s !! k = Some Checking →
      mstep s (with_worker s (connections s) k Looping (check (joins s)) (applied s)).

Inductive managed : mstate → Prop :=
  | managed_start : managed start_state
  | managed_step s s' : managed s → mstep s s' → managed s'.

(** [ready] of main.go. *)
Definition ready (s : mstate) : bool := (0 <? fires (joins s))%nat.

(** ** Connections do not leak *)

Definition conns_ok (s : conns) : Prop :=
  (∀ c, c ∈ live s ↔ ∃ id k, clients s !! id = Some (c, k)) ∧
  (∀ id c k, clients s !! id = Some (c, k) → (c < opened s)%nat) ∧
  (∀ id id' c k k', clients s !! id = Some (c, k) → clients s !! id' = Some (c, k') → id = id').

Lemma conns_ok_remove id s :
  conns_ok s → conns_ok (close (clients s !! id) (Conns (delete id (clients s)) (live s) (opened s))).
Proof.
  intros (Hl & Hb & Hi). destruct (clients s !! id) as [[c0 k0]|] eqn:E; cbn; split_and!; cbn;
    setoid_rewrite lookup_delete_Some; [| | |naive_solver..].
  - intros c. rewrite elem_of_difference, Hl, elem_of_singleton. split.
    + intros [(i & k & Hik) Hne]. exists i, k. split; [|done]. intros <-. rewrite E in Hik. naive_solver.
    + intros (i & k & Hne & Hik). split; [eauto|]. intros ->. eapply Hne, Hi; eauto.
  - naive_solver.
  - naive_solver.
Qed.

Lemma conns_ok_replace id k0 existing s :
  conns_ok s → clients s !! id = existing → conns_ok (close existing (replace id k0 s)).
Proof.
  intros Hok <-. pose proof (conns_ok_remove id s Hok) as (Hl & Hb & Hi). destruct Hok as (Hl0 & Hb0 & _).
  set (s1 := close _ _) in *.
  assert (Hc : clients s1 = delete id (clients s) ∧ opened s1 = opened s) by (unfold s1; by destruct (clients s !! id) as [[]|]).
  destruct Hc as [Hc Ho]. rewrite Hc, ?Ho in *.
  set (s2 := close _ _).
  assert (Hc2 : clients s2 = <[id := (opened s, k0)]> (clients s) ∧ opened s2 = S (opened s) ∧
    ∀ c, c ∈ live s2 ↔ c ∈ live s1 ∨ c = opened s).
  { unfold s2, s1. destruct (clients s !! id) as [[c1 k1]|] eqn:E; cbn; split_and!; try done; [|set_solver].
    specialize (Hb0 _ _ _ E). intros c. destruct (decide (c = opened s)) as [->|]; [|set_solver].
    rewrite elem_of_difference, elem_of_union, !elem_of_singleton. naive_solver lia. }
  destruct Hc2 as (Hc2 & Ho2 & Hl2). split_and!; rewrite ?Hc2, ?Ho2.
  - intros c. rewrite Hl2, Hl. split.
    + intros [(i & k & [Hne Hik]%lookup_delete_Some)| ->].
      * exists i, k. by rewrite lookup_insert_ne.
      * exists id, k0. by rewrite lookup_insert_eq.
    + intros (i & k & [[<- [= <- <-]]|[Hne Hik]]%lookup_insert_Some); [by right|].
      left. exists i, k. by rewrite lookup_delete_ne.
  - intros i c k [[<- [= <- <-]]|[Hne Hik]]%lookup_insert_Some; [lia|]. specialize (Hb0 _ _ _ Hik). lia.
  - intros i i' c k k' [[<- E1]|[Hne Hik]]%lookup_insert_Some [[<- E2]|[Hne' Hik']]%lookup_insert_Some; [done| | |].
    + injection E1 as <- _. specialize (Hb0 _ _ _ Hik'). lia.
    + injection E2 as <- _. specialize (Hb0 _ _ _ Hik). lia.
    + eapply Hi; by apply lookup_delete_Some.
Qed.

Lemma applyLocked_ok id kind skip answer s : conns_ok s → conns_ok (applyLocked id kind skip answer s).
Proof.
  intros H. unfold applyLocked. case_decide; [by apply conns_ok_remove|].
  repeat (case_match; try done); by apply conns_ok_replace.
Qed.

(** A change touches its own channel only; a removal leaves no connection, and
    any other keeps or opens one of a supported provider. *)
Lemma clients_close x s : clients (close x s) = clients s.
Proof. by destruct x as [[]|]. Qed.

Lemma applyLocked_other id kind skip answer s id' :
  id' ≠ id → clients (applyLocked id kind skip answer s) !! id' = clients s !! id'.
Proof.
  intros Hne. unfold applyLocked.
  repeat (case_match; try done); rewrite ?clients_close; cbn; by rewrite ?lookup_delete_ne, ?lookup_insert_ne by done.
Qed.

Definition supported (id : string) : bool :=
  String.eqb (Provider id) ProviderTwitch || String.eqb (Provider id) ProviderYouTube.

Lemma applyLocked_removed id skip answer s : clients (applyLocked id DocumentRemoved skip answer s) !! id = None.
Proof. unfold applyLocked. rewrite decide_True, clients_close by done. cbn. apply lookup_delete_eq. Qed.

Lemma applyLocked_some id kind skip answer s x :
  clients (applyLocked id kind skip answer s) !! id = Some x →
  kind ≠ DocumentRemoved ∧ (clients s !! id = Some x ∨ supported id = true).
Proof.
  intros H. split; [intros ->; by rewrite applyLocked_removed in H|].
  destruct (supported id) eqn:Es; [by right|left]. unfold supported in Es. apply orb_false_iff in Es as [E1 E2].
  unfold applyLocked in H. rewrite E1, E2 in H. case_decide; [|done].
  rewrite clients_close in H. cbn in H. by rewrite lookup_delete_eq in H.
Qed.

(** A channel that is to be read is read, if newClient connects. *)
Lemma applyLocked_reads id kind skip k s :
  kind ≠ DocumentRemoved → supported id = true → is_Some (clients (applyLocked id kind skip (inr k) s) !! id).
Proof.
  intros Hk Hs. unfold applyLocked. rewrite decide_False by done. unfold supported in Hs.
  destruct (String.eqb (Provider id) ProviderTwitch), (String.eqb (Provider id) ProviderYouTube); try done; cbn;
    repeat (case_match; simplify_eq; try done); rewrite ?clients_close; cbn;
    rewrite ?lookup_insert_eq; try done; try by eexists.
  all: destruct (clients s !! id); try done; by eexists.
Qed.

(** ** The invariant of the manager *)

(** The last change of a channel is queued, being applied, or was applied. *)
Definition latest_ok (s : mstate) (k : string) : Prop :=
  match queued s !! k with
  | Some c => submitted s !! k = Some c ∧ is_Some (workers s !! k)
  | None =>
    match workers s !! k with
    | Some (Applying c) => submitted s !! k = Some c
    | _ => submitted s !! k = applied s !! k
    end
  end.

(** A channel counts as pending until its worker reported it. *)
Definition pending_ok (s : mstate) (k : string) : Prop :=
  k ∈ ij_pending (joins s) →
  (∃ c, pc s = Submitting k c) ∨ is_Some (queued s !! k) ∨
  match workers s !! k with Some (Applying _) | Some Applied => True | _ => False end.

(** Somebody is about to check. *)
Definition checking (s : mstate) : Prop := pc s = Sealed ∨ ∃ k, workers s !! k = Some Checking.

Record man_ok (s : mstate) : Prop := ManOk {
  mo_conns : conns_ok (connections s);
  mo_running : ∀ k, k ∈ running s ↔ is_Some (workers s !! k);
  mo_latest : ∀ k, latest_ok s k;
  mo_applied : ∀ k, (workers s !! k = Some Applied ∨ workers s !! k = Some Checking) → is_Some (applied s !! k);
  mo_clients : ∀ k x, clients (connections s) !! k = Some x →
    supported k = true ∧ ∃ c, applied s !! k = Some c ∧ c ≠ DocumentRemoved;
  (* readiness *)
  mo_first : first s = negb (sealed (joins s));
  mo_pc : (∀ k c, pc s = Submitting k c → first s = true) ∧ (pc s = Sealed → first s = false);
  mo_pending : ∀ k, pending_ok s k;
  mo_initial : ∀ k, k ∈ initial s → k ∈ ij_pending (joins s) ∨ is_Some (applied s !! k);
  mo_fires : fires (joins s) = if fired (joins s) then 1%nat else 0%nat;
  mo_fired : fired (joins s) = true →
    sealed (joins s) = true ∧ ∀ k, k ∈ initial s → is_Some (applied s !! k);
  mo_unfired : fired (joins s) = false → sealed (joins s) = true → ij_pending (joins s) = ∅ → checking s
}.

Lemma man_ok_start : man_ok start_state.
Proof.
  split; cbn; try done; try set_solver.
  - split_and!; cbn; set_solver.
  - intros k. rewrite lookup_empty. split; [set_solver|by intros []].
Qed.

(** Compare the key of a goal with the step's. *)
Ltac at_key k k' :=
  destruct (decide (k' = k)) as [->|?];
  rewrite ?lookup_insert_eq, ?lookup_delete_eq, ?lookup_insert_ne, ?lookup_delete_ne in * by done.

Lemma man_ok_add s k c :
  man_ok s → pc s = Listening → first s = true →
  man_ok (with_main s (add k (joins s)) true (Submitting k c) (initial s ∪ {[k]})).
Proof.
  intros [H1 H2 H3 H4 H5 H6 H7 H8 H9 H10 H11 H12] Hpc Hf. rewrite Hf in *.
  assert (sealed (joins s) = false) as Hs by (by destruct (sealed (joins s))).
  unfold add. rewrite Hs. split; unfold pending_ok in *; cbn; try done.
  - intros k' [Hk'|Hk'%elem_of_singleton]%elem_of_union; [|subst; left; by exists c].
    destruct (H8 _ Hk') as [[c' Hc]|Hr]; [congruence|by right].
  - intros k' [Hk'|Hk'%elem_of_singleton]%elem_of_union; [destruct (H9 _ Hk'); [left; set_solver|by right]|left; set_solver].
  - intros Hfi. destruct (H11 Hfi). congruence.
Qed.

Lemma man_ok_submit s k c :
  man_ok s → pc s = Submitting k c ∨ (pc s = Listening ∧ first s = false) → man_ok (submit k c s).
Proof.
  intros [H1 H2 H3 H4 H5 H6 H7 H8 H9 H10 H11 H12] Hpc. unfold submit.
  assert (∀ k', k' ∈ ij_pending (joins s) → k' = k ∨ is_Some (queued s !! k') ∨
    match workers s !! k' with Some (Applying _) | Some Applied => True | _ => False end) as Hp.
  { intros k' Hk'. destruct (H8 _ Hk') as [[c' Hc]|Hr]; [|by right]. left. destruct Hpc as [Hpc|[Hpc _]]; congruence. }
  assert (checking s → ∃ k', workers s !! k' = Some Checking) as Hch.
  { intros [Hc|Hc]; [|done]. destruct Hpc as [Hpc|[Hpc _]]; congruence. }
  case_decide as Hr; split; unfold pending_ok, latest_ok, checking in *; cbn; try done.
  - intros k'. specialize (H3 k'). at_key k k'; [|done]. split; [done|]. by apply H2.
  - intros k' Hk'. destruct (Hp _ Hk') as [->|[Hq|Hw]]; [|right; left; at_key k k'; [by eexists|done]|by right; right].
    right; left. rewrite lookup_insert_eq. by eexists.
  - auto.
  - intros k'. rewrite elem_of_union, H2, elem_of_singleton. at_key k k'; [|naive_solver]. naive_solver.
  - intros k'. specialize (H3 k'). at_key k k'; [|done]. split; [done|by eexists].
  - intros k'. specialize (H4 k'). at_key k k'; [naive_solver|done].
  - intros k' Hk'. assert (workers s !! k = None) as Hn.
    { destruct (workers s !! k) eqn:E; [|done]. destruct Hr. apply H2. by eexists. }
    destruct (Hp _ Hk') as [->|[Hq|Hw]].
    + right; left. rewrite lookup_insert_eq. by eexists.
    + right; left. at_key k k'; [by eexists|done].
    + right; right. at_key k k'; [|done]. by rewrite Hn in Hw.
  - intros Hfi Hse He. right. destruct (Hch (H12 Hfi Hse He)) as [k' Hk']. exists k'.
    at_key k k'; [|done]. destruct Hr. apply H2. by eexists.
Qed.

Lemma man_ok_seal s :
  man_ok s → pc s = Listening → first s = true →
  man_ok (with_main s (seal (joins s)) false Sealed (initial s)).
Proof.
  intros [H1 H2 H3 H4 H5 H6 H7 H8 H9 H10 H11 H12] Hpc Hf. rewrite Hf in *.
  split; unfold pending_ok, checking in *; cbn; try done.
  - intros k Hk. destruct (H8 _ Hk) as [[c Hc]|Hr]; [congruence|by right].
  - intros Hfi. split; [done|]. by apply H11.
  - by left.
Qed.

(** [check] by whoever runs it. *)
Lemma check_pending j : ij_pending (check j) = ij_pending j ∧ sealed (check j) = sealed j.
Proof. unfold check. by destruct (_ && _). Qed.
Lemma check_fires j :
  fires j = (if fired j then 1%nat else 0%nat) → fires (check j) = if fired (check j) then 1%nat else 0%nat.
Proof. unfold check. destruct (sealed j), (bool_decide _), (fired j) eqn:E; cbn; rewrite ?E; try done; lia. Qed.
Lemma check_fired j (P : Prop) :
  (fired j = true → sealed j = true ∧ P) → (ij_pending j = ∅ → P) →
  fired (check j) = true → sealed (check j) = true ∧ P.
Proof.
  unfold check. intros H1 H2. destruct (_ && _ && _) eqn:E; cbn; [|exact H1].
  apply andb_true_iff in E as [[Es He]%andb_true_iff _]. intros _. split; [done|].
  apply H2. by apply bool_decide_eq_true in He.
Qed.
Lemma check_unfired j :
  fired (check j) = false → sealed (check j) = true → ij_pending (check j) = ∅ → False.
Proof.
  unfold check. destruct (fired j) eqn:E, (sealed j) eqn:Es; cbn; rewrite ?E, ?Es; try done.
  - rewrite andb_false_r. cbn. congruence.
  - case_bool_decide; cbn; rewrite ?E, ?Es; naive_solver.
Qed.

Lemma man_ok_sealed s :
  man_ok s → pc s = Sealed → man_ok (with_main s (check (joins s)) (first s) Listening (initial s)).
Proof.
  intros [H1 H2 H3 H4 H5 H6 H7 H8 H9 H10 H11 H12] Hpc. destruct (check_pending (joins s)) as [Hcp Hcs].
  split; unfold pending_ok in *; cbn; rewrite ?Hcp, ?Hcs; try done.
  - intros k Hk. destruct (H8 _ Hk) as [[c Hc]|Hr]; [congruence|by right].
  - by apply check_fires.
  - rewrite <-Hcs. apply check_fired; [done|]. intros He k Hk.
    destruct (H9 _ Hk) as [Hin|]; [|done]. rewrite He in Hin. set_solver.
  - rewrite <-Hcp, <-Hcs. intros. exfalso. by eapply check_unfired.
Qed.

Lemma man_ok_take s k : man_ok s → workers s !! k = Some Looping → man_ok (take_change k s).
Proof.
  intros [H1 H2 H3 H4 H5 H6 H7 H8 H9 H10 H11 H12] Hw. unfold take_change.
  destruct (queued s !! k) as [c|] eqn:Eq; split; unfold pending_ok, latest_ok, checking in *; cbn; try done.
  - intros k'. rewrite H2. at_key k k'; [|done]. rewrite Hw. split; intros _; by eexists.
  - intros k'. specialize (H3 k'). at_key k k'; [|done]. rewrite Eq in H3. apply H3.
  - intros k'. specialize (H4 k'). at_key k k'; [naive_solver|done].
  - intros k' Hk'. specialize (H8 _ Hk'). at_key k k'; [by right; right|done].
  - intros Hf Hs He. destruct (H12 Hf Hs He) as [|[k' Hk']]; [by left|right]. exists k'.
    at_key k k'; [congruence|done].
  - intros k'. rewrite elem_of_difference, elem_of_singleton, H2. at_key k k'; [|naive_solver].
    split; [naive_solver|by intros []].
  - intros k'. specialize (H3 k'). at_key k k'; [|done]. rewrite Eq, Hw in H3. by rewrite Eq.
  - intros k'. specialize (H4 k'). at_key k k'; [naive_solver|done].
  - intros k' Hk'. specialize (H8 _ Hk'). at_key k k'; [|done]. rewrite Hw, Eq in H8. rewrite Eq. naive_solver.
  - intros Hf Hs He. destruct (H12 Hf Hs He) as [|[k' Hk']]; [by left|right]. exists k'.
    at_key k k'; [congruence|done].
Qed.

Lemma man_ok_apply s k c skip answer :
  man_ok s → workers s !! k = Some (Applying c) →
  man_ok (with_worker s (applyLocked k c skip answer (connections s)) k Applied (joins s) (<[k := c]> (applied s))).
Proof.
  intros [H1 H2 H3 H4 H5 H6 H7 H8 H9 H10 H11 H12] Hw.
  assert (Ha : ∀ k', is_Some (applied s !! k') → is_Some (<[k := c]> (applied s) !! k')).
  { intros k' ?. at_key k k'; [by eexists|done]. }
  split; unfold pending_ok, latest_ok, checking in *; cbn; try done.
  - by apply applyLocked_ok.
  - intros k'. rewrite H2. at_key k k'; [|done]. rewrite Hw. split; intros _; by eexists.
  - intros k'. specialize (H3 k'). at_key k k'; [|done]. rewrite Hw in H3.
    destruct (queued s !! k); [|done]. split; [by apply H3|by eexists].
  - intros k' Hk'. at_key k k'; [by eexists|]. by apply H4.
  - intros k' x. destruct (decide (k' = k)) as [->|Hne].
    + intros Hx. destruct (applyLocked_some _ _ _ _ _ _ Hx) as [Hc Hs]. rewrite lookup_insert_eq. split; [|by exists c].
      destruct Hs as [Hs|]; [by apply (H5 _ _ Hs)|done].
    + rewrite applyLocked_other, lookup_insert_ne by done. apply H5.
  - intros k' Hk'. specialize (H8 _ Hk'). at_key k k'; [by right; right|done].
  - intros k' Hk'. destruct (H9 _ Hk'); auto.
  - intros Hf. destruct (H11 Hf). split; [done|]. auto.
  - intros Hf Hs He. destruct (H12 Hf Hs He) as [|[k' Hk']]; [by left|right]. exists k'.
    at_key k k'; [congruence|done].
Qed.

Lemma man_ok_done s k :
  man_ok s → workers s !! k = Some Applied →
  man_ok (with_worker s (connections s) k Checking (done_ k (joins s)) (applied s)).
Proof.
  intros [H1 H2 H3 H4 H5 H6 H7 H8 H9 H10 H11 H12] Hw.
  split; unfold pending_ok, latest_ok, checking in *; cbn; try done.
  - intros k'. rewrite H2. at_key k k'; [|done]. rewrite Hw. split; intros _; by eexists.
  - intros k'. specialize (H3 k'). at_key k k'; [|done]. rewrite Hw in H3.
    destruct (queued s !! k); [|done]. split; [by apply H3|by eexists].
  - intros k' Hk'. at_key k k'; [apply H4; by left|by apply H4].
  - intros k' [Hk' Hne]%elem_of_difference. specialize (H8 _ Hk'). at_key k k'; [set_solver|done].
  - intros k' Hk'. destruct (decide (k' = k)) as [->|]; [right; apply H4; by left|].
    destruct (H9 _ Hk'); [left; set_solver|by right].
  - intros Hf Hs _. right. exists k. by rewrite lookup_insert_eq.
Qed.

Lemma man_ok_check s k :
  man_ok s → workers s !! k = Some Checking →
  man_ok (with_worker s (connections s) k Looping (check (joins s)) (applied s)).
Proof.
  intros [H1 H2 H3 H4 H5 H6 H7 H8 H9 H10 H11 H12] Hw. destruct (check_pending (joins s)) as [Hcp Hcs].
  split; unfold pending_ok, latest_ok in *; cbn; rewrite ?Hcp, ?Hcs; try done.
  - intros k'. rewrite H2. at_key k k'; [|done]. rewrite Hw. split; intros _; by eexists.
  - intros k'. specialize (H3 k'). at_key k k'; [|done]. rewrite Hw in H3.
    destruct (queued s !! k); [|done]. split; [by apply H3|by eexists].
  - intros k'. specialize (H4 k'). at_key k k'; [naive_solver|done].
  - intros k' Hk'. specialize (H8 _ Hk'). at_key k k'; [|done]. rewrite Hw in H8. naive_solver.
  - by apply check_fires.
  - rewrite <-Hcs. apply check_fired; [done|]. intros He k' Hk'.
    destruct (H9 _ Hk') as [Hin|]; [|done]. rewrite He in Hin. set_solver.
  - rewrite <-Hcp, <-Hcs. intros. exfalso. by eapply check_unfired.
Qed.

Lemma managed_ok s : managed s → man_ok s.
Proof.
  induction 1 as [|s s' _ IH Hs]; [apply man_ok_start|].
  destruct Hs; eauto using man_ok_add, man_ok_submit, man_ok_seal, man_ok_sealed, man_ok_take,
    man_ok_apply, man_ok_done, man_ok_check.
Qed.

(** C23. The latest change wins and no connection leaks, for any interleaving of
    the snapshot loop and the workers and any answers of newClient: once a
    channel has no worker, the last change applied to it is the last that was
    submitted, and nothing is queued; a channel that was removed, or whose
    provider is not supported, has no connection. The open connections are
    exactly those of the client map, one per channel. *)
Theorem manager_latest s k :
  managed s →
  (workers s !! k = None → queued s !! k = None ∧ applied s !! k = submitted s !! k ∧
     (submitted s !! k = None ∨ submitted s !! k = Some DocumentRemoved ∨ supported k = false →
      clients (connections s) !! k = None)) ∧
  (∀ c, c ∈ live (connections s) ↔ ∃ id k, clients (connections s) !! id = Some (c, k)) ∧
  (∀ id id' c k k', clients (connections s) !! id = Some (c, k) →
     clients (connections s) !! id' = Some (c, k') → id = id').
Proof.
  intros Hm%managed_ok. destruct (mo_conns _ Hm) as (Hl & _ & Hi). split; [|done].
  intros Hw. pose proof (mo_latest _ Hm k) as H. unfold latest_ok in H. rewrite Hw in H.
  destruct (queued s !! k) eqn:Eq; [destruct H as [_ []]; done|]. split_and!; [done..|].
  intros Hs. destruct (clients (connections s) !! k) as [x|] eqn:E; [|done].
  destruct (mo_clients _ Hm _ _ E) as (Hsup & c & Hc & Hne). naive_solver congruence.
Qed.

(** *** Draining *)

(** A step of a worker, or of the snapshot loop after its first snapshot. *)
Inductive drain_step : mstate → mstate → Prop :=
  | d_sealed s : pc s = Sealed → drain_step s (with_main s (check (joins s)) (first s) Listening (initial s))
  | d_take s k : workers s !! k = Some Looping → drain_step s (take_change k s)
  | d_apply s k c skip answer : workers s !! k = Some (Applying c) →
      drain_step s (with_worker s (applyLocked k c skip answer (connections s)) k Applied (joins s)
                      (<[k := c]> (applied s)))
  | d_done s k : workers s !! k = Some Applied →
      drain_step s (with_worker s (connections s) k Checking (done_ k (joins s)) (applied s))
  | d_check s k : workers s !! k = Some Checking →
      drain_step s (with_worker s (connections s) k Looping (check (joins s)) (applied s)).

Definition weight (w : worker) : nat :=
  match w with Looping => 1 | Checking => 2 | Applied => 3 | Applying _ => 4 end.
Definition load (m : gmap string worker) : nat := map_fold (λ _ w n, weight w + n)%nat 0%nat m.
Definition work_left (s : mstate) : nat :=
  (5 * size (queued s) + load (workers s) + match pc s with Sealed => 1 | _ => 0 end)%nat.

Lemma load_delete m k w : m !! k = Some w → load m = (weight w + load (delete k m))%nat.
Proof. intros H. unfold load. apply (map_fold_delete_L (λ _ w n, (weight w + n)%nat)); [|done]. intros. lia. Qed.
Lemma load_insert m k w w' : m !! k = Some w → (load (<[k := w']> m) + weight w = load m + weight w')%nat.
Proof.
  intros H. rewrite (load_delete m k w H), (load_delete (<[k := w']> m) k w').
  - rewrite delete_insert_eq. lia.
  - apply lookup_insert_eq.
Qed.

Lemma drain_decreases s s' : drain_step s s' → (work_left s' < work_left s)%nat.
Proof.
  destruct 1 as [s Hp|s k Hw|s k c skip answer Hw|s k Hw|s k Hw]; unfold work_left; cbn.
  - rewrite Hp. lia.
  - unfold take_change. destruct (queued s !! k) as [c|] eqn:Eq; cbn.
    + rewrite map_size_delete, Eq. pose proof (load_insert _ _ _ (Applying c) Hw) as H. cbn in H.
      assert (size (queued s) ≠ 0%nat) by (intros H0; apply map_size_empty_inv in H0; rewrite H0 in Eq; done). lia.
    + rewrite (load_delete _ _ _ Hw). cbn. lia.
  - pose proof (load_insert _ _ _ Applied Hw) as H. cbn in H. lia.
  - pose proof (load_insert _ _ _ Checking Hw) as H. cbn in H. lia.
  - pose proof (load_insert _ _ _ Looping Hw) as H. cbn in H. lia.
Qed.

Lemma drain_bound n s s' : relations.nsteps drain_step n s s' → (n + work_left s' <= work_left s)%nat.
Proof.
  induction 1 as [|n s s1 s' Hs _ IH]; [lia|]. pose proof (drain_decreases _ _ Hs). lia.
Qed.

Lemma drain_enabled s : (workers s ≠ ∅ ∨ pc s = Sealed) → ∃ s', drain_step s s'.
Proof.
  intros [Hw|Hp]; [|eexists; by constructor].
  apply map_choose in Hw as (k & w & Hk).
  destruct w as [|c| |]; eexists; [by apply (d_take _ k)|by apply (d_apply _ k c true (inl ErrBusy))
    |by apply (d_done _ k)|by apply (d_check _ k)].
Qed.

(** C24. The snapshot loop never starves a channel and readiness is exact: without
    new changes the workers stop within [work_left] steps, only when nothing is
    left to do; the instance becomes ready at most once, not before every
    channel of the first snapshot was applied, and it is ready when the workers
    stopped after the first snapshot. *)
Theorem ready_exactly_once s :
  managed s →
  (fires (joins s) <= 1)%nat ∧
  (ready s = true → first s = false ∧ ∀ k, k ∈ initial s → is_Some (applied s !! k)) ∧
  (∀ n s', relations.nsteps drain_step n s s' → (n <= work_left s)%nat) ∧
  ((∀ s', ¬ drain_step s s') → workers s = ∅ ∧ queued s = ∅ ∧ (pc s = Listening → first s = false → ready s = true)).
Proof.
  intros Hm%managed_ok. unfold ready. rewrite (mo_fires _ Hm). split_and!.
  - destruct (fired _); lia.
  - destruct (fired (joins s)) eqn:Ef; [|done]. intros _. destruct (mo_fired _ Hm Ef) as [Hs Hk].
    rewrite (mo_first _ Hm), Hs. by split.
  - intros n s' H%drain_bound. lia.
  - intros Hno. assert (Hw : workers s = ∅).
    { destruct (decide (workers s = ∅)); [done|]. destruct (drain_enabled s) as [s' Hs']; [by left|]. by destruct (Hno s'). }
    assert (Hq : ∀ k, queued s !! k = None).
    { intros k. pose proof (mo_latest _ Hm k) as H. unfold latest_ok in H. rewrite Hw, lookup_empty in H.
      destruct (queued s !! k); [destruct H as [_ []]; done|done]. }
    split_and!; [done|by apply map_empty|].
    intros Hpc Hf. destruct (fired (joins s)) eqn:Ef; [done|]. exfalso.
    rewrite (mo_first _ Hm) in Hf. apply negb_false_iff in Hf.
    destruct (mo_unfired _ Hm Ef Hf) as [Hc|[k Hk]].
    + apply set_eq. intros k. split; [|set_solver]. intros Hk. destruct (mo_pending _ Hm k Hk) as [[c Hc]|[Hc|Hc]].
      * congruence.
      * rewrite Hq in Hc. by destruct Hc.
      * by rewrite Hw, lookup_empty in Hc.
    + congruence.
    + by rewrite Hw, lookup_empty in Hk.
Qed.

(** One channel in the first snapshot, joined anonymously. *)
Definition room : string := "twitch:room".
Definition joined : mstate :=
  let s := with_main start_state (add room (joins start_state)) true (Submitting room DocumentAdded) {[room]} in
  let s := take_change room (submit room DocumentAdded s) in
  let s := with_worker s (applyLocked room DocumentAdded false (inr Anonymous) (connections s)) room Applied
             (joins s) (<[room := DocumentAdded]> (applied s)) in
  let s := with_worker s (connections s) room Checking (done_ room (joins s)) (applied s) in
  let s := with_worker s (connections s) room Looping (check (joins s)) (applied s) in
  let s := take_change room s in
  let s := with_main s (seal (joins s)) false Sealed (initial s) in
  with_main s (check (joins s)) (first s) Listening (initial s).

Lemma joined_managed : managed joined.
Proof.
  unfold joined. eapply managed_step; [|apply m_sealed; vm_compute; reflexivity].
  eapply managed_step; [|apply m_seal; vm_compute; reflexivity].
  eapply managed_step; [|apply m_take; vm_compute; reflexivity].
  eapply managed_step; [|apply m_check; vm_compute; reflexivity].
  eapply managed_step; [|apply m_done; vm_compute; reflexivity].
  eapply managed_step; [|eapply (m_apply _ _ DocumentAdded); vm_compute; reflexivity].
  eapply managed_step; [|apply m_take; vm_compute; reflexivity].
  eapply managed_step; [|apply m_submit; left; vm_compute; reflexivity].
  eapply managed_step; [apply managed_start|].
  exact (m_add start_state room DocumentAdded eq_refl eq_refl).
Qed.

Lemma manager_latest_witness :
  clients (connections joined) !! room = Some (0%nat, Anonymous) ∧
  (workers joined !! room = None → queued joined !! room = None ∧ applied joined !! room = submitted joined !! room ∧
     (submitted joined !! room = None ∨ submitted joined !! room = Some DocumentRemoved ∨ supported room = false →
      clients (connections joined) !! room = None)).
Proof.
  split; [vm_compute; reflexivity|]. exact (proj1 (manager_latest joined room joined_managed)).
Defined.

Lemma ready_exactly_once_witness : ready joined = true ∧ (fires (joins joined) <= 1)%nat.
Proof. split; [vm_compute; reflexivity|]. exact (proj1 (ready_exactly_once joined joined_managed)). Defined.

(** ** The per-key lock: KeyedMutex of main.go

    The entries are objects on a heap, numbered from 0; [mutexes] maps a key to
    its entry. A goroutine that called Lock waits, holds, or has unlocked the
    entry's mutex and not yet returned its reference. *)

Record keyedLock := KeyedLock { users : nat; holder_ : option string }.
Inductive phase := Waiting | Holding | Releasing.
#[export] Instance phase_eq_dec : EqDecision phase.
Proof. solve_decision. Defined.

Record kstate := KState {
  heap : gmap nat keyedLock;
  mutexes : gmap string nat;
  lockers : gmap string (string * nat * phase);   (* goroutine: key, entry, phase *)
  next_entry : nat
}.

Definition set_entry (s : kstate) (i : nat) (e : keyedLock) (l : gmap string (string * nat * phase)) : kstate :=
  KState (<[i := e]> (heap s)) (mutexes s) l (next_entry s).

(** The critical section of [Lock], before it waits for the entry's mutex. *)
Definition lock_enter (t key : string) (s : kstate) : kstate :=
  match mutexes s !! key with
  | Some i =>
    match heap s !! i with
    | Some e => set_entry s i (KeyedLock (S (users e)) (holder_ e)) (<[t := (key, i, Waiting)]> (lockers s))
    | None => s
    end
  | None =>
    let i := next_entry s in
    KState (<[i := KeyedLock 1 None]> (heap s)) (<[key := i]> (mutexes s))
           (<[t := (key, i, Waiting)]> (lockers s)) (S i)
  end.

(** The critical section of the function Lock returns. *)
Definition lock_leave (t key : string) (i : nat) (s : kstate) : kstate :=
  match heap s !! i with
  | Some e =>
    let n := (users e - 1)%nat in
    KState (<[i := KeyedLock n (holder_ e)]> (heap s))
           (if (n =? 0)%nat then delete key (mutexes s) else mutexes s)
           (delete t (lockers s)) (next_entry s)
  | None => s
  end.

Inductive kstep : kstate → kstate → Prop :=
  | k_enter s t key : lockers s !! t = None → kstep s (lock_enter t key s)
  | k_take s t key i n : lockers s !! t = Some (key, i, Waiting) → heap s !! i = Some (KeyedLock n None) →
      kstep s (set_entry s i (KeyedLock n (Some t)) (<[t := (key, i, Holding)]> (lockers s)))
  | k_unlock s t key i n o : lockers s !! t = Some (key, i, Holding) → heap s !! i = Some (KeyedLock n o) →
      kstep s (set_entry s i (KeyedLock n None) (<[t := (key, i, Releasing)]> (lockers s)))
  | k_leave s t key i : lockers s !! t = Some (key, i, Releasing) → kstep s (lock_leave t key i s).

Inductive keyed : kstate → Prop :=
  | keyed_start : keyed (KState ∅ ∅ ∅ 0)
  | keyed_step s s' : keyed s → kstep s s' → keyed s'.

(** The goroutines at an entry. *)
Definition at_entry (i : nat) (s : kstate) : gmap string (string * nat * phase) :=
  filter (λ x, x.2.1.2 = i) (lockers s).

Record keyed_ok (s : kstate) : Prop := KeyedOk {
  ko_entry : ∀ t key i p, lockers s !! t = Some (key, i, p) → mutexes s !! key = Some i;
  ko_users : ∀ key i, mutexes s !! key = Some i →
    ∃ e, heap s !! i = Some e ∧ users e = size (at_entry i s) ∧ (0 < users e)%nat;
  ko_holder : ∀ t key i e, lockers s !! t = Some (key, i, Holding) → heap s !! i = Some e → holder_ e = Some t;
  ko_fresh : ∀ key i, mutexes s !! key = Some i → (i < next_entry s)%nat;
  ko_inj : ∀ key key' i, mutexes s !! key = Some i → mutexes s !! key' = Some i → key = key'
}.

Lemma at_insert (l : gmap string (string * nat * phase)) t key i p j :
  l !! t = None →
  size (filter (λ x : string * (string * nat * phase), x.2.1.2 = j) (<[t := (key, i, p)]> l)) =
  ((if decide (i = j) then 1 else 0) + size (filter (λ x : string * (string * nat * phase), x.2.1.2 = j) l))%nat.
Proof.
  intros Hn. rewrite map_filter_insert. cbn. case_decide; cbn.
  - rewrite map_size_insert_None; [done|]. apply map_lookup_filter_None. by left.
  - by rewrite delete_id.
Qed.
Lemma at_delete (l : gmap string (string * nat * phase)) t key i p j :
  l !! t = Some (key, i, p) →
  size (filter (λ x : string * (string * nat * phase), x.2.1.2 = j) l) =
  ((if decide (i = j) then 1 else 0) +
   size (filter (λ x : string * (string * nat * phase), x.2.1.2 = j) (delete t l)))%nat.
Proof.
  intros H. rewrite <-(insert_delete_id l t _ H) at 1. rewrite at_insert; [done|apply lookup_delete_eq].
Qed.
Lemma at_phase (l : gmap string (string * nat * phase)) t key i p p' j :
  l !! t = Some (key, i, p) →
  size (filter (λ x : string * (string * nat * phase), x.2.1.2 = j) (<[t := (key, i, p')]> l)) =
  size (filter (λ x : string * (string * nat * phase), x.2.1.2 = j) l).
Proof.
  intros H. rewrite (at_delete l t key i p j H), <-insert_delete_eq, at_insert; [done|apply lookup_delete_eq].
Qed.
Lemma at_positive (l : gmap string (string * nat * phase)) t key i p :
  l !! t = Some (key, i, p) → (0 < size (filter (λ x : string * (string * nat * phase), x.2.1.2 = i) l))%nat.
Proof. intros H. rewrite (at_delete l t key i p i H), decide_True; [lia|done]. Qed.

Lemma lock_enter_ok t key s : keyed_ok s → lockers s !! t = None → keyed_ok (lock_enter t key s).
Proof.
  intros [H1 H2 H3 H4 H5] Ht. unfold lock_enter. destruct (mutexes s !! key) as [i|] eqn:Em.
  - destruct (H2 _ _ Em) as (e & He & Hu & Hp). rewrite He. split; unfold at_entry in *; cbn; try done.
    + intros t' k' i' p'. at_key t t'; [naive_solver|apply H1].
    + intros k' i' Hk'. rewrite at_insert by done. destruct (H2 _ _ Hk') as (e' & He' & Hu' & Hp'). at_key i i'.
      * rewrite decide_True by done. eexists. split; [done|]. cbn. simplify_eq. lia.
      * rewrite decide_False by congruence. eauto.
    + intros t' k' i' e'. at_key t t'; [naive_solver|]. intros Hl He'. at_key i i'; [|by eapply H3].
      simplify_eq. cbn. by eapply H3.
  - assert (Hfresh : ∀ t' k' p', lockers s !! t' ≠ Some (k', next_entry s, p')).
    { intros t' k' p' Hl. specialize (H4 _ _ (H1 _ _ _ _ Hl)). lia. }
    split; unfold at_entry in *; cbn.
    + intros t' k' i' p'. at_key t t'; [intros [= <- <- <-]; by rewrite lookup_insert_eq|].
      intros Hl. specialize (H1 _ _ _ _ Hl). at_key key k'; congruence.
    + intros k' i'. rewrite at_insert by done. at_key key k'.
      * intros [= <-]. rewrite lookup_insert_eq, decide_True by done. eexists. split; [done|]. cbn.
        assert (filter (λ x : string * (string * nat * phase), x.2.1.2 = next_entry s) (lockers s) = ∅) as ->.
        { apply map_empty. intros t'. apply map_lookup_filter_None. right. intros [[k1 i1] p1] Hl. cbn.
          intros ->. by eapply Hfresh. }
        rewrite map_size_empty. lia.
      * intros Hk0. specialize (H4 _ _ Hk0). rewrite lookup_insert_ne, decide_False by lia. exact (H2 _ _ Hk0).
    + intros t' k' i' e'. at_key t t'; [naive_solver|]. intros Hl. at_key (next_entry s) i'; [by edestruct Hfresh|].
      by apply (H3 _ _ _ _ Hl).
    + intros k' i'. at_key key k'; [intros [= <-]; lia|]. intros Hk'. specialize (H4 _ _ Hk'). lia.
    + intros k1 k2 i' H6 H7.
      at_key key k1; at_key key k2; simplify_eq; try done; try (by eapply H5);
        match goal with H : _ !! _ = Some (next_entry s) |- _ => specialize (H4 _ _ H); lia end.
Qed.

(** A goroutine changes its phase, and the holder of its entry. *)
Lemma phase_ok s t key i p p' e o :
  keyed_ok s → lockers s !! t = Some (key, i, p) → heap s !! i = Some e →
  (p' = Holding → o = Some t ∧ holder_ e = None) → (p' ≠ Holding → p = Holding) →
  keyed_ok (set_entry s i (KeyedLock (users e) o) (<[t := (key, i, p')]> (lockers s))).
Proof.
  intros [H1 H2 H3 H4 H5] Ht He Hhold Hrel. split; unfold at_entry in *; cbn; try done.
  - intros t' k' i' q. at_key t t'; [|apply H1]. intros [= <- <- <-]. by eapply H1.
  - intros k' i' Hk'. rewrite (at_phase _ _ _ _ _ _ _ Ht). destruct (H2 _ _ Hk') as (e' & He' & Hu & Hp).
    at_key i i'; [|eauto]. simplify_eq. eexists. split; [done|]. by cbn.
  - intros t' k' i' e'. at_key t t'.
    + intros [= <- <- ->]. rewrite lookup_insert_eq. intros [= <-]. cbn. by apply Hhold.
    + intros Hl He'. at_key i i'; [|by eapply H3]. simplify_eq. cbn.
      pose proof (H3 _ _ _ _ Hl He) as Hh. destruct (decide (p' = Holding)) as [Hp|Hp].
      * destruct (Hhold Hp). congruence.
      * rewrite (Hrel Hp) in Ht. pose proof (H3 _ _ _ _ Ht He). congruence.
Qed.

Lemma lock_leave_ok s t key i :
  keyed_ok s → lockers s !! t = Some (key, i, Releasing) → keyed_ok (lock_leave t key i s).
Proof.
  intros [H1 H2 H3 H4 H5] Ht. pose proof (H1 _ _ _ _ Ht) as Hm.
  destruct (H2 _ _ Hm) as (e & He & Hu & Hp). unfold lock_leave. rewrite He.
  assert (Hd : ∀ j, size (at_entry j s) = ((if decide (i = j) then 1 else 0) +
    size (filter (λ x : string * (string * nat * phase), x.2.1.2 = j) (delete t (lockers s))))%nat).
  { intros j. by apply (at_delete _ _ key _ Releasing). }
  pose proof (Hd i) as Hdi. rewrite decide_True, <-Hu in Hdi by done.
  assert (Hkeep : ∀ t' k' i' p, t' ≠ t → lockers s !! t' = Some (k', i', p) →
    (if (users e - 1 =? 0)%nat then delete key (mutexes s) else mutexes s) !! k' = Some i').
  { intros t' k' i' p Hne Hl. pose proof (H1 _ _ _ _ Hl) as Hm'. destruct (Nat.eqb_spec (users e - 1) 0); [|done].
    at_key key k'; [|done]. assert (i' = i) as -> by congruence.
    assert (Hl' : delete t (lockers s) !! t' = Some (key, i, p)) by (by rewrite lookup_delete_ne).
    pose proof (at_positive _ _ _ _ _ Hl'). lia. }
  split; unfold at_entry in *; cbn.
  - intros t' k' i' p. at_key t t'; [done|]. by apply Hkeep.
  - intros k' i' Hk'. assert (Hk : mutexes s !! k' = Some i').
    { destruct (_ =? 0)%nat; [|done]. by apply lookup_delete_Some in Hk' as [_ ?]. }
    destruct (H2 _ _ Hk) as (e' & He' & Hu' & Hp'). rewrite Hd in Hu'. at_key i i'.
    + simplify_eq. eexists. split; [done|]. cbn. rewrite decide_True in Hu' by done.
      assert (key = k') as <- by (by eapply H5). destruct (Nat.eqb_spec (users e - 1) 0); [|lia].
      by rewrite lookup_delete_eq in Hk'.
    + rewrite decide_False in Hu' by congruence. eauto.
  - intros t' k' i' e'. at_key t t'; [done|]. intros Hl He'. at_key i i'; [|by eapply H3].
    simplify_eq. cbn. by eapply H3.
  - intros k' i' Hk'. destruct (_ =? 0)%nat; [apply lookup_delete_Some in Hk' as [_ Hk']|]; by eapply H4.
  - intros k1 k2 i'. destruct (_ =? 0)%nat; [|apply H5]. rewrite !lookup_delete_Some. intros [_ ?] [_ ?]. by eapply H5.
Qed.

Lemma keyed_keyed_ok s : keyed s → keyed_ok s.
Proof.
  induction 1 as [|s s' _ IH Hs]; [by split|].
  destruct Hs as [s t key Ht|s t key i n Ht Hi|s t key i n o Ht Hi|s t key i Ht].
  - by apply lock_enter_ok.
  - by apply (phase_ok s t key i Waiting Holding (KeyedLock n None)).
  - by apply (phase_ok s t key i Holding Releasing (KeyedLock n o)).
  - by apply lock_leave_ok.
Qed.

(** The per-key lock excludes, and keeps no entry for a key that is not in
    use: two goroutines inside the lock of a key are the same; a goroutine that
    waits, holds or releases finds its entry under its key; and every key has
    an entry with as many users as goroutines use it, which is at least one. *)
Theorem keyed_mutex_exclusive s :
  keyed s →
  (∀ t t' key i i', lockers s !! t = Some (key, i, Holding) → lockers s !! t' = Some (key, i', Holding) → t = t') ∧
  (∀ t key i p, lockers s !! t = Some (key, i, p) → mutexes s !! key = Some i) ∧
  (∀ key i, mutexes s !! key = Some i → ∃ t p, lockers s !! t = Some (key, i, p)).
Proof.
  intros Hk%keyed_keyed_ok. split_and!.
  - intros t t' key i i' H1 H2. pose proof (ko_entry _ Hk _ _ _ _ H1) as Hi. pose proof (ko_entry _ Hk _ _ _ _ H2).
    assert (i' = i) as -> by congruence. destruct (ko_users _ Hk _ _ Hi) as (e & He & _).
    pose proof (ko_holder _ Hk _ _ _ _ H1 He). pose proof (ko_holder _ Hk _ _ _ _ H2 He). congruence.
  - intros t key i p. apply ko_entry, Hk.
  - intros key i Hi. destruct (ko_users _ Hk _ _ Hi) as (e & He & Hu & Hp). rewrite Hu in Hp.
    destruct (map_choose (at_entry i s)) as (t & [[k1 i1] p1] & Ht).
    { intros E. rewrite E, map_size_empty in Hp. lia. }
    apply map_lookup_filter_Some in Ht as [Ht Hi1]. cbn in Hi1. subst i1. exists t, p1.
    pose proof (ko_entry _ Hk _ _ _ _ Ht) as Hi'. by rewrite (ko_inj _ Hk _ _ _ Hi Hi').
Qed.

(** [a] holds the lock of a room while [b] waits for it. *)
Definition contended : kstate :=
  let s := lock_enter "b" room (lock_enter "a" room (KState ∅ ∅ ∅ 0)) in
  set_entry s 0 (KeyedLock 2 (Some "a")) (<["a" := (room, 0%nat, Holding)]> (lockers s)).

Lemma contended_keyed : keyed contended.
Proof.
  unfold contended. eapply keyed_step; [|apply (k_take _ "a"); vm_compute; reflexivity].
  eapply keyed_step; [|apply k_enter; vm_compute; reflexivity].
  eapply keyed_step; [apply keyed_start|]. apply k_enter. vm_compute; reflexivity.
Qed.

Lemma keyed_mutex_exclusive_witness :
  lockers contended !! "b" = Some (room, 0%nat, Waiting) ∧
  ∀ t t' key i i', lockers contended !! t = Some (key, i, Holding) →
    lockers contended !! t' = Some (key, i', Holding) → t = t'.
Proof. split; [vm_compute; reflexivity|]. exact (proj1 (keyed_mutex_exclusive contended contended_keyed)). Defined.
