(* ===== verification/TwitchIrc.v ===== *)
(** * Reading Twitch chat

    Models agent/internal/handler: how a channel is joined (twitch.go,
    handler.go) and the documents of chat events (documents.go), with the
    cancellation test of agent/internal/cancel and the token source of
    agent/internal/auth. The IRC client of go-twitch-irc is an environment:
    [joinWithContext] is a step relation over what it calls back. *)

From stdpp Require Import base gmap strings list.
From Stdlib Require Import Ascii.
From S2P Require Import Prelude GoErr GoTime Effects Store JsonText ChatMessage Manager.

(** ** Joining one connection: joinWithContext

    [jc_conn] is the library's connection, which may be lost and opened again
    by its own loop until Connect returns. *)

Inductive chat_state := Idle | Open | Ended.
#[export] Instance chat_state_eq_dec : EqDecision chat_state.
Proof. solve_decision. Defined.

Record joining := Joining {
  jc_conn : chat_state;
  jc_success : bool;                          (* the channel success is closed *)
  jc_abandoned : bool;                        (* abandoned is closed *)
  jc_finished : option (option error);        (* what Connect returned *)
  jc_result : option (option error);          (* what joinWithContext returned *)
  jc_room : bool                              (* a ROOMSTATE of the channel came *)
}.

Definition not_joined : joining := Joining Idle false false None None false.

(** disconnectChat: a connection that is not open stays so. *)
Definition disconnectChat (c : chat_state) : chat_state :=
  match c with Open => Ended | c => c end.

(** The callbacks. *)
Definition OnConnect (s : joining) : joining :=
  Joining (if jc_abandoned s then disconnectChat Open else Open) (jc_success s) (jc_abandoned s)
    (jc_finished s) (jc_result s) (jc_room s).
Definition OnRoomState (channel of_ : string) (s : joining) : joining :=
  if negb (String.eqb of_ channel) then s
  else if jc_abandoned s then
    Joining (disconnectChat (jc_conn s)) (jc_success s) true (jc_finished s) (jc_result s) true
  else Joining (jc_conn s) true false (jc_finished s) (jc_result s) true.

Inductive join_step (channel : string) : joining → joining → Prop :=
  | join_connected s : jc_conn s = Idle → jc_finished s = None → join_step channel s (OnConnect s)
  | join_room s of_ : jc_conn s = Open → join_step channel s (OnRoomState channel of_ s)
  (* the library lost the connection and will open another *)
  | join_lost s : jc_conn s = Open →
      join_step channel s (Joining Idle (jc_success s) (jc_abandoned s) (jc_finished s) (jc_result s) (jc_room s))
  (* Connect returns *)
  | join_finished s e : jc_finished s = None →
      join_step channel s (Joining Ended (jc_success s) (jc_abandoned s) (Some e) (jc_result s) (jc_room s))
  (* the select *)
  | join_success s : jc_result s = None → jc_success s = true →
      join_step channel s (Joining (jc_conn s) true (jc_abandoned s) (jc_finished s) (Some None) (jc_room s))
  | join_failed s e : jc_result s = None → jc_finished s = Some e →
      join_step channel s (Joining (jc_conn s) (jc_success s) (jc_abandoned s) (jc_finished s)
        (Some (Some (match e with None => ErrMsg "connection ended before joining" | Some e => e end))) (jc_room s))
  | join_timeout s : jc_result s = None →
      join_step channel s (Joining (jc_conn s) (jc_success s) true (jc_finished s) (jc_result s) (jc_room s))
  | join_abandon s e : jc_result s = None → jc_abandoned s = true →
      join_step channel s (Joining (disconnectChat (jc_conn s)) (jc_success s) true (jc_finished s)
                             (Some (Some e)) (jc_room s)).

Inductive joining_reachable (channel : string) : joining → Prop :=
  | joining_start : joining_reachable channel not_joined
  | joining_next s s' : joining_reachable channel s → join_step channel s s' → joining_reachable channel s'.

(** What the states of a join satisfy: an abandoned or failed join has no open
    connection, and one that succeeded saw the channel's ROOMSTATE. *)
Definition joining_ok (s : joining) : Prop :=
  (∀ e, jc_result s = Some (Some e) → jc_conn s ≠ Open ∧ (jc_abandoned s = true ∨ jc_conn s = Ended)) ∧
  (∀ e, jc_finished s = Some e → jc_conn s = Ended) ∧
  (jc_success s = true → jc_room s = true) ∧
  (jc_result s = Some None → jc_success s = true).

Lemma joining_reachable_ok channel s : joining_reachable channel s → joining_ok s.
Proof.
  induction 1 as [|s s' _ IH Hs]; [by split_and!|]. destruct IH as (H1 & H2 & H3 & H4).
  destruct Hs as [s Hc Hf|s of_ Hc|s Hc|s e Hf|s Hr Hsu|s e Hr Hf|s Hr|s e Hr Ha];
    unfold joining_ok, OnConnect, OnRoomState, disconnectChat in *; cbn.
  - split_and!; [|congruence|done|done]. intros e He. destruct (H1 _ He) as [_ [->|?]]; [by auto|congruence].
  - destruct (negb _); [by split_and!|]. destruct (jc_abandoned s) eqn:Ea; cbn; split_and!; try done.
    + intros e He. destruct (H1 _ He). congruence.
    + intros e He. specialize (H2 _ He). congruence.
  - split_and!; [|intros e He; specialize (H2 _ He); congruence|done|done].
    intros e He. destruct (H1 _ He). congruence.
  - split_and!; [|done|done|done]. intros e' He. split; [done|by right].
  - split_and!; naive_solver.
  - split_and!; [|done|done|done]. intros e' [= _]. rewrite (H2 _ Hf). split; [done|by right].
  - split_and!; [congruence|done|done|congruence].
  - split_and!; [|intros e' He; by rewrite (H2 _ He)|done|done].
    intros e' _. destruct (jc_conn s); split; try done; by left.
Qed.

(** A join that failed leaves no connection behind: once joinWithContext
    returned an error the connection is not open, and stays that way however
    the IRC library goes on; and it returns success only after the server
    confirmed the channel. *)
Theorem join_no_leak channel s :
  joining_reachable channel s →
  (∀ e, jc_result s = Some (Some e) → jc_conn s ≠ Open) ∧
  (jc_result s = Some None → jc_room s = true).
Proof.
  intros (H1 & _ & H3 & H4)%joining_reachable_ok. split.
  - intros e He. by destruct (H1 _ He).
  - intros Hr. auto.
Qed.

(** The connection opens only after the join was given up. *)
Definition late_connect : joining := Joining Ended false true None (Some (Some ErrDeadline)) false.

Lemma join_no_leak_witness :
  joining_reachable "room" late_connect ∧ jc_conn late_connect ≠ Open.
Proof.
  assert (R : joining_reachable "room" late_connect).
  { eapply joining_next; [eapply joining_next; [eapply joining_next; [apply joining_start|]|]|].
    - by apply (join_timeout "room" not_joined).
    - by apply (join_abandon "room" (Joining Idle false true None None false) ErrDeadline).
    - by apply (join_connected "room" (Joining Idle false true None (Some (Some ErrDeadline)) false)). }
  split; [exact R|]. exact (proj1 (join_no_leak "room" late_connect R) ErrDeadline eq_refl).
Defined.

(** ** Which identity reads a channel *)

Inductive heff : Type → Type :=
  | HDb {A} (op : db A) : heff A
  | HAccess (uid : string) : heff (result string)          (* provider.AccessToken *)
  | HValidate (token : string) : heff (result Z)           (* id.twitch.tv/oauth2/validate *)
  | HExpired (token : string) : heff bool                  (* !token.Valid() *)
  | HWaitForAuth (login : string) : heff (option error)
  | HJoin (login token channel : string) : heff (option error)   (* h.chat, h.bind, joinWithContext *)
  | HAppToken : heff (result string)
  | HUser (token login : string) : heff (result string)    (* its id, or nothing *)
  | HContext : heff (option error)
  | HPause (d : duration) : heff (option error).

Definition realtimechat : string := "JSdHKOEgwcZijVsuXXdftmizt6E3".

Section Join.
Context (η : env heff).
Local Abbreviation M := (M (world heff unit)).

(** The token source of auth/twitch.go. *)
Definition validateToken (token : string) : M (result unit) :=
  status ←? ask η (HValidate token);
  if negb (status =? 200) then throw (ErrMsg "invalid token") else ok tt.
Definition Token (uid : string) : M (result string) :=
  access ←? ask η (HAccess uid);
  validateToken access ;? ok access.

Definition twitchProfile (data : doc) : result doc :=
  match field data "twitch" with VMap p => inr p | _ => inl (ErrMsg "invalid twitch profile") end.
Definition profile (uid : string) : M (result doc) :=
  d ←? db_ η (@HDb) (Get ("profiles/" +:+ uid));
  mret (twitchProfile d).

Definition nonempty_field (d : doc) (k : string) : option string :=
  match field d k with VString s => if String.eqb s "" then None else Some s | _ => None end.

Definition exists_ (login : string) : M (result bool) :=
  token ←? ask η HAppToken;
  id ←? ask η (HUser token login);
  ok (negb (String.eqb id "")).

(** Of the environment: WaitForAuth is set, as main.go sets it. *)
Definition JoinAsUser (id uid : string) : M (result client_kind) :=
  data ←? profile uid;
  match nonempty_field data "login" with
  | None => throw (ErrMsg "invalid twitch login")
  | Some login =>
    if negb (String.eqb login "realtimechat") && negb (is_some (nonempty_field data "id"))
    then throw (ErrMsg "invalid twitch id")
    else
      token ←? Token uid;
      e ← ask η (HWaitForAuth login);
      match e with
      | Some e => throw (ErrWrap "wait for IRC authentication slot" e)
      | None =>
        expired ← ask η (HExpired token);
        token ←? (if (expired : bool) then Token uid else ok token);
        e ← ask η (HJoin login token (Channel id));
        match e with
        | Some e => throw e
        | None => ok (if String.eqb login "realtimechat" then Anonymous else Authenticated)
        end
      end
  end.

(** The attempts of JoinAnonymously from number [attempt]; [last] is the last
    error. *)
Fixpoint join_attempts (n : nat) (attempt : Z) (id : string) (last : error) : M (result client_kind) :=
  match n with
  | O => throw last
  | S n =>
    e ← ask η HContext;
    match e with
    | Some e => throw e
    | None =>
      e ← ask η (HJoin "" "" (Channel id));
      match e with
      | None => ok Anonymous
      | Some e =>
        gone ← (if (attempt =? 0) && is_deadline e then
                  x ← exists_ (Channel id);
                  mret (match x with inr found => negb found | inl _ => false end)
                else mret false);
        if (gone : bool) then throw ErrChannelUnavailable
        else if attempt <? 2 then
          p ← ask η (HPause ((attempt + 1) * second));
          match p with
          | Some p => throw p
          | None => join_attempts n (attempt + 1) id e
          end
        else join_attempts n (attempt + 1) id e
      end
    end
  end.
Definition JoinAnonymously (id : string) : M (result client_kind) := join_attempts 3 0 id ErrCanceled.

Definition lookup_profile (login : string) : M (result string) :=
  l ←? db_ η (@HDb) (Query "profiles" [("twitch.login", "==", VString login)] 0);
  match l with
  | (uid, _) :: _ => ok uid
  | [] => throw ErrIteratorDone
  end.

(** newClientWithFallbacks, as NewClient calls it. *)
Definition NewClient (id : string) : M (result client_kind) :=
  a ← JoinAnonymously id;
  match a with
  | inr c => ok c
  | inl e =>
    if IsCanceled e || is_channel_unavailable e then throw e
    else
      uid ← lookup_profile (Channel id);
      own ← match uid with
            | inl e => throw e
            | inr uid => JoinAsUser id uid
            end;
      match own with
      | inr c => ok c
      | inl _ =>
        bot ← JoinAsUser id realtimechat;
        match bot with
        | inr c => ok c
        | inl _ => throw (ErrMsg "failed to join channel")
        end
      end
  end.
End Join.

(** *** The discipline of joins *)

Definition join_answer (e : ev heff) : option (option error) :=
  match e with Ev op a =>
    match op in heff A return A → option (option error) with HJoin _ _ _ => λ a, Some a | _ => λ _, None end a
  end.
Definition joins (t : trace heff) : nat :=
  List.length (List.filter (λ e, is_some (join_answer e)) t).
Definition wins (t : trace heff) : nat :=
  List.length (List.filter (λ e, match join_answer e with Some None => true | _ => false end) t).

(** A token that the provider service returned for a profile, and that Twitch
    accepted. *)
Definition vouched (uid token : string) (t : trace heff) : Prop :=
  Ev (HAccess uid) (inr token) ∈ t ∧ Ev (HValidate token) (inr 200) ∈ t.
Definition profile_login (uid login : string) (t : trace heff) : Prop :=
  ∃ d p, Ev (HDb (Get ("profiles/" +:+ uid))) (inr d) ∈ t ∧ field d "twitch" = VMap p ∧ field p "login" = VString login.

Definition join_ok (id : string) (t : trace heff) (e : ev heff) : Prop :=
  match e with
  | Ev op _ =>
    match op with
    | HJoin login token channel =>
      channel = Channel id ∧ wins t = 0%nat ∧
      ((login = "" ∧ token = "") ∨
       (login ≠ "" ∧ Ev (HWaitForAuth login) None ∈ t ∧ ∃ uid, profile_login uid login t ∧ vouched uid token t))
    | _ => True
    end
  end.

Definition base (k : nat) (t : trace heff) : Prop := (joins t <= k)%nat ∧ wins t = 0%nat.
Definition outcome {A} (k : nat) (r : result A) (t : trace heff) : Prop :=
  (joins t <= k)%nat ∧ wins t = match r with inl _ => 0%nat | inr _ => 1%nat end.

Definition joinless {A} (op : heff A) : Prop := match op with HJoin _ _ _ => False | _ => True end.

Lemma base_listen k {A} (op : heff A) a t : joinless op → base k t → base k (Ev op a :: t).
Proof. unfold base, joins, wins. by destruct op. Qed.
Lemma base_outcome {A} k (e : error) t : base k t → outcome k (inl e : result A) t.
Proof. done. Qed.
Lemma voucher_stable uid token : stable (vouched uid token).
Proof. intros e t [? ?]. split; by apply list_elem_of_further. Qed.
Lemma profile_login_stable uid login : stable (profile_login uid login).
Proof. intros e t (d & p & ? & ? & ?). exists d, p. split_and!; [by apply list_elem_of_further|done..]. Qed.
Lemma event_stable (e : ev heff) : stable (λ t, e ∈ t).
Proof. intros e' t H. by apply list_elem_of_further. Qed.

Section JoinProof.
Context (η : env heff) (id : string).
Local Abbreviation runs := (runs (S:=unit) (join_ok id)).

(** An effect that is not a join keeps the counts and stable facts. *)
Lemma runs_listen {A B} (op : heff A) (f : A → M (world heff unit) B) k (G : trace heff → Prop) Q :
  joinless op → stable G →
  (∀ a, runs (λ t, base k t ∧ G t ∧ Ev op a ∈ t) (f a) Q) → runs (λ t, base k t ∧ G t) (ask η op ≫= f) Q.
Proof.
  intros Ho. apply runs_step. intros t a Hb _. split; [by destruct op|by apply base_listen].
Qed.

(** A program that gave up without joining. *)
Lemma runs_gave_up {A} k n (G : trace heff → Prop) e :
  (k <= n)%nat → runs (λ t, base k t ∧ G t) (mret (inl e : result A)) (outcome n).
Proof. intros Hn. apply runs_ret. intros t [[Hj Hw] _]. split; [lia|done]. Qed.

(** A join, last in its program. *)
Lemma runs_join {A} login token k (G : trace heff → Prop) (a : A) :
  (∀ t, G t → (login = "" ∧ token = "") ∨
     (login ≠ "" ∧ Ev (HWaitForAuth login) None ∈ t ∧ ∃ uid, profile_login uid login t ∧ vouched uid token t)) →
  runs (λ t, base k t ∧ G t)
    (ask η (HJoin login token (Channel id)) ≫= λ e, match e with Some e => mret (inl e) | None => mret (inr a) end)
    (outcome (S k)).
Proof.
  intros HG. eapply (runs_ask_bind _ _ _ _ _ (λ e t, outcome (S k) (match e with Some e => inl e | None => inr a end) t)).
  - intros t e [[Hj Hw] Hg]. split; [split_and!; [done..|by apply HG]|].
    unfold outcome, joins, wins in *. destruct e; cbn; rewrite Hw; split; try done; lia.
  - intros [e|]; by apply runs_ret.
Qed.

Ltac quiet := unfold db_; walk_norm; apply runs_listen; [exact I|solve [auto 20 with effects]|intros ?].
Ltac give_up_ := solve [apply runs_gave_up; lia].

Lemma runs_JoinAsUser uid k : runs (base k) (JoinAsUser η id uid) (outcome (S k)).
Proof.
  apply runs_conseq with (λ t, base k t ∧ True) (outcome (S k)); [|done|done].
  unfold JoinAsUser, profile, Token, validateToken. quiet. walk_norm; try give_up_.
  do 3 (quiet; walk_norm; try give_up_). quiet. walk_norm; [do 2 (quiet; walk_norm; try give_up_)|].
  all: apply runs_join; intros t Ht; right; simplify_eq;
    repeat match goal with H : negb (_ =? 200) = false |- _ => apply negb_false_iff, Z.eqb_eq in H as -> end;
    unfold twitchProfile, nonempty_field in *; split_and!; [|naive_solver|exists uid; split; [|split; naive_solver]].
  all: repeat (case_match; simplify_eq); try (by apply String.eqb_neq).
  all: eexists _, _; split_and!; [naive_solver|eassumption|eassumption].
Qed.

Definition unavailable_from (channel : string) (t : trace heff) : Prop :=
  (* the first join timed out and Helix has no such user *)
  (∃ token e, Ev (HUser token channel) (inr "") ∈ t ∧ Ev (HJoin "" "" channel) (Some e) ∈ t ∧ is_deadline e = true) ∨
  (* or one of these errors says so itself *)
  ∃ e, is_channel_unavailable e = true ∧
    (Ev HContext (Some e) ∈ t ∨ (∃ d, Ev (HPause d) (Some e) ∈ t) ∨ Ev (HJoin "" "" channel) (Some e) ∈ t).

Lemma runs_join_attempts n attempt k last (G : trace heff → Prop) :
  stable G → (0 < attempt → is_channel_unavailable last = true → ∀ t, G t → unavailable_from (Channel id) t) →
  (attempt = 0 → (0 < n)%nat) → 0 <= attempt →
  runs (λ t, base k t ∧ G t) (join_attempts η n attempt id last)
    (λ r t, outcome (n + k) r t ∧ ∀ e, r = inl e → is_channel_unavailable e = true → unavailable_from (Channel id) t).
Proof.
  revert attempt k last G. induction n as [|n IH]; intros attempt k last G HG Hlast Hn Hpos; cbn [join_attempts].
  { apply runs_ret. intros t [Hb Hg]. split; [by apply base_outcome|]. intros e [= <-] He.
    apply Hlast; [|done|done]. destruct (decide (attempt = 0)) as [E|]; [specialize (Hn E); lia|lia]. }
  quiet. walk_norm.
  { apply runs_ret. intros t ([Hj Hw] & Hg & Ht). split; [split; [lia|done]|]. intros e' [= <-] He. right. eauto. }
  set (J e := Ev (HJoin "" "" (Channel id)) e).
  apply runs_ask_bind with (λ e t, match e with
    | None => outcome (S k) (inr Anonymous : result client_kind) t
    | Some e => base (S k) t ∧ (G t ∧ J (Some e) ∈ t) end).
  { intros t e ([Hj Hw] & Hg & _). split; [split_and!; [done..|by left]|].
    unfold outcome, base, joins, wins in *. destruct e; cbn; rewrite ?Hw; [|split; [lia|done]].
    split_and!; [lia|done|by apply HG|apply list_elem_of_here]. }
  intros [e|].
  2:{ apply runs_ret. intros t [Hj Hw]. split; [split; [lia|done]|done]. }
  assert (HGJ : stable (λ t, G t ∧ J (Some e) ∈ t)) by auto with effects.
  apply runs_bind with (λ gone t, base (S k) t ∧ (G t ∧ J (Some e) ∈ t) ∧
    (gone = true → unavailable_from (Channel id) t)).
  { destruct (_ && _) eqn:Eg; [|apply runs_ret; naive_solver]. apply andb_true_iff in Eg as [_ Ed].
    unfold exists_. quiet. walk_norm; [apply runs_ret; naive_solver|]. quiet. walk_norm; [apply runs_ret; naive_solver|].
    apply runs_ret. intros t (Hb & ((Hg & _) & Hu)). split_and!; [done|naive_solver|naive_solver|].
    rewrite negb_involutive. intros ->%String.eqb_eq. left. destruct Hg. eexists _, e. split_and!; [exact Hu|done..]. }
  intros [|].
  { apply runs_ret. intros t ([Hj Hw] & _ & Hgone). split; [split; [lia|done]|]. naive_solver. }
  assert (Hloop : ∀ F', (∀ t, F' t → base (S k) t ∧ G t ∧ J (Some e) ∈ t) →
    runs F' (join_attempts η n (attempt + 1) id e) (λ r t, outcome (S n + k) r t ∧
      ∀ e, r = inl e → is_channel_unavailable e = true → unavailable_from (Channel id) t)).
  { intros F' HF'. eapply runs_conseq; [apply (IH (attempt + 1) (S k) e _ HGJ)|exact HF'|]; try lia.
    - intros _ He t Ht. right. exists e. split; [done|]. do 2 right. by apply Ht.
    - intros r t [[Hj Hw] Hr]. split; [split; [lia|done]|done]. }
  destruct (attempt <? 2); [|apply Hloop; naive_solver].
  eapply runs_conseq with (F' := λ t, base (S k) t ∧ (G t ∧ J (Some e) ∈ t)); [|naive_solver|intros ? ? Hx; exact Hx].
  quiet. walk_norm; [|apply Hloop; naive_solver].
  apply runs_ret. intros t ([Hj Hw] & _ & Hp). split; [split; [lia|done]|]. intros e' [= <-] He. right. eauto 10.
Qed.

Lemma runs_NewClient :
  runs (λ t, base 0 t ∧ True) (NewClient η id)
    (λ r t, outcome 5 r t ∧ (r = inl ErrChannelUnavailable → unavailable_from (Channel id) t)).
Proof.
  unfold NewClient, JoinAnonymously.
  eapply runs_bind; [apply (runs_join_attempts 3 0 0 ErrCanceled (λ _, True)); auto with effects; lia|].
  intros [e|c]; [|apply runs_ret; intros t [[Hj Hw] _]; split; [split; [lia|done]|done]].
  destruct (_ || _).
  { apply runs_ret. intros t [[Hj Hw] Hr]. split; [split; [lia|done]|]. intros [= ->]. by apply (Hr _ eq_refl). }
  apply runs_bind with (λ _, base 3).
  { eapply runs_conseq with (F' := λ t, base 3 t ∧ True); [|by intros t [? _]|intros ? ? Hx; exact Hx].
    unfold lookup_profile. quiet. walk_norm; apply runs_ret; naive_solver. }
  intros uid. apply runs_bind with (outcome (A:=client_kind) 4).
  { destruct uid as [e1|uid]; [|apply (runs_JoinAsUser uid 3)]. apply runs_ret. intros t [Hj Hw]. split; [lia|done]. }
  intros [e2|c].
  - apply runs_bind with (outcome (A:=client_kind) 5); [apply (runs_JoinAsUser realtimechat 4)|].
    intros [e3|c]; apply runs_ret; intros t [Hj Hw]; (split; [split; [lia|done]|done]).
  - apply runs_ret. intros t [Hj Hw]. split; [split; [lia|done]|done].
Qed.
End JoinProof.

(** However profiles, tokens, Helix and the IRC servers answer, joining a
    channel opens at most five connections, and none after one that joined: the
    result is a client exactly when the last join succeeded, so none is left
    behind. An identity is used only after its authentication slot was granted,
    with a token that was issued to the profile of that login and that Twitch
    validated. A channel is called unavailable only when its first join timed
    out and Helix has no such user, or when the answers say so themselves. *)
Theorem join_disciplined (η : env heff) id :
  let '(r, w) := NewClient η id (World [] tt) in
  justified (join_ok id) (w_tr w) ∧ (joins (w_tr w) <= 5)%nat ∧
  wins (w_tr w) = (match r with inl _ => 0%nat | inr _ => 1%nat end) ∧
  (r = inl ErrChannelUnavailable → unavailable_from (Channel id) (w_tr w)).
Proof.
  pose proof (runs_NewClient η id (World [] tt)) as H. destruct (NewClient η id (World [] tt)) as [r w].
  destruct H as (Hj & [H1 H2] & H3); [by split_and!|]. by split_and!.
Qed.

(** ** Documents of chat events: documents.go

    The messages of go-twitch-irc, with the fields the documents use. *)

Record user := User { user_ID : string; Name : string; DisplayName : string; Color : string; Badges : gmap string Z }.
Record reply := Reply {
  ParentMsgID : string; ParentDisplayName : string; ParentUserLogin : string; ParentUserID : string;
  ParentMsgBody : string
}.
Record chat_message := ChatMessage {
  cm_User : user;
  cm_RoomID : string;
  cm_ID : string;
  cm_Message : string;
  cm_Time : time;
  cm_Tags : gmap string string;
  (* of a PrivateMessage *)
  cm_Action : bool;
  cm_FirstMessage : bool;
  cm_Reply : option reply;
  (* of a UserNoticeMessage *)
  cm_MsgID : string;
  cm_MsgParams : gmap string string
}.
Record clear_chat := ClearChat { cc_RoomID : string; cc_Time : time; TargetUserID : string; TargetUsername : string }.

Record chatDocument := ChatDocument { doc_channel : string; doc_id : string; doc_data : doc }.

Definition twitch_id (id : string) : string := "twitch:" +:+ id.
Definition has_badge (u : user) (b : string) : value := VBool (0 <? default 0 (Badges u !! b)).

Definition author_value (u : user) : value :=
  VMap [("displayName", VString (DisplayName u)); ("userId", VString (user_ID u)); ("color", VString (Color u))].
Definition tags_value (m : chat_message) : value :=
  let u := cm_User m in
  VMap [("user-id", VString (user_ID u)); ("room-id", VString (cm_RoomID m)); ("display-name", VString (DisplayName u));
        ("color", VString (Color u)); ("username", VString (Name u));
        ("badges", VMap [("vip", has_badge u "vip"); ("moderator", has_badge u "moderator")]);
        ("emotes-raw", VString (header_get (cm_Tags m) "emotes")); ("badges-raw", VString (header_get (cm_Tags m) "badges"))].

Definition userNoticeDocument (m : chat_message) (now : time) : option chatDocument :=
  if String.eqb (cm_MsgID m) "announcement" then
    Some (ChatDocument (twitch_id (cm_RoomID m)) (twitch_id (cm_ID m))
      [("channelId", VString (twitch_id (cm_RoomID m)));
       ("annotations", VMap [("isAction", VBool false); ("isFirstTimeChatter", VBool false);
          ("announcement", VMap [("color", VString (header_get (cm_MsgParams m) "msg-param-color"))])]);
       ("author", author_value (cm_User m)); ("message", VString (cm_Message m)); ("timestamp", VTime (cm_Time m));
       ("tags", tags_value m); ("type", VString "message"); ("expiresAt", VTime (now + TTL))])
  else None.

Definition clearChatDocument (m : clear_chat) (now : time) : chatDocument :=
  let channelID := twitch_id (cc_RoomID m) in
  if negb (String.eqb (TargetUserID m) "") || negb (String.eqb (TargetUsername m) "") then
    ChatDocument channelID
      ("twitch:userclear-" +:+ format_rfc3339nano (cc_Time m) +:+ "-" +:+ TargetUserID m +:+ "-" +:+ TargetUsername m)
      [("channelId", VString channelID); ("targetUserId", VString (TargetUserID m)); ("timestamp", VTime (cc_Time m));
       ("type", VString "userclear"); ("expiresAt", VTime (now + TTL))]
  else
    ChatDocument channelID ("twitch:clear-" +:+ format_rfc3339nano (cc_Time m))
      [("channelId", VString channelID); ("timestamp", VTime (cc_Time m)); ("type", VString "clear");
       ("expiresAt", VTime (now + TTL))].

Definition clearMessageDocument (targetMsgID userID : string) (now : time) : chatDocument :=
  ChatDocument (twitch_id userID) ("twitch:x-" +:+ targetMsgID)
    [("channelId", VString (twitch_id userID)); ("timestamp", VServerTimestamp); ("type", VString "messagedeleted");
     ("messageId", VString (twitch_id targetMsgID)); ("expiresAt", VTime (now + TTL))].

Definition reply_value (r : option reply) : value :=
  match r with
  | None => VNull
  | Some r => VMap [("messageId", VString (twitch_id (ParentMsgID r))); ("displayName", VString (ParentDisplayName r));
                    ("userLogin", VString (ParentUserLogin r)); ("userId", VString (ParentUserID r));
                    ("message", VString (ParentMsgBody r))]
  end.

Definition privateMessageDocument (m : chat_message) (now : time) : chatDocument :=
  ChatDocument (twitch_id (cm_RoomID m)) (twitch_id (cm_ID m))
    [("channelId", VString (twitch_id (cm_RoomID m)));
     ("annotations", VMap [("isAction", VBool (cm_Action m)); ("isFirstTimeChatter", VBool (cm_FirstMessage m))]);
     ("author", author_value (cm_User m)); ("message", VString (cm_Message m)); ("reply", reply_value (cm_Reply m));
     ("timestamp", VTime (cm_Time m)); ("tags", tags_value m); ("type", VString "message");
     ("expiresAt", VTime (now + TTL))].

(** The write and its count: writeDocument. The answer of the hedged Create is
    whether another writer created the document, and the error. *)
Definition write_outcome (doc_ : option chatDocument) (answer : bool * option error) : Outcome :=
  match doc_, answer with
  | None, _ => Skipped
  | Some _, (_, Some _) => Failed
  | Some _, (true, None) => Duplicate
  | Some _, (false, None) => Created
  end.

(** What two replicas that receive one event agree on. *)
Definition agree (a b : chatDocument) : Prop :=
  doc_channel a = doc_channel b ∧ doc_id a = doc_id b ∧
  (∀ k, k ≠ "expiresAt" → field (doc_data a) k = field (doc_data b) k).

Lemma field_app_expires d t k :
  k ≠ "expiresAt" → field (d ++ [("expiresAt", VTime t)]) k = field d k.
Proof.
  intros Hk. induction d as [|[k' v] d IH]; cbn [field app].
  - by rewrite (proj2 (String.eqb_neq _ _)) by congruence.
  - by destruct (String.eqb k' k).
Qed.

(** All replicas that read a channel write an event to the same document, with
    the same fields but for the expiry, so that the hedged Create counts it
    once; the documents expire a week after they were written. *)
Theorem documents_agree m c target owner now now' :
  agree (privateMessageDocument m now) (privateMessageDocument m now') ∧
  agree (clearChatDocument c now) (clearChatDocument c now') ∧
  agree (clearMessageDocument target owner now) (clearMessageDocument target owner now') ∧
  match userNoticeDocument m now, userNoticeDocument m now' with
  | Some a, Some b => agree a b
  | None, None => cm_MsgID m ≠ "announcement"
  | _, _ => False
  end ∧
  field (doc_data (privateMessageDocument m now)) "expiresAt" = VTime (now + TTL) ∧
  field (doc_data (clearChatDocument c now)) "expiresAt" = VTime (now + TTL).
Proof.
  assert (Hf : ∀ d (t t' : time) k, k ≠ "expiresAt" →
    field (d ++ [("expiresAt", VTime t)]) k = field (d ++ [("expiresAt", VTime t')]) k)
    by (intros; by rewrite !field_app_expires).
  split_and!; unfold agree.
  - split_and!; [done..|]. intros k. apply (Hf [_; _; _; _; _; _; _; _]).
  - unfold clearChatDocument. destruct (_ || _); (split_and!; [done..|]); intros k;
      [apply (Hf [_; _; _; _])|apply (Hf [_; _; _])].
  - split_and!; [done..|]. intros k. apply (Hf [_; _; _; _]).
  - unfold userNoticeDocument. destruct (String.eqb_spec (cm_MsgID m) "announcement"); [|done].
    split_and!; [done..|]. intros k. apply (Hf [_; _; _; _; _; _; _]).
  - done.
  - unfold clearChatDocument. by destruct (_ || _).
Qed.
