(* ===== verification/TwitchEvents.v ===== *)
(** * Events of Twitch chat

    Models what agent/internal/handler does with the callbacks of an IRC client
    (bindEvents and writeDocument of twitch.go), the lookup of a channel's user
    (TwitchUserIDFromUsername of auth/twitch.go), and the emote sets that IRC
    reports (readEmoteSets of clients/twitch/irc.go). The documents are in
    TwitchIrc.v; the connection, the database, Twitch and the metrics are
    effects. *)

From stdpp Require Import base gmap strings list.
From Stdlib Require Import Ascii.
From S2P Require Import Prelude GoErr Json Effects Store JsonText HttpServer Text Url UrlParse ChatMessage TwitchIrc.

(** ** The user of a channel *)

Inductive weff : Type → Type :=
  | WDb {A} (op : db A) : weff A
  | WAppToken : weff (result string)                              (* client credentials *)
  | WUsers (token query : string) : weff (result (Z * string))    (* GET /helix/users: status and body *)
  | WNow : weff time
  | WCreate (channel id : string) (data : doc) : weff (bool * option error)   (* chatmessage.Create *)
  | WRecord (kind : string) (o : Outcome) : weff unit.

(** [profileString]. *)
Definition profileString (data : doc) (k : string) : result string :=
  match field data "twitch" with
  | VMap profile =>
    match nonempty_field profile k with Some s => inr s | None => inl (ErrMsg ("invalid twitch " +:+ k)) end
  | _ => inl (ErrMsg "invalid twitch profile")
  end.

(** The ids of a list of users. *)
Definition into_user (j : json) : option string := into_field "id" into_string "" j.
Definition decode_users (j : json) : option (list string) := into_field "data" (λ _, into_list into_user) [] j.
(** [json.NewDecoder(body).Decode]. *)
Definition decode_first {A} (f : json → option A) (body : string) : option A := '(j, _) ← json_prefix body; f j.

Section Events.
Context (η : env weff).
Local Abbreviation M := (M (world weff unit)).

(** The part that asks Twitch. *)
Definition user_from_twitch (username : string) : M (result string) :=
  token ← ask η WAppToken;
  match token with
  | inl e => throw (ErrWrap "failed to fetch auth token" e)
  | inr token =>
    r ← ask η (WUsers token ("login=" +:+ username));
    match r with
    | inl e => throw (ErrWrap "failed to fetch user" e)
    | inr (status, body) =>
      if negb (status =? 200) then throw (ErrMsg "failed to fetch user")
      else match decode_first decode_users body with
           | None => throw (ErrMsg "failed to decode response")
           | Some [] => throw (ErrMsg ("user not found: " +:+ username))
           | Some (id :: _) => ok id
           end
    end
  end.
Definition TwitchUserIDFromUsername (username : string) : M (result string) :=
  docs ← ask η (WDb (Query "profiles" [("twitch.login", "==", VString username)] 0));
  match docs with
  | inr ((_, d) :: _) => mret (profileString d "id")
  | _ => user_from_twitch username
  end.

(** ** bindEvents *)

Inductive chat_event :=
  | UserNotice (m : chat_message)
  | ClearChatEvent (m : clear_chat)
  | ClearMessage (channel target : string)
  | PrivateMessage (m : chat_message).

Definition kind_of (e : chat_event) : string :=
  match e with
  | UserNotice _ => "usernotice" | ClearChatEvent _ => "clearchat" | ClearMessage _ _ => "clearmsg" | PrivateMessage _ => "message"
  end.

(** [write] and [writeDocument]. *)
Definition writeDocument (kind : string) (d : option chatDocument) : M unit :=
  match d with
  | None => ask η (WRecord kind Skipped)
  | Some d =>
    a ← ask η (WCreate (doc_channel d) (doc_id d) (doc_data d));
    ask η (WRecord kind (write_outcome (Some d) a))
  end.

Definition on_event (e : chat_event) : M unit :=
  match e with
  | UserNotice m => now ← ask η WNow; writeDocument "usernotice" (userNoticeDocument m now)
  | ClearChatEvent m => now ← ask η WNow; writeDocument "clearchat" (Some (clearChatDocument m now))
  | ClearMessage channel target =>
    uid ← TwitchUserIDFromUsername channel;
    match uid with
    | inl _ => ask η (WRecord "clearmsg" Failed)
    | inr uid => now ← ask η WNow; writeDocument "clearmsg" (Some (clearMessageDocument target uid now))
    end
  | PrivateMessage m => now ← ask η WNow; writeDocument "message" (Some (privateMessageDocument m now))
  end.
End Events.

(** ** Emote sets over IRC *)

Inductive ieff : Type → Type :=
  | IDial (addr : string) : ieff (option error)
  | ISend (text : string) : ieff (option error)
  | IScan : ieff (option string)        (* the next line, or the end, a deadline included *)
  | IClose : ieff unit.

Definition cr : ascii := ascii_of_nat 13.
Definition lf : ascii := ascii_of_nat 10.
Definition crlf : string := String cr (String lf "").
Definition one_line (s : string) : bool := negb (contains_char s cr || contains_char s lf).

(** The sets that the tags of a line name. *)
Fixpoint emote_sets (tags : list string) : list string :=
  match tags with
  | [] => []
  | tag :: tags =>
    if has_prefix tag "emote-sets=" then
      let v := trim_prefix tag "emote-sets=" in if String.eqb v "" then [] else split_char "," v
    else emote_sets tags
  end.
Definition line_sets (line : string) : list string := emote_sets (split_char ";" (cut " " (drop_str 1 line)).1).

Section Emotes.
Context (η : env ieff).
Local Abbreviation M := (M (world ieff unit)).

(** The loop over the scanner, for at most [fuel] lines. *)
Fixpoint scan_sets (fuel : nat) : M (result (list string)) :=
  match fuel with
  | O => throw (ErrMsg "fuel")
  | S fuel =>
    line ← ask η IScan;
    match line with
    | None => throw (ErrMsg "IRC emote state unavailable")
    | Some line =>
      if has_prefix line "PING " then
        _ ← ask η (ISend ("PONG " +:+ trim_prefix line "PING " +:+ crlf)); scan_sets fuel
      else if negb (contains " GLOBALUSERSTATE" line) || negb (has_prefix line "@") then scan_sets fuel
      else ok (line_sets line)
    end
  end.

Definition login_text (token login : string) : string :=
  "CAP REQ :twitch.tv/tags twitch.tv/commands" +:+ crlf +:+ "PASS oauth:" +:+ token +:+ crlf +:+ "NICK " +:+ login +:+ crlf.
Definition readEmoteSets (fuel : nat) (token login : string) : M (result (list string)) :=
  if negb (one_line (token +:+ login)) then throw (ErrMsg "invalid IRC credentials")
  else
    e ← ask η (ISend (login_text token login));
    match e with Some e => throw e | None => scan_sets fuel end.

Definition EmoteSets (fuel : nat) (token login : string) : M (result (list string)) :=
  e ← ask η (IDial "irc.chat.twitch.tv:6697");
  match e with
  | Some e => throw e
  | None => r ← readEmoteSets fuel token login; ask η IClose ;; mret r
  end.
End Emotes.

(** ** Every event is recorded once *)

Definition creation (e : ev weff) : option (string * string * doc * (bool * option error)) :=
  match e with Ev op a =>
    match op in weff A return A → option (string * string * doc * (bool * option error)) with
    | WCreate c i d => λ a, Some (c, i, d, a) | _ => λ _, None
    end a
  end.
Definition record_of (e : ev weff) : option (string * Outcome) :=
  match e with Ev op _ => match op with WRecord k o => Some (k, o) | _ => None end end.
Definition creations (t : trace weff) := omap creation t.
Definition records (t : trace weff) := omap record_of t.

(** [uid] is the user of the channel: a profile with its login says so, or
    Twitch does. *)
Definition user_of (channel uid : string) (t : trace weff) : Prop :=
  (∃ p d docs, Ev (WDb (Query "profiles" [("twitch.login", "==", VString channel)] 0)) (inr ((p, d) :: docs)) ∈ t ∧
     profileString d "id" = inr uid) ∨
  (∃ token body ids, Ev WAppToken (inr token) ∈ t ∧ Ev (WUsers token ("login=" +:+ channel)) (inr (200, body)) ∈ t ∧
     decode_first decode_users body = Some (uid :: ids)).

(** The documents of an event. *)
Definition document_of (e : chat_event) (t : trace weff) (d : chatDocument) : Prop :=
  ∃ now, Ev WNow now ∈ t ∧
  match e with
  | UserNotice m => userNoticeDocument m now = Some d
  | ClearChatEvent m => d = clearChatDocument m now
  | ClearMessage channel target => ∃ uid, user_of channel uid t ∧ d = clearMessageDocument target uid now
  | PrivateMessage m => d = privateMessageDocument m now
  end.

Definition event_ok (e : chat_event) (t : trace weff) (x : ev weff) : Prop :=
  match creation x with
  | Some (c, i, d, _) => creations t = [] ∧ records t = [] ∧ document_of e t (ChatDocument c i d)
  | None =>
    match record_of x with
    | Some (k, o) => k = kind_of e ∧ records t = [] ∧
        match creations t with
        | [(_, _, _, a)] => o = write_outcome (Some (ChatDocument "" "" [])) a
        | [] => o = match e with ClearMessage _ _ => Failed | _ => Skipped end
        | _ => False
        end
    | None => True
    end
  end.

(** Nothing was written or recorded, and [G] holds. *)
Definition before (G : trace weff → Prop) (t : trace weff) : Prop := creations t = [] ∧ records t = [] ∧ G t.

Section EventProof.
Context (η : env weff) (e : chat_event).
Local Abbreviation runs := (runs (S:=unit) (event_ok e)).

Lemma user_of_stable c u : stable (user_of c u).
Proof. unfold user_of. auto 10 with effects. Qed.

(** An effect that neither writes nor records. *)
Lemma runs_look {A B} (op : weff A) (f : A → M (world weff unit) B) (G : trace weff → Prop) Q :
  (∀ a, creation (Ev op a) = None ∧ record_of (Ev op a) = None) → stable G →
  (∀ a, runs (before (λ t, G t ∧ Ev op a ∈ t)) (f a) Q) → runs (before G) (ask η op ≫= f) Q.
Proof.
  intros Ho HG Hf. eapply runs_ask_bind; [|exact Hf]. intros t a (Hc & Hr & Hg). destruct (Ho a) as [H1 H2].
  unfold event_ok, before, creations, records in *. cbn [omap list_omap]. rewrite H1, H2.
  split_and!; [done..|by apply HG|by left].
Qed.

(** The last effect. *)
Lemma runs_record k o G :
  k = kind_of e → o = (match e with ClearMessage _ _ => Failed | _ => Skipped end) →
  runs (before G) (ask η (WRecord k o)) (λ _ t, length (records t) = 1%nat).
Proof.
  intros -> ->. apply runs_ask. intros t (Hc & Hr & _). unfold event_ok. cbn. rewrite Hc. fold (records t). by rewrite Hr.
Qed.

Lemma runs_writeDocument G d :
  (∀ t, G t → document_of e t d) → stable G →
  runs (before G) (writeDocument η (kind_of e) (Some d)) (λ _ t, length (records t) = 1%nat).
Proof.
  intros HG HS. unfold writeDocument.
  apply runs_ask_bind with (λ a t, records t = [] ∧ creations t = [(doc_channel d, doc_id d, doc_data d, a)]).
  - intros t a (Hc & Hr & Hg). unfold event_ok. cbn. split_and!; [done..|by destruct d; apply HG|done|]. unfold creations in *. cbn.
    by rewrite Hc.
  - intros a. apply runs_ask. intros t [Hr Hc]. unfold event_ok. cbn. rewrite Hc. fold (records t). by rewrite Hr.
Qed.

Lemma runs_user_from_twitch channel G :
  stable G →
  runs (before G) (user_from_twitch η channel) (λ r t, before (λ t, ∀ uid, r = inr uid → user_of channel uid t) t).
Proof.
  intros HG. unfold user_from_twitch.
  apply runs_look; [done|done|]. intros [x|token]; [by apply runs_ret; intros t (? & ? & _)|].
  apply runs_look; [done|auto with effects|]. intros [x|[status body]]; [by apply runs_ret; intros t (? & ? & _)|].
  destruct (Z.eqb_spec status 200) as [->|]; cbn [negb]; [|by apply runs_ret; intros t (? & ? & _)].
  destruct (decode_first decode_users body) as [[|id ids]|] eqn:Hd; apply runs_ret; intros t (? & ? & [[_ Ht] Hu]);
    (split_and!; [done..|]); try done.
  intros uid [= ->]. right. by exists token, body, ids.
Qed.

Lemma runs_user channel :
  runs (before (λ _, True)) (TwitchUserIDFromUsername η channel)
    (λ r t, before (λ t, ∀ uid, r = inr uid → user_of channel uid t) t).
Proof.
  unfold TwitchUserIDFromUsername. apply runs_look; [done|auto with effects|].
  intros [x|[|[p d] docs]]; [apply runs_user_from_twitch; auto with effects..|].
  apply runs_ret. intros t (? & ? & [_ Hin]). split_and!; [done..|]. intros uid Hu. left. by exists p, d, docs.
Qed.
End EventProof.

(** Every chat event is recorded exactly once, under its kind and with what
    became of it, after at most one document was written; that document is the
    event's own, and for a deleted message it goes to the channel whose user a
    profile or Twitch named, or nowhere when neither does. *)
Theorem event_recorded (η : env weff) (e : chat_event) :
  let t := w_tr (on_event η e (World [] tt)).2 in
  justified (event_ok e) t ∧ length (records t) = 1%nat.
Proof.
  assert (H : runs (S:=unit) (event_ok e) (before (λ _, True)) (on_event η e) (λ _ t, length (records t) = 1%nat)).
  { destruct e as [m|m|channel target|m]; unfold on_event.
    - apply runs_look; [done|auto with effects|]. intros now. destruct (userNoticeDocument m now) as [d|] eqn:Hd.
      + apply (runs_writeDocument η (UserNotice m)); [|auto with effects]. intros t [_ Ht]. by exists now.
      + by apply runs_record.
    - apply runs_look; [done|auto with effects|]. intros now.
      apply (runs_writeDocument η (ClearChatEvent m)); [|auto with effects]. intros t [_ Ht]. by exists now.
    - eapply runs_bind; [apply runs_user|]. intros [x|uid]; [by apply runs_record|].
      apply runs_look; [done| |].
      { intros x t Hu u Eu. by apply user_of_stable, Hu. }
      intros now. apply (runs_writeDocument η (ClearMessage channel target)).
      + intros t [Hu Ht]. exists now. split; [done|]. exists uid. split; [by apply Hu|done].
      + intros x t [Hu Ht]. split; [|by right]. intros u Eu. by apply user_of_stable, Hu.
    - apply runs_look; [done|auto with effects|]. intros now.
      apply (runs_writeDocument η (PrivateMessage m)); [|auto with effects]. intros t [_ Ht]. by exists now. }
  by apply (H (World [] tt)).
Qed.

(** ** What the emote connection says *)

Definition sent_text (e : ev ieff) : option string :=
  match e with Ev op _ => match op with ISend s => Some s | _ => None end end.
Definition scanned_line (e : ev ieff) : option string :=
  match e with Ev op a => match op in ieff A return A → option string with IScan => λ a, a | _ => λ _, None end a end.
Definition scanned (t : trace ieff) : list string := omap scanned_line t.

Definition state_line (line : string) : bool :=
  negb (has_prefix line "PING ") && contains " GLOBALUSERSTATE" line && has_prefix line "@".

(** Only the login is sent, of credentials without line breaks, and answers to
    the PING that was just read. *)
Definition emote_ok (token login : string) (t : trace ieff) (e : ev ieff) : Prop :=
  ∀ text, sent_text e = Some text →
    (omap sent_text t = [] ∧ text = login_text token login ∧ one_line token = true ∧ one_line login = true) ∨
    (∃ rest pre, t = Ev IScan (Some ("PING " +:+ rest)) :: pre ∧ text = "PONG " +:+ rest +:+ crlf).

Lemma contains_char_app a b c : contains_char (a +:+ b) c = contains_char a c || contains_char b c.
Proof. induction a as [|x a IH]; [done|]. rewrite app_str_cons. cbn. by destruct (Ascii.eqb x c). Qed.
Lemma one_line_app a b : one_line (a +:+ b) = one_line a && one_line b.
Proof.
  unfold one_line. rewrite !contains_char_app.
  by destruct (contains_char a cr), (contains_char a lf), (contains_char b cr), (contains_char b lf).
Qed.

(** The result is that of the first state line that was read. *)
Definition first_state (r : result (list string)) (t : trace ieff) : Prop :=
  ∀ sets, r = inr sets → ∃ line earlier, scanned t = line :: earlier ∧ state_line line = true ∧
    sets = line_sets line ∧ Forall (λ l, state_line l = false) earlier.

Section EmoteProof.
Context (η : env ieff) (token login : string).
Local Abbreviation runs := (runs (S:=unit) (emote_ok token login)).
Definition no_state (t : trace ieff) : Prop := Forall (λ l, state_line l = false) (scanned t).

Lemma runs_scan fuel : runs no_state (scan_sets η fuel) first_state.
Proof.
  induction fuel as [|fuel IH]; cbn [scan_sets]; [by apply runs_ret|].
  apply runs_ask_bind with (λ line t,
    (∃ pre, t = Ev IScan line :: pre) ∧ match line with Some l => ∃ ls, scanned t = l :: ls ∧ Forall (λ l, state_line l = false) ls | None => True end).
  { intros t line Ht. split; [done|]. split; [by eexists|]. destruct line; [|done]. by exists (scanned t). }
  intros [line|]; [|by apply runs_ret].
  destruct (has_prefix line "PING ") eqn:Hp.
  - apply runs_ask_bind with (λ _, no_state); [|done]. intros t a ([pre ->] & ls & Hs & Hls).
    apply has_prefix_split in Hp as Hp'. split.
    + intros text [= <-]. right. eexists _, pre. split; [by rewrite Hp' at 1|done].
    + unfold no_state, scanned in *. cbn in *. injection Hs as <-. constructor; [|done]. unfold state_line. by rewrite Hp.
  - destruct (negb _ || negb _) eqn:Hn.
    + eapply runs_conseq; [exact IH| |done]. intros t (_ & ls & Hs & Hls). unfold no_state. rewrite Hs.
      constructor; [|done]. unfold state_line. rewrite Hp. apply orb_true_iff in Hn as [Hn|Hn]; apply negb_true_iff in Hn; rewrite Hn; [done|].
      apply andb_false_r.
    + apply orb_false_iff in Hn as [H1%negb_false_iff H2%negb_false_iff]. apply runs_ret. intros t (_ & ls & Hs & Hls) sets [= <-].
      exists line, ls. split_and!; [done| |done|done]. unfold state_line. by rewrite Hp, H1, H2.
Qed.

(** Reading the emote sets of a user says nothing on the IRC connection but
    the login, and that only for a token and a login that cannot contain further
    commands, and the answer to each PING, right after it was read; what it
    returns are the sets of the first state line that the server sent. *)
Theorem emote_sets_read fuel :
  let '(r, w) := EmoteSets η fuel token login (World [] tt) in
  justified (emote_ok token login) (w_tr w) ∧ first_state r (w_tr w).
Proof.
  assert (H : runs (λ t, t = []) (EmoteSets η fuel token login) first_state).
  { unfold EmoteSets. apply runs_ask_bind with (λ _ t, scanned t = [] ∧ omap sent_text t = []).
    { by intros t a ->. }
    intros [e|]; [by apply runs_ret|]. apply runs_bind with first_state.
    - unfold readEmoteSets. destruct (one_line (token +:+ login)) eqn:Ho; cbn; [|by apply runs_ret].
      rewrite one_line_app in Ho. apply andb_true_iff in Ho as [? ?].
      apply runs_ask_bind with (λ _, no_state).
      + intros t a [Hs Ht]. split; [intros text [= <-]; by left|].
        unfold no_state. change (Forall (λ l, state_line l = false) (scanned t)). by rewrite Hs.
      + intros [e|]; [by apply runs_ret|apply runs_scan].
    - intros r. apply runs_ask_bind with (λ _, first_state r); [|intros ?; by apply runs_ret]. intros t a Ht.
      split; [done|]. exact Ht. }
  specialize (H (World [] tt)). destruct (EmoteSets η fuel token login (World [] tt)) as [r w]. cbn in H.
  by apply H.
Qed.
End EmoteProof.

Example emote_state :
  let lines := [Some ":tmi.twitch.tv CAP * ACK :twitch.tv/tags"; Some "PING :tmi"; Some "@badges=;emote-sets=0,33;color= :tmi GLOBALUSERSTATE"] in
  let env : env ieff := λ A t op,
    match op in ieff A return A with
    | IDial _ | ISend _ => None
    | IScan => default None (lines !! length (scanned t))
    | IClose => tt
    end in
  let '(r, w) := EmoteSets env 5 "token" "login" (World [] tt) in
  r = inr ["0"; "33"] ∧
  omap sent_text (w_tr w) = ["PONG :tmi" +:+ crlf; login_text "token" "login"] ∧
  (EmoteSets env 5 ("token" +:+ crlf +:+ "JOIN #x") "login" (World [] tt)).1 = inl (ErrMsg "invalid IRC credentials").
Proof. vm_compute. done. Qed.

(** ** Reconnecting: installReconnect

    The token that the IRC client is given before it connects again, if any. *)
Definition installReconnect (η : env heff) (uid : string) : M (world heff unit) (option string) :=
  r ← Token η uid;
  mret (match r with inr token => Some ("oauth:" +:+ token) | inl _ => None end).
