(* ===== verification/WebServer.v ===== *)
(** * The server of all routes

    Models agent/internal/webhook/server.go and what cmd/main.go registers on
    its mux: the writer that remembers a status for the request log, the routes
    of the providers and of the other services, the health check, the recycling
    check, and the shutdown; with what they use of net/http's ResponseWriter
    and ServeMux. A path is modelled as it is written when it needs no
    escaping. *)

From stdpp Require Import base gmap strings list pretty.
From Stdlib Require Import Ascii.
From S2P Require Import Prelude GoErr Json Effects JsonText HttpServer Url.
From S2P Require Manager.

(** ** A response and its status

    A handler answers by a sequence of calls of its writer. *)

Inductive call := WriteHeader (status : Z) | Write (data : string).

(** net/http's writer: the status line that was sent, the informational ones
    before it, and the body. *)
Record writer := Writer { committed : option Z; informational : list Z; sent : string }.
Definition new_writer : writer := Writer None [] "".

(** What the client sees. *)
Definition client_status (w : writer) : Z := default 200 (committed w).

(** [None] is the panic on an invalid status. 101 ends the informational
    answers and is final. *)
Definition write_header (c : Z) (w : writer) : option writer :=
  if is_some (committed w) then Some w
  else if (c <? 100) || (999 <? c) then None
  else if (100 <=? c) && (c <=? 199) && negb (c =? 101) then Some (Writer None (informational w ++ [c]) (sent w))
  else Some (Writer (Some c) (informational w) (sent w)).

(** A status without a body. *)
Definition bodyless (c : Z) : bool := ((100 <=? c) && (c <=? 199)) || (c =? 204) || (c =? 304).
Definition write (data : string) (w : writer) : option writer :=
  let w := if is_some (committed w) then w else Writer (Some 200) (informational w) (sent w) in
  Some (if bodyless (client_status w) then w else Writer (committed w) (informational w) (sent w +:+ data)).

Definition call_writer (o : call) (w : writer) : option writer :=
  match o with WriteHeader c => write_header c w | Write d => write d w end.

(** [statusWriter]. *)
Record statusWriter := StatusWriter { ResponseWriter : writer; status : Z; wroteHeader : bool }.
Definition new_status_writer (w : writer) : statusWriter := StatusWriter w 200 false.

Definition status_write_header (c : Z) (s : statusWriter) : option statusWriter :=
  if wroteHeader s then Some s
  else if (100 <=? c) && (c <? 200) then
    (λ w, StatusWriter w (status s) false) <$> write_header c (ResponseWriter s)
  else (λ w, StatusWriter w c true) <$> write_header c (ResponseWriter s).
Definition status_write (data : string) (s : statusWriter) : option statusWriter :=
  s ← (if wroteHeader s then Some s else status_write_header 200 s);
  (λ w, StatusWriter w (status s) (wroteHeader s)) <$> write data (ResponseWriter s).

Definition call_status (o : call) (s : statusWriter) : option statusWriter :=
  match o with WriteHeader c => status_write_header c s | Write d => status_write d s end.

Fixpoint calls {W} (f : call → W → option W) (l : list call) (w : W) : option W :=
  match l with [] => Some w | o :: l => w ← f o w; calls f l w end.

(** What [LoggingMiddleware] answers for a handler that makes the calls [l],
    and the status and severity of its log line. *)
Record logged := Logged { response : writer; log_status : Z; log_error : bool }.
Definition LoggingMiddleware (l : list call) : option logged :=
  (λ s, Logged (ResponseWriter s) (status s) (500 <=? status s)) <$> calls call_status l (new_status_writer new_writer).

(** The wrapper and the wrapped writer. *)
Definition switches (o : call) : bool := match o with WriteHeader c => c =? 101 | Write _ => false end.
Definition wraps (s : statusWriter) : Prop :=
  wroteHeader s = is_some (committed (ResponseWriter s)) ∧ status s = client_status (ResponseWriter s).
(** After a final 101 the wrapper has no status yet. *)
Definition follows (s : statusWriter) : Prop := wroteHeader s = true → is_Some (committed (ResponseWriter s)).

Lemma call_transparent o s :
  follows s →
  match call_status o s with
  | Some s' => call_writer o (ResponseWriter s) = Some (ResponseWriter s') ∧ follows s'
  | None => call_writer o (ResponseWriter s) = None
  end.
Proof.
  destruct s as [[co inf snt] st wh]. unfold follows. cbn. intros Hf.
  destruct o as [c|d]; cbn; unfold status_write_header, status_write, write_header, write, client_status; cbn.
  - destruct wh; [destruct (Hf eq_refl) as [x ->]; by cbn|].
    destruct ((100 <=? c) && (c <? 200)) eqn:E; destruct co; cbn; try (split; [done|done || by eexists]);
      destruct ((c <? 100) || (999 <? c)); cbn; try done; destruct (_ && negb _) eqn:E2; cbn; (split; [done|]); try done.
    bools. lia.
  - destruct wh; [destruct (Hf eq_refl) as [x ->]; cbn; by case_match|].
    unfold status_write_header, write_header. destruct co; cbn; by repeat (case_match; cbn; try done).
Qed.

Lemma call_wraps o s : wraps s → switches o = false → match call_status o s with Some s' => wraps s' | None => True end.
Proof.
  destruct s as [[co inf snt] st wh]. unfold wraps. cbn. intros [-> ->] Ho.
  destruct o as [c|d]; cbn in *; unfold status_write_header, status_write, write_header, write, client_status; cbn.
  - destruct co; cbn; [done|]. rewrite Ho, andb_true_r.
    destruct ((c <? 100) || (999 <? c)), ((100 <=? c) && (c <? 200)) eqn:E, ((100 <=? c) && (c <=? 199)) eqn:E2;
      cbn; try done; bools; lia.
  - destruct co as [c|]; cbn; [by case_match|]. unfold status_write_header, write_header. cbn. done.
Qed.

Lemma calls_transparent l s :
  follows s → ResponseWriter <$> calls call_status l s = calls call_writer l (ResponseWriter s).
Proof.
  revert s. induction l as [|o l IH]; intros s Hs; cbn; [done|].
  pose proof (call_transparent o s Hs) as Ho. destruct (call_status o s) as [s'|]; cbn; [|by rewrite Ho].
  destruct Ho as [-> Hs']. cbn. by apply IH.
Qed.

Lemma calls_wraps l s s' :
  wraps s → forallb (λ o, negb (switches o)) l = true → calls call_status l s = Some s' → wraps s'.
Proof.
  revert s. induction l as [|o l IH]; intros s Hs Hl Hc; cbn in *; [by simplify_eq|].
  apply andb_true_iff in Hl as [Ho%negb_true_iff Hl].
  pose proof (call_wraps o s Hs Ho) as Hw. destruct (call_status o s) as [s1|]; [|done]. by apply (IH s1).
Qed.

(** C26. The request log does not change what it logs: whatever calls a handler
    makes, the client gets the same status lines and body as without the
    middleware (a panic included); and unless the handler switches protocols,
    the logged status is the one the client sees, also when the handler writes
    no status, several of them, or informational ones first. *)
Theorem logging_transparent (l : list call) :
  response <$> LoggingMiddleware l = calls call_writer l new_writer ∧
  ∀ r, LoggingMiddleware l = Some r → forallb (λ o, negb (switches o)) l = true →
    log_status r = client_status (response r) ∧ log_error r = (500 <=? client_status (response r)).
Proof.
  unfold LoggingMiddleware. split.
  - etrans; [|by apply (calls_transparent l (new_status_writer new_writer))]. by destruct (calls call_status l _).
  - intros r (s & Hs & ->)%fmap_Some Hl. cbn.
    assert (Hw : wraps s) by (by eapply calls_wraps; [|exact Hl|exact Hs]). destruct Hw as [_ Hst]. by rewrite Hst.
Qed.

Lemma logging_transparent_witness :
  log_status (Logged (Writer (Some 503) [103] "x") 503 true) = 503 ∧ log_error (Logged (Writer (Some 503) [103] "x") 503 true) = true.
Proof.
  exact (proj2 (logging_transparent [WriteHeader 103; WriteHeader 503; Write "x"; WriteHeader 200])
           (Logged (Writer (Some 503) [103] "x") 503 true) eq_refl eq_refl).
Defined.

Example log_hints :
  LoggingMiddleware [WriteHeader 103; Write "late"; WriteHeader 500] = Some (Logged (Writer (Some 200) [103] "late") 200 false) ∧
  LoggingMiddleware [WriteHeader 503; WriteHeader 200; Write "x"] = Some (Logged (Writer (Some 503) [] "x") 503 true) ∧
  LoggingMiddleware [] = Some (Logged new_writer 200 false) ∧ LoggingMiddleware [WriteHeader 1] = None ∧
  LoggingMiddleware [WriteHeader 101] = Some (Logged (Writer (Some 101) [] "") 200 false).
Proof. vm_compute. done. Qed.

(** ** http.ServeMux

    A path and a pattern are their segments after the first slash; a pattern
    that ends in a slash ends in an empty segment and matches everything below
    it. *)

Definition segments (path : string) : list string := split_char "/" (drop_str 1 path).
Definition path_of (l : list string) : string := foldr (λ s p, "/" +:+ s +:+ p) "" l.

(** [path.Clean] of a rooted path: its segments. *)
Fixpoint clean_from (done : list string) (l : list string) : list string :=
  match l with
  | [] => done
  | s :: l =>
    if String.eqb s "" || String.eqb s "." then clean_from done l
    else if String.eqb s ".." then clean_from (removelast done) l
    else clean_from (done ++ [s]) l
  end.
Definition ends_in_slash (path : string) : bool :=
  match last (segments path) with Some s => String.eqb s "" | None => false end.
(** [cleanPath]: the trailing slash is kept. *)
Definition cleanPath (path : string) : string :=
  let path := if has_prefix path "/" then path else "/" +:+ path in
  let l := clean_from [] (segments path) in
  path_of (if ends_in_slash path || bool_decide (l = []) then l ++ [""] else l).

Fixpoint matches (pattern path : list string) : bool :=
  match pattern, path with
  | [p], s :: rest => if String.eqb p "" then true else String.eqb p s && bool_decide (rest = [])
  | p :: pattern, s :: path => String.eqb p s && matches pattern path
  | _, _ => false
  end.
(** The segments that a pattern names. *)
Definition specificity (pattern : list string) : nat := length (List.filter (λ s, negb (String.eqb s "")) pattern).

Section Mux.
Context {H : Type}.
Definition mux : Type := list (list string * H).

(** [Handle]: [None] is the panic on a pattern that is registered already. *)
Definition Handle (pattern : string) (h : H) (m : mux) : option mux :=
  if bool_decide (segments pattern ∈ m.*1) then None else Some (m ++ [(segments pattern, h)]).

(** The most specific pattern that matches. *)
Fixpoint find (path : list string) (m : mux) : option (list string * H) :=
  match m with
  | [] => None
  | e :: m =>
    if matches e.1 path then
      match find path m with
      | Some e' => if (specificity e.1 <? specificity e'.1)%nat then Some e' else Some e
      | None => Some e
      end
    else find path m
  end.

(** [exactMatch]: nothing, or the empty string, is left to the pattern's end. *)
Definition exact (e : option (list string * H)) (path : list string) : bool :=
  match e with
  | None => false
  | Some (pattern, _) =>
    if bool_decide (last pattern = Some "") then bool_decide (last path = Some "") && (length pattern =? length path)%nat
    else true
  end.

Inductive served := NotFound | Redirect (to : string) | Serve (h : H).

(** [ServeMux.findHandler]. *)
Definition dispatch (m : mux) (path : string) : served :=
  let p := cleanPath path in
  let e := find (segments p) m in
  if negb (exact e (segments p)) && negb (ends_in_slash p) && exact (find (segments p ++ [""]) m) (segments p ++ [""])
  then Redirect (p +:+ "/")
  else if negb (String.eqb p path) then Redirect p
  else match e with Some (_, h) => Serve h | None => NotFound end.
End Mux.
Arguments mux : clear implicits.
Arguments served : clear implicits.

Example clean_paths :
  map cleanPath ["/a//b/./c/"; "/../a/.."; "x/../y"; ""; "/a/b/.."; "/kick/"; "//"] =
  ["/a/b/c/"; "/"; "/y"; "/"; "/a"; "/kick/"; "/"].
Proof. vm_compute. reflexivity. Qed.

(** ** The routes of the agent *)

Inductive route :=
  | Healthz
  | ProviderRoute (prefix : string)
  | CallableRoute (name : string)
  | PublicRoute
  | OAuthRoute
  | RecycleRoute.
#[export] Instance route_eq_dec : EqDecision route.
Proof. solve_decision. Defined.

Definition providerPrefixes : list string := ["/kick/"; "/twitch/"; "/alchemy/"].
(** The callables of registerChat, Service.Register and catalog.Register. *)
Definition callable_names : list string :=
  ["send"; "ban"; "unban"; "timeout"; "deleteMessage"; "clear"; "raid"; "cancelRaid"; "shoutout";
   "subscribe"; "setRealTimeCashAddress"; "search"; "getEmotes"; "getBadges"; "getViewerList"; "getStatistics"].
Definition public_paths : list string := ["/embed"; "/embedRedirect"; "/metadata"; "/api/metadata"].

Fixpoint handle_all (l : list (string * route)) (m : mux route) : option (mux route) :=
  match l with [] => Some m | (p, r) :: l => m ← Handle p r m; handle_all l m end.

(** What main.go registers, in its order; the callables in any order. *)
Definition registrations (oauth : bool) (names : list string) : list (string * route) :=
  [("/healthz", Healthz)] ++ map (λ p, (p, ProviderRoute p)) providerPrefixes ++
  map (λ n, ("/" +:+ n, CallableRoute n)) names ++ map (λ p, (p, PublicRoute)) public_paths ++
  (if oauth then [("/auth/", OAuthRoute)] else []) ++ [("/", RecycleRoute)].

(** [callable.Server.Register]: what a name may be. *)
Definition callable_name_ok (n : string) : bool := negb (String.eqb n "") && negb (contains_char n "/").

(** Where a request for a clean path goes. *)
Definition route_of (oauth : bool) (names : list string) (path : string) : served route :=
  if String.eqb path "/healthz" then Serve Healthz
  else if existsb (String.eqb path) public_paths then Serve PublicRoute
  else if existsb (λ n, String.eqb path ("/" +:+ n)) names then Serve (CallableRoute (drop_str 1 path))
  else match List.find (λ p, has_prefix path p) providerPrefixes with
  | Some p => Serve (ProviderRoute p)
  | None =>
    if oauth && has_prefix path "/auth/" then Serve OAuthRoute
    else if existsb (String.eqb (path +:+ "/")) providerPrefixes || (oauth && String.eqb path "/auth")
    then Redirect (path +:+ "/")
    else Serve RecycleRoute
  end.

Definition main_mux (oauth : bool) : option (mux route) :=
  if forallb callable_name_ok callable_names then handle_all (registrations oauth callable_names) [] else None.
Example routes :
  map (λ p, (λ m, dispatch m p) <$> main_mux true)
    ["/healthz"; "/healthz/"; "/kick/webhook"; "/kick"; "/kick/../send"; "/send"; "/metadata"; "/api/metadata"; "/api";
     "/auth/twitch"; "/"; "/twitch//eventsub"; "/twitchx/"; "/api/metadata/x"; "/embed/"; "/auth"] =
  map Some [Serve Healthz; Serve RecycleRoute; Serve (ProviderRoute "/kick/"); Redirect "/kick/"; Redirect "/send";
    Serve (CallableRoute "send"); Serve PublicRoute; Serve PublicRoute; Serve RecycleRoute;
    Serve OAuthRoute; Serve RecycleRoute; Redirect "/twitch/eventsub"; Serve RecycleRoute; Serve RecycleRoute; Serve RecycleRoute; Redirect "/auth/"].
Proof. vm_compute. reflexivity. Qed.

(** *** Segments and strings *)

Definition no_slash (s : string) : Prop := contains_char s "/" = false.

Lemma split_no_slash s : no_slash s → split_char "/" s = [s].
Proof.
  unfold no_slash. induction s as [|a s IH]; cbn; [done|]. destruct (Ascii.eqb a "/"); [done|]. intros H. by rewrite IH.
Qed.
Lemma split_slash s t : no_slash s → split_char "/" (s +:+ "/" +:+ t) = s :: split_char "/" t.
Proof.
  unfold no_slash. induction s as [|a s IH]; [done|]. rewrite app_str_cons. cbn.
  destruct (Ascii.eqb a "/"); [done|]. intros H. by rewrite IH.
Qed.
Lemma split_segments s : Forall no_slash (split_char "/" s) ∧ split_char "/" s ≠ [].
Proof.
  unfold no_slash. induction s as [|a s [IH Hn]]; cbn; [by split; [constructor|]|].
  destruct (Ascii.eqb a "/") eqn:Ea; [by split; [constructor|]|].
  destruct (split_char "/" s) as [|x l]; [done|]. apply Forall_cons in IH as [Hx Hl].
  split; [constructor; [by cbn; rewrite Ea|done]|done].
Qed.

Lemma path_segments l : Forall no_slash l → l ≠ [] → segments (path_of l) = l.
Proof.
  unfold segments. induction l as [|s [|s' l] IH]; [done|..]; intros [Hs Hl]%Forall_cons _; cbn [path_of foldr].
  - change (split_char "/" (s +:+ "") = [s]). rewrite app_str_empty. by apply split_no_slash.
  - change (split_char "/" (s +:+ path_of (s' :: l)) = s :: s' :: l).
    specialize (IH Hl). cbn in IH. rewrite <-(IH ltac:(done)) at 2. by apply split_slash.
Qed.

Lemma clean_from_ok l : ∀ done, Forall no_slash done → Forall no_slash l → Forall no_slash (clean_from done l).
Proof.
  induction l as [|s l IH]; intros d Hd Hl; cbn; [done|]. apply Forall_cons in Hl as [Hs Hl].
  repeat case_match; apply IH; try done.
  - rewrite removelast_firstn_len. by apply Forall_take.
  - apply Forall_app. split; [done|by constructor].
Qed.

Lemma cleanPath_shape path : ∃ l, cleanPath path = path_of l ∧ Forall no_slash l ∧ l ≠ [].
Proof.
  unfold cleanPath. set (p := if has_prefix path "/" then path else _). set (l := clean_from [] (segments p)).
  assert (Hl : Forall no_slash l) by (apply clean_from_ok; [constructor|apply split_segments]).
  destruct (ends_in_slash p || bool_decide (l = [])) eqn:E.
  - exists (l ++ [""]). split_and!; [done|by apply Forall_app; split; [|constructor]|by destruct l].
  - exists l. apply orb_false_iff in E as [_ E%bool_decide_eq_false]. done.
Qed.

Lemma path_of_snoc l : path_of l +:+ "/" = path_of (l ++ [""]).
Proof. unfold path_of. induction l as [|s l IH]; cbn; [done|]. rewrite <-IH. by rewrite !app_str_assoc. Qed.

Lemma prefix_segments path k : no_slash k → has_prefix path ("/" +:+ k +:+ "/") = true → head (segments path) = Some k.
Proof.
  intros Hk ->%has_prefix_split. generalize (trim_prefix path ("/" +:+ k +:+ "/")). intros t.
  rewrite !app_str_assoc. unfold segments. change (head (split_char "/" (k +:+ "/" +:+ t)) = Some k).
  by rewrite split_slash.
Qed.

(** *** The mux *)

Lemma matches_exact pat : ∀ path, last pat ≠ Some "" → matches pat path = true → path = pat.
Proof.
  induction pat as [|p [|p' pat] IH]; intros [|s path] Hl Hm; cbn in Hm; try done.
  - destruct (String.eqb_spec p ""); [by subst|].
    by apply andb_true_iff in Hm as [->%String.eqb_eq ->%bool_decide_eq_true].
  - apply andb_true_iff in Hm as [->%String.eqb_eq Hm]. f_equal. by apply IH.
Qed.

Section MuxLemmas.
Context {H : Type}.
Implicit Types m : mux H.

Lemma find_in path m e : find path m = Some e → e ∈ m ∧ matches e.1 path = true.
Proof.
  revert e. induction m as [|x m IH]; intros e; cbn; [done|]. destruct (matches x.1 path) eqn:Hx.
  - destruct (find path m) as [e'|].
    + case_match; intros [= <-]; [|by split; [left|]].
      destruct (IH e' eq_refl). split; [by right|done].
    + intros [= <-]. by split; [left|].
  - intros [? ?]%IH. split; [by right|done].
Qed.

Lemma find_last path m e :
  (∀ x, x ∈ m → matches x.1 path = false) → matches e.1 path = true → find path (m ++ [e]) = Some e.
Proof.
  intros Hm He. induction m as [|x m IH]; cbn; [by rewrite He|].
  rewrite (Hm x) by by left. apply IH. intros y Hy. apply Hm. by right.
Qed.

(** Nothing is matched exactly by a path longer than every pattern. *)
Lemma exact_long n path m :
  Forall (λ e, (length e.1 <= n)%nat) m → (n < length path)%nat → exact (find path m) path = false.
Proof.
  intros Hm Hp. destruct (find path m) as [[pat h]|] eqn:Hf; [|done].
  apply find_in in Hf as [Hin Hma]. rewrite Forall_forall in Hm. specialize (Hm _ Hin). cbn in *.
  case_bool_decide as Hl.
  - apply andb_false_iff. right. apply Nat.eqb_neq. lia.
  - apply matches_exact in Hma; [|done]. subst. lia.
Qed.
End MuxLemmas.

(** *** The routes of main.go *)

(** The first segments that are named. *)
Definition heads : list string :=
  ["healthz"; "kick"; "twitch"; "alchemy"; "auth"; "embed"; "embedRedirect"; "metadata"; "api"; ""] ++ callable_names.

Definition registered (oauth : bool) : mux route :=
  Eval vm_compute in if oauth then default [] (main_mux true) else default [] (main_mux false).
Lemma registered_main oauth : main_mux oauth = Some (registered oauth).
Proof. destruct oauth; vm_compute; reflexivity. Qed.
(** All but the root, which comes last. *)
Definition named_routes (oauth : bool) : mux route := removelast (registered oauth).

Lemma registered_root oauth : registered oauth = named_routes oauth ++ [([""], RecycleRoute)].
Proof. by destruct oauth. Qed.
Lemma named_heads oauth : Forall (λ e, ∃ k, head e.1 = Some k ∧ k ≠ "" ∧ k ∈ heads) (named_routes oauth).
Proof.
  assert (H : forallb (λ e, match head e.1 with Some k => negb (String.eqb k "") && bool_decide (k ∈ heads) | None => false end)
    (named_routes oauth) = true) by (destruct oauth; vm_compute; reflexivity).
  apply Forall_forall. intros e He. rewrite forallb_forall in H. specialize (H e). rewrite <-list_elem_of_In in H.
  specialize (H He). destruct (head e.1) as [k|]; [|done]. exists k. apply andb_true_iff in H as [Hk Hh%bool_decide_eq_true].
  split_and!; [done| |done]. by intros ->.
Qed.
Lemma registered_short oauth : Forall (λ e, (length e.1 <= 2)%nat) (registered oauth).
Proof. apply (bool_decide_unpack _). destruct oauth; vm_compute; exact I. Qed.

Lemma matches_head pat k rest :
  matches pat (k :: rest) = true → head pat = Some "" ∨ head pat = Some k.
Proof.
  destruct pat as [|p [|p' pat]]; cbn; [done|..].
  - destruct (String.eqb_spec p ""); [subst; by left|]. intros [->%String.eqb_eq _]%andb_true_iff. by right.
  - intros [->%String.eqb_eq _]%andb_true_iff. by right.
Qed.

(** A path whose first segment is not named. *)
Lemma find_unnamed oauth k rest :
  k ∉ heads → find (k :: rest) (registered oauth) = Some ([""], RecycleRoute).
Proof.
  intros Hk. rewrite registered_root. apply find_last; [|done]. intros e He.
  pose proof (named_heads oauth) as Hn. rewrite Forall_forall in Hn. destruct (Hn e He) as (k' & Hk' & Hne & Hin).
  destruct (matches e.1 (k :: rest)) eqn:Hm; [|done]. apply matches_head in Hm as [Hm|Hm]; naive_solver.
Qed.

(** The two ways a clean path [l] is served, in terms of the mux. *)
Definition redirected (oauth : bool) (l : list string) : bool :=
  negb (exact (find l (registered oauth)) l) && negb (bool_decide (last l = Some "")) &&
  exact (find (l ++ [""]) (registered oauth)) (l ++ [""]).
Definition routed (oauth : bool) (l : list string) : Prop :=
  match route_of oauth callable_names (path_of l) with
  | Redirect p => redirected oauth l = true ∧ p = path_of l +:+ "/"
  | Serve h => redirected oauth l = false ∧ snd <$> find l (registered oauth) = Some h
  | NotFound => False
  end.

Lemma long_served oauth k s rest : redirected oauth (k :: s :: rest) = false.
Proof.
  apply andb_false_iff. right. apply exact_long with 2%nat; [apply registered_short|].
  rewrite length_app. cbn. lia.
Qed.

Lemma route_unnamed oauth k rest :
  Forall no_slash (k :: rest) → k ∉ heads → route_of oauth callable_names (path_of (k :: rest)) = Serve RecycleRoute.
Proof.
  intros Hl Hk. set (l := k :: rest) in *. set (p := path_of l).
  assert (Hseg : segments p = l) by by apply path_segments.
  assert (Hp : ∀ x, bool_decide (default "" (head (segments x)) ∈ heads) = true → String.eqb p x = false).
  { intros x Hx%bool_decide_eq_true. destruct (String.eqb_spec p x) as [<-|]; [|done]. by rewrite Hseg in Hx. }
  assert (Hs : ∀ x, contains_char x "/" = false → bool_decide (x ∈ heads) = true → has_prefix p ("/" +:+ x +:+ "/") = false).
  { intros x Hn Hx%bool_decide_eq_true. destruct (has_prefix p _) eqn:E; [|done]. apply prefix_segments in E; [|done].
    rewrite Hseg in E. by simplify_eq/=. }
  assert (Ht : ∀ x, bool_decide (default "" (head (segments x)) ∈ heads) = true → String.eqb (p +:+ "/") x = false).
  { intros x Hx%bool_decide_eq_true. destruct (String.eqb_spec (p +:+ "/") x) as [<-|]; [|done].
    unfold p in Hx. rewrite path_of_snoc, path_segments in Hx; [done| |done].
    apply Forall_app. split; [done|by constructor]. }
  unfold route_of. fold p.
  assert (Hnames : existsb (λ n, String.eqb p ("/" +:+ n)) callable_names = false).
  { cbn [existsb callable_names]. by repeat (rewrite Hp by (vm_compute; reflexivity)). }
  rewrite Hnames. cbn [existsb public_paths List.find providerPrefixes].
  repeat (rewrite Hp by (vm_compute; reflexivity)).
  rewrite (Hs "kick" eq_refl eq_refl : has_prefix p "/kick/" = false), (Hs "twitch" eq_refl eq_refl : has_prefix p "/twitch/" = false),
    (Hs "alchemy" eq_refl eq_refl : has_prefix p "/alchemy/" = false), (Hs "auth" eq_refl eq_refl : has_prefix p "/auth/" = false).
  repeat (rewrite Ht by (vm_compute; reflexivity)). by rewrite !andb_false_r.
Qed.

(** A single segment that is named, by evaluation. *)
Lemma route_single oauth k : k ∈ heads → routed oauth [k].
Proof.
  unfold heads, callable_names, app. intros Hk.
  repeat (apply elem_of_cons in Hk as [->|Hk]; [destruct oauth; vm_compute; split; reflexivity|]).
  by apply elem_of_nil in Hk.
Qed.

Lemma routed_serve oauth k s rest h :
  route_of oauth callable_names (path_of (k :: s :: rest)) = Serve h →
  snd <$> find (k :: s :: rest) (registered oauth) = Some h → routed oauth (k :: s :: rest).
Proof. intros Hr Hf. unfold routed. rewrite Hr. split; [apply long_served|done]. Qed.

(** Below a provider's prefix, or below /auth/. *)
Lemma below_prefix k s rest : has_prefix (path_of (k :: s :: rest)) ("/" +:+ k +:+ "/") = true.
Proof.
  replace (path_of (k :: s :: rest)) with (("/" +:+ k +:+ "/") +:+ (s +:+ path_of rest)); [apply has_prefix_app|].
  by rewrite !app_str_assoc.
Qed.

Lemma route_provider oauth k s rest :
  k ∈ ["kick"; "twitch"; "alchemy"] → routed oauth (k :: s :: rest).
Proof.
  intros Hk. pose proof (below_prefix k s rest) as Hp.
  apply (routed_serve _ _ _ _ (ProviderRoute ("/" +:+ k +:+ "/"))).
  - unfold route_of.
    replace (List.find _ providerPrefixes) with (Some ("/" +:+ k +:+ "/")).
    + repeat (apply elem_of_cons in Hk as [->|Hk]; [reflexivity|]). by apply elem_of_nil in Hk.
    + cbn [List.find providerPrefixes].
      repeat (apply elem_of_cons in Hk as [->|Hk]; [first
        [ by rewrite (Hp : has_prefix _ "/kick/" = true)
        | by rewrite (Hp : has_prefix _ "/twitch/" = true)
        | by rewrite (Hp : has_prefix _ "/alchemy/" = true) ]|]).
      by apply elem_of_nil in Hk.
  - repeat (apply elem_of_cons in Hk as [->|Hk]; [by destruct oauth|]). by apply elem_of_nil in Hk.
Qed.

Lemma route_api oauth s rest : Forall no_slash ("api" :: s :: rest) → routed oauth ("api" :: s :: rest).
Proof.
  intros Hl. destruct (decide (s :: rest = ["metadata"])) as [[= -> ->]|Hne]; [by destruct oauth; eapply routed_serve|].
  apply (routed_serve _ _ _ _ RecycleRoute).
  - unfold route_of. replace (existsb _ public_paths) with false; [by destruct oauth|].
    symmetry. cbn [existsb public_paths].
    destruct (String.eqb_spec (path_of ("api" :: s :: rest)) "/api/metadata") as [E|]; [|done].
    apply (f_equal segments) in E. rewrite path_segments in E by done. by injection E as -> ->.
  - rewrite registered_root. rewrite (find_last _ _ ([""], RecycleRoute)); [done| |done]. intros e He.
    assert (Hf : Forall (λ e, e.1 = ["api"; "metadata"] ∨ head e.1 ≠ Some "api") (named_routes oauth)).
    { apply (bool_decide_unpack _). destruct oauth; vm_compute; exact I. }
    pose proof (named_heads oauth) as Hn. rewrite Forall_forall in Hf, Hn.
    destruct (Hn e He) as (k & Hk & Hk0 & _), (matches e.1 ("api" :: s :: rest)) eqn:Hm; [|done]. exfalso.
    destruct (Hf e He) as [Hf'|Hf'].
    + apply matches_exact in Hm; [|by rewrite Hf']. rewrite Hf' in Hm. naive_solver.
    + apply matches_head in Hm. naive_solver.
Qed.

Lemma route_auth oauth s rest : routed oauth ("auth" :: s :: rest).
Proof.
  destruct oauth; [|by eapply routed_serve].
  apply (routed_serve _ _ _ _ OAuthRoute); [|done]. pose proof (below_prefix "auth" s rest) as Hp.
  unfold route_of. by rewrite (Hp : has_prefix _ "/auth/" = true).
Qed.

(** More segments, of which the first is named. *)
Lemma route_longer oauth k s rest : Forall no_slash (k :: s :: rest) → k ∈ heads → routed oauth (k :: s :: rest).
Proof.
  intros Hl Hk. destruct (decide (k ∈ ["kick"; "twitch"; "alchemy"])) as [Hp|Hp]; [by apply route_provider|].
  apply not_elem_of_cons in Hp as [H1 [H2 [H3 _]%not_elem_of_cons]%not_elem_of_cons].
  destruct (decide (k = "api")) as [->|H4]; [by apply route_api|].
  destruct (decide (k = "auth")) as [->|H5]; [apply route_auth|]. clear Hl.
  unfold heads, callable_names, app in Hk.
  repeat (apply elem_of_cons in Hk as [->|Hk]; [first [congruence | destruct oauth; eapply routed_serve; reflexivity]|]).
  by apply elem_of_nil in Hk.
Qed.

Lemma clean_routed oauth l : Forall no_slash l → l ≠ [] → routed oauth l.
Proof.
  intros Hl Hn. destruct l as [|k rest]; [done|]. destruct (decide (k ∈ heads)) as [Hk|Hk].
  - destruct rest; [by apply route_single|by apply route_longer].
  - unfold routed. rewrite route_unnamed, (find_unnamed oauth k rest) by done. split; [|done].
    apply andb_false_iff. right. change ((k :: rest) ++ [""]) with (k :: rest ++ [""]).
    rewrite (find_unnamed oauth k (rest ++ [""])) by done. apply andb_false_iff. right. apply Nat.eqb_neq.
    cbn. rewrite length_app. cbn. lia.
Qed.

Lemma dispatch_registered oauth path :
  dispatch (registered oauth) path =
    match route_of oauth callable_names (cleanPath path) with
    | Redirect to => Redirect to
    | s => if String.eqb (cleanPath path) path then s else Redirect (cleanPath path)
    end.
Proof.
  destruct (cleanPath_shape path) as (l & Hc & Hl & Hn). unfold dispatch, ends_in_slash. rewrite Hc, path_segments by done.
  pose proof (clean_routed oauth l Hl Hn) as Hr. unfold routed, redirected in Hr.
  replace (match last l with Some s => String.eqb s "" | None => false end) with (bool_decide (last l = Some "")).
  - destruct (route_of oauth callable_names (path_of l)) as [|to|h]; [done|..].
    + by destruct Hr as [-> ->].
    + destruct Hr as [-> Hf]. destruct (find l (registered oauth)) as [[pat h']|]; [|done]. cbn in Hf. simplify_eq.
      by destruct (String.eqb (path_of l) path).
  - destruct (last l) as [s|]; [|done]. destruct (String.eqb_spec s ""); [subst; by apply bool_decide_eq_true_2|].
    apply bool_decide_eq_false_2. congruence.
Qed.

(** C25. The routes of the agent: registering them does not panic, and every
    request reaches what its path names. Below /kick/, /twitch/ and /alchemy/
    it is that provider's handler (below /auth/ the OAuth server, when enabled),
    /healthz is the health check, each callable and public path is answered by
    its own handler only, and every other path by the recycling check; a path
    that is not clean, or a prefix without its slash, is redirected to the one
    that is. *)
Theorem routes_served oauth path :
  ∃ m, main_mux oauth = Some m ∧
  dispatch m path =
    match route_of oauth callable_names (cleanPath path) with
    | Redirect to => Redirect to
    | s => if String.eqb (cleanPath path) path then s else Redirect (cleanPath path)
    end.
Proof. exists (registered oauth). split; [apply registered_main|apply dispatch_registered]. Qed.

(** ** Requests *)

Definition handler : Type := incoming → list call.

Definition newline : string := String (ascii_of_nat 10) "".
(** [http.Error], without its headers. *)
Definition http_error (text : string) (code : Z) : list call := [WriteHeader code; Write (text +:+ newline)].
Definition notImplemented : handler := λ _, http_error "Not Implemented" 501.

(** [Server], with what main.go's checks read. *)
Record server := Server_ {
  providers : gmap string handler;
  draining : bool;
  ready : bool;
  busySince : option time;
  started : time;                  (* when recycling counts from *)
  oauth_enabled : bool
}.

(** [NewServer]. *)
Definition initial_providers : gmap string handler := list_to_map (map (λ p, (p, notImplemented)) providerPrefixes).

(** [RegisterProvider]: [None] is the panic on an unknown prefix. *)
Definition RegisterProvider (prefix : string) (h : handler) (s : server) : option server :=
  match providers s !! prefix with
  | None => None
  | Some _ => Some (Server_ (<[prefix := h]> (providers s)) (draining s) (ready s) (busySince s) (started s) (oauth_enabled s))
  end.

(** /healthz. *)
Definition health (s : server) : list call := if draining s then [WriteHeader 503] else [Write "ok"].

(** [time.Duration.String]: the digits after the point of [v / 10^n], and what
    is before it. *)
Fixpoint fmt_frac (n : nat) (print : bool) (v : Z) (acc : string) : string * Z :=
  match n with
  | O => (if print then "." +:+ acc else acc, v)
  | S n =>
    let d := v mod 10 in
    let print := print || negb (d =? 0) in
    fmt_frac n print (v / 10) (if print then pretty d +:+ acc else acc)
  end.
Definition with_unit (n : nat) (v : Z) (unit_ : string) : string :=
  let '(s, v) := fmt_frac n false v "" in pretty v +:+ s +:+ unit_.
Definition micro : string := String (ascii_of_nat 194) (String (ascii_of_nat 181) "s").
Definition abs_string (u : Z) : string :=
  if u =? 0 then "0s"
  else if u <? 1000 then with_unit 0 u "ns"
  else if u <? millisecond then with_unit 3 u micro
  else if u <? second then with_unit 6 u "ms"
  else
    let '(s, v) := fmt_frac 9 false u "" in
    let m := v / 60 in
    (if 0 <? m then (if 0 <? m / 60 then pretty (m / 60) +:+ "h" else "") +:+ pretty (m mod 60) +:+ "m" else "") +:+
    pretty (v mod 60) +:+ s +:+ "s".
Definition duration_string (d : duration) : string := if d <? 0 then "-" +:+ abs_string (- d) else abs_string d.

(** The check that recycles an instance: it is unhealthy until it reads its
    channels, while it is stuck, and after three days. *)
Definition recycle (s : server) (now : time) : list call :=
  let age := time_sub now (started s) in
  if negb (ready s) || Manager.stuck (busySince s) now || (72 * hour <? age) then [WriteHeader 503]
  else [Write (duration_string (72 * hour - age))].

Section Serve.
Variables (callables : string → handler) (public oauth : handler).

(** Where a request is sent, or how it is answered and logged. A callable logs
    by itself, and the two checks are not logged. *)
Inductive answered := Redirected (to : string) | Answer (w : option writer) (log : option (option logged)).
Definition unlogged (l : list call) : answered := Answer (calls call_writer l new_writer) None.
Definition with_log (l : list call) : answered :=
  let r := LoggingMiddleware l in Answer (response <$> r) (Some r).

Definition serve (s : server) (now : time) (r : incoming) : answered :=
  match (λ m, dispatch m (r_path r)) <$> main_mux (oauth_enabled s) with
  | None | Some NotFound => unlogged (http_error "404 page not found" 404)
  | Some (Redirect to) => Redirected to
  | Some (Serve route) =>
    match route with
    | Healthz => unlogged (health s)
    | ProviderRoute p => with_log (match providers s !! p with Some h => h r | None => [] end)
    | CallableRoute name => unlogged (callables name r)
    | PublicRoute => with_log (public r)
    | OAuthRoute => with_log (oauth r)
    | RecycleRoute => unlogged (recycle s now)
    end
  end.
End Serve.

(** ** Starting and stopping *)

Inductive seff : Type → Type :=
  | SecretClient : seff (option error)
  | AccessSecret (name : string) : seff (result string)
  | SetDraining : seff unit
  | Pause (d : duration) : seff unit
  | StopQueue : seff unit
  | ShutdownHTTP (within : duration) : seff (option error)
  | AwaitQueue (within : duration) : seff unit.     (* queueDone, or the deadline *)

Record Secrets := Secrets_ {
  KickClientID : string; KickClientSecret : string; TwitchEventSubSecret : string;
  AlchemySigningKey : string; AlchemyMaticWebhookID : string
}.

Section Main.
Context (η : env seff).
Local Abbreviation M := (M (world seff unit)).

(** One credential; a failure leaves it empty. *)
Definition load_secret (name : string) : M string :=
  r ← ask η (AccessSecret ("projects/rtchat-47692/secrets/" +:+ name +:+ "/versions/latest"));
  mret (match r with inr s => s | inl _ => "" end).
Definition LoadSecrets : M Secrets :=
  e ← ask η SecretClient;
  match e with
  | Some _ => mret (Secrets_ "" "" "" "" "")
  | None =>
    kick_id ← load_secret "kick-client-id";
    kick_secret ← load_secret "kick-client-secret";
    twitch ← load_secret "twitch-eventsub-secret";
    key ← load_secret "alchemy-signing-key";
    webhook ← load_secret "alchemy-matic-webhook-id";
    mret (Secrets_ kick_id kick_secret twitch key webhook)
  end.

(** What main does when the assignment snapshots end. *)
Definition shutdown (ci : bool) : M unit :=
  ask η SetDraining ;;
  (if ci then mret tt else ask η (Pause (5 * second))) ;;
  ask η StopQueue ;;
  _ ← ask η (ShutdownHTTP (4 * second));
  ask η (AwaitQueue (4 * second)).
End Main.

(** ** Examples *)

Example durations :
  map duration_string [72 * hour - 1500 * millisecond; 90 * minute; 59 * second; 0; 1500; - (2 * hour); 7 * millisecond + 1] =
  ["71h59m58.5s"; "1h30m0s"; "59s"; "0s"; "1.5" +:+ micro; "-2h0m0s"; "7.000001ms"].
Proof. vm_compute. reflexivity. Qed.

Definition quiet_server : server := Server_ initial_providers false true None 0 true.
Definition get (path : string) : incoming := Incoming "GET" path ∅ ∅ "" false.
Definition tea : handler := λ _, [WriteHeader 418; Write "teapot"].

Example served_requests :
  let at_ s p := serve (λ _ _, [Write "{}"]) tea tea s hour (get p) in
  let registered := RegisterProvider "/kick/" tea quiet_server in
  at_ quiet_server "/kick/webhook" =
    Answer (Some (Writer (Some 501) [] ("Not Implemented" +:+ newline)))
           (Some (Some (Logged (Writer (Some 501) [] ("Not Implemented" +:+ newline)) 501 true))) ∧
  (λ s, at_ s "/kick/webhook") <$> registered =
    Some (Answer (Some (Writer (Some 418) [] "teapot")) (Some (Some (Logged (Writer (Some 418) [] "teapot") 418 false)))) ∧
  RegisterProvider "/other/" tea quiet_server = None ∧
  at_ quiet_server "/send" = Answer (Some (Writer (Some 200) [] "{}")) None ∧
  at_ quiet_server "/" = Answer (Some (Writer (Some 200) [] "71h0m0s")) None ∧
  at_ (Server_ initial_providers true true (Some (hour - 2 * minute)) 0 true) "/healthz" = Answer (Some (Writer (Some 503) [] "")) None ∧
  at_ (Server_ initial_providers true true (Some (hour - 2 * minute)) 0 true) "/x" = Answer (Some (Writer (Some 503) [] "")) None.
Proof. vm_compute. split_and!; reflexivity. Qed.
