(* ===== verification/NetIP.v ===== *)
(** * Addresses and networks

    What the program uses of packages net and net/netip: textual addresses of
    both versions, networks in CIDR notation and membership in them, and the
    host of a remote address. An address is its bytes, as a [net.IP] is. *)

From stdpp Require Import base gmap strings list.
From Stdlib Require Import Ascii Lia.
From S2P Require Import Prelude JsonText Url.

Definition bytes := list Z.

(** ** netip.ParseAddr *)

(** An octet: no sign, no leading zero, at most 255. *)
Definition octet (s : string) : option Z :=
  let leading := match s with String "0" (String _ _) => true | _ => false end in
  if all_digits s && negb leading && (digits_value 0 s <=? 255) then Some (digits_value 0 s) else None.
Definition parse_ipv4 (s : string) : option bytes :=
  match map octet (split_char "." s) with
  | [Some a; Some b; Some c; Some d] => Some [a; b; c; d]
  | _ => None
  end.

(** The hexadecimal digits that a text starts with: their value and number. *)
Fixpoint hex_run (acc : Z) (n : nat) (s : string) : Z * nat * string :=
  match s with
  | String a s' => match hex_value a with Some v => hex_run (acc * 16 + v) (S n) s' | None => (acc, n, s) end
  | "" => (acc, n, "")
  end.

(** The groups of an IPv6 address: the bytes, where the ellipsis is, and what
    is left of the text. There are eight at most. *)
Fixpoint ipv6_groups (fuel : nat) (s : string) (acc : bytes) (ellipsis : option nat) : option (bytes * option nat * string) :=
  match fuel with
  | O => Some (acc, ellipsis, s)
  | S fuel =>
    let '(v, n, rest) := hex_run 0 0 s in
    let acc' := acc ++ [Z.shiftr v 8; Z.land v 255] in
    if Nat.eqb n 0 || Nat.ltb 4 n then None
    else
      match rest with
      | "" => Some (acc', ellipsis, "")
      | String "." _ =>
        let misplaced := match ellipsis with None => negb (Nat.eqb (length acc) 12) | Some _ => false end in
        if misplaced || Nat.ltb 16 (length acc + 4) then None
        else match parse_ipv4 s with Some b => Some (acc ++ b, ellipsis, "") | None => None end
      | String ":" "" => None
      | String ":" (String ":" rest) =>
        match ellipsis with
        | Some _ => None
        | None =>
          if String.eqb rest "" then Some (acc', Some (length acc'), "")
          else ipv6_groups fuel rest acc' (Some (length acc'))
        end
      | String ":" rest => ipv6_groups fuel rest acc' ellipsis
      | _ => None
      end
  end.

(** An ellipsis stands for at least one group. *)
Definition expand (acc : bytes) (ellipsis : option nat) : option bytes :=
  if Nat.ltb (length acc) 16 then
    match ellipsis with
    | None => None
    | Some e => Some (take e acc ++ replicate (16 - length acc) 0 ++ drop e acc)
    end
  else match ellipsis with None => Some acc | Some _ => None end.

Definition parse_groups (s : string) (ellipsis : option nat) : option bytes :=
  match ipv6_groups 8 s [] ellipsis with Some (acc, e, "") => expand acc e | _ => None end.
Definition parse_ipv6 (s : string) : option bytes :=
  if has_prefix s "::" then
    let s := drop_str 2 s in
    if String.eqb s "" then Some (replicate 16 0) else parse_groups s (Some 0%nat)
  else parse_groups s None.

(** The address and its zone, which ends the text after a percent sign. *)
Inductive Addr := Addr4 (b : bytes) | Addr6 (b : bytes) (zone : string).

Fixpoint first_mark (s : string) : option ascii :=
  match s with
  | "" => None
  | String a s => if Ascii.eqb a "." || Ascii.eqb a ":" || Ascii.eqb a "%" then Some a else first_mark s
  end.
Fixpoint cut_at (c : ascii) (s : string) : string * option string :=
  match s with
  | "" => ("", None)
  | String a s => if Ascii.eqb a c then ("", Some s) else let '(x, y) := cut_at c s in (String a x, y)
  end.

Definition ParseAddr (s : string) : option Addr :=
  match first_mark s with
  | Some "."%char => Addr4 <$> parse_ipv4 s
  | Some ":"%char =>
    match cut_at "%" s with
    | (_, Some "") => None
    | (s, zone) => (λ b, Addr6 b (default "" zone)) <$> parse_ipv6 s
    end
  | _ => None
  end.

Definition v4_prefix : bytes := replicate 10 0 ++ [255; 255].
Definition As16 (a : Addr) : bytes := match a with Addr4 b => v4_prefix ++ b | Addr6 b _ => b end.
Definition BitLen (a : Addr) : Z := match a with Addr4 _ => 32 | Addr6 _ _ => 128 end.
Definition Zone (a : Addr) : string := match a with Addr4 _ => "" | Addr6 _ z => z end.

(** ** net.ParseIP, net.ParseCIDR *)

Definition ParseIP (s : string) : option bytes :=
  match ParseAddr s with
  | Some a => if String.eqb (Zone a) "" then Some (As16 a) else None
  | None => None
  end.

(** [IP.To4]: the last four bytes of an address that is a mapped one. *)
Definition To4 (ip : bytes) : option bytes :=
  if Nat.eqb (length ip) 4 then Some ip
  else if Nat.eqb (length ip) 16 && bool_decide (take 12 ip = v4_prefix) then Some (drop 12 ip)
  else None.

(** The byte of a mask with [n] of its bits set, 8 at most. *)
Definition mask_byte (n : nat) : Z := 255 - Z.shiftr 255 (Z.of_nat n).
Fixpoint CIDRMask (n len : nat) : bytes :=
  match len with O => [] | S len => mask_byte (Nat.min 8 n) :: CIDRMask (n - 8) len end.

Definition and_bytes (a b : bytes) : bytes := zip_with Z.land a b.
(** [IP.Mask], for the masks ParseCIDR makes: as long as the address, or four
    bytes for a mapped one. *)
Definition Mask (ip mask : bytes) : bytes :=
  let ip := if Nat.eqb (length mask) 4 && Nat.eqb (length ip) 16 && bool_decide (take 12 ip = v4_prefix)
            then drop 12 ip else ip in
  if Nat.eqb (length ip) (length mask) then and_bytes ip mask else [].

Record IPNet := MkIPNet { n_IP : bytes; n_Mask : bytes }.

Definition ParseCIDR (s : string) : option IPNet :=
  match cut_at "/" s with
  | (addr, Some mask) =>
    match ParseAddr addr with
    | Some a =>
      if String.eqb (Zone a) "" && all_digits mask && (digits_value 0 mask <=? BitLen a) then
        let m := CIDRMask (Z.to_nat (digits_value 0 mask)) (Z.to_nat (BitLen a / 8)) in
        Some (MkIPNet (Mask (As16 a) m) m)
      else None
    | None => None
    end
  | (_, None) => None
  end.

(** [networkNumberAndMask]: [nil]s when the lengths do not fit. *)
Definition network (n : IPNet) : bytes * bytes :=
  let ip := match To4 (n_IP n) with Some b => b | None => if Nat.eqb (length (n_IP n)) 16 then n_IP n else [] end in
  let m := n_Mask n in
  match length m, length ip with
  | 4%nat, 4%nat => (ip, m)
  | 16%nat, 4%nat => (ip, drop 12 m)
  | 16%nat, 16%nat => (ip, m)
  | _, _ => ([], [])
  end.
(** [IPNet.Contains]; an address that was not parsed is [[]]. *)
Definition Contains (n : IPNet) (ip : bytes) : bool :=
  let '(number, m) := network n in
  let x := default ip (To4 ip) in
  Nat.eqb (length x) (length number) && bool_decide (and_bytes number m = and_bytes x m).

(** ** net.SplitHostPort: the host *)

Fixpoint last_index (c : ascii) (s : string) : option nat :=
  match s with
  | "" => None
  | String a s =>
    match last_index c s with
    | Some i => Some (S i)
    | None => if Ascii.eqb a c then Some 0%nat else None
    end
  end.
Definition has_char (c : ascii) (s : string) : bool := contains_char s c.

Definition SplitHostPort (s : string) : option (string * string) :=
  match last_index ":" s with
  | None => None
  | Some i =>
    let port := drop_str (S i) s in
    match s with
    | String "[" rest =>
      match cut_at "]" rest with
      | (_, None) => None
      | (host, Some after) =>
        (* the first closing bracket is just before the last colon *)
        if Nat.eqb (S (S (String.length host))) i && negb (has_char "[" rest) && negb (has_char "]" after)
        then Some (host, port) else None
      end
    | _ =>
      let host := String.substring 0 i s in
      if has_char ":" host || has_char "[" s || has_char "]" s then None else Some (host, port)
    end
  end.

(** ** Examples *)

Example parse_v4 :
  (ParseAddr "10.0.0.255", ParseAddr "10.0.0.256", ParseAddr "10.0.0", ParseAddr "10.0.0.01", ParseAddr "10..0.1") =
  (Some (Addr4 [10; 0; 0; 255]), None, None, None, None).
Proof. vm_compute. reflexivity. Qed.
Example parse_v6 :
  (ParseAddr "2001:db8::7f", ParseAddr "::", ParseAddr "::ffff:1.2.3.4", ParseAddr "fe80::1%eth0", ParseAddr "1::2::3",
   ParseAddr "1:2:3:4:5:6:7:8::", ParseAddr "1:2:3:4:5:6:7", ParseAddr "12345::") =
  (Some (Addr6 ([32; 1; 13; 184] ++ replicate 11 0 ++ [127]) ""), Some (Addr6 (replicate 16 0) ""),
   Some (Addr6 (v4_prefix ++ [1; 2; 3; 4]) ""), Some (Addr6 ([254; 128] ++ replicate 13 0 ++ [1]) "eth0"),
   None, None, None, None).
Proof. vm_compute. reflexivity. Qed.
Example parse_cidr :
  (ParseCIDR "35.191.7.1/16", ParseCIDR "35.191.0.0/33", ParseCIDR "35.191.0.0", is_Some <$> Some (ParseCIDR "2600:2d00:1:b029::/64")) =
  (Some (MkIPNet [35; 191; 0; 0] [255; 255; 0; 0]), None, None, Some (is_Some (ParseCIDR "2600:2d00:1:b029::/64"))).
Proof. vm_compute. reflexivity. Qed.
Example split_host_port :
  (SplitHostPort "10.1.2.3:443", SplitHostPort "[::1]:443", SplitHostPort "::1:443", SplitHostPort "10.1.2.3", SplitHostPort "[::1]") =
  (Some ("10.1.2.3", "443"), Some ("::1", "443"), None, None, None).
Proof. vm_compute. reflexivity. Qed.

(** ** Membership, in bits *)

Definition byte_bits (b : Z) : list bool := map (Z.testbit b) [7; 6; 5; 4; 3; 2; 1; 0].
Definition to_bits (b : bytes) : list bool := concat (map byte_bits b).
Definition is_byte (b : Z) : Prop := 0 <= b < 256.

Definition all_bytes : list Z := seqZ 0 256.
Lemma all_bytes_spec (f : Z → bool) : forallb f all_bytes = true → ∀ b, is_byte b → f b = true.
Proof. intros H b Hb. rewrite forallb_forall in H. apply H, list_elem_of_In, elem_of_seqZ. unfold is_byte in Hb. lia. Qed.

Lemma byte_bits_mask b n : is_byte b → (n ≤ 8)%nat →
  byte_bits (Z.land b (mask_byte n)) = take n (byte_bits b) ++ replicate (8 - n) false.
Proof.
  intros Hb Hn. revert b Hb.
  assert (∀ b, is_byte b → bool_decide (byte_bits (Z.land b (mask_byte n)) = take n (byte_bits b) ++ replicate (8 - n) false) = true) as H.
  { apply all_bytes_spec. do 9 (destruct n as [|n]; [vm_compute; reflexivity|]). lia. }
  intros b Hb. by apply (bool_decide_eq_true_1 _ (H b Hb)).
Qed.
Definition of_bits (l : list bool) : Z := fold_left (λ acc b, 2 * acc + Z.b2z b) l 0.
Lemma byte_bits_inj a b : is_byte a → is_byte b → byte_bits a = byte_bits b → a = b.
Proof.
  assert (∀ b, is_byte b → (of_bits (byte_bits b) =? b) = true) as H by (apply all_bytes_spec; vm_compute; reflexivity).
  intros Ha%H%Z.eqb_eq Hb%H%Z.eqb_eq E. congruence.
Qed.
Lemma byte_mask b n : is_byte b → (n ≤ 8)%nat → is_byte (Z.land b (mask_byte n)).
Proof.
  intros Hb Hn. revert b Hb.
  assert (∀ b, is_byte b → bool_decide (is_byte (Z.land b (mask_byte n))) = true) as H.
  { apply all_bytes_spec. do 9 (destruct n as [|n]; [vm_compute; reflexivity|]). lia. }
  intros b Hb. by apply (bool_decide_eq_true_1 _ (H b Hb)).
Qed.

Lemma length_byte_bits b : length (byte_bits b) = 8%nat.
Proof. done. Qed.
Lemma length_to_bits l : length (to_bits l) = (8 * length l)%nat.
Proof. induction l as [|b l IH]; [done|]. unfold to_bits in *. cbn [map concat]. rewrite length_app, IH. cbn. lia. Qed.
Lemma to_bits_inj xs ys :
  Forall is_byte xs → Forall is_byte ys → length xs = length ys → to_bits xs = to_bits ys → xs = ys.
Proof.
  intros Hx. revert ys. induction Hx as [|x xs Hx _ IH]; intros [|y ys] Hy Hl E; try done.
  inversion Hy; subst. cbn in Hl. change (byte_bits x ++ to_bits xs = byte_bits y ++ to_bits ys) in E.
  apply app_inj_1 in E as [Eb E]; [|done]. f_equal; [by apply byte_bits_inj|]. apply IH; [done|lia|done].
Qed.

Lemma masked_bits xs n : Forall is_byte xs →
  to_bits (and_bytes xs (CIDRMask n (length xs))) = take n (to_bits xs) ++ replicate (8 * length xs - n) false.
Proof.
  intros H. revert n. induction H as [|x xs Hx _ IH]; intros n; [by destruct n|].
  cbn [length CIDRMask]. unfold and_bytes in *. cbn [zip_with].
  change (byte_bits (Z.land x (mask_byte (Nat.min 8 n))) ++ to_bits (zip_with Z.land xs (CIDRMask (n - 8) (length xs))) =
          take n (byte_bits x ++ to_bits xs) ++ replicate (8 * S (length xs) - n) false).
  rewrite byte_bits_mask, IH by (done || lia). rewrite take_app, length_byte_bits.
  destruct (decide (n ≤ 8)%nat) as [Hn|Hn].
  - replace (n - 8)%nat with 0%nat by lia. rewrite Nat.min_r, !take_0, app_nil_r by lia. cbn [app].
    rewrite <-app_assoc, <-replicate_add. do 2 f_equal. lia.
  - rewrite Nat.min_l by lia. cbn [Nat.sub replicate]. rewrite app_nil_r, (take_ge (byte_bits x) n), (take_ge (byte_bits x) 8) by (cbn; lia).
    rewrite <-!app_assoc. do 3 f_equal. lia.
Qed.
Lemma masked_bytes xs n : Forall is_byte xs → Forall is_byte (and_bytes xs (CIDRMask n (length xs))).
Proof.
  intros H. revert n. induction H as [|x xs Hx _ IH]; intros n; [done|].
  change (Forall is_byte (Z.land x (mask_byte (Nat.min 8 n)) :: and_bytes xs (CIDRMask (n - 8) (length xs)))).
  constructor; [apply byte_mask; [done|lia]|apply IH].
Qed.
Lemma length_CIDRMask n len : length (CIDRMask n len) = len.
Proof. revert n. induction len as [|len IH]; intros n; [done|]. cbn. by rewrite IH. Qed.
Lemma length_and_bytes a b : length a = length b → length (and_bytes a b) = length a.
Proof. intros H. unfold and_bytes. rewrite length_zip_with. lia. Qed.

(** Masked alike: the same first bits. *)
Lemma masked_eq xs ys n : Forall is_byte xs → Forall is_byte ys → length xs = length ys →
  and_bytes xs (CIDRMask n (length xs)) = and_bytes ys (CIDRMask n (length xs)) ↔
  take n (to_bits xs) = take n (to_bits ys).
Proof.
  intros Hx Hy Hl. pose proof (masked_bits xs n Hx) as Ex. pose proof (masked_bits ys n Hy) as Ey.
  rewrite <-Hl in Ey. split.
  - intros E. rewrite E, Ey in Ex. apply app_inj_2 in Ex as [E' _]; [by symmetry|done].
  - intros E. apply to_bits_inj; [by apply masked_bytes|rewrite Hl; by apply masked_bytes| |by rewrite Ex, Ey, E].
    rewrite !length_and_bytes; rewrite ?length_CIDRMask; lia.
Qed.
Lemma and_bytes_idem a m : and_bytes (and_bytes a m) m = and_bytes a m.
Proof.
  unfold and_bytes. revert m. induction a as [|x a IH]; intros [|y m]; [done..|]. cbn. rewrite IH.
  by rewrite <-Z.land_assoc, Z.land_diag.
Qed.

(** *** What the parsers give *)

Definition octets (n : nat) (b : bytes) : Prop := length b = n ∧ Forall is_byte b.
Definition addr_ok (a : Addr) : Prop := match a with Addr4 b => octets 4 b | Addr6 b _ => octets 16 b end.

Lemma digits_value_nonneg s acc : 0 <= acc → all_chars is_digit s = true → 0 <= digits_value acc s.
Proof.
  revert acc. induction s as [|a s IH]; intros acc Hacc; [done|]. cbn. destruct (is_digit a) eqn:E; [|done].
  intros Hs. apply IH; [|done]. unfold is_digit, digit_value in *. cbv zeta in E.
  apply andb_true_iff in E as [?%Nat.leb_le ?%Nat.leb_le]. lia.
Qed.

Lemma octet_byte s b : octet s = Some b → is_byte b.
Proof.
  unfold octet, all_digits. intros H. destruct (_ && _ && _) eqn:E; [|done]. injection H as <-.
  apply andb_true_iff in E as [[[_ Hd]%andb_true_iff _]%andb_true_iff Hle%Z.leb_le].
  unfold is_byte. split; [by apply digits_value_nonneg|lia].
Qed.
Lemma parse_ipv4_ok s b : parse_ipv4 s = Some b → octets 4 b.
Proof.
  unfold parse_ipv4. intros H. destruct (split_char "." s) as [|x1 [|x2 [|x3 [|x4 [|]]]]]; cbn in H; repeat case_match; try done.
  injection H as <-. split; [done|]. repeat constructor; by eapply octet_byte.
Qed.

Lemma hex_value_range a v : hex_value a = Some v → 0 <= v < 16.
Proof.
  unfold hex_value, is_digit, between, code_of. cbv zeta. intros H.
  destruct (_ && _)%nat eqn:E1 in H; [|destruct (_ && _) eqn:E2 in H; [|destruct (_ && _) eqn:E3 in H; [|done]]];
    injection H as <-.
  - apply andb_true_iff in E1 as [?%Nat.leb_le ?%Nat.leb_le]. lia.
  - apply andb_true_iff in E2 as [?%Z.leb_le ?%Z.leb_le]. lia.
  - apply andb_true_iff in E3 as [?%Z.leb_le ?%Z.leb_le]. lia.
Qed.
Lemma hex_run_range s acc n : ∀ v m r, hex_run acc n s = (v, m, r) →
  0 <= acc < 16 ^ Z.of_nat n → 0 <= v < 16 ^ Z.of_nat m.
Proof.
  revert acc n. induction s as [|a s IH]; intros acc n v m r H Hacc; cbn in H; [by injection H as <- <- <-|].
  destruct (hex_value a) as [d|] eqn:E; [|by injection H as <- <- <-].
  apply hex_value_range in E. eapply IH; [exact H|]. rewrite Nat2Z.inj_succ, Z.pow_succ_r by lia. lia.
Qed.
Lemma group_bytes v : 0 <= v < 65536 → Forall is_byte [Z.shiftr v 8; Z.land v 255].
Proof.
  intros H. change 255 with (Z.ones 8). rewrite Z.land_ones, Z.shiftr_div_pow2 by lia.
  repeat constructor; change (2 ^ 8) with 256.
  - apply Z.div_pos; lia.
  - apply Z.div_lt_upper_bound; lia.
  - by apply Z.mod_pos_bound.
  - by apply Z.mod_pos_bound.
Qed.

Lemma ipv6_groups_ok fuel : ∀ s acc e b e' rest,
  ipv6_groups fuel s acc e = Some (b, e', rest) →
  (length acc + 2 * fuel = 16)%nat → Forall is_byte acc → (∀ i, e = Some i → i ≤ length acc)%nat →
  (length b ≤ 16)%nat ∧ Forall is_byte b ∧ (∀ i, e' = Some i → i ≤ length b)%nat.
Proof.
  induction fuel as [|fuel IH]; intros s acc e b e' rest H Hl Hb He; cbn -[hex_run Nat.ltb] in H.
  { injection H as <- <- <-. split_and!; [lia|done..]. }
  destruct (hex_run 0 0 s) as [[v n] r] eqn:Er. apply hex_run_range in Er; [|cbn; lia].
  destruct (Nat.eqb n 0 || Nat.ltb 4 n) eqn:En; [done|].
  apply orb_false_iff in En as [_ En%Nat.ltb_ge].
  assert (Forall is_byte (acc ++ [Z.shiftr v 8; Z.land v 255])) as Hb'.
  { apply Forall_app. split; [done|]. apply group_bytes. split; [apply Er|].
    apply Z.lt_le_trans with (16 ^ Z.of_nat n); [apply Er|]. change 65536 with (16 ^ 4). apply Z.pow_le_mono_r; lia. }
  assert (length (acc ++ [Z.shiftr v 8; Z.land v 255]) = length acc + 2)%nat as Hl' by (rewrite length_app; done).
  set (acc' := acc ++ _) in *. clearbody acc'.
  assert (∀ i, e = Some i → i ≤ length acc')%nat as He' by (intros i Hi; specialize (He i Hi); lia).
  assert (∀ e b e' rest s, (∀ i, e = Some i → i ≤ length acc')%nat → ipv6_groups fuel s acc' e = Some (b, e', rest) →
    (length b ≤ 16)%nat ∧ Forall is_byte b ∧ (∀ i, e' = Some i → i ≤ length b)%nat) as Hgo.
  { intros ? ? ? ? ? ? ?. eapply IH; [done|lia|done..]. }
  clear IH. repeat case_match; simplify_eq; try done; try (split_and!; [lia|done..]).
  all: try (eapply Hgo; [|done]; first [done|by intros ? [= <-]]).
  all: try (split_and!; [lia|done|by intros ? [= <-]]).
  all: match goal with H : parse_ipv4 _ = Some _, H' : _ || Nat.ltb _ _ = false |- _ =>
    apply parse_ipv4_ok in H as [Hl4 Hb4]; apply orb_false_iff in H' as [_ H'%Nat.ltb_ge] end.
  all: rewrite length_app; split_and!; [lia|by apply Forall_app|].
  - intros i Hi. specialize (He i Hi). lia.
  - done.
Qed.

Lemma expand_ok acc e b :
  (length acc ≤ 16)%nat → Forall is_byte acc → (∀ i, e = Some i → i ≤ length acc)%nat →
  expand acc e = Some b → octets 16 b.
Proof.
  intros Hl Hb He. unfold expand. destruct (Nat.ltb_spec (length acc) 16), e as [i|]; intros [= <-].
  - specialize (He i eq_refl). split.
    + rewrite !length_app, length_take, length_replicate, length_drop. lia.
    + apply Forall_app; split; [by apply Forall_take|]. apply Forall_app; split; [|by apply Forall_drop].
      apply Forall_replicate. unfold is_byte. lia.
  - split; [lia|done].
Qed.
Lemma parse_groups_ok s e b : (∀ i, e = Some i → i = 0%nat) → parse_groups s e = Some b → octets 16 b.
Proof.
  unfold parse_groups. intros He H. destruct (ipv6_groups 8 s [] e) as [[[acc e'] [|]]|] eqn:Eg; try done.
  apply ipv6_groups_ok in Eg as (? & ? & ?); [by eapply expand_ok|done|done|by intros i ->%He].
Qed.
Lemma parse_ipv6_ok s b : parse_ipv6 s = Some b → octets 16 b.
Proof.
  unfold parse_ipv6. destruct (has_prefix s "::"); [|by apply parse_groups_ok].
  destruct (String.eqb _ _); [|by apply parse_groups_ok; intros i [= <-]].
  intros [= <-]. split; [done|]. repeat constructor; unfold is_byte; lia.
Qed.

Lemma ParseAddr_ok s a : ParseAddr s = Some a → addr_ok a.
Proof.
  unfold ParseAddr. intros H. destruct (first_mark s) as [c|]; [|done].
  assert ((∃ b, parse_ipv4 s = Some b ∧ a = Addr4 b) ∨ (∃ s' b z, parse_ipv6 s' = Some b ∧ a = Addr6 b z)) as Ha.
  { repeat case_match; try done.
    all: apply fmap_Some in H as (x & Hx & ->); first [left; by eauto|right; by eauto]. }
  destruct Ha as [(b & ?%parse_ipv4_ok & ->)|(s' & b & z & ?%parse_ipv6_ok & ->)]; done.
Qed.
Lemma As16_ok a : addr_ok a → octets 16 (As16 a).
Proof.
  destruct a as [b|b z]; [|done]. intros [Hl Hb]. split; [cbn; rewrite Hl; done|].
  apply Forall_app. split; [|done]. repeat constructor; unfold is_byte; lia.
Qed.
Lemma ParseIP_ok s ip : ParseIP s = Some ip → octets 16 ip.
Proof.
  unfold ParseIP. destruct (ParseAddr s) as [a|] eqn:E; [|done]. destruct (String.eqb _ _); [|done].
  intros [= <-]. by eapply As16_ok, ParseAddr_ok.
Qed.

(** *** Networks *)

(** The first [n] bits of a network written with an address of either version,
    counted in the sixteen bytes. *)
Definition prefix_bits (a : Addr) (n : nat) : nat := match a with Addr4 _ => 96 + n | Addr6 _ _ => n end.
Definition mapped (ip : bytes) : bool := bool_decide (take 12 ip = v4_prefix).

(** A network in CIDR notation, read: the address and how many bits. *)
Definition cidr_of (s : string) (a : Addr) (n : nat) : Prop :=
  ∃ addr mask, cut_at "/" s = (addr, Some mask) ∧ ParseAddr addr = Some a ∧ Zone a = "" ∧
    all_digits mask = true ∧ digits_value 0 mask <= BitLen a ∧ n = Z.to_nat (digits_value 0 mask).

Lemma cidr_of_inj s a n a' n' : cidr_of s a n → cidr_of s a' n' → a = a' ∧ n = n'.
Proof. intros (addr & mask & E & ? & _ & _ & _ & ?) (addr' & mask' & E' & ? & _ & _ & _ & ?). rewrite E in E'. by simplify_eq. Qed.

Lemma ParseCIDR_inv s net : ParseCIDR s = Some net →
  ∃ a n, cidr_of s a n ∧ addr_ok a ∧
    net = MkIPNet (Mask (As16 a) (CIDRMask n (Z.to_nat (BitLen a / 8)))) (CIDRMask n (Z.to_nat (BitLen a / 8))).
Proof.
  unfold ParseCIDR. destruct (cut_at "/" s) as [addr [mask|]] eqn:Ec; [|done].
  destruct (ParseAddr addr) as [a|] eqn:Ea; [|done].
  destruct (_ && _) eqn:E; [|done]. intros [= <-].
  apply andb_true_iff in E as [[Hz%String.eqb_eq Hd]%andb_true_iff Hle%Z.leb_le].
  exists a, (Z.to_nat (digits_value 0 mask)). split_and!; [|by eapply ParseAddr_ok|done].
  exists addr, mask. by split_and!.
Qed.

Lemma to_bits_app a b : to_bits (a ++ b) = to_bits a ++ to_bits b.
Proof. unfold to_bits. by rewrite map_app, concat_app. Qed.
Lemma to_bits_take k x : to_bits (take k x) = take (8 * k) (to_bits x).
Proof.
  revert x. induction k as [|k IH]; intros [|b x]; [done..|].
  change (byte_bits b ++ to_bits (take k x) = take (8 * S k) (byte_bits b ++ to_bits x)).
  rewrite IH, take_app, length_byte_bits, (take_ge (byte_bits b)) by (cbn; lia). do 2 f_equal. lia.
Qed.
Lemma octets_take12 x : octets 16 x → octets 12 (take 12 x).
Proof. intros [Hl Hb]. split; [rewrite length_take; lia|by apply Forall_take]. Qed.
Lemma mapped_bits x : octets 16 x → mapped x = true ↔ take 96 (to_bits x) = to_bits v4_prefix.
Proof.
  intros Hx. unfold mapped. rewrite bool_decide_eq_true. change 96%nat with (8 * 12)%nat. rewrite <-to_bits_take.
  destruct (octets_take12 x Hx) as [Hl Hb]. split; [by intros ->|]. intros E. apply to_bits_inj; [done| |by rewrite Hl|done].
  repeat constructor; unfold is_byte; lia.
Qed.
Lemma To4_spec x : octets 16 x → To4 x = if mapped x then Some (drop 12 x) else None.
Proof. intros [Hl _]. unfold To4, mapped. by rewrite Hl. Qed.

(** A mapped network number leaves the mask at least 96 bits. *)
Lemma take_le {A} (k n : nat) (l l' : list A) : (k ≤ n)%nat → take n l = take n l' → take k l = take k l'.
Proof. intros Hk E. by rewrite <-(Nat.min_l k n Hk), <-!take_take, E. Qed.

(** The address is in the network: it agrees on the prefix, and an IPv4 address
    is not looked for in an IPv6 network shorter than the mapped ones. *)
Definition within (a : Addr) (n : nat) (ip : bytes) : Prop :=
  take (prefix_bits a n) (to_bits ip) = take (prefix_bits a n) (to_bits (As16 a)) ∧
  (96 ≤ prefix_bits a n ∨ mapped ip = false)%nat.

Lemma to_bits_prefix b : to_bits (v4_prefix ++ b) = to_bits v4_prefix ++ to_bits b.
Proof. apply to_bits_app. Qed.
Lemma mapped_split x : octets 16 x → mapped x = true → x = v4_prefix ++ drop 12 x ∧ octets 4 (drop 12 x).
Proof.
  intros [Hl Hb] Hm. apply bool_decide_eq_true in Hm. split; [by rewrite <-Hm, take_drop|].
  split; [rewrite length_drop; lia|by apply Forall_drop].
Qed.

Lemma To4_four x : length x = 4%nat → To4 x = Some x.
Proof. intros H. unfold To4. by rewrite H. Qed.
Lemma octets_eq len xs ys n : octets len xs → octets len ys →
  and_bytes xs (CIDRMask n len) = and_bytes ys (CIDRMask n len) ↔ take n (to_bits xs) = take n (to_bits ys).
Proof. intros [<- Hx] [Hl Hy]. by apply masked_eq. Qed.
Lemma octets_masked len xs n : octets len xs →
  octets len (and_bytes xs (CIDRMask n len)) ∧
  to_bits (and_bytes xs (CIDRMask n len)) = take n (to_bits xs) ++ replicate (8 * len - n) false.
Proof.
  intros [<- Hx]. split; [split; [|by apply masked_bytes]|by apply masked_bits].
  apply length_and_bytes. by rewrite length_CIDRMask.
Qed.
Lemma mapped_masked b n : octets 16 b → mapped (and_bytes b (CIDRMask n 16)) = true → (96 ≤ n)%nat.
Proof.
  intros Hb Hm. destruct (octets_masked 16 b n Hb) as [Hn' Hbits]. apply (mapped_bits _ Hn') in Hm. rewrite Hbits in Hm.
  destruct (decide (96 ≤ n)%nat) as [|Hn]; [done|exfalso].
  assert (∀ l : list bool, take 96 l = to_bits v4_prefix → l !! 95%nat = Some true) as Hlast.
  { intros l E. rewrite <-(lookup_take_lt l 96) by lia. rewrite E. done. }
  apply Hlast in Hm. rewrite lookup_app_r in Hm by (rewrite length_take; lia).
  apply lookup_replicate in Hm as [? _]. done.
Qed.
Lemma take_prefix b n : take (96 + n) (to_bits (v4_prefix ++ b)) = to_bits v4_prefix ++ take n (to_bits b).
Proof. rewrite to_bits_prefix. change (96 + n)%nat with (length (to_bits v4_prefix) + n)%nat. apply take_app_add. Qed.

Lemma contains_v4 b n x : octets 4 b → octets 16 x →
  Contains (MkIPNet (and_bytes b (CIDRMask n 4)) (CIDRMask n 4)) x = true ↔ within (Addr4 b) n x.
Proof.
  intros [Hl Hb] Hx. unfold Contains, network. cbn [n_IP n_Mask].
  assert (length (and_bytes b (CIDRMask n 4)) = 4%nat) as Hn by (by rewrite length_and_bytes; rewrite ?length_CIDRMask).
  rewrite (To4_four _ Hn), length_CIDRMask, Hn, (To4_spec x Hx). unfold within. cbn [prefix_bits As16].
  rewrite take_prefix. destruct (mapped x) eqn:Em.
  - destruct (mapped_split x Hx Em) as [Ex [Hl4 Hb4]]. cbn [from_option id]. rewrite Hl4, Hn. cbn [Nat.eqb andb].
    rewrite bool_decide_eq_true, and_bytes_idem, octets_eq by done.
    rewrite Ex at 2. rewrite take_prefix. split.
    + intros E. split; [by rewrite E|left; lia].
    + intros [E%app_inv_head _]. done.
  - cbn [from_option id]. rewrite (proj1 Hx), Hn. split; [done|]. intros [E _]. exfalso.
    assert (take 96 (to_bits x) = to_bits v4_prefix) as E'%(mapped_bits x Hx); [|congruence].
    assert (to_bits v4_prefix ++ take n (to_bits b) = take (96 + n) (to_bits (v4_prefix ++ b))) as E2 by (symmetry; apply take_prefix).
    rewrite E2 in E. apply (take_le 96) in E; [|lia]. by rewrite E, to_bits_prefix.
Qed.

Lemma and_bytes_prefix y m : length m = 16%nat →
  and_bytes (v4_prefix ++ y) m = and_bytes v4_prefix (take 12 m) ++ and_bytes y (drop 12 m).
Proof.
  intros H. unfold and_bytes. rewrite <-(take_drop 12 m) at 1. apply zip_with_app. rewrite length_take, H. done.
Qed.

Lemma contains_v6 b n z x : octets 16 b → octets 16 x →
  Contains (MkIPNet (and_bytes b (CIDRMask n 16)) (CIDRMask n 16)) x = true ↔ within (Addr6 b z) n x.
Proof.
  intros Hb Hx. pose proof (mapped_masked b n Hb) as Hmm. unfold Contains, network. cbn [n_IP n_Mask].
  destruct (octets_masked 16 b n Hb) as [Hn Hbits].
  assert (and_bytes (and_bytes b (CIDRMask n 16)) (CIDRMask n 16) = and_bytes x (CIDRMask n 16) ↔
    take n (to_bits x) = take n (to_bits b)) as Heq by (rewrite and_bytes_idem, octets_eq by done; done).
  assert ((96 ≤ n)%nat → take n (to_bits x) = take n (to_bits b) → mapped x = mapped (and_bytes b (CIDRMask n 16))) as Hsame.
  { intros H96 E. apply eq_true_iff_eq. rewrite !mapped_bits, Hbits by done.
    apply (take_le 96) in E; [|done]. rewrite E, take_app_le, take_take, Nat.min_l by (rewrite ?length_take, ?length_to_bits, ?(proj1 Hb); lia). done. }
  set (nn := and_bytes b _) in *. unfold within. cbn [prefix_bits As16].
  rewrite length_CIDRMask, (To4_spec nn Hn), (To4_spec x Hx).
  destruct (mapped nn) eqn:En.
  - specialize (Hmm eq_refl). destruct (mapped_split nn Hn En) as [Enn [Hn4 _]].
    rewrite Hn4. destruct (mapped x) eqn:Em; cbn [from_option id].
    + destruct (mapped_split x Hx Em) as [Ex [Hx4 _]]. rewrite Hx4, Hn4. cbn [Nat.eqb andb]. rewrite bool_decide_eq_true.
      rewrite <-Heq, Enn, Ex, !and_bytes_prefix by apply length_CIDRMask. rewrite !drop_app_length' by done. split.
      * intros E. split; [by rewrite E|by left].
      * intros [E%app_inv_head _]. done.
    + rewrite (proj1 Hx), Hn4. split; [done|]. intros [E _]. by specialize (Hsame Hmm E).
  - rewrite (proj1 Hn). cbn [Nat.eqb]. rewrite (proj1 Hn). destruct (mapped x) eqn:Em; cbn [from_option id].
    + rewrite length_drop, (proj1 Hx), (proj1 Hn). split; [done|]. intros [E [H96|?]]; [|done]. by specialize (Hsame H96 E).
    + rewrite (proj1 Hx), (proj1 Hn). cbn [Nat.eqb andb]. rewrite bool_decide_eq_true, Heq. split; [intros E; split; [done|by right]|by intros [? _]].
Qed.

Definition addr_bytes (a : Addr) : bytes := match a with Addr4 b | Addr6 b _ => b end.
Definition addr_len (a : Addr) : nat := match a with Addr4 _ => 4 | Addr6 _ _ => 16 end.
Lemma ParseCIDR_net s net : ParseCIDR s = Some net →
  ∃ a n, cidr_of s a n ∧ addr_ok a ∧
    net = MkIPNet (and_bytes (addr_bytes a) (CIDRMask n (addr_len a))) (CIDRMask n (addr_len a)).
Proof.
  intros (a & n & Hc & Ha & ->)%ParseCIDR_inv. exists a, n. split_and!; [done..|].
  destruct a as [b|b z], Ha as [Hl _]; cbn [BitLen As16 addr_bytes addr_len]; unfold Mask.
  - change (Z.to_nat (32 / 8)) with 4%nat. rewrite length_CIDRMask, length_app, Hl, take_app_length' by done.
    rewrite (bool_decide_true (v4_prefix = v4_prefix)) by done. change (length v4_prefix + 4 =? 16)%nat with true.
    cbn [Nat.eqb andb]. rewrite drop_app_length' by done. by rewrite Hl.
  - change (Z.to_nat (128 / 8)) with 16%nat. rewrite length_CIDRMask, Hl. cbn [Nat.eqb andb]. by rewrite Hl.
Qed.

(** Every network that ParseCIDR reads contains just the addresses that agree
    with it on its prefix. *)
Lemma contains_within s net : ParseCIDR s = Some net →
  ∃ a n, cidr_of s a n ∧
    ∀ x, octets 16 x → Contains net x = true ↔ within a n x.
Proof.
  intros (a & n & Hc & Ha & ->)%ParseCIDR_net. exists a, n. split; [done|]. intros x Hx.
  destruct a as [b|b z]; [by apply contains_v4|by apply contains_v6].
Qed.

(** What was not parsed is in no network. *)
Lemma contains_nil s net : ParseCIDR s = Some net → Contains net [] = false.
Proof.
  intros (a & n & _ & Ha & ->)%ParseCIDR_net. unfold Contains, network. cbn [n_IP n_Mask].
  destruct a as [b|b z]; cbn [addr_bytes addr_len addr_ok] in *;
    destruct (octets_masked _ _ n Ha) as [Hn _]; rewrite length_CIDRMask.
  - rewrite (To4_four _ (proj1 Hn)), (proj1 Hn). change (To4 []) with (@None bytes). cbn [from_option id].
    by rewrite (proj1 Hn).
  - rewrite (To4_spec _ Hn). change (To4 []) with (@None bytes). cbn [from_option id]. destruct (mapped _) eqn:Em.
    + rewrite (proj1 (proj2 (mapped_split _ Hn Em))). by rewrite (proj1 (proj2 (mapped_split _ Hn Em))).
    + rewrite (proj1 Hn). cbn [Nat.eqb]. rewrite (proj1 Hn). by rewrite (proj1 Hn).
Qed.
