(* ===== verification/OAuth.v ===== *)
(** * OAuth and companion login

    Models agent/internal/oauthhttp: the redirect and the callback of the
    server (server.go), the profiles it asks the providers for (providers.go)
    and its store (store.go): one-time sessions, the rate limiter, stored
    tokens and linked providers. Firebase Auth, the Realtime Database and the
    providers are effects. *)

From stdpp Require Import base gmap strings list.
From Stdlib Require Import Ascii.
From S2P Require Import Prelude GoErr Sha256 GoTime Float64 Json Effects Store JsonText Text HttpServer Url Provider.
From S2P Require KickWebhook.

Record Session := MkSession {
  State : string;
  Provider__ : string;
  Verifier : string;
  Companion : string;
  SUID : string;
  LinkedProvider : string;
  Expires : time
}.

Record oauth_provider := OauthProvider {
  op_ClientID : string;
  op_ClientSecret : string;
  AuthorizeURL : string;
  TokenURL : string;
  Scopes : string;
  JSONBody : bool
}.

(** The server: its providers, key and callback origin; the requests'
    addresses are read with package net: [peer_host] of the remote address,
    [is_ip], and whether a trusted network contains the address. *)
Record server := Server {
  sv_providers : gmap string oauth_provider;
  SessionKey : string;
  CallbackOrigin : string;
  peer_host : string → string;
  is_ip : string → bool;
  trusted : string → bool
}.

(** A request, with what net/http parsed of it besides [incoming]. *)
Record oauth_request := OauthRequest {
  rq : incoming;
  rq_host : string;
  rq_uri : string;
  rq_remote : string;
  rq_cookie : option string           (* the cookie __session *)
}.
Definition query (r : oauth_request) (k : string) : string := default "" (r_query (rq r) !! k).

(** What is sent to a provider. *)
Inductive fetch :=
  | Exchange (url content body : string)
  | Profile (url token client : string).

Inductive oeff : Type → Type :=
  | OAllow (peer : string) : oeff (result bool)
  | OVerify (token : string) : oeff (result string)
  | ORandom : oeff string
  | ONow : oeff time
  | OSave (id : string) (s : Session) : oeff (option error)
  | OConsume (id provider state : string) : oeff (result Session)
  | OSignIn (provider : string) (profile token : doc) (companion : string) : oeff (result string)
  | OLink (uid provider linked : string) (token : doc) : oeff (option error)
  | OFetch (f : fetch) : oeff (result (Z * string)).

(** [http.Error] and [http.Redirect]. Every answer also has the headers
    Cache-Control: no-store and Referrer-Policy: no-referrer. *)
Definition http_error (msg : string) (s : Z) : reply := Reply s [] msg.
Definition redirect_to (url : string) : reply := Reply 302 [("Location", url)] "".

Definition str (v : value) : string :=
  match v with VNull => "" | VFloat t => t | _ => KickWebhook.sprint v end.
Definition object (v : value) : doc := match v with VMap d => d | _ => [] end.
Definition first_of (d : doc) (k : string) : doc :=
  match field d k with VList (VMap v :: _) => v | _ => [] end.

(** json.NewDecoder over the first 2 MiB: one value, what follows is ignored. *)
Definition decode_body (body : string) : option doc :=
  let limit := 2097152 in
  let text := if limit <? Z.of_nat (String.length body) then String.substring 0 (Z.to_nat limit) body else body in
  match json_value (2 * String.length text + 2) 0 (skip_ws text) with
  | Some (JNull, _) => Some []
  | Some (JObj l, _) => decode_entries [] l
  | _ => None
  end.

(** [time.Duration(n)] of a float: truncated, and as amd64 converts it when out
    of range. *)
Definition float_to_int64 (text : string) : Z :=
  let '(i, _) := split_point text in
  match parse_int i with Some z => z | None => min_int64 end.

Section Server.
Context (η : env oeff) (s : server).
Local Abbreviation M := (M (world oeff unit)).

Definition signature (id : string) : string := hex_encode (hmac_sha256 (SessionKey s) id).
Definition cookie (r : oauth_request) : string :=
  match rq_cookie r with
  | None => ""
  | Some c =>
    match split_char "." c with
    | [id; sig] => if String.eqb (signature id) sig then id else ""
    | _ => ""
    end
  end.
Definition trim_suffix_slash (t : string) : string :=
  if String.eqb (drop_str (String.length t - 1) t) "/" then String.substring 0 (String.length t - 1) t else t.
Definition callback (p : string) : string := trim_suffix_slash (CallbackOrigin s) +:+ "/auth/" +:+ p +:+ "/callback".

Definition peer (r : oauth_request) : string :=
  let host := peer_host s (rq_remote r) in
  if trusted s host then
    match reverse (split_char "," (Get (rq r) "X-Forwarded-For")) with
    | _ :: candidate :: _ => let c := TrimSpace candidate in if is_ip s c then c else host
    | _ => host
    end
  else host.

Definition fetch_json (f : fetch) : M (result doc) :=
  a ← ask η (OFetch f);
  match a with
  | inl _ => throw (ErrMsg "provider request failed")
  | inr (status, body) =>
    if (status <? 200) || (300 <=? status) then throw (ErrMsg "provider rejected request")
    else match decode_body body with
         | Some d => ok d
         | None => throw (ErrMsg "invalid JSON")
         end
  end.

Definition exchange (p : oauth_provider) (values : list (string * string)) : M (result doc) :=
  let body := if JSONBody p then marshal (JObj (map (λ v, (v.1, JStr v.2)) values)) else values_encode values in
  let content := if JSONBody p then "application/json" else "application/x-www-form-urlencoded" in
  token ←? fetch_json (Exchange (TokenURL p) content body);
  if is_nil (field token "access_token") then throw (ErrMsg "missing access token")
  else
    match field token "expires_in" with
    | VFloat n =>
      now ← ask η ONow;
      ok (map_set token "expires_at" (VString (format_rfc3339nano (now + wrap64 (float_to_int64 n * second)))))
    | _ => ok token
    end.

Definition profile (name client token : string) : M (result doc) :=
  let get url id := fetch_json (Profile url token id) in
  if String.eqb name "twitch" then
    data ←? get "https://api.twitch.tv/helix/users" client;
    let u := first_of data "data" in
    if String.eqb (str (field u "id")) "" then throw (ErrMsg "missing user")
    else ok [("id", field u "id"); ("displayName", field u "display_name"); ("login", field u "login");
             ("profilePictureUrl", field u "profile_image_url"); ("email", field u "email")]
  else if String.eqb name "kick" then
    data ←? get "https://api.kick.com/public/v1/users" "";
    let u := first_of data "data" in
    if String.eqb (str (field u "user_id")) "" then throw (ErrMsg "missing user")
    else
      channels ←? get "https://api.kick.com/public/v1/channels" "";
      let slug := str (field (first_of channels "data") "slug") in
      let slug := if String.eqb slug "" then to_lower (str (field u "name")) else slug in
      ok [("id", VString (str (field u "user_id"))); ("slug", VString slug); ("displayName", field u "name");
          ("profilePictureUrl", field u "profile_picture"); ("email", field u "email")]
  else if String.eqb name "youtube" then
    data ←? get "https://www.googleapis.com/youtube/v3/channels?part=snippet&mine=true" "";
    let channel := first_of data "items" in
    let id := str (field channel "id") in
    if String.eqb id "" then throw ErrNoChannel
    else
      let snippet := object (field channel "snippet") in
      let thumbs := object (field snippet "thumbnails") in
      let picture := field (object (field thumbs "medium")) "url" in
      let picture := if is_nil picture then field (object (field thumbs "default")) "url" else picture in
      let display := str (field snippet "title") in
      let login := str (field snippet "customUrl") in
      ok [("id", field channel "id"); ("displayName", VString (if String.eqb display "" then id else display));
          ("login", VString (if String.eqb login "" then id else login)); ("profilePictureUrl", picture);
          ("email", VNull)]
  else throw (ErrMsg "unknown provider").

Definition fail (session : Session) (code : string) : reply :=
  if negb (String.eqb (Companion session) "") then http_error code 400
  else redirect_to ("com.rtirl.chat://error?message=" +:+ code).

(** The parameters of the token request. *)
Definition code_values (r : oauth_request) (name : string) (p : oauth_provider) (verifier : string) :
    list (string * string) :=
  [("grant_type", "authorization_code"); ("code", query r "code"); ("client_id", op_ClientID p);
   ("client_secret", op_ClientSecret p); ("redirect_uri", callback name)] ++
  (if String.eqb name "kick" then [("code_verifier", verifier)] else []).

(** What follows the exchange. *)
Definition finish_login (r : oauth_request) (name : string) (p : oauth_provider) (session : Session)
    (token : doc) : M reply :=
  if negb (String.eqb (SUID session) "") then
    e ← ask η (OLink (SUID session) name (LinkedProvider session) token);
    mret (match e with
          | Some _ => fail session "sign_in_failed"
          | None => redirect_to "com.rtirl.chat://success?token=1"
          end)
  else
    prof ← profile name (op_ClientID p) (KickWebhook.sprint (field token "access_token"));
    match prof with
    | inl e => mret (fail session (match e with ErrNoChannel => "no_youtube_channel" | _ => "sign_in_failed" end))
    | inr prof =>
      custom ← ask η (OSignIn name prof token (Companion session));
      mret (match custom with
            | inl _ => fail session "sign_in_failed"
            | inr custom =>
              if negb (String.eqb (Companion session) "")
              then Reply 200 [("Content-Type", "text/plain")] "Logged in successfully."
              else redirect_to ("com.rtirl.chat://success?token=" +:+ query_escape custom)
            end)
    end.

Definition complete (r : oauth_request) (name : string) (p : oauth_provider) : M reply :=
  session ← ask η (OConsume (cookie r) name (query r "state"));
  match session with
  | inl _ => mret (http_error "invalid or expired OAuth state" 400)
  | inr session =>
    if negb (String.eqb (query r "error") "") || String.eqb (query r "code") "" then
      mret (fail session "access_denied")
    else if String.eqb name "kick" && String.eqb (Verifier session) "" then mret (fail session "sign_in_failed")
    else
      token ← exchange p (code_values r name p (Verifier session));
      match token with
      | inl _ => mret (fail session "sign_in_failed")
      | inr token => finish_login r name p session token
      end
  end.

(** The host of the callback origin, whose scheme must be https. *)
Definition origin_host : option string :=
  if has_prefix (CallbackOrigin s) "https://" then
    match split_char "/" (trim_prefix (CallbackOrigin s) "https://") with
    | h :: _ => if String.eqb h "" then None else Some h
    | [] => None
    end
  else None.

Definition authorize_values (name state verifier : string) (p : oauth_provider) : list (string * string) :=
  [("client_id", op_ClientID p); ("redirect_uri", callback name); ("response_type", "code");
   ("scope", Scopes p); ("state", state)] ++
  (if String.eqb name "kick" then
     [("code_challenge", b64url_encode (sha256 verifier)); ("code_challenge_method", "S256")] else []) ++
  (if String.eqb name "twitch" then [("force_verify", "true")] else []) ++
  (if String.eqb name "youtube" then
     [("access_type", "offline"); ("prompt", "consent select_account"); ("include_granted_scopes", "true")] else []).

(** The cookie of a session, as Set-Cookie carries it. *)
Definition session_cookie (id : string) : string := id +:+ "." +:+ signature id.

Definition is_alert (name : string) : bool := String.eqb name "streamlabs" || String.eqb name "streamelements".
Definition linkable (p : string) : bool := String.eqb p "twitch" || String.eqb p "kick" || String.eqb p "youtube".

Definition redirect (r : oauth_request) (name : string) (p : oauth_provider) : M reply :=
  match origin_host with
  | None => mret (http_error "OAuth unavailable" 503)
  | Some host =>
    if negb (String.eqb (rq_host r) host) then mret (redirect_to (CallbackOrigin s +:+ rq_uri r))
    else
      state ← ask η ORandom;
      now ← ask η ONow;
      let companion := query r "companion" in
      if (128 <? Z.of_nat (String.length companion)) || contains_char companion "/" || contains_char companion "\"
      then mret (http_error "invalid companion" 400)
      else
        uid ← (if is_alert name then
                 u ← ask η (OVerify (query r "token"));
                 mret (match u with
                       | inl _ => inl (http_error "invalid token" 401)
                       | inr u => if String.eqb u "" then inl (http_error "invalid token" 401)
                                  else if negb (linkable (query r "provider"))
                                  then inl (http_error "invalid provider" 400) else inr u
                       end)
               else mret (inr ""));
        match uid with
        | inl e => mret e
        | inr uid =>
          verifier ← (if String.eqb name "kick" then ask η ORandom else mret "");
          let session := MkSession state name verifier companion uid
                           (if is_alert name then query r "provider" else "") (now + minute) in
          id ← ask η ORandom;
          e ← ask η (OSave id session);
          mret (match e with
                | Some _ => http_error "temporarily unavailable" 503
                | None => Reply 302 [("Set-Cookie", "__session=" +:+ session_cookie id);
                                     ("Location", AuthorizeURL p +:+ "?" +:+
                                        values_encode (authorize_values name state verifier p))] ""
                end)
        end
  end.

(** [strings.Trim(path, "/")]. *)
Fixpoint trim_slashes_left (t : string) : string :=
  match t with String a t' => if Ascii.eqb a "/" then trim_slashes_left t' else t | "" => "" end.
Fixpoint trim_slashes_right (t : string) : string :=
  match t with
  | String a t' => let r := trim_slashes_right t' in if Ascii.eqb a "/" && String.eqb r "" then "" else String a r
  | "" => ""
  end.

Definition OauthServe (r : oauth_request) : M reply :=
  if negb (String.eqb (r_method (rq r)) "GET") then mret (http_error "method not allowed" 405)
  else if (String.length (SessionKey s) <? 32)%nat then mret (http_error "OAuth unavailable" 503)
  else
    allowed ← ask η (OAllow (peer r));
    match allowed with
    | inl _ => mret (http_error "temporarily unavailable" 503)
    | inr false => mret (http_error "too many requests" 429)
    | inr true =>
      match split_char "/" (trim_slashes_left (trim_slashes_right (r_path (rq r)))) with
      | [a; name; action] =>
        if negb (String.eqb a "auth") then mret (http_error "404 page not found" 404)
        else
          match sv_providers s !! name with
          | None => mret (http_error "provider unavailable" 503)
          | Some p =>
            if String.eqb (op_ClientID p) "" || String.eqb (op_ClientSecret p) ""
            then mret (http_error "provider unavailable" 503)
            else if String.eqb action "redirect" then redirect r name p
            else if String.eqb action "callback" then complete r name p
            else mret (http_error "404 page not found" 404)
          end
      | _ => mret (http_error "404 page not found" 404)
      end
    end.
End Server.

(** ** What a request may do *)

(** The cookie carries [id] with this server's signature, or names nothing. *)
Definition signed (s : server) (r : oauth_request) (id : string) : Prop :=
  id = "" ∨ ∃ c, rq_cookie r = Some c ∧ split_char "." c = [id; signature s id].

Lemma cookie_signed s r : signed s r (cookie s r).
Proof.
  unfold signed, cookie. destruct (rq_cookie r) as [c|]; [|by left].
  destruct (split_char "." c) as [|id [|sig [|]]] eqn:E; try (by left).
  destruct (String.eqb_spec (signature s id) sig) as [<-|]; [|by left]. right. by exists c.
Qed.

(** The name and the action of the path. *)
Definition route (r : oauth_request) : option (string * string) :=
  match split_char "/" (trim_slashes_left (trim_slashes_right (r_path (rq r)))) with
  | [a; name; action] => if String.eqb a "auth" then Some (name, action) else None
  | _ => None
  end.

Definition exchanged (e : ev oeff) : bool :=
  match e with Ev op _ => match op with OFetch (Exchange _ _ _) => true | _ => false end end.
Definition exchanges (t : trace oeff) : nat := List.length (List.filter exchanged t).

(** A token that a provider answered to the exchange of the code, perhaps with
    its expiry. *)
Definition token_of (token : doc) (t : trace oeff) : Prop :=
  ∃ url content body status answer d,
    Ev (OFetch (Exchange url content body)) (inr (status, answer)) ∈ t ∧ 200 <= status < 300 ∧
    decode_body answer = Some d ∧ (token = d ∨ ∃ x, token = map_set d "expires_at" (VString x)).

Section Discipline.
Context (s : server) (r : oauth_request).

(** The session that this request consumed. *)
Definition consumed (name : string) (session : Session) (t : trace oeff) : Prop :=
  Ev (OConsume (cookie s r) name (query r "state")) (inr session) ∈ t.
Definition routed (name action : string) (p : oauth_provider) : Prop :=
  route r = Some (name, action) ∧ sv_providers s !! name = Some p ∧ op_ClientSecret p ≠ "".

Definition oauth_ok (t : trace oeff) (e : ev oeff) : Prop :=
  match e with
  | Ev op _ =>
    match op with
    | OAllow p => p = peer s r ∧ t = []
    | OVerify _ | ORandom | ONow => Ev (OAllow (peer s r)) (inr true) ∈ t
    | OConsume id name state =>
      Ev (OAllow (peer s r)) (inr true) ∈ t ∧ signed s r id ∧ id = cookie s r ∧ state = query r "state" ∧
      ∃ p, routed name "callback" p
    | OFetch (Exchange url content body) =>
      ∃ name p session, routed name "callback" p ∧ consumed name session t ∧ exchanges t = 0%nat ∧
        url = TokenURL p ∧ query r "error" = "" ∧ query r "code" ≠ "" ∧ (name = "kick" → Verifier session ≠ "") ∧
        let values := code_values s r name p (Verifier session) in
        body = if JSONBody p then marshal (JObj (map (λ v, (v.1, JStr v.2)) values)) else values_encode values
    | OFetch (Profile url token client) =>
      ∃ tk, token_of tk t ∧ token = KickWebhook.sprint (field tk "access_token")
    | OSignIn name profile token companion =>
      token_of token t ∧ ∃ p session, routed name "callback" p ∧ consumed name session t ∧
        SUID session = "" ∧ companion = Companion session
    | OLink uid name linked token =>
      token_of token t ∧ ∃ p session, routed name "callback" p ∧ consumed name session t ∧
        uid = SUID session ∧ uid ≠ "" ∧ linked = LinkedProvider session
    | OSave id session =>
      Ev ORandom id ∈ t ∧ Ev ORandom (State session) ∈ t ∧ origin_host s = Some (rq_host r) ∧
      (∃ p, routed (Provider__ session) "redirect" p) ∧
      (∃ now, Ev ONow now ∈ t ∧ Expires session = now + minute) ∧
      (if is_alert (Provider__ session)
       then Ev (OVerify (query r "token")) (inr (SUID session)) ∈ t ∧ SUID session ≠ "" ∧
            linkable (LinkedProvider session) = true
       else SUID session = "") ∧
      (Provider__ session = "kick" → Ev ORandom (Verifier session) ∈ t)
    end
  end.
End Discipline.

Definition rest (k : nat) (t : trace oeff) : Prop := (exchanges t <= k)%nat.

Section DisciplineProof.
Context (η : env oeff) (s : server) (r : oauth_request).
Local Abbreviation runs := (runs (S:=unit) (oauth_ok s r)).
Local Abbreviation allowed := (λ t, Ev (OAllow (peer s r)) (inr true) ∈ t).

Ltac step := walk_norm; apply runs_step; [intros ? ? ? ?; split; [cbn|done]|solve [auto 20 with effects]|intros ?].

(** The last steps of a redirect. *)
Lemma runs_save p session (G : trace oeff → Prop) (f : string → option error → reply) :
  stable G → routed s r (Provider__ session) "redirect" p → origin_host s = Some (rq_host r) →
  (∀ t, G t → allowed t ∧ Ev ORandom (State session) ∈ t ∧
     (∃ now, Ev ONow now ∈ t ∧ Expires session = now + minute) ∧
     (if is_alert (Provider__ session)
      then Ev (OVerify (query r "token")) (inr (SUID session)) ∈ t ∧ SUID session ≠ "" ∧
           linkable (LinkedProvider session) = true
      else SUID session = "") ∧
     (Provider__ session = "kick" → Ev ORandom (Verifier session) ∈ t)) →
  runs (λ t, rest 0 t ∧ G t)
    (ask η ORandom ≫= λ id, ask η (OSave id session) ≫= λ e, mret (f id e)) (λ _ t, rest 1 t).
Proof.
  intros HG Hp Ho Hf. apply runs_step; [intros t a Hb Hg; split; [by apply Hf|done]|done|intros id].
  apply runs_ask_bind with (λ _, rest 1); [|intros e; by apply runs_ret].
  intros t a (Hb & Hg & Hid). destruct (Hf t Hg) as (_ & H1 & H2 & H3 & H4).
  split; [cbn; split_and!; eauto|]. unfold rest, exchanges in *. cbn. lia.
Qed.

Lemma runs_redirect name p :
  routed s r name "redirect" p →
  runs (λ t, rest 0 t ∧ allowed t) (redirect η s r name p) (λ _ t, rest 1 t).
Proof.
  intros Hp. unfold redirect.
  assert (Hret : ∀ F a, (∀ t, F t → rest 0 t) → runs F (mret a : M (world oeff unit) reply) (λ _ t, rest 1 t)).
  { intros F a HF. apply runs_ret. intros t Ht%HF. unfold rest in *. lia. }
  destruct (origin_host s) as [host|] eqn:Eh; [|apply Hret; naive_solver].
  destruct (String.eqb_spec (rq_host r) host) as [<-|]; cbn [negb]; [|apply Hret; naive_solver].
  step; [naive_solver|]. step; [naive_solver|].
  destruct (is_alert name) eqn:Ea.
  - walk_norm; [apply Hret; naive_solver|].
    step; [naive_solver|]. apply runs_ret_bind. cbv beta.
    destruct a1 as [e|u]; [apply Hret; naive_solver|].
    destruct (String.eqb_spec u ""); [apply Hret; naive_solver|].
    destruct (linkable (query r "provider")) eqn:El; cbn [negb]; [|apply Hret; naive_solver].
    walk_norm; [step; [naive_solver|]; walk_norm|]; apply (runs_save p); cbn; auto 20 with effects; rewrite Ea;
      try (apply String.eqb_neq in Heqb0); naive_solver.
  - walk_norm; [apply Hret; naive_solver| |].
    + step; [naive_solver|]. walk_norm. apply (runs_save p); cbn; auto 20 with effects; rewrite Ea; naive_solver.
    + apply (runs_save p); cbn; auto 20 with effects; rewrite Ea. apply String.eqb_neq in Heqb0. naive_solver.
Qed.

(** A request to a provider and its decoded answer. *)
Lemma runs_fetch_json k f (G : trace oeff → Prop) :
  stable G → exchanged (Ev (OFetch f) (inl ErrBusy)) = false → (∀ t, G t → ∀ a, oauth_ok s r t (Ev (OFetch f) a)) →
  runs (λ t, rest k t ∧ G t) (fetch_json η f)
    (λ a t, (rest k t ∧ G t) ∧ ∀ d, a = inr d → ∃ st body, Ev (OFetch f) (inr (st, body)) ∈ t ∧
              200 <= st < 300 ∧ decode_body body = Some d).
Proof.
  intros HG Hf Hok. unfold fetch_json. apply runs_step; [|done|].
  { intros t a Hb Hg. split; [by apply Hok|]. unfold rest, exchanges in *. cbn in *. destruct f; done. }
  intros [e|[st body]]; [apply runs_ret; naive_solver|].
  destruct (_ || _) eqn:Es; [apply runs_ret; naive_solver|].
  destruct (decode_body body) as [d|] eqn:Ed; [|apply runs_ret; naive_solver].
  apply runs_ret. intros t (Hb & Hg & He). split; [done|]. intros d' [= <-].
  apply orb_false_iff in Es as [E1%Z.ltb_ge E2%Z.leb_gt]. exists st, body. split_and!; [done|lia..|done].
Qed.

Lemma token_of_stable tk : stable (token_of tk).
Proof.
  intros e t (u & c & b & st & a & d & H & ?). exists u, c, b, st, a, d. split; [by apply list_elem_of_further|done].
Qed.

Lemma runs_exchange name p session (G : trace oeff → Prop) :
  stable G → routed s r name "callback" p → query r "error" = "" → query r "code" ≠ "" → (name = "kick" → Verifier session ≠ "") →
  (∀ t, G t → allowed t ∧ consumed s r name session t) →
  runs (λ t, rest 0 t ∧ G t) (exchange η p (code_values s r name p (Verifier session)))
    (λ a t, (rest 1 t ∧ G t) ∧ ∀ tk, a = inr tk → token_of tk t).
Proof.
  intros HG Hp Hq Hc Hv Hf. unfold exchange. set (content := if JSONBody p then _ else _). set (body := if JSONBody p then _ else _).
  unfold fetch_json. walk_norm.
  eapply runs_ask_bind with (λ a t, rest 1 t ∧ G t ∧ Ev (OFetch (Exchange (TokenURL p) content body)) a ∈ t).
  { intros t a [Hb Hg]. destruct (Hf t Hg) as [Ha Hs]. unfold rest, exchanges in *. split.
    - exists name, p, session. split_and!; try done. unfold exchanges. lia.
    - split_and!; [cbn; lia|by apply HG|apply list_elem_of_here]. }
  intros [e|[st b]]; [apply runs_ret; naive_solver|].
  destruct (_ || _) eqn:Es; [apply runs_ret; naive_solver|].
  destruct (decode_body b) as [d|] eqn:Ed; [|apply runs_ret; naive_solver]. apply runs_ret_bind. cbv iota beta.
  destruct (is_nil _); [apply runs_ret; naive_solver|].
  apply orb_false_iff in Es as [E1%Z.ltb_ge E2%Z.leb_gt].
  assert (Htk : ∀ t tk, Ev (OFetch (Exchange (TokenURL p) content body)) (inr (st, b)) ∈ t →
    (tk = d ∨ ∃ x, tk = map_set d "expires_at" (VString x)) → token_of tk t).
  { intros t tk Ht Hx. exists (TokenURL p), content, body, st, b, d. split_and!; [done|lia..|done|done]. }
  destruct (field d "expires_in") as [| | |n| | | | | | |];
    try (apply runs_ret; intros tr (Hb & Hg & He); split; [done|]; intros tk [= <-]; apply (Htk tr); [done|by left]).
  apply runs_step; [intros t a Hb [Hg _]; split; [by apply Hf|done]|auto with effects|intros now].
  apply runs_ret. intros t (Hb & [Hg He] & _). split; [done|]. intros tk [= <-]. apply (Htk t); [done|]. right. by eexists.
Qed.

Lemma runs_profile name p tk k (G : trace oeff → Prop) :
  stable G → (∀ t, G t → token_of tk t) →
  runs (λ t, rest k t ∧ G t) (profile η name (op_ClientID p) (KickWebhook.sprint (field tk "access_token")))
    (λ _ t, rest k t ∧ G t).
Proof.
  intros HG Htk.
  assert (Hget : ∀ url id, runs (λ t, rest k t ∧ G t)
    (fetch_json η (Profile url (KickWebhook.sprint (field tk "access_token")) id)) (λ _ t, rest k t ∧ G t)).
  { intros url id. eapply runs_conseq; [apply (runs_fetch_json k _ G); [done|done|]|done|naive_solver].
    intros t Hg a. cbn. eauto. }
  unfold profile.
  repeat first
    [ apply runs_bindE with (λ _ t, rest k t ∧ G t); [apply Hget|done|intros ?]
    | match goal with |- runs _ (if ?x then _ else _) _ => destruct x end
    | by apply runs_ret ].
Qed.

Lemma runs_complete name p :
  routed s r name "callback" p →
  runs (λ t, rest 0 t ∧ allowed t) (complete η s r name p) (λ _ t, rest 1 t).
Proof.
  intros Hp. unfold complete.
  assert (Hret : ∀ F a, (∀ t, F t → rest 1 t) → runs F (mret a : M (world oeff unit) reply) (λ _ t, rest 1 t)) by (intros; by apply runs_ret).
  assert (H01 : ∀ t, rest 0 t → rest 1 t) by (unfold rest; lia).
  step; [split_and!; eauto using cookie_signed|]. rename a into session. destruct session as [e|session]; [apply Hret; naive_solver|].
  destruct (_ || _) eqn:Heqb; [apply Hret; naive_solver|]. destruct (_ && _) eqn:Heqb0; [apply Hret; naive_solver|].
  apply orb_false_iff in Heqb as [He%negb_false_iff%String.eqb_eq Hc%String.eqb_neq].
  set (G t := allowed t ∧ consumed s r name session t).
  assert (HG : stable G) by (unfold G, consumed; auto with effects).
  apply runs_bind with (λ a t, (rest 1 t ∧ G t) ∧ ∀ tk, a = inr tk → token_of tk t).
  { apply (runs_exchange _ _ _ G); [done..| |done]. intros ->. apply andb_false_iff in Heqb0 as [|H%String.eqb_neq]; done. }
  intros [e|tk]; [apply Hret; naive_solver|]. unfold finish_login.
  set (G' t := G t ∧ token_of tk t).
  assert (HG' : stable G') by (intros e t [? ?]; split; [by apply HG|by apply token_of_stable]).
  apply runs_conseq with (λ t, rest 1 t ∧ G' t) (λ _ t, rest 1 t); [|unfold G'; naive_solver|done].
  destruct (String.eqb_spec (SUID session) "") as [Hu|Hu]; cbn [negb].
  - apply runs_bind with (λ _ t, rest 1 t ∧ G' t); [by apply runs_profile; [|unfold G'; naive_solver]|].
    intros [e|prof]; [apply Hret; naive_solver|].
    apply runs_step; [|done|intros; apply Hret; naive_solver].
    intros t a Hb [[_ Hs] Ht]. split; [|done]. cbn. eauto 10.
  - apply runs_step; [|done|intros; apply Hret; naive_solver].
    intros t a Hb [[_ Hs] Ht]. split; [|done]. cbn. split; [done|]. exists p, session. by split_and!.
Qed.

Lemma runs_OauthServe : runs (λ t, t = []) (OauthServe η s r) (λ _ t, rest 1 t).
Proof.
  unfold OauthServe.
  assert (Hret : ∀ F a, (∀ t, F t → rest 1 t) → runs F (mret a : M (world oeff unit) reply) (λ _ t, rest 1 t)) by (intros; by apply runs_ret).
  assert (H01 : ∀ t, rest 0 t → rest 1 t) by (unfold rest; lia).
  destruct (negb _); [apply Hret; intros t ->; unfold rest; cbn; lia|].
  destruct (_ <? _)%nat; [apply Hret; intros t ->; unfold rest; cbn; lia|].
  apply runs_ask_bind with (λ a t, rest 0 t ∧ Ev (OAllow (peer s r)) a ∈ t).
  { intros t a ->. split; [done|]. split; [unfold rest; cbn; lia|apply list_elem_of_here]. }
  intros [e|[|]]; [apply Hret; naive_solver| |apply Hret; naive_solver].
  destruct (split_char "/" _) as [|a [|name [|action [|]]]] eqn:Er; try (apply Hret; naive_solver).
  destruct (String.eqb_spec a "auth") as [->|]; cbn [negb]; [|apply Hret; naive_solver].
  destruct (sv_providers s !! name) as [p|] eqn:Ep; [|apply Hret; naive_solver].
  destruct (_ || _) eqn:Ec; [apply Hret; naive_solver|]. apply orb_false_iff in Ec as [_ Ec%String.eqb_neq].
  assert (Hro : routed s r name action p) by (unfold routed, route; rewrite Er; done).
  destruct (String.eqb_spec action "redirect") as [->|]; [by apply runs_redirect|].
  destruct (String.eqb_spec action "callback") as [->|]; [by apply runs_complete|]. apply Hret; naive_solver.
Qed.
End DisciplineProof.

(** C27. What one request to the OAuth server can do, however Firebase, the
    providers and the clocks behave: nothing before the rate limiter allowed
    its peer; a code is exchanged at most once, only when the
    provider reported no error and after the session of the signed cookie was
    consumed for this provider and state, and with its PKCE
    verifier; a sign-in or a link uses only a token that the provider answered
    to that exchange, and the user that was verified when the session began;
    a new session has a fresh state, lives for a minute, and is for the user of
    a verified token where one is to be linked. *)
Theorem oauth_authentic (η : env oeff) s r :
  let w := (OauthServe η s r (World [] tt)).2 in
  justified (oauth_ok s r) (w_tr w) ∧ (exchanges (w_tr w) <= 1)%nat.
Proof. cbn. by destruct (runs_OauthServe η s r (World [] tt)) as [H1 H2]. Qed.
