(* ===== verification/OAuthStore.v ===== *)
(** * The OAuth store

    Models agent/internal/oauthhttp/store.go: sessions that are consumed once,
    the fixed-window limiter, the reservation of a user for a provider's
    identity, stored tokens and linked providers. The Realtime Database and
    Firebase Auth are effects beside Firestore. *)

From stdpp Require Import base gmap strings list sorting.
From Stdlib Require Import Ascii.
From S2P Require Import Prelude GoErr Sha256 GoTime Float64 Json Effects Store JsonText Provider OAuth.

Inductive steff : Type → Type :=
  | StDb {A} (op : db A) : steff A
  | StNow : steff time
  | StRandom : steff string
  | RtGet (path : string) : steff (result string)
  (* the function given to the transaction, applied to the node until it holds *)
  | RtTransaction (path : string) (f : value → result value) : steff (option error)
  | AuVerify (token : string) : steff (result string)
  | AuGetUser (uid : string) : steff (result bool)      (* false: no such user *)
  | AuCreateUser (uid : string) : steff (result bool)   (* false: it exists *)
  | AuCustomToken (uid : string) : steff (result string).

(** ** Documents *)

(** The session as its document holds it: the fields of the struct. *)
Definition session_value (s : Session) : value :=
  VMap [("State", VString (State s)); ("Provider", VString (Provider__ s)); ("Verifier", VString (Verifier s));
        ("Companion", VString (Companion s)); ("UID", VString (SUID s));
        ("LinkedProvider", VString (LinkedProvider s)); ("Expires", VTime (Expires s))].

(** DataTo: an absent field or a null leaves the zero value, another type fails. *)
Definition data_string (d : doc) (k : string) : option string :=
  match field d k with VNull => Some "" | VString s => Some s | _ => None end.
Definition data_time (d : doc) (k : string) : option time :=
  match field d k with VNull => Some zero_time | VTime t => Some t | _ => None end.
Definition data_int (d : doc) (k : string) : option Z :=
  match field d k with VNull => Some 0 | VInt n => Some n | VFloat t => parse_int t | _ => None end.

Definition decode_session (d : doc) : option Session :=
  let decode (m : doc) :=
    st ← data_string m "State"; p ← data_string m "Provider"; v ← data_string m "Verifier";
    c ← data_string m "Companion"; u ← data_string m "UID"; l ← data_string m "LinkedProvider";
    e ← data_time m "Expires"; Some (MkSession st p v c u l e) in
  match field d "session" with VNull => decode [] | VMap m => decode m | _ => None end.

Lemma session_roundtrip s rest : decode_session (("session", session_value s) :: rest) = Some s.
Proof. by destruct s. Qed.

(** The limiter's document. *)
Definition decode_limit (d : doc) : option (Z * time) :=
  n ← data_int d "count"; e ← data_time d "expiresAt"; Some (n, e).

Definition bad_data {A} : result A := inl (ErrMsg "firestore: cannot set type").

(** What a sign-in reserves: the user that the node names, or the candidate. *)
Definition reserve (candidate : string) (node : value) : result value :=
  match node with
  | VNull => inr (VString candidate)
  | VString current => inr (VString (if String.eqb current "" then candidate else current))
  | _ => inl (ErrMsg "json: cannot unmarshal")
  end.

(** A token without a refresh token keeps the one that is stored. *)
Definition keep_refresh (token : doc) (stored : option doc) (f : string) : doc :=
  match stored with
  | Some d =>
    if is_nil (field token "refresh_token") then
      match field d f with
      | VString encoded =>
        match decodeToken encoded with
        | Some previous =>
          if is_nil (field previous "refresh_token") then token
          else map_set token "refresh_token" (field previous "refresh_token")
        | None => token
        end
      | _ => token
      end
    else token
  | None => token
  end.

Section Ops.
Context {S : Type} (η : env steff).
Local Abbreviation M := (M (world steff S)).
Local Abbreviation db_ := (db_ η (@StDb)).
Local Abbreviation exec := (exec η (@StDb)).

Definition session_ref (id : string) : string := "oauth-http-sessions/" +:+ id.
Definition SaveSession (id : string) (s : Session) : M (result unit) :=
  exec (Store.Create (session_ref id) [("session", session_value s); ("expiresAt", VTime (Expires s))]).

Definition consume_tx (id provider state : string) : M (result Session) :=
  d ←? db_ (TxGet (session_ref id));
  match decode_session d with
  | None => mret bad_data
  | Some session =>
    now ← ask η StNow;
    if negb (String.eqb (Provider__ session) provider) || negb (String.eqb (State session) state) ||
       (Expires session <? now)
    then throw (ErrMsg "invalid session")
    else exec (TxDelete (session_ref id)) ;? ok session
  end.
Definition ConsumeSession (id provider state : string) : M (result Session) :=
  if String.eqb id "" || String.eqb state "" then throw (ErrMsg "missing session")
  else RunTransaction η (@StDb) (consume_tx id provider state).

Definition limit_ref (peer : string) : string := "oauth-http-ratelimits/" +:+ hex_encode (sha256 peer).

(** An absent document is a zero count. *)
Definition absent {A} (none : A) (r : result A) : result A :=
  match r with
  | inl e => if decide (status_code (Some e) = NotFound) then inr none else inl e
  | inr a => inr a
  end.

Definition allow_tx (peer : string) (now : time) : M (result bool) :=
  r ← db_ (TxGet (limit_ref peer));
  match absent [] r with
  | inl e => throw e
  | inr d =>
    match decode_limit d with
    | None => mret bad_data
    | Some (count, expires) =>
      let '(count, expires) := if expires <? now then (0, now + minute) else (count, expires) in
      if 30 <=? count then ok false
      else exec (TxSet (limit_ref peer) [("count", VInt (count + 1)); ("expiresAt", VTime expires)] false) ;? ok true
    end
  end.
Definition Allow (peer : string) : M (result bool) :=
  now ← ask η StNow; RunTransaction η (@StDb) (allow_tx peer now).

Definition Verify (token : string) : M (result string) := ask η (AuVerify token).

Definition tokens_doc (uid : string) : string := "tokens/" +:+ uid.
Definition persist_tx (path f : string) (token : doc) : M (result unit) :=
  r ← db_ (TxGet path);
  match absent None (match r with inl e => inl e | inr d => inr (Some d) end) with
  | inl e => throw e
  | inr stored => exec (TxSet path [(f, VString (marshal_map (keep_refresh token stored f)))] true)
  end.
Definition persistToken (path f : string) (token : doc) : M (result unit) :=
  RunTransaction η (@StDb) (persist_tx path f token).

(** The user of the identity at [ref], reserved if there is none. *)
Definition reserved_user (ref : string) : M (result string) :=
  uid ←? ask η (RtGet ref);
  if String.eqb uid "" then
    candidate ← ask η StRandom;
    e ← ask η (RtTransaction ref (reserve candidate));
    match e with Some e => throw e | None => ask η (RtGet ref) end
  else ok uid.

(** The user exists, or is created now. *)
Definition ensure_user (uid : string) : M (result unit) :=
  r ← ask η (AuGetUser uid);
  match r with
  | inr true => ok tt
  | inr false => c ← ask η (AuCreateUser uid); match c with inl e => throw e | inr _ => ok tt end
  | inl e => throw e
  end.

Definition invalid_id (id : string) : bool :=
  String.eqb id "" || existsb (λ c, contains_char id c) [ "."; "#"; "$"; "["; "]"; "/" ]%char.

Definition SignIn (provider : string) (profile token : doc) (companion : string) : M (result string) :=
  let id := str (field profile "id") in
  if invalid_id id then throw (ErrMsg "invalid provider id")
  else
    uid ←? reserved_user ("userIds/" +:+ provider +:+ "/" +:+ id);
    ensure_user uid ;?
    persistToken (tokens_doc uid) provider token ;?
    exec (Set_ ("profiles/" +:+ uid) [(provider, VMap profile)] true) ;?
    custom ←? ask η (AuCustomToken uid);
    if negb (String.eqb companion "")
    then exec (Set_ ("companion-tokens/" +:+ companion) [("token", VString custom)] true) ;? ok custom
    else ok custom.

Definition Link (uid provider linked : string) (token : doc) : M (result unit) :=
  profile ←? db_ (Get ("profiles/" +:+ uid));
  let id := str (field (object (field profile linked)) "id") in
  if String.eqb id "" then throw (ErrMsg "provider not linked")
  else exec (Set_ (provider +:+ "/" +:+ uid)
               [("channelId", VString (linked +:+ ":" +:+ id)); ("token", VString (marshal_map token))] true).
End Ops.

(** ** One request's transaction, over the document it reads

    Firestore's transactions are serializable, so the attempt that commits read
    the document as it was when it wrote it. [attempt] runs a program whose
    transaction reads [d], at the time [now], and commits; it answers with what
    the program returned and the document after its writes. *)

Definition tx_env (d : option doc) (now : time) : env steff := λ A t op,
  match op in steff A return A with
  | @StDb A op => match op in db A return A with
    | Get _ | TxGet _ => match d with Some d => inr d | None => inl (ErrStatus NotFound) end
    | Query _ _ _ => inr []
    | _ => None
    end
  | StNow => now
  | StRandom => ""
  | RtGet _ | AuVerify _ | AuCustomToken _ => inr ""
  | RtTransaction _ _ => None
  | AuGetUser _ | AuCreateUser _ => inr true
  end.

(** The document after the writes of a trace. *)
Fixpoint tx_written (d : option doc) (t : trace steff) : option doc :=
  match t with
  | [] => d
  | Ev op _ :: t =>
    match op with
    | StDb op =>
      match op with
      | TxSet _ data false => Some data
      | TxDelete _ => None
      | _ => tx_written d t
      end
    | _ => tx_written d t
    end
  end.

Definition attempt {A} (f : env steff → M (world steff unit) (result A)) (d : option doc) (now : time) :
    result A * option doc :=
  let '(r, w) := f (tx_env d now) (World [] tt) in
  (r, match r with inr _ => tx_written d (w_tr w) | inl _ => d end).

(** *** Sessions *)

Definition redeems (provider state : string) (now : time) (s : Session) : bool :=
  String.eqb (Provider__ s) provider && String.eqb (State s) state && (now <=? Expires s).

Lemma consume_attempt id provider state d now s d' :
  attempt (λ η, ConsumeSession η id provider state) d now = (inr s, d') →
  d' = None ∧ id ≠ "" ∧ state ≠ "" ∧ redeems provider state now s = true ∧
  ∃ stored, d = Some stored ∧ decode_session stored = Some s.
Proof.
  unfold attempt, ConsumeSession, redeems.
  destruct (String.eqb_spec id ""), (String.eqb_spec state ""); try done. cbn [orb].
  unfold RunTransaction. cbn [run_transaction]. unfold consume_tx, bindE, Store.db_. rewrite !M_bind_run. cbn.
  destruct d as [stored|]; cbn; [|done].
  destruct (decode_session stored) as [s'|] eqn:Ed; cbn; [|done]. rewrite M_bind_run. cbn.
  destruct (String.eqb_spec (Provider__ s') provider), (String.eqb_spec (State s') state); cbn; try done.
  destruct (Z.ltb_spec (Expires s') now); cbn; [done|]. intros [= <- <-]. split_and!; try done.
  - rewrite !(proj2 (String.eqb_eq _ _)) by done. cbn. by apply Z.leb_le.
  - by exists stored.
Qed.

(** The sessions' collection, and what callbacks redeemed of it. A redemption
    whose commit is lost still deletes the session, and redeems nothing. *)
Inductive session_op :=
  | SaveOp (id : string) (s : Session)
  | ConsumeOp (id provider state : string) (now : time) (lost : bool).

Record sessions := Sessions {
  ss_docs : gmap string doc;
  ss_saved : list (string * Session);      (* created without error *)
  ss_redeemed : list (string * Session)    (* returned to a callback *)
}.

Definition session_step (σ : sessions) (o : session_op) : sessions :=
  match o with
  | SaveOp id s =>
    match ss_docs σ !! id with
    | Some _ => σ
    | None => Sessions (<[id := [("session", session_value s); ("expiresAt", VTime (Expires s))]]> (ss_docs σ))
                       ((id, s) :: ss_saved σ) (ss_redeemed σ)
    end
  | ConsumeOp id provider state now lost =>
    match attempt (λ η, ConsumeSession η id provider state) (ss_docs σ !! id) now with
    | (inl _, _) => σ
    | (inr s, d) => Sessions (partial_alter (λ _, d) id (ss_docs σ)) (ss_saved σ)
                             ((if lost then [] else [(id, s)]) ++ ss_redeemed σ)
    end
  end.
Definition session_run : list session_op → sessions := foldl session_step (Sessions ∅ [] []).

Definition times (id : string) (l : list (string * Session)) : nat :=
  List.length (List.filter (λ x, String.eqb x.1 id) l).

#[local] Arguments times : simpl never.

(** The invariant: what is stored was saved, and neither redeemed before. *)
Record sessions_ok (h : list session_op) (σ : sessions) : Prop := {
  so_docs : ∀ id d, ss_docs σ !! id = Some d → ∃ s, (id, s) ∈ ss_saved σ ∧ decode_session d = Some s;
  so_once : ∀ id, (times id (ss_redeemed σ) + (if ss_docs σ !! id then 1 else 0) <= times id (ss_saved σ))%nat;
  so_saved : ∀ x, x ∈ ss_saved σ → SaveOp x.1 x.2 ∈ h;
  so_redeemed : ∀ x, x ∈ ss_redeemed σ → x ∈ ss_saved σ ∧ ∃ provider state now,
    ConsumeOp x.1 provider state now false ∈ h ∧ redeems provider state now x.2 = true ∧ x.1 ≠ "" ∧ state ≠ ""
}.

Lemma times_cons id x l : times id (x :: l) = ((if String.eqb x.1 id then 1 else 0) + times id l)%nat.
Proof. unfold times. cbn. by destruct (String.eqb x.1 id). Qed.

Lemma session_step_ok h o σ : o ∈ h → sessions_ok h σ → sessions_ok h (session_step σ o).
Proof.
  intros Ho [Hd Hn Hs Hr]. destruct o as [id s|id provider state now lost]; cbn.
  - destruct (ss_docs σ !! id) eqn:El; [done|]. split; cbn.
    + intros id' d. rewrite lookup_insert_Some. intros [[<- <-]|[Hne H]].
      * exists s. split; [left|apply session_roundtrip].
      * destruct (Hd _ _ H) as (s' & ? & ?). exists s'. split; [by right|done].
    + intros id'. rewrite times_cons. cbn. specialize (Hn id'). destruct (String.eqb_spec id id') as [<-|].
      * rewrite lookup_insert_eq. rewrite El in Hn. lia.
      * by rewrite lookup_insert_ne.
    + intros x [->|Hx]%elem_of_cons; [done|by apply Hs].
    + intros x Hx. destruct (Hr x Hx) as [? ?]. split; [by right|done].
  - destruct (attempt _ _ _) as [[e|s] d] eqn:Ea; [done|].
    apply consume_attempt in Ea as (-> & Hid & Hst & Hred & stored & El & Hdec).
    destruct (Hd _ _ El) as (s' & Hin & Hs'). simplify_eq. split; cbn.
    + intros id' d. rewrite lookup_partial_alter_Some. intros [[<- ?]|[_ H]]; [done|by apply Hd].
    + intros id'. specialize (Hn id'). destruct (decide (id = id')) as [<-|Hne].
      * rewrite lookup_partial_alter_eq. rewrite El in Hn. destruct lost; cbn [app]; rewrite ?times_cons; cbn; rewrite ?String.eqb_refl; lia.
      * rewrite lookup_partial_alter_ne by done.
        destruct lost; cbn [app]; rewrite ?times_cons; cbn; [done|]. by rewrite (proj2 (String.eqb_neq _ _)).
    + done.
    + intros x Hx. destruct lost; cbn in Hx; [by apply Hr|]. apply elem_of_cons in Hx as [->|Hx]; [|by apply Hr].
      split; [done|]. by exists provider, state, now.
Qed.

Lemma session_run_ok h σ : sessions_ok h σ → ∀ l, (∀ o, o ∈ l → o ∈ h) → sessions_ok h (foldl session_step σ l).
Proof.
  intros Hσ l. revert σ Hσ. induction l as [|o l IH]; intros σ Hσ Hl; [done|]. cbn. apply IH.
  - apply session_step_ok; [apply Hl; left|done].
  - intros o' ?. apply Hl. by right.
Qed.

(** C28. An OAuth session is redeemed once: in every history of saves and
    callbacks across replicas, lost commits included, a session identifier is
    redeemed at most as often as it was created, and a redemption returns what
    was saved under it to a callback with its provider and its state, before it
    expired. *)
Theorem session_once (h : list session_op) :
  let σ := session_run h in
  (∀ id, (times id (ss_redeemed σ) <= times id (ss_saved σ))%nat) ∧
  Forall (λ x, SaveOp x.1 x.2 ∈ h ∧ x.1 ≠ "" ∧ ∃ now,
    ConsumeOp x.1 (Provider__ x.2) (State x.2) now false ∈ h ∧ now <= Expires x.2 ∧ State x.2 ≠ "")
    (ss_redeemed σ).
Proof.
  cbn. assert (H : sessions_ok h (session_run h)).
  { apply session_run_ok; [|done]. split; cbn; [done|intros id; by rewrite lookup_empty|intros x []%not_elem_of_nil..]. }
  split; [intros id; pose proof (so_once _ _ H id); lia|].
  apply Forall_forall. intros x Hx. destruct (so_redeemed _ _ H x Hx) as (Hs & p & st & now & Hc & Hred & ? & ?).
  unfold redeems in Hred. rewrite !andb_true_iff, !String.eqb_eq in Hred. destruct Hred as [[<- <-] Hle%Z.leb_le].
  split_and!; [by apply (so_saved _ _ H)|done|]. by exists now.
Qed.

(** *** The limiter *)

(** The window of a document after a request at [now], if it is allowed. *)
Definition limited (window : Z * time) (now : time) : option (Z * time) :=
  let '(count, expires) := if window.2 <? now then (0, now + minute) else window in
  if 30 <=? count then None else Some (count + 1, expires).
Definition limit_doc (window : Z * time) : doc := [("count", VInt window.1); ("expiresAt", VTime window.2)].

Lemma allow_attempt peer d now window :
  decode_limit (default [] d) = Some window →
  attempt (λ η, Allow η peer) d now =
    match limited window now with
    | Some window' => (inr true, Some (limit_doc window'))
    | None => (inr false, d)
    end.
Proof.
  intros Hw. unfold attempt, Allow, limited. rewrite M_bind_run. cbn [ask fst snd]. unfold RunTransaction.
  cbn [run_transaction]. unfold allow_tx, Store.db_. rewrite !M_bind_run. cbn.
  assert (Ha : absent [] (match d with Some d => inr d | None => inl (ErrStatus NotFound) end) = inr (default [] d))
    by (by destruct d).
  rewrite Ha. cbn. rewrite Hw. destruct window as [c e]. cbn.
  destruct (e <? now); cbn; [done|]. by destruct (30 <=? c).
Qed.

(** Requests of one peer at the given times, one attempt each: the document
    after them, and when a request was allowed, the latest first. *)
Fixpoint limit_run (peer : string) (d : option doc) (allowed : list time) (nows : list time) : list time :=
  match nows with
  | [] => allowed
  | now :: nows =>
    match attempt (λ η, Allow η peer) d now with
    | (inr true, d) => limit_run peer d (now :: allowed) nows
    | (_, d) => limit_run peer d allowed nows
    end
  end.

Definition within (a : time) (l : list time) : Z :=
  Z.of_nat (List.length (List.filter (λ t, (a <=? t) && (t <? a + minute)) l)).

Lemma within_cons a t l : within a (t :: l) = (if (a <=? t) && (t <? a + minute) then 1 else 0) + within a l.
Proof. unfold within. cbn. destruct (_ && _); cbn [List.length]; lia. Qed.

(** How many more a window allows in the minute from [a]. *)
Definition room (a : time) (window : Z * time) : Z :=
  let left := 30 - Z.min 30 window.1 in
  if a + minute <=? window.2 then left else if a <=? window.2 then left + 30 else 60.

Lemma limited_room a window now :
  0 <= window.1 → now < a + minute →
  match limited window now with
  | Some window' => 0 <= window'.1 ∧ (if a <=? now then 1 else 0) + room a window' <= room a window
  | None => True
  end.
Proof.
  intros Hc Hn. unfold limited, room. destruct window as [c e]. cbn in *.
  assert (0 < minute) by done.
  destruct (Z.ltb_spec e now); cbn.
  - split; [lia|]. destruct (Z.leb_spec (a + minute) (now + minute)), (Z.leb_spec a (now + minute)),
      (Z.leb_spec (a + minute) e), (Z.leb_spec a e), (Z.leb_spec a now); lia.
  - destruct (Z.leb_spec 30 c); [done|]. cbn. split; [lia|].
    destruct (Z.leb_spec (a + minute) e), (Z.leb_spec a e), (Z.leb_spec a now); lia.
Qed.

Lemma limit_run_late peer a nows : ∀ d allowed window,
  decode_limit (default [] d) = Some window →
  Forall (λ t, a + minute <= t) nows → within a (limit_run peer d allowed nows) = within a allowed.
Proof.
  induction nows as [|now nows IH]; intros d allowed window Hw Hf; [done|]. cbn.
  apply Forall_cons in Hf as [Hnow Hf]. rewrite (allow_attempt _ _ _ _ Hw).
  destruct (limited window now) as [[c e]|]; [|by eapply IH].
  erewrite IH; [|done|done]. rewrite within_cons, (proj2 (Z.ltb_ge _ _)) by lia. by rewrite andb_false_r.
Qed.

Lemma limit_run_room peer a nows : ∀ d allowed window,
  decode_limit (default [] d) = Some window → 0 <= window.1 → StronglySorted Z.le nows →
  within a (limit_run peer d allowed nows) <= within a allowed + room a window.
Proof.
  assert (Hroom : ∀ w, 0 <= room a w) by (intros [c e]; unfold room; cbn; repeat case_match; lia).
  induction nows as [|now nows IH]; intros d allowed window Hw Hc Hs.
  { cbn. pose proof (Hroom window). lia. }
  apply StronglySorted_inv in Hs as [Hs Hf].
  destruct (Z.ltb_spec now (a + minute)) as [Hlt|Hge].
  - cbn. rewrite (allow_attempt _ _ _ _ Hw). pose proof (limited_room a window now Hc Hlt) as Hr.
    destruct (limited window now) as [[c e]|]; [|by apply IH].
    destruct Hr as [Hc' Hr]. etrans; [by eapply IH|]. rewrite within_cons.
    rewrite (proj2 (Z.ltb_lt _ _) Hlt), andb_true_r. cbn. destruct (a <=? now); lia.
  - erewrite limit_run_late; [pose proof (Hroom window); lia|done|].
    apply Forall_cons. split; [done|]. eapply Forall_impl; [done|]. cbn. lia.
Qed.

(** The limiter's bound: of the requests of one peer, however many and on
    whichever replicas, at most sixty are allowed in any minute, when the
    transactions commit in the order of the times they read; a window is thirty. *)
Theorem allow_bounded peer a nows :
  StronglySorted Z.le nows →
  within a (limit_run peer None [] nows) <= 60.
Proof.
  intros Hs. pose proof (limit_run_room peer a nows None [] (0, zero_time) eq_refl) as H.
  specialize (H ltac:(done) Hs). change (within a []) with 0 in H.
  unfold room in H. repeat case_match; cbn in H; lia.
Qed.

(** The witness: 40 requests at one time, of which 30 are allowed. *)
Lemma allow_bounded_witness :
  within second (limit_run "peer" None [] (replicate 40 second)) <= 60 ∧
  within second (limit_run "peer" None [] (replicate 40 second)) = 30.
Proof.
  split; [apply (allow_bounded "peer" second (replicate 40 second))|vm_compute; reflexivity].
  cbn. repeat constructor; done.
Defined.

(** ** Signing in *)

(** A node keeps the user it names, so sign-ins that race agree on one. *)
Lemma reserve_keeps c c' node user :
  c ≠ "" → reserve c node = inr user → reserve c' user = inr user.
Proof.
  intros Hc. destruct node; cbn; try done; intros [= <-]; cbn.
  - by rewrite (proj2 (String.eqb_neq _ _) Hc).
  - destruct (String.eqb_spec s ""); by rewrite (proj2 (String.eqb_neq _ _)).
Qed.

Lemma keep_refresh_kept token d f encoded previous :
  field d f = VString encoded → decodeToken encoded = Some previous →
  field token "refresh_token" = VNull →
  field (keep_refresh token (Some d) f) "refresh_token" = field previous "refresh_token".
Proof.
  intros Hf Hd Ht. unfold keep_refresh. rewrite Ht, Hf, Hd. cbn.
  destruct (field previous "refresh_token") eqn:E; cbn; rewrite ?field_map_set, ?String.eqb_refl; done.
Qed.

Section SignIn.
Context (η : env steff) (provider : string) (prof token : doc) (companion : string).

Definition user_ref : string := "userIds/" +:+ provider +:+ "/" +:+ str (field prof "id").

(** The user that the reservation names, who exists. *)
Definition vouched (uid : string) (t : trace steff) : Prop :=
  Ev (RtGet user_ref) (inr uid) ∈ t ∧
  ((Ev (AuGetUser uid) (inr true) ∈ t) ∨ ∃ b, Ev (AuCreateUser uid) (inr b) ∈ t).

(** The token's transaction committed. *)
Definition token_stored (uid : string) (t : trace steff) : Prop :=
  Ev (StDb Commit) None ∈ t ∧ ∃ data, Ev (StDb (TxSet (tokens_doc uid) data true)) None ∈ t.

Definition read_tokens (uid : string) (stored : option doc) (t : trace steff) : Prop :=
  match stored with
  | Some d => Ev (StDb (TxGet (tokens_doc uid))) (inr d) ∈ t
  | None => ∃ e, Ev (StDb (TxGet (tokens_doc uid))) (inl e) ∈ t ∧ status_code (Some e) = NotFound
  end.

Definition profile_doc (uid : string) : string := "profiles/" +:+ uid.
Definition companion_doc : string := "companion-tokens/" +:+ companion.

Definition sign_in_ok (t : trace steff) (e : ev steff) : Prop :=
  match e with
  | Ev op _ =>
    match op with
    | RtGet p => p = user_ref ∧ invalid_id (str (field prof "id")) = false
    | StRandom => Ev (RtGet user_ref) (inr "") ∈ t
    | RtTransaction p f => p = user_ref ∧ ∃ c, Ev StRandom c ∈ t ∧ f = reserve c
    | AuGetUser uid => Ev (RtGet user_ref) (inr uid) ∈ t
    | AuCreateUser uid => Ev (AuGetUser uid) (inr false) ∈ t
    | AuCustomToken uid =>
      vouched uid t ∧ token_stored uid t ∧
      Ev (StDb (Set_ (profile_doc uid) [(provider, VMap prof)] true)) None ∈ t
    | StDb op =>
      match op with
      | TxGet p => ∃ uid, p = tokens_doc uid ∧ vouched uid t
      | TxSet p data merge =>
        ∃ uid stored, p = tokens_doc uid ∧ vouched uid t ∧ read_tokens uid stored t ∧ merge = true ∧
          data = [(provider, VString (marshal_map (keep_refresh token stored provider)))]
      | Commit => ∃ uid data, Ev (StDb (TxSet (tokens_doc uid) data true)) None ∈ t
      | Set_ p data merge =>
        merge = true ∧
        ((∃ uid, p = profile_doc uid ∧ data = [(provider, VMap prof)] ∧ vouched uid t ∧ token_stored uid t) ∨
         (∃ uid custom, p = companion_doc ∧ companion ≠ "" ∧ data = [("token", VString custom)] ∧
            Ev (AuCustomToken uid) (inr custom) ∈ t))
      | _ => False
      end
    | _ => False
    end
  end.

(** A custom token is for the user that signs in, and a companion's was left. *)
Definition signed_in (a : result string) (t : trace steff) : Prop :=
  match a with
  | inl _ => True
  | inr custom => ∃ uid, Ev (AuCustomToken uid) (inr custom) ∈ t ∧
      (companion ≠ "" → Ev (StDb (Set_ companion_doc [("token", VString custom)] true)) None ∈ t)
  end.

Local Abbreviation runs := (runs (S:=unit) sign_in_ok).

Lemma vouched_stable uid : stable (vouched uid).
Proof. intros e t [H1 H2]. split; [by right|]. destruct H2 as [|[b ?]]; [left; by right|right; exists b; by right]. Qed.
Lemma token_stored_stable uid : stable (token_stored uid).
Proof. intros e t [H1 [d H2]]. split; [by right|]. exists d. by right. Qed.
#[local] Hint Resolve vouched_stable token_stored_stable : effects.

Lemma runs_reserved_user :
  invalid_id (str (field prof "id")) = false →
  runs (λ t, True) (reserved_user η user_ref)
    (λ a t, match a with inl _ => True | inr uid => Ev (RtGet user_ref) (inr uid) ∈ t end).
Proof.
  intros Hid. unfold reserved_user.
  apply runs_bindE with (λ a t, Ev (RtGet user_ref) a ∈ t); [|done|intros uid].
  { apply runs_ask. intros t _. split; [done|left]. }
  destruct (String.eqb_spec uid "") as [->|]; [|by apply runs_ret].
  apply runs_ask_bind with (λ c t, Ev StRandom c ∈ t); [intros t a Ht; split; [done|left]|intros c].
  apply runs_ask_bind with (λ _ _, True); [intros t a Ht; split; [|done]; split; [done|by exists c]|intros [e|]].
  { by apply runs_ret. }
  apply runs_ask. intros t _. split; [done|]. destruct (η _ _ _); [done|left].
Qed.

Lemma runs_ensure_user uid :
  runs (λ t, Ev (RtGet user_ref) (inr uid) ∈ t) (ensure_user η uid)
    (λ a t, match a with inl _ => True | inr _ => vouched uid t end).
Proof.
  unfold ensure_user, vouched.
  apply runs_ask_bind with (λ a t, Ev (RtGet user_ref) (inr uid) ∈ t ∧ Ev (AuGetUser uid) a ∈ t).
  { intros t a Ht. split; [done|]. split; [by right|left]. }
  intros [e|[|]]; [by apply runs_ret|apply runs_ret; naive_solver|].
  apply runs_ask_bind with (λ a t, Ev (RtGet user_ref) (inr uid) ∈ t ∧ Ev (AuCreateUser uid) a ∈ t).
  { intros t a [H1 H2]. split; [done|]. split; [by right|left]. }
  intros [e|b]; apply runs_ret; [done|naive_solver].
Qed.

Lemma runs_persist uid :
  runs (vouched uid) (persistToken η (tokens_doc uid) provider token)
    (λ a t, match a with inl _ => True | inr _ => vouched uid t ∧ token_stored uid t end).
Proof.
  unfold persistToken.
  set (R := λ (a : result unit) t, match a with
    | inl _ => True
    | inr _ => vouched uid t ∧ ∃ data, Ev (StDb (TxSet (tokens_doc uid) data true)) None ∈ t end).
  apply runs_transaction with R; unfold R.
  - unfold persist_tx, Store.db_.
    apply runs_ask_bind with (λ a t, vouched uid t ∧ Ev (StDb (TxGet (tokens_doc uid))) a ∈ t).
    { intros t a Ht. split; [by exists uid|]. split; [by apply vouched_stable|left]. }
    intros a. destruct (absent _ _) as [e|stored] eqn:Ea; [by apply runs_ret|].
    assert (Hs : ∀ t, Ev (StDb (TxGet (tokens_doc uid))) a ∈ t → read_tokens uid stored t).
    { intros t Ht. destruct a as [e|d]; cbn in Ea; [|by simplify_eq].
      destruct (decide _); simplify_eq. by exists e. }
    apply runs_exec; intros t; [|intros e]; intros [Hv Ht]; (split; [exists uid, stored; split_and!; eauto|]); [|done].
    split; [by apply vouched_stable|]. eexists. left.
  - done.
  - intros [] t c [_ [data Hd]]. by exists uid, data.
  - intros [] t [Hv [data Hd]]. split; [by apply vouched_stable|]. split; [left|]. exists data. by right.
  - intros [] t e [Hv _]. split; [by apply vouched_stable|done].
  - done.
Qed.

Lemma runs_SignIn : runs (λ t, True) (SignIn η provider prof token companion) signed_in.
Proof.
  unfold SignIn. destruct (invalid_id _) eqn:Hid; [by apply runs_ret|].
  eapply runs_bindE; [by apply runs_reserved_user|done|intros uid]. cbv beta iota.
  eapply runs_bindE; [by apply runs_ensure_user|done|intros []]. cbv beta iota.
  eapply runs_bindE; [by apply runs_persist|done|intros []]. cbv beta iota.
  apply runs_bindE with (λ a t, match a with inl _ => True | inr _ => vouched uid t ∧ token_stored uid t ∧
    Ev (StDb (Set_ (profile_doc uid) [(provider, VMap prof)] true)) None ∈ t end); [|done|intros []].
  { apply runs_exec; intros t; [|intros e]; intros [Hv Ht]; (split; [cbn; eauto 10|]); [|done].
    split_and!; [by apply vouched_stable|by apply token_stored_stable|left]. }
  apply runs_bindE with (λ a t, Ev (AuCustomToken uid) a ∈ t); [|done|intros custom].
  { apply runs_ask. intros t Ht. split; [done|left]. }
  destruct (String.eqb_spec companion "") as [E|E]; cbn [negb].
  { apply runs_ret. intros t Ht. by exists uid. }
  apply runs_bindE with (λ a t, match a with inl _ => True | inr _ => signed_in (inr custom) t end);
    [|done|intros []; by apply runs_ret].
  apply runs_exec; intros t; [|intros e]; intros Ht; (split; [cbn; eauto 10|]); [|done].
  exists uid. split; [by right|intros _; left].
Qed.
End SignIn.

(** Signing in, however Firebase behaves: the user is the one the
    reservation of the provider's identity names (a transaction that keeps a
    user already there) and exists before anything is stored; the token goes to
    that user's document, with the stored refresh token if it has none; then
    the profile; and a custom token is minted, and left for a companion, only
    for that user after both were stored. *)
Theorem sign_in_disciplined (η : env steff) provider prof token companion :
  let '(a, w) := SignIn η provider prof token companion (World [] tt) in
  justified (sign_in_ok provider prof token companion) (w_tr w) ∧ signed_in companion a (w_tr w).
Proof.
  pose proof (runs_SignIn η provider prof token companion (World [] tt)) as H.
  destruct (SignIn _ _ _ _ _ _) as [a w]. by apply H.
Qed.
