(* ===== verification/OAuthConfig.v ===== *)
(** * The OAuth server's configuration

    oauthhttp/config.go: Register loads the credentials of every provider, the
    session key, the callback origin and the proxies to believe, and builds the
    server that OAuth.v models. Secret Manager, Firebase's clients and the
    environment are effects. Also here: whom that server takes a request to
    come from, with the addresses and networks of package net. *)

From stdpp Require Import base gmap strings list.
From Stdlib Require Import Ascii.
From S2P Require Import Prelude GoErr Effects JsonText Text HttpServer Url NetIP OAuth.

Inductive geff : Type → Type :=
  | FirebaseApp : geff (option error)
  | FirebaseAuth : geff (option error)
  | FirebaseDatabase : geff (option error)
  | SecretManager : geff (option error)
  | AccessSecretVersion (name : string) : geff (result string)
  | Env (name : string) : geff string.

(** [auth.TwitchClientID] *)
Definition TwitchClientID : string := "edfnh2q85za8phifif9jxt3ey6t9b9".

Definition provider_table : list (string * oauth_provider) := [
   ("twitch", OauthProvider "" ""
      "https://id.twitch.tv/oauth2/authorize" "https://id.twitch.tv/oauth2/token"
      "bits:read channel:bot channel:edit:commercial channel:manage:ads channel:manage:broadcast channel:manage:moderators channel:manage:polls channel:manage:predictions channel:manage:raids channel:manage:vips channel:moderate channel:read:ads channel:read:hype_train channel:read:redemptions channel:read:subscriptions chat:edit chat:read moderation:read moderator:manage:banned_users moderator:manage:chat_messages moderator:manage:chat_settings moderator:manage:shoutouts moderator:manage:warnings moderator:read:chatters moderator:read:followers moderator:read:shoutouts user:bot user:read:email user:read:emotes user:read:follows user:read:moderated_channels user:read:subscriptions user:write:chat"
      true);
   ("kick", OauthProvider "" ""
      "https://id.kick.com/oauth/authorize" "https://id.kick.com/oauth/token"
      "user:read channel:read chat:write events:subscribe moderation:ban moderation:chat_message:manage"
      false);
   ("youtube", OauthProvider "" ""
      "https://accounts.google.com/o/oauth2/v2/auth" "https://oauth2.googleapis.com/token"
      "https://www.googleapis.com/auth/youtube.force-ssl"
      false);
   ("streamlabs", OauthProvider "" ""
      "https://www.streamlabs.com/api/v1.0/authorize" "https://www.streamlabs.com/api/v1.0/token"
      "donations.read socket.token"
      true);
   ("streamelements", OauthProvider "" ""
      "https://api.streamelements.com/oauth2/authorize" "https://api.streamelements.com/oauth2/token"
      "tips:read"
      false)
  ].

Definition secret_prefix (name : string) : string := if String.eqb name "youtube" then "youtube-oauth" else name.
Definition secret_name (name : string) : string := "projects/rtchat-47692/secrets/" +:+ name +:+ "/versions/latest".
Definition origins : list string := ["https://chat.rtirl.com"; "https://rtchat-api.rtirl.com"].

(** The networks of a list in CIDR notation; one that does not parse is an
    error. *)
Fixpoint trusted_networks (cidrs : list string) : result (list IPNet) :=
  match cidrs with
  | [] => inr []
  | cidr :: cidrs =>
    if String.eqb (TrimSpace cidr) "" then trusted_networks cidrs
    else
      match ParseCIDR (TrimSpace cidr) with
      | None => inl (ErrMsg "invalid CIDR address")
      | Some n => match trusted_networks cidrs with inl e => inl e | inr l => inr (n :: l) end
      end
  end.

(** The server, and what it does with addresses: an address that does not parse
    is in no network. *)
Definition new_server (ps : gmap string oauth_provider) (key origin : string) (proxies : list IPNet) : server :=
  {| sv_providers := ps;
     SessionKey := key;
     CallbackOrigin := origin;
     peer_host := λ remote, match SplitHostPort remote with Some (host, _) => host | None => "" end;
     is_ip := λ s, is_some (ParseIP s);
     trusted := λ host, existsb (λ n, Contains n (default [] (ParseIP host))) proxies |}.

Section Config.
Context (η : env geff).
Local Abbreviation M := (M (world geff unit)).

Definition start (op : geff (option error)) : M (result unit) :=
  e ← ask η op; mret (match e with Some e => inl e | None => inr tt end).

(** An unavailable secret is empty. *)
Definition load (name : string) : M string :=
  r ← ask η (AccessSecretVersion (secret_name name));
  mret (match r with inr v => v | inl _ => "" end).

Definition load_provider (name : string) (p : oauth_provider) : M oauth_provider :=
  let prefix := secret_prefix name in
  id ← (if String.eqb name "twitch" then mret TwitchClientID else load (prefix +:+ "-client-id"));
  secret ← load (prefix +:+ "-client-secret");
  mret (OauthProvider id secret (AuthorizeURL p) (TokenURL p) (Scopes p) (JSONBody p)).

(** The range over the map visits its keys in some [order]. *)
Fixpoint load_providers (order : list string) (ps : gmap string oauth_provider) : M (gmap string oauth_provider) :=
  match order with
  | [] => mret ps
  | name :: order =>
    match ps !! name with
    | None => load_providers order ps
    | Some p => p ← load_provider name p; load_providers order (<[name := p]> ps)
    end
  end.

Definition Register (order : list string) : M (result server) :=
  start FirebaseApp ;? start FirebaseAuth ;? start FirebaseDatabase ;? start SecretManager ;?
  ps ← load_providers order (list_to_map provider_table);
  configured ← ask η (Env "OAUTH_CALLBACK_ORIGIN");
  let origin := if String.eqb configured "" then "https://chat.rtirl.com" else configured in
  if negb (String.eqb origin "https://chat.rtirl.com") && negb (String.eqb origin "https://rtchat-api.rtirl.com")
  then throw (ErrMsg "unsupported OAuth callback origin")
  else
    key ← load "EXPRESS_SECRET";
    cidrs ← ask η (Env "OAUTH_TRUSTED_PROXY_CIDRS");
    match trusted_networks (split_char "," cidrs) with
    | inl e => throw e
    | inr proxies => ok (new_server ps key origin proxies)
    end.
End Config.

(** ** What Register reads, and what the server is made of *)

Definition secret_names : list string :=
  "EXPRESS_SECRET" :: concat (map (λ p, (secret_prefix p.1 +:+ "-client-secret") ::
    (if String.eqb p.1 "twitch" then [] else [secret_prefix p.1 +:+ "-client-id"])) provider_table).

(** Only these secrets and these variables are read, and the secrets only with
    Firebase's clients in place. *)
Definition config_ok (t : trace geff) (e : ev geff) : Prop :=
  match e with
  | @Ev _ _ op _ =>
    match op in geff A return Prop with
    | AccessSecretVersion n => (∃ s, s ∈ secret_names ∧ n = secret_name s) ∧ Ev SecretManager None ∈ t ∧ Ev FirebaseDatabase None ∈ t
    | Env n => n ∈ ["OAUTH_CALLBACK_ORIGIN"; "OAUTH_TRUSTED_PROXY_CIDRS"]
    | _ => True
    end
  end.

(** [v] is what Secret Manager answered, or empty when it failed. *)
Definition credential (t : trace geff) (name v : string) : Prop :=
  ∃ a, Ev (AccessSecretVersion (secret_name name)) a ∈ t ∧ v = match a with inr s => s | inl _ => "" end.
Definition credited (t : trace geff) (name : string) (p p' : oauth_provider) : Prop :=
  p' = OauthProvider (op_ClientID p') (op_ClientSecret p') (AuthorizeURL p) (TokenURL p) (Scopes p) (JSONBody p) ∧
  credential t (secret_prefix name +:+ "-client-secret") (op_ClientSecret p') ∧
  (if String.eqb name "twitch" then op_ClientID p' = TwitchClientID
   else credential t (secret_prefix name +:+ "-client-id") (op_ClientID p')).

Lemma credential_stable name v : stable (λ t, credential t name v).
Proof. apply stable_ex. intros a e t [H ?]. split; [by apply list_elem_of_further|done]. Qed.
Lemma credited_stable name p p' : stable (λ t, credited t name p p').
Proof.
  intros e t (H1 & H2 & H3). split; [done|]. split; [by apply credential_stable|].
  destruct (String.eqb _ _); [done|by apply credential_stable].
Qed.

(** The server that Register builds. *)
Definition configured (t : trace geff) (s : server) : Prop :=
  ∃ ps key origin cidrs proxies,
    s = new_server ps key origin proxies ∧
    (∀ name, match (list_to_map provider_table : gmap string oauth_provider) !! name, ps !! name with
             | Some p, Some p' => credited t name p p'
             | None, None => True
             | _, _ => False
             end) ∧
    credential t "EXPRESS_SECRET" key ∧ origin ∈ origins ∧
    Ev (Env "OAUTH_TRUSTED_PROXY_CIDRS") cidrs ∈ t ∧ trusted_networks (split_char "," cidrs) = inr proxies.

Section ConfigProof.
Context (η : env geff).
Local Abbreviation started := (λ t : trace geff, Ev SecretManager None ∈ t ∧ Ev FirebaseDatabase None ∈ t).

Lemma runs_load (G : trace geff → Prop) name :
  stable G → name ∈ secret_names →
  runs config_ok (λ t, started t ∧ G t) (load η name : M (world geff unit) string)
    (λ v t, (started t ∧ G t) ∧ credential t name v).
Proof.
  intros HG Hn. unfold load. eapply runs_ask_bind.
  - intros t a [Hs Hg]. split; [by split; [eauto|]|].
    instantiate (1 := λ a t, (started t ∧ G t) ∧ Ev (AccessSecretVersion (secret_name name)) a ∈ t). cbn.
    split_and!; [apply list_elem_of_further, Hs..|by apply HG|apply list_elem_of_here].
  - intros a. apply runs_ret. intros t [H Ha]. split; [done|]. by exists a.
Qed.

Lemma table_secrets name p : (list_to_map provider_table : gmap string oauth_provider) !! name = Some p →
  (secret_prefix name +:+ "-client-secret") ∈ secret_names ∧
  (String.eqb name "twitch" = false → (secret_prefix name +:+ "-client-id") ∈ secret_names).
Proof.
  intros H%elem_of_list_to_map_2. revert H. unfold provider_table. rewrite !elem_of_cons.
  intros H. assert (name ∈ ["twitch"; "kick"; "youtube"; "streamlabs"; "streamelements"]) as Hn.
  { rewrite !elem_of_cons. repeat destruct H as [[= -> ->]|H]; try tauto. by apply elem_of_nil in H. }
  clear H. revert Hn. rewrite !elem_of_cons, elem_of_nil.
  assert (∀ x, existsb (String.eqb x) secret_names = true → x ∈ secret_names) as Hin.
  { intros x (y & Hy & ->%String.eqb_eq)%existsb_exists. by apply list_elem_of_In. }
  intros [->|[->|[->|[->|[->|[]]]]]]; (split; [|intros E]); try discriminate; apply Hin; vm_compute; reflexivity.
Qed.

Lemma runs_load_provider (G : trace geff → Prop) name p :
  stable G → (list_to_map provider_table : gmap string oauth_provider) !! name = Some p →
  runs config_ok (λ t, started t ∧ G t) (load_provider η name p)
    (λ p' t, (started t ∧ G t) ∧ credited t name p p').
Proof.
  intros HG [Hsec Hid]%table_secrets. unfold load_provider. cbv zeta.
  apply runs_bind with (λ id t, started t ∧ G t ∧
    if String.eqb name "twitch" then id = TwitchClientID else credential t (secret_prefix name +:+ "-client-id") id).
  - destruct (String.eqb name "twitch") eqn:En.
    + apply runs_ret. intros t []. done.
    + eapply runs_conseq; [by apply runs_load; [|apply Hid]|done|]. cbn. naive_solver.
  - intros id. eapply runs_bind.
    + apply (runs_load (λ t, G t ∧ if String.eqb name "twitch" then id = TwitchClientID
        else credential t (secret_prefix name +:+ "-client-id") id)); [|done].
      apply stable_and; [done|]. destruct (String.eqb _ _); [apply stable_const|apply credential_stable].
    + intros secret. apply runs_ret. intros t [[Hs [Hg Hi]] Hc]. done.
Qed.

(** While the loop runs: the providers in [seen] have their credentials. *)
Definition loaded (seen : list string) (ps : gmap string oauth_provider) (t : trace geff) : Prop :=
  ∀ name, match (list_to_map provider_table : gmap string oauth_provider) !! name, ps !! name with
          | Some p, Some p' => if decide (name ∈ seen) then credited t name p p' else p' = p
          | None, None => True
          | _, _ => False
          end.
Lemma seen_stable seen ps : stable (loaded seen ps).
Proof.
  intros e t H name. specialize (H name). repeat case_match; try done. by apply credited_stable.
Qed.

Lemma loaded_none seen ps t name : loaded seen ps t → ps !! name = None →
  (list_to_map provider_table : gmap string oauth_provider) !! name = None.
Proof. intros H Hn. specialize (H name). rewrite Hn in H. by case_match. Qed.
Lemma loaded_some seen ps t name p : loaded seen ps t → name ∉ seen → ps !! name = Some p →
  (list_to_map provider_table : gmap string oauth_provider) !! name = Some p.
Proof. intros H Hs Hn. specialize (H name). rewrite Hn in H. case_match; [|done]. rewrite decide_False in H by done. by subst. Qed.
Lemma seen_other {A} (seen : list string) name n (x y : A) : n ≠ name →
  (if decide (n ∈ seen ++ [name]) then x else y) = if decide (n ∈ seen) then x else y.
Proof. intros Hne. apply decide_ext. rewrite elem_of_app, list_elem_of_singleton. naive_solver. Qed.
Lemma loaded_insert seen ps t name p p' : loaded seen ps t → name ∉ seen → ps !! name = Some p → credited t name p p' →
  loaded (seen ++ [name]) (<[name := p']> ps) t.
Proof.
  intros H Hs Hn Hc n. destruct (decide (n = name)) as [->|Hne].
  - rewrite (loaded_some seen ps t name p), lookup_insert_eq by done. rewrite decide_True by (apply elem_of_app; right; by apply list_elem_of_singleton). done.
  - rewrite lookup_insert_ne by done. specialize (H n). destruct (_ !! n), (ps !! n); try done.
  by rewrite (seen_other seen name n).
Qed.
Lemma loaded_absent seen ps t name : loaded seen ps t → ps !! name = None → loaded (seen ++ [name]) ps t.
Proof.
  intros H Hn n. pose proof (loaded_none seen ps t name H Hn) as Ht. specialize (H n).
  destruct (decide (n = name)) as [->|Hne]; [by rewrite Ht, Hn in *|]. destruct (_ !! n), (ps !! n); try done.
  by rewrite (seen_other seen name n).
Qed.

Lemma runs_given {A} (φ : Prop) (F : trace geff → Prop) (m : M (world geff unit) A) Q :
  (∀ t, F t → φ) → (φ → runs config_ok F m Q) → runs config_ok F m Q.
Proof. intros Hp H w Hw. by apply (H (Hp _ (proj2 Hw))). Qed.

Lemma runs_load_providers order : ∀ seen ps, NoDup order → (∀ name, name ∈ order → name ∉ seen) →
  runs config_ok (λ t, started t ∧ loaded seen ps t) (load_providers η order ps)
    (λ ps' t, started t ∧ loaded (seen ++ order) ps' t).
Proof.
  induction order as [|name order IH]; intros seen ps Hnd Hnew; cbn [load_providers].
  { apply runs_ret. intros t. by rewrite app_nil_r. }
  apply NoDup_cons in Hnd as [Hname Hnd]. rewrite cons_middle, app_assoc.
  assert (∀ n, n ∈ order → n ∉ seen ++ [name]) as Hnew'.
  { intros n Hn Hin. apply elem_of_app in Hin as [?|Hin]; [by apply (Hnew n); [apply list_elem_of_further|]|].
    apply list_elem_of_singleton in Hin as ->. done. }
  assert (name ∉ seen) as Hns by apply Hnew, list_elem_of_here.
  destruct (ps !! name) as [p|] eqn:Ep.
  - eapply runs_given; [intros t [_ H]; exact (loaded_some _ _ _ _ _ H Hns Ep)|]. intros Ht.
    eapply runs_bind; [by apply (runs_load_provider (loaded seen ps) name p); [apply seen_stable|]|].
    intros p'. eapply runs_conseq; [by apply IH| |done]. intros t [[Hs Hl] Hc]. split; [done|]. by eapply loaded_insert.
  - eapply runs_conseq; [by apply IH| |done]. intros t [Hs Hl]. split; [done|]. by apply loaded_absent.
Qed.

Lemma runs_start (F : trace geff → Prop) op (G : trace geff → Prop) :
  (∀ t e, config_ok t (Ev op e)) → (∀ t, F t → G (Ev op None :: t)) →
  runs config_ok F (start η op : M (world geff unit) (result unit)) (λ r t, r = inr tt → G t).
Proof.
  intros Hok HG. unfold start. apply runs_ask_bind with (λ e t, e = None → G t).
  - intros t e Ht. split; [done|]. intros ->. by apply HG.
  - intros [e|]; apply runs_ret; [done|]. intros t Ht _. by apply Ht.
Qed.

Lemma runs_Register order : order ≡ₚ map fst provider_table →
  runs config_ok (λ _, True) (Register η order) (λ r t, ∀ s, r = inr s → configured t s).
Proof.
  intros Hord. unfold Register.
  apply runs_bindE with (λ r t, r = inr tt → True); [by apply runs_start|done|]. intros [].
  apply runs_bindE with (λ r t, r = inr tt → True); [by apply runs_start|done|]. intros [].
  apply runs_bindE with (λ r t, r = inr tt → Ev FirebaseDatabase None ∈ t).
  { apply runs_start; [done|]. intros. apply list_elem_of_here. }
  { done. }
  intros [].
  apply runs_bindE with (λ r t, r = inr tt → started t).
  { apply runs_start; [done|]. intros t Ht. split; [apply list_elem_of_here|apply list_elem_of_further, Ht; done]. }
  { done. }
  intros [].
  apply runs_bind with (λ ps t, started t ∧ loaded order ps t).
  { eapply runs_conseq; [apply (runs_load_providers order [] (list_to_map provider_table))| |done].
    - rewrite Hord. apply (bool_decide_eq_true_1 _). vm_compute. reflexivity.
    - intros name _ ?%elem_of_nil. done.
    - intros t Ht. split; [by apply Ht|]. intros name. by case_match. }
  intros ps.
  apply runs_ask_bind with (λ _ t, started t ∧ loaded order ps t).
  { intros t a [Hs Hl]. split; [by left|]. split; [split; apply list_elem_of_further, Hs|by apply seen_stable]. }
  intros conf. cbv zeta. set (origin := if String.eqb conf "" then _ else _).
  destruct (_ && _) eqn:Eo; [by apply runs_ret|].
  assert (origin ∈ origins) as Ho.
  { apply andb_false_iff in Eo as [E|E]; apply negb_false_iff, String.eqb_eq in E; rewrite E; repeat constructor. }
  apply runs_bind with (λ key t, (started t ∧ loaded order ps t) ∧ credential t "EXPRESS_SECRET" key).
  { apply runs_load; [apply seen_stable|apply list_elem_of_here]. }
  intros key.
  apply runs_ask_bind with (λ cidrs t, loaded order ps t ∧ credential t "EXPRESS_SECRET" key ∧ Ev (Env "OAUTH_TRUSTED_PROXY_CIDRS") cidrs ∈ t).
  { intros t a [[Hs Hl] Hk]. split; [by right; left|].
    split_and!; [by apply seen_stable|by apply credential_stable|apply list_elem_of_here]. }
  intros cidrs. destruct (trusted_networks _) as [e|proxies] eqn:En; apply runs_ret; [done|].
  intros t (Hl & Hk & Hc) s [= <-]. exists ps, key, origin, cidrs, proxies. split_and!; [done| |done..].
  intros name. specialize (Hl name). repeat case_match; try done.
  match goal with H : _ ∉ order, Hp : _ = Some _ |- _ => exfalso; apply H; rewrite Hord;
    apply elem_of_list_to_map_2, (list_elem_of_fmap_2 fst) in Hp; exact Hp end.
Qed.
End ConfigProof.

(** The server that Register builds, in whatever order the map's keys come
    and whatever fails: only the named secrets are read, with Firebase's clients
    in place; every provider of the table is there with its endpoints and with
    the secrets that Secret Manager answered for it, each read for this
    provider, and empty where none was answered, as is the session key; the
    callback goes to one of the two origins; and a list of proxies with a
    network that does not parse is never accepted. *)
Theorem oauth_configured (η : env geff) order :
  order ≡ₚ map fst provider_table →
  let '(r, w) := Register η order (World [] tt) in
  justified config_ok (w_tr w) ∧ ∀ s, r = inr s → configured (w_tr w) s.
Proof.
  intros Hord. pose proof (runs_Register η order Hord (World [] tt)) as H.
  destruct (Register η order (World [] tt)). by apply H.
Qed.

(** An environment in which everything is there, but for one secret. *)
Definition sample_env : env geff := λ A t op,
  match op in geff A return A with
  | FirebaseApp | FirebaseAuth | FirebaseDatabase | SecretManager => None
  | AccessSecretVersion n =>
    if String.eqb n (secret_name "kick-client-secret") then inl ErrBudget else inr ("secret of " +:+ n)
  | Env n => if String.eqb n "OAUTH_TRUSTED_PROXY_CIDRS" then "35.191.0.0/16, 130.211.0.0/22," else ""
  end.
Definition sample_register := Register sample_env (map fst provider_table) (World [] tt).
Definition sample_server : server := match sample_register.1 with inr s => s | inl _ => new_server ∅ "" "" [] end.

Example sample_configured :
  is_some (match sample_register.1 with inr s => Some s | inl _ => None end) = true ∧
  CallbackOrigin sample_server = "https://chat.rtirl.com" ∧
  (λ p, (op_ClientID p, op_ClientSecret p)) <$> sv_providers sample_server !! "youtube" =
    Some ("secret of projects/rtchat-47692/secrets/youtube-oauth-client-id/versions/latest",
          "secret of projects/rtchat-47692/secrets/youtube-oauth-client-secret/versions/latest") ∧
  (λ p, op_ClientSecret p) <$> sv_providers sample_server !! "kick" = Some "" ∧
  map (trusted sample_server) ["35.191.3.4"; "::ffff:130.211.3.255"; "130.211.4.0"; "35.191.3.4:80"; ""] = [true; true; false; false; false].
Proof. vm_compute. split_and!; reflexivity. Qed.

Lemma oauth_configured_witness : configured (w_tr sample_register.2) sample_server.
Proof.
  pose proof (oauth_configured sample_env (map fst provider_table) (reflexivity _)) as H.
  assert (is_some (match sample_register.1 with inr s => Some s | inl _ => None end) = true) as Hs by (vm_compute; reflexivity).
  unfold sample_server. change (Register sample_env _ _) with sample_register in H.
  destruct sample_register as [[e|s] w]; [discriminate|]. by apply H.
Defined.

(** ** Whom a request comes from *)

Lemma trusted_networks_elem cidrs proxies n : trusted_networks cidrs = inr proxies →
  n ∈ proxies ↔ ∃ cidr, cidr ∈ cidrs ∧ TrimSpace cidr ≠ "" ∧ ParseCIDR (TrimSpace cidr) = Some n.
Proof.
  revert proxies. induction cidrs as [|c cidrs IH]; intros proxies; cbn.
  { intros [= <-]. split; [by intros ?%elem_of_nil|]. by intros (? & ?%elem_of_nil & _). }
  destruct (String.eqb_spec (TrimSpace c) "") as [Hb|Hb].
  - intros H. rewrite (IH _ H). split; intros (x & Hx & ?); exists x; (split; [|done]).
    + by apply list_elem_of_further.
    + by apply elem_of_cons in Hx as [->|?]; [naive_solver|].
  - destruct (ParseCIDR _) as [net|] eqn:Ep; [|done]. destruct (trusted_networks cidrs) as [|l]; [done|]. intros [= <-].
    rewrite elem_of_cons, (IH l eq_refl). split.
    + intros [->|(x & ? & ?)]; [exists c; split; [apply list_elem_of_here|done]|].
      exists x. split; [by apply list_elem_of_further|done].
    + intros (x & [->|?]%elem_of_cons & ? & ?); [left; congruence|right; by exists x].
Qed.

Section Peer.
Context (ps : gmap string oauth_provider) (key origin : string) (cidrs : list string) (proxies : list IPNet).
Context (Hproxies : trusted_networks cidrs = inr proxies).
Local Abbreviation s := (new_server ps key origin proxies).

(** The address is in one of the networks listed. *)
Definition listed (host : string) : Prop :=
  ∃ cidr a n ip, cidr ∈ cidrs ∧ cidr_of (TrimSpace cidr) a n ∧ ParseIP host = Some ip ∧ within a n ip.

Lemma trusted_listed host : trusted s host = true ↔ listed host.
Proof.
  cbn [trusted new_server]. rewrite existsb_exists. setoid_rewrite <-list_elem_of_In. split.
  - intros (net & Hnet & Hc). apply (trusted_networks_elem _ _ _ Hproxies) in Hnet as (cidr & Hin & _ & Hp).
    destruct (ParseIP host) as [ip|] eqn:Ei; cbn in Hc; [|by rewrite (contains_nil _ _ Hp) in Hc].
    apply contains_within in Hp as (a & n & Hcidr & Hw). exists cidr, a, n, ip. split_and!; [done..|].
    apply Hw; [by eapply ParseIP_ok|done].
  - intros (cidr & a & n & ip & Hin & Hcidr & Hip & Hw).
    assert (∃ net, ParseCIDR (TrimSpace cidr) = Some net) as [net Hp].
    { destruct Hcidr as (addr & mask & E & Ea & Ez & Ed & El & _). unfold ParseCIDR. rewrite E, Ea, Ez, Ed.
      rewrite (proj2 (Z.leb_le _ _) El). by eexists. }
    exists net. split.
    + apply (trusted_networks_elem _ _ _ Hproxies). exists cidr. split_and!; [done| |done].
      intros E. rewrite E in Hp. discriminate.
    + rewrite Hip. cbn. destruct (contains_within _ _ Hp) as (a' & n' & Hcidr' & Hw').
      destruct (cidr_of_inj _ _ _ _ _ Hcidr Hcidr') as [-> ->]. apply Hw'; [by eapply ParseIP_ok|done].
Qed.

(** C39. Whom the rate limiter counts: the address a request came from, except
    that behind a listed proxy it is the next to last address of
    X-Forwarded-For, when that is one. So another name than the peer's own is
    taken only from an address that lies, bit for bit, in a configured network,
    and is always an IP address. *)
Theorem peer_believed (r : oauth_request) :
  let host := peer_host s (rq_remote r) in
  let forwarded := reverse (split_char "," (Get (rq r) "X-Forwarded-For")) in
  (peer s r ≠ host → listed host ∧ is_some (ParseIP (peer s r)) = true ∧
     ∃ lb c rest, forwarded = lb :: c :: rest ∧ peer s r = TrimSpace c) ∧
  (∀ lb c rest, listed host → forwarded = lb :: c :: rest → is_some (ParseIP (TrimSpace c)) = true →
     peer s r = TrimSpace c).
Proof.
  cbv zeta. unfold peer. split.
  - intros H. destruct (trusted s _) eqn:Et; [|done]. apply trusted_listed in Et.
    destruct (reverse _) as [|lb [|c rest]]; try done. cbv zeta in *. cbn [is_ip new_server] in *.
    destruct (is_some (ParseIP (TrimSpace c))) eqn:Ei; [|done]. split_and!; [done..|]. by exists lb, c, rest.
  - intros lb c rest Hl -> Hi. apply trusted_listed in Hl. rewrite Hl. cbv zeta. cbn [is_ip new_server]. by rewrite Hi.
Qed.
End Peer.

Definition proxied (remote forwarded : string) : oauth_request :=
  OauthRequest (Incoming "GET" "/auth/twitch/redirect" ∅ {["X-Forwarded-For" := forwarded]} "" false) "chat.rtirl.com" "/auth/twitch/redirect" remote None.

Example peers :
  map (peer sample_server) [proxied "35.191.3.4:5000" "6.6.6.6, 8.8.8.8, 35.191.0.1"; proxied "9.9.9.9:5000" "6.6.6.6, 8.8.8.8, 35.191.0.1";
    proxied "35.191.3.4:5000" ("6.6.6.6," +:+ utf8_encode 160 +:+ "8.8.8.8" +:+ utf8_encode 8195 +:+ ", 35.191.0.1");
    proxied "35.191.3.4:5000" "spoofed, 35.191.0.1"; proxied "35.191.3.4:5000" ""; proxied "[2001:db8::1]:443" ""] =
  ["8.8.8.8"; "9.9.9.9"; "8.8.8.8"; "35.191.3.4"; "35.191.3.4"; "2001:db8::1"].
Proof. vm_compute. reflexivity. Qed.

Definition sample_cidrs : list string := ["35.191.0.0/16"; " 130.211.0.0/22"; ""].
Definition sample_proxies : list IPNet := match trusted_networks sample_cidrs with inr l => l | inl _ => [] end.
Lemma peer_believed_witness :
  let s := new_server ∅ "" "" sample_proxies in
  listed sample_cidrs (peer_host s "35.191.3.4:5000") ∧
  peer s (proxied "35.191.3.4:5000" "6.6.6.6, 8.8.8.8, 35.191.0.1") = "8.8.8.8".
Proof.
  assert (trusted_networks sample_cidrs = inr sample_proxies) as H by (vm_compute; reflexivity).
  pose proof (peer_believed ∅ "" "" sample_cidrs sample_proxies H (proxied "35.191.3.4:5000" "6.6.6.6, 8.8.8.8, 35.191.0.1")) as [Hb _].
  cbv zeta in *. split.
  - apply Hb. vm_compute. discriminate.
  - vm_compute. reflexivity.
Defined.
