(* ===== verification/AgentMain.v ===== *)
(** * The agent's HTTP server as a whole

    cmd/main.go: the mux of WebServer.v in front of the handlers of the other
    files, each with the effects and the state it has in its own file. Serving
    one request is one program over the union of their effects. *)

From stdpp Require Import base gmap strings list pretty.
From S2P Require Import Prelude GoErr Effects JsonText HttpServer Url WebServer.
From S2P Require TwitchWebhook KickWebhook Alchemy Callable PublicHttp OAuth.

(** What any of the handlers does. *)
Inductive agent_eff : Type → Type :=
  | OfTwitch (A : Type) (op : TwitchWebhook.weff A) : agent_eff A
  | OfKick (A : Type) (op : KickWebhook.keff A) : agent_eff A
  | OfAlchemy (A : Type) (op : Alchemy.aeff A) : agent_eff A
  | OfCallable (name : string) (A : Type) (op : Callable.ceff A) : agent_eff A
  | OfPublic (A : Type) (op : PublicHttp.peff A) : agent_eff A
  | OfOAuth (A : Type) (op : OAuth.oeff A) : agent_eff A.

(** Whether a callable requires a user: registerChat, Service.Register and
    catalog.Register. *)
Definition requires_auth (name : string) : bool :=
  existsb (String.eqb name)
    ["send"; "ban"; "unban"; "timeout"; "deleteMessage"; "clear"; "raid"; "cancelRaid"; "shoutout";
     "setRealTimeCashAddress"; "getViewerList"].

(** The configuration main.go reads, and the checks' state. *)
Record agent := Agent {
  checks : server;
  twitch : TwitchWebhook.TwitchHandler;
  rsa_verify : string → string → string → bool;
  alchemy_key : string;
  parse_media : string → option string;
  has_verifier : bool;
  http_date : string → option time;
  twitch_client : string;
  has_token : bool;
  public_clients : option (gmap string string);  (* [None]: the configuration is invalid *)
  oauth_server : option OAuth.server             (* [None]: Register failed *)
}.

(** A reply, call by call. *)
Definition reply_calls (r : reply) : list call := [WriteHeader (HttpServer.status r); Write (reply_body r)].

Section Serve.
Context (η : env agent_eff) (a : agent).
Local Abbreviation M := (M (world agent_eff KickWebhook.key_cache)).

(** A handler with no state of its own. *)
Definition stateless {E A} (inj : ∀ A, E A → agent_eff A) (m : env E → Prelude.M (world E unit) A) : M A :=
  embedded inj (λ _, tt) (λ _ c, c) η m.

(** The handler of a route: its calls, or [None] when it panics. *)
Definition handle (rt : route) (now : time) (r : OAuth.oauth_request) : M (option (list call)) :=
  match rt with
  | Healthz => mret (Some (health (checks a)))
  | RecycleRoute => mret (Some (recycle (checks a) now))
  | ProviderRoute p =>
    if String.eqb p "/twitch/" then
      rep ← stateless OfTwitch (λ η, TwitchWebhook.TwitchServe η (twitch a) (OAuth.rq r));
      mret (Some (reply_calls rep))
    else if String.eqb p "/kick/" then
      rep ← embedded OfKick id (λ c _, c) η (λ η, KickWebhook.KickServe (rsa_verify a) η (OAuth.rq r));
      mret (Some (reply_calls rep))
    else
      rep ← stateless OfAlchemy (λ η, Alchemy.AlchemyServe η (alchemy_key a) (OAuth.rq r));
      mret (reply_calls <$> rep)
  | CallableRoute name =>
    rep ← stateless (OfCallable name) (λ η, Callable.wrap η (parse_media a) (has_verifier a) (OAuth.rq r) (requires_auth name));
    mret (Some (reply_calls rep.1))
  | PublicRoute =>
    match public_clients a with
    | None => mret (Some (http_error "temporarily unavailable" 503))
    | Some clients =>
      rep ← stateless OfPublic (λ η,
        match PublicHttp.serve η (http_date a) (twitch_client a) (has_token a) clients (OAuth.rq r) with
        | Some m => rep ← m; mret (reply_calls rep)
        | None => mret (http_error "404 page not found" 404)
        end);
      mret (Some rep)
    end
  | OAuthRoute =>
    match oauth_server a with
    | None => mret (Some (http_error "404 page not found" 404))
    | Some s => rep ← stateless OfOAuth (λ η, OAuth.OauthServe η s r); mret (Some (reply_calls rep))
    end
  end.

(** Whether LoggingMiddleware is around a route. *)
Definition is_logged (rt : route) : bool :=
  match rt with ProviderRoute _ | PublicRoute | OAuthRoute => true | _ => false end.
Definition answer (rt : route) (l : option (list call)) : answered :=
  match l with
  | None => Answer None (if is_logged rt then Some None else None)
  | Some l => if is_logged rt then with_log l else unlogged l
  end.

Definition agent_serve (now : time) (r : OAuth.oauth_request) : M answered :=
  match (λ m, dispatch m (r_path (OAuth.rq r))) <$> main_mux (oauth_enabled (checks a)) with
  | None | Some NotFound => mret (unlogged (http_error "404 page not found" 404))
  | Some (Redirect to) => mret (Redirected to)
  | Some (Serve rt) => l ← handle rt now r; mret (answer rt l)
  end.
End Serve.

(** ** What one request may do *)

(** Each handler's own effects. *)
Definition twitch_event (e : ev agent_eff) : option (ev TwitchWebhook.weff) :=
  match e with Ev op a => match op in agent_eff A return A → _ with OfTwitch _ op => λ a, Some (Ev op a) | _ => λ _, None end a end.
Definition kick_event (e : ev agent_eff) : option (ev KickWebhook.keff) :=
  match e with Ev op a => match op in agent_eff A return A → _ with OfKick _ op => λ a, Some (Ev op a) | _ => λ _, None end a end.
Definition alchemy_event (e : ev agent_eff) : option (ev Alchemy.aeff) :=
  match e with Ev op a => match op in agent_eff A return A → _ with OfAlchemy _ op => λ a, Some (Ev op a) | _ => λ _, None end a end.
Definition callable_event (e : ev agent_eff) : option (ev Callable.ceff) :=
  match e with Ev op a => match op in agent_eff A return A → _ with OfCallable _ _ op => λ a, Some (Ev op a) | _ => λ _, None end a end.
Definition public_event (e : ev agent_eff) : option (ev PublicHttp.peff) :=
  match e with Ev op a => match op in agent_eff A return A → _ with OfPublic _ op => λ a, Some (Ev op a) | _ => λ _, None end a end.
Definition oauth_event (e : ev agent_eff) : option (ev OAuth.oeff) :=
  match e with Ev op a => match op in agent_eff A return A → _ with OfOAuth _ op => λ a, Some (Ev op a) | _ => λ _, None end a end.

(** The effect belongs to the handler of the request's path, and is one that
    the contract of this handler allows after what it did before. *)
Definition agent_ok (a : agent) (c : KickWebhook.key_cache) (r : OAuth.oauth_request) (t : trace agent_eff) (e : ev agent_eff) : Prop :=
  let path := r_path (OAuth.rq r) in
  match e with
  | Ev op x =>
    match op in agent_eff A return A → Prop with
    | OfTwitch _ op => λ x, has_prefix path "/twitch/" = true ∧
        TwitchWebhook.allowed (twitch a) (OAuth.rq r) (omap twitch_event t) (Ev op x)
    | OfKick _ op => λ x, has_prefix path "/kick/" = true ∧
        KickWebhook.kick_ok (rsa_verify a) (KickWebhook.publicKey c) (OAuth.rq r) (omap kick_event t) (Ev op x)
    | OfAlchemy _ op => λ x, has_prefix path "/alchemy/" = true ∧
        Alchemy.alchemy_ok (alchemy_key a) (OAuth.rq r) (omap alchemy_event t) (Ev op x)
    | OfCallable name _ op => λ x, path = "/" +:+ name ∧ name ∈ callable_names ∧
        Callable.call_ok (parse_media a) (OAuth.rq r) (requires_auth name) (omap callable_event t) (Ev op x)
    | OfPublic _ op => λ x, path ∈ public_paths ∧
        ∃ clients, public_clients a = Some clients ∧
          PublicHttp.public_ok (twitch_client a) clients (OAuth.rq r) (omap public_event t) (Ev op x)
    | OfOAuth _ op => λ x, has_prefix path "/auth/" = true ∧ oauth_enabled (checks a) = true ∧
        ∃ s, oauth_server a = Some s ∧ OAuth.oauth_ok s r (omap oauth_event t) (Ev op x)
    end x
  end.

(** Where a path goes says what it starts with. *)
Definition route_path (oauth : bool) (rt : route) (path : string) : Prop :=
  match rt with
  | ProviderRoute p => p ∈ providerPrefixes ∧ has_prefix path p = true
  | CallableRoute name => path = "/" +:+ name ∧ name ∈ callable_names
  | PublicRoute => path ∈ public_paths
  | OAuthRoute => oauth = true ∧ has_prefix path "/auth/" = true
  | Healthz | RecycleRoute => True
  end.

Lemma route_of_path oauth path rt : route_of oauth callable_names path = Serve rt → route_path oauth rt path.
Proof.
  unfold route_of. destruct (String.eqb path "/healthz"); [by intros [= <-]|].
  destruct (existsb (String.eqb path) public_paths) eqn:E1.
  { intros [= <-]. apply existsb_exists in E1 as (p & Hin & ->%String.eqb_eq). by apply list_elem_of_In. }
  destruct (existsb _ callable_names) eqn:E2.
  { intros [= <-]. apply existsb_exists in E2 as (n & Hin & ->%String.eqb_eq). split; [done|]. by apply list_elem_of_In. }
  destruct (List.find _ providerPrefixes) as [p|] eqn:E3.
  { intros [= <-]. apply List.find_some in E3 as [Hin Hp]. split; [by apply list_elem_of_In|done]. }
  destruct (oauth && has_prefix path "/auth/") eqn:E4.
  { intros [= <-]. by apply andb_true_iff in E4. }
  destruct (_ || _); [done|]. by intros [= <-].
Qed.

Lemma dispatched_path oauth path rt m : main_mux oauth = Some m → dispatch m path = Serve rt → route_path oauth rt path.
Proof.
  rewrite registered_main. intros [= <-]. rewrite dispatch_registered.
  destruct (route_of oauth callable_names (cleanPath path)) as [|to|rt'] eqn:E; try done.
  - by destruct (String.eqb _ _).
  - destruct (String.eqb_spec (cleanPath path) path) as [Ec|]; [|done]. intros [= <-]. rewrite Ec in E. by apply route_of_path.
Qed.

Section AgentProof.
Context (η : env agent_eff) (a : agent) (now : time) (r : OAuth.oauth_request) (c : KickWebhook.key_cache).
Local Abbreviation ok_ := (agent_ok a c r).
Local Abbreviation start := (World (E:=agent_eff) [] c).

(** A part that starts the trace. *)
Lemma embedded_start {E S A} (inj : ∀ A, E A → agent_eff A) (get : KickWebhook.key_cache → S) put (m : env E → Prelude.M (world E S) A) P' :
  (∀ u e, P' u e → ok_ (map (embedded_ev inj) u) (embedded_ev inj e)) →
  (∀ η', justified P' (w_tr (m η' (World [] (get c))).2)) →
  justified ok_ (w_tr (embedded inj get put η m start).2).
Proof.
  intros HP Hm. cbn. apply (justified_embedded inj ok_ P' []); [|done|apply Hm]. intros u e He. rewrite app_nil_r. by apply HP.
Qed.

Lemma own_trace {E} (inj : ∀ A, E A → agent_eff A) (proj : ev agent_eff → option (ev E)) u :
  (∀ e, proj (embedded_ev inj e) = Some e) → omap proj (map (embedded_ev inj) u) = u.
Proof. intros H. rewrite <-(app_nil_r (map _ u)), (embedded_projected inj proj) by done. cbn. by rewrite app_nil_r. Qed.

Lemma handle_justified rt :
  route_path (oauth_enabled (checks a)) rt (r_path (OAuth.rq r)) → justified ok_ (w_tr (handle η a rt now r start).2).
Proof.
  intros Hp. destruct rt as [|p|name| | |]; cbn [handle route_path] in *; try done.
  - destruct Hp as [Hin Hp]. destruct (String.eqb_spec p "/twitch/") as [->|H1]; [|destruct (String.eqb_spec p "/kick/") as [->|H2]].
    + rewrite M_bind_run. apply (embedded_start _ _ _ _ (TwitchWebhook.allowed (twitch a) (OAuth.rq r))).
      * intros u [A op x] He. cbn. split; [done|]. by rewrite (own_trace OfTwitch twitch_event) by by intros [].
      * intros η'. by apply (TwitchWebhook.runs_serve η' (twitch a) (OAuth.rq r) (World [] tt)).
    + rewrite M_bind_run. apply (embedded_start _ _ _ _ (KickWebhook.kick_ok (rsa_verify a) (KickWebhook.publicKey c) (OAuth.rq r))).
      * intros u [A op x] He. cbn. split; [done|]. by rewrite (own_trace OfKick kick_event) by by intros [].
      * intros η'. apply (KickWebhook.triple_serve (rsa_verify a) η' (KickWebhook.publicKey c) (OAuth.rq r) (World [] c)). by split; [|left].
    + assert (p = "/alchemy/") as ->.
      { unfold providerPrefixes in Hin. rewrite !elem_of_cons, elem_of_nil in Hin. naive_solver. }
      rewrite M_bind_run. apply (embedded_start _ _ _ _ (Alchemy.alchemy_ok (alchemy_key a) (OAuth.rq r))).
      * intros u [A op x] He. cbn. split; [done|]. by rewrite (own_trace OfAlchemy alchemy_event) by by intros [].
      * intros η'. by apply (Alchemy.runs_alchemy_serve η' (alchemy_key a) (OAuth.rq r) (World [] tt)).
  - rewrite M_bind_run. apply (embedded_start _ _ _ _ (Callable.call_ok (parse_media a) (OAuth.rq r) (requires_auth name))).
    + intros u [A op x] He. cbn. destruct Hp as [-> Hn]. split_and!; [done..|].
      by rewrite (own_trace (OfCallable name) callable_event) by by intros [].
    + intros η'. unfold Callable.wrap. rewrite M_bind_run.
      pose proof (Callable.runs_call (parse_media a) (OAuth.rq r) (requires_auth name) η' (has_verifier a) (World [] tt)) as H.
      destruct (Callable.serve _ _ _ _ _ _) as [[[call err] rep] w]. cbn [fst snd] in *.
      destruct (Callable.canonical err). apply (H (conj I eq_refl)).
  - destruct (public_clients a) as [clients|] eqn:Ec; [|done]. rewrite M_bind_run.
    apply (embedded_start _ _ _ _ (PublicHttp.public_ok (twitch_client a) clients (OAuth.rq r))).
    + intros u [A op x] He. cbn. split; [done|]. exists clients. split; [done|].
      by rewrite (own_trace OfPublic public_event) by by intros [].
    + intros η'. destruct (PublicHttp.serve _ _ _ _ _ _) as [m|] eqn:Em; [|done]. rewrite M_bind_run.
      by apply (PublicHttp.runs_public _ _ _ _ _ _ _ Em (World [] tt)).
  - destruct (oauth_server a) as [s|] eqn:Es; [|done]. destruct Hp as [He Hp]. rewrite M_bind_run.
    apply (embedded_start _ _ _ _ (OAuth.oauth_ok s r)).
    + intros u [A op x] Hx. cbn. split_and!; [done..|]. exists s. split; [done|].
      by rewrite (own_trace OfOAuth oauth_event) by by intros [].
    + intros η'. by apply (OAuth.runs_OauthServe η' s r (World [] tt)).
Qed.
End AgentProof.

(** The answer is the one that WebServer.v gives when its handlers make the
    calls that were made here. *)
Definition with_providers (h : handler) (s : server) : server :=
  Server_ (list_to_map (map (λ p, (p, h)) providerPrefixes)) (draining s) (ready s) (busySince s) (started s) (oauth_enabled s).
Lemma agent_serve_web (η : env agent_eff) a now r c l :
  (∀ m rt, main_mux (oauth_enabled (checks a)) = Some m → dispatch m (r_path (OAuth.rq r)) = Serve rt →
     (handle η a rt now r (World [] c)).1 = Some l) →
  (agent_serve η a now r (World [] c)).1 =
  serve (λ _ _, l) (λ _, l) (λ _, l) (with_providers (λ _, l) (checks a)) now (OAuth.rq r).
Proof.
  intros Hl. unfold agent_serve, serve. cbn [oauth_enabled with_providers].
  destruct (main_mux (oauth_enabled (checks a))) as [m|] eqn:Em; [|done]. cbn [fmap option_fmap option_map].
  destruct (dispatch m (r_path (OAuth.rq r))) as [|to|rt] eqn:Ed; [done..|].
  rewrite M_bind_run. specialize (Hl m rt eq_refl Ed). pose proof (dispatched_path _ _ _ _ Em Ed) as Hp.
  destruct rt as [|p|name| | |]; cbn [fst]; rewrite Hl; try done.
  - by injection Hl as <-.
  - destruct Hp as [Hin _]. unfold providerPrefixes in Hin. rewrite !elem_of_cons, elem_of_nil in Hin.
    by destruct Hin as [->|[->|[->|[]]]].
  - by injection Hl as <-.
Qed.

(** C40. One request to the agent, whatever the services, the stores and the
    clocks answer: everything that is done belongs to the handler of its path
    (nothing is done for a redirect, a check or an unknown path), and is what
    this handler's contract allows: a signed and fresh webhook, a verified
    caller, a consumed session, an allowed peer. *)
Theorem agent_effects (η : env agent_eff) a now r c :
  justified (agent_ok a c r) (w_tr (agent_serve η a now r (World [] c)).2).
Proof.
  unfold agent_serve. destruct (main_mux (oauth_enabled (checks a))) as [m|] eqn:Em; [|done]. cbn [fmap option_fmap option_map].
  destruct (dispatch m (r_path (OAuth.rq r))) as [|to|rt] eqn:Ed; [done..|].
  rewrite M_bind_run. apply handle_justified. by eapply dispatched_path.
Qed.


(** ** Examples *)

Definition kind (e : ev agent_eff) : string :=
  match e with
  | Ev op _ => match op with
               | OfTwitch _ _ => "twitch" | OfKick _ _ => "kick" | OfAlchemy _ _ => "alchemy"
               | OfCallable name _ _ => name | OfPublic _ _ => "public" | OfOAuth _ _ => "oauth"
               end
  end.

(** The environments of the other files' examples, side by side. *)
Definition sample_effects : env agent_eff := λ A t op,
  match op in agent_eff A return A with
  | OfTwitch _ op => TwitchWebhook.healthy_env _ [] op
  | OfKick _ op => KickWebhook.kick_env _ [] op
  | OfAlchemy _ op => Alchemy.donation_env _ [] op
  | OfCallable _ _ op =>
    match op in Callable.ceff A return A with
    | Callable.CGone => false | Callable.CVerify _ => inr "u1" | Callable.CHandle _ _ => Callable.Returned (inr Json.JNull)
    end
  | OfPublic _ op => PublicHttp.public_env _ [] op
  | OfOAuth _ op =>
    match op in OAuth.oeff A return A with
    | OAuth.OAllow peer => inr (negb (String.eqb peer "6.6.6.6"))
    | OAuth.OVerify _ => inl ErrBusy
    | OAuth.ORandom => "r"
    | OAuth.ONow => 0
    | OAuth.OSave _ _ => None
    | OAuth.OConsume _ _ _ => inl ErrBusy
    | OAuth.OSignIn _ _ _ _ => inl ErrBusy
    | OAuth.OLink _ _ _ _ => None
    | OAuth.OFetch _ => inl ErrBusy
    end
  end.

Definition sample_oauth : OAuth.server :=
  OAuth.Server {["twitch" := OAuth.OauthProvider "id" "secret" "https://id.twitch.tv/oauth2/authorize" "" "" true]}
    "0123456789abcdef0123456789abcdef" "https://chat.rtirl.com" id (λ _, true) (λ _, false).
Definition sample_agent : agent :=
  Agent (Server_ initial_providers false true None 0 true) TwitchWebhook.follow_handler KickWebhook.some_rsa ""
    (λ s, Some s) true (λ _, None) "id" true (Some PublicHttp.reviewed) (Some sample_oauth).

(** The status a request is answered with, and whose effects it had. *)
Definition outcome (r : incoming) (remote : string) : string * list string :=
  let '(ans, w) := agent_serve sample_effects sample_agent hour (OAuth.OauthRequest r "chat.rtirl.com" (r_path r) remote None)
    (World [] (KickWebhook.KeyCache "" 0)) in
  (match ans with
   | Redirected to => to
   | Answer None _ => "panic"
   | Answer (Some w) _ => pretty (client_status w)
   end, map kind (w_tr w)).
Definition at_path (path : string) (r : incoming) : incoming :=
  Incoming (r_method r) path (r_query r) (r_header r) (r_body r) (r_broken r).

Example outcomes :
  let follow := TwitchWebhook.follow_request in
  [outcome follow ""; outcome (at_path "/kick/eventsub" follow) ""; outcome (at_path "/twitch/../twitch/eventsub" follow) "";
   outcome (at_path "/" follow) ""; outcome (PublicHttp.post_metadata "good") ""; outcome (at_path "/alchemy/x" follow) "";
   outcome (Incoming "GET" "/auth/twitch/redirect" ∅ ∅ "" false) "6.6.6.6"] =
  [("200", ["twitch"; "twitch"; "twitch"]); ("400", []); ("/twitch/eventsub", []); ("200", []);
   ("204", ["public"; "public"]); ("404", []); ("429", ["oauth"])].
Proof. vm_compute. reflexivity. Qed.
