(* ===== verification/SubsTypes.v ===== *)
(** * The data and effects of package subscriptions

    The types agent/internal/subscriptions decodes from Twitch and Kick, and
    everything the package asks of the world: the clock, tokens, the two
    providers' APIs, the queue and the database. *)

From stdpp Require Import base gmap strings list.
From S2P Require Import Prelude GoErr Effects Http Store.

Record twitchUser := TwitchUser { user_ID : string; user_Login : string }.

Abbreviation condition := (gmap string string) (only parsing).
(** [m[key]], [""] when absent. *)
Definition cond_get (c : condition) (k : string) : string := default "" (c !! k).

Record twitchSubscription := TwitchSubscription {
  sub_ID : string;
  sub_Type : string;
  sub_Version : string;
  sub_Status : string;
  sub_Condition : condition;
  sub_Method : string;
  sub_Callback : string
}.

Record twitchWanted := TwitchWanted {
  w_Type : string;
  w_Version : string;
  w_Condition : condition
}.

#[export] Instance twitchWanted_eq_dec : EqDecision twitchWanted.
Proof. solve_decision. Defined.
#[export] Instance twitchSubscription_eq_dec : EqDecision twitchSubscription.
Proof. solve_decision. Defined.

(** A page of a listing; [Data] is nil when the response has none. *)
Record page := Page { Data : option (list twitchSubscription); Cursor : string }.

(** The requests to /eventsub/subscriptions. [CreateSub] sends the wanted
    subscription with our callback and secret. *)
Inductive tcall : Type → Type :=
  | ListSubs (filter after : string) : tcall page
  | DeleteSub (id : string) : tcall unit
  | CreateSub (w : twitchWanted) (callback secret : string) : tcall unit
  | TotalCost : tcall (Z * Z).

(** ** Kick *)

Record KickEvent := KickEvent_ { ke_Name : string; ke_Version : Z }.
Record kickSubscription := KickSubscription { ks_ID : string; ks_Event : string; ks_Version : Z }.

#[export] Instance KickEvent_eq_dec : EqDecision KickEvent.
Proof. solve_decision. Defined.

(** ** Effects *)

Inductive eff : Type → Type :=
  | Now : eff time
  | Sleep (d : duration) : eff (option error)
  | Pause (d : duration) : eff (option error)     (* a timer against ctx.Done *)
  | AppAccessToken (p : string) : eff (result string)
  | AccessToken (uid p : string) : eff (result string)
  | Credentials (p : string) : eff (result string) (* the client id *)
  | Users (token : string) (id : option string) : eff (result (response (list twitchUser)))
  | EventSub (B : Type) (token : string) (c : tcall B) : eff (result (response B))
  | Enqueue (channel : string) : eff unit
  | KickList (token id : string) : eff (result (response (option (list kickSubscription))))
  | KickCreate (token : string) (number : Z) (events : list KickEvent) : eff (result (response unit))
  | DbOp (A : Type) (op : db A) : eff A.
Arguments EventSub {B}.
Arguments DbOp {A}.

