(* ===== verification/TwitchSubs.v ===== *)
(** * Twitch EventSub subscriptions

    Models agent/internal/subscriptions/twitch.go: listing a broadcaster's
    subscriptions, creating the missing ones, removing a deauthorized
    broadcaster's, the app's own subscription, and the foreground subscribe;
    with the queue's calls (queue.go, call), which keep a reserve of the rate
    limit. *)

From stdpp Require Import base gmap strings list pretty.
From S2P Require Import Prelude GoErr Effects Http Store SubsTypes.
From S2P Require Queue ChatMessage.

Definition TwitchCallback : string := "https://rtchat-api.rtirl.com/twitch/eventsub".
Definition LegacyTwitchCallback : string :=
  "https://us-central1-rtchat-47692.cloudfunctions.net/eventsub".

Definition ownCallback (sub : twitchSubscription) : bool :=
  String.eqb (sub_Method sub) "webhook" &&
  (String.eqb (sub_Callback sub) TwitchCallback || String.eqb (sub_Callback sub) LegacyTwitchCallback).

Definition twitchTypes : list string :=
  ["channel.follow"; "channel.subscribe"; "channel.subscription.gift";
   "channel.subscription.message"; "channel.subscription.end"; "channel.cheer"; "channel.raid";
   "channel.ban"; "channel.unban"; "channel.channel_points_custom_reward_redemption.add";
   "channel.channel_points_custom_reward_redemption.update"; "channel.poll.begin";
   "channel.poll.progress"; "channel.poll.end"; "channel.prediction.begin";
   "channel.prediction.progress"; "channel.prediction.lock"; "channel.prediction.end";
   "channel.hype_train.begin"; "channel.hype_train.progress"; "channel.hype_train.end";
   "channel.update"; "stream.online"; "stream.offline"; "channel.shoutout.create";
   "channel.shoutout.receive"].

(** One iteration of the loop of [twitchConditions]. *)
Definition wanted_of (id kind : string) : list twitchWanted :=
  if String.eqb kind "channel.raid" then
    [TwitchWanted kind "1" {["to_broadcaster_user_id" := id]};
     TwitchWanted kind "1" {["from_broadcaster_user_id" := id]}]
  else
    let c : condition := {["broadcaster_user_id" := id]} in
    let version := if String.eqb kind "channel.follow" then "2" else "1" in
    let c := if String.eqb kind "channel.follow" || String.eqb kind "channel.shoutout.create" ||
                String.eqb kind "channel.shoutout.receive"
             then <["moderator_user_id" := id]> c else c in
    [TwitchWanted kind version c].

Definition twitchConditions (id : string) : list twitchWanted :=
  twitchTypes ≫= wanted_of id.

(** [for key, value := range a { if value != "" && b[key] != value ... }]. *)
Definition covers (a b : condition) : bool :=
  forallb (λ p, String.eqb p.2 "" || String.eqb (cond_get b p.1) p.2) (map_to_list a).

Definition sameCondition (a b : condition) : bool := covers a b && covers b a.

(** [sub.Type == wanted.Type && sub.Version == wanted.Version && sameCondition(...)]. *)
Definition matches (w : twitchWanted) (sub : twitchSubscription) : bool :=
  String.eqb (sub_Type sub) (w_Type w) && String.eqb (sub_Version sub) (w_Version w) &&
  sameCondition (sub_Condition sub) (w_Condition w).

Definition live (sub : twitchSubscription) : bool :=
  String.eqb (sub_Status sub) "enabled" ||
  String.eqb (sub_Status sub) "webhook_callback_verification_pending".

Definition twitchTargets (sub : twitchSubscription) (id : string) : bool :=
  existsb (λ key, String.eqb (cond_get (sub_Condition sub) key) id)
    ["broadcaster_user_id"; "to_broadcaster_user_id"; "from_broadcaster_user_id"].

Definition tcall_method {B} (c : tcall B) : method :=
  match c with ListSubs _ _ | TotalCost => GET | DeleteSub _ => DELETE | CreateSub _ _ _ => POST end.

(** Deletions and creations pass nil for [out]. *)
Definition tcall_target {B} (c : tcall B) : target B :=
  match c in tcall B return target B with
  | ListSubs _ _ => Into page
  | DeleteSub _ => Discard
  | CreateSub _ _ _ => Discard
  | TotalCost => Into (Z * Z)
  end.

Definition twitchReconcileLease : string := "reconcile".
Definition twitchAppType : string := "user.authorization.revoke".
Definition foregroundLeaseWait : duration := 10 * second.

Definition invalid (msg : string) : error := ErrCallable "invalid-argument" msg.
Definition unavailable (msg : string) : error := ErrCallable "unavailable" msg.

Section Twitch.
(** [http.ParseTime], and the environment that answers every effect. *)
Variable http_date : string → option time.
Variable η : env eff.
(** The configured webhook secret. *)
Variable TwitchSecret : string.

(** The queue's own state is the component's state: its calls read and update
    the view of the rate-limit bucket. *)
Local Abbreviation M := (M (world eff Queue.queue)).
Local Abbreviation twitchReconcile := Queue.twitchReconcile.
Local Abbreviation TwitchReconcile := Queue.TwitchReconcile.

Definition checkTwitchSecret : option error :=
  if (String.length TwitchSecret <? 10)%nat || (100 <? String.length TwitchSecret)%nat
  then Some (ErrCallable "failed-precondition"
               "dedicated Twitch webhook signing secret is not configured")
  else None.

(** [twitchOnce]: the credentials for the client id, then one request. *)
Definition twitchOnce {B} (token : string) (c : tcall B) : M (result B) :=
  _ ←? ask η (Credentials "twitch");
  requestOnce (tcall_method c) (tcall_target c) (ask η (EventSub token c))
    (λ h, modify_st (Queue.observe h)).

(** [TwitchQueue.call]: a single attempt unless it would spend the reserve. *)
Definition q_call (token : string) {B} (c : tcall B) : M (result B) :=
  now ← ask η Now;
  q ← get_st;
  if 0 <? Queue.budgetWait q now then throw ErrBudget else twitchOnce token c.

(** [TwitchQueue.checkCost] makes its request through the same call. *)
Definition check_cost_call : M (option (Z * Z)) :=
  r ← (token ←? ask η (AppAccessToken "twitch"); q_call token TotalCost);
  mret (match r with inl _ => None | inr c => Some c end).

Section Calls.
(** [twitchCall]: how one request to /eventsub/subscriptions is sent. *)
Variable call : ∀ B, tcall B → M (result B).
Arguments call {B}.

(** The loop of [listTwitch] after [subs] with the cursors [seen]. *)
Fixpoint list_from (fuel : nat) (filter after : string) (seen : list string)
    (subs : list twitchSubscription) : M (option (result (list twitchSubscription))) :=
  match fuel with
  | O => mret None
  | Datatypes.S fuel =>
    r ← call (ListSubs filter after);
    match r with
    | inl e => mret (Some (inl e))
    | inr p =>
      match Data p with
      | None => mret (Some (inl (ErrMsg "Twitch subscriptions response missing data")))
      | Some data =>
        let subs := subs ++ data in
        if String.eqb (Cursor p) "" then mret (Some (inr subs))
        else if bool_decide (Cursor p ∈ seen) then
          mret (Some (inl (ErrMsg "Twitch subscription pagination loop")))
        else list_from fuel filter (Cursor p) (Cursor p :: seen) subs
      end
    end
  end.

(** [listTwitch], with [fuel] pages; running out is reported as an error no
    listing returns. *)
Definition listTwitch (fuel : nat) (filter : string) : M (result (list twitchSubscription)) :=
  r ← list_from fuel filter "" [] [];
  mret (default (inl (ErrMsg "fuel")) r).

(** The first listed subscription for a wanted one that is not at our
    callbacks. *)
Definition conflict (id : string) (existing : list twitchSubscription) : bool :=
  existsb (λ w, existsb (λ sub, matches w sub && negb (ownCallback sub)) existing)
    (twitchConditions id).

(** The inner loop of [reconcileTwitch] over the listed subscriptions for one
    wanted: [true] when a live one was found; failed ones are deleted. *)
Fixpoint replace_failed (w : twitchWanted) (existing : list twitchSubscription) : M (result bool) :=
  match existing with
  | [] => ok false
  | sub :: rest =>
    if negb (matches w sub) then replace_failed w rest
    else if live sub then ok true
    else
      r ← call (DeleteSub (sub_ID sub));
      match r with
      | inl e => if is_status e 404 then replace_failed w rest else throw e
      | inr _ => replace_failed w rest
      end
  end.

Definition add_created (r : twitchReconcile) : twitchReconcile :=
  TwitchReconcile (Queue.created r + 1) (Queue.skipped r) (Queue.held r).
Definition add_skipped (r : twitchReconcile) (t : string) : twitchReconcile :=
  TwitchReconcile (Queue.created r) (Queue.skipped r ++ [t]) (Queue.held r).
Definition add_held (r : twitchReconcile) (t : string) : twitchReconcile :=
  TwitchReconcile (Queue.created r) (Queue.skipped r) (Queue.held r ++ [t]).

(** The switch on a creation's answer: the result so far, or also the error
    that stops the attempt. *)
Definition after_create (t : string) (a : result unit) (r : twitchReconcile) :
    twitchReconcile * option error :=
  match a with
  | inr _ => (add_created r, None)
  | inl e =>
    if is_status e 409 then (r, None)
    else if is_status e 403 then (add_skipped r t, None)
    else if is_cost_limited e then (add_held r t, None)
    else if is_status e 400 then (add_skipped r t, None)
    else (r, Some e)
  end.

(** The loop of [reconcileTwitch] over the wanted subscriptions. *)
Fixpoint create_missing (existing : list twitchSubscription) (wanted : list twitchWanted)
    (r : twitchReconcile) : M (twitchReconcile * option error) :=
  match wanted with
  | [] => mret (r, None)
  | w :: rest =>
    f ← replace_failed w existing;
    match f with
    | inl e => mret (r, Some e)
    | inr true => create_missing existing rest r
    | inr false =>
      a ← call (CreateSub w TwitchCallback TwitchSecret);
      match after_create (w_Type w) a r with
      | (r, None) => create_missing existing rest r
      | (r, Some e) => mret (r, Some e)
      end
    end
  end.

Definition no_result : twitchReconcile := TwitchReconcile 0 [] [].

Definition reconcileTwitch (fuel : nat) (id : string) : M (twitchReconcile * option error) :=
  match checkTwitchSecret with
  | Some e => mret (no_result, Some e)
  | None =>
    l ← listTwitch fuel ("user_id=" +:+ id);
    match l with
    | inl e => mret (no_result, Some e)
    | inr existing =>
      if conflict id existing then
        mret (no_result, Some (ErrCallable "failed-precondition"
          "Twitch callbacks require coordinated migration before enabling subscriptions"))
      else create_missing existing (twitchConditions id) no_result
    end
  end.

(** The loop of [removeTwitch]: how many were deleted, and the error that
    stopped it. *)
Fixpoint remove_each (id : string) (existing : list twitchSubscription) (deleted : Z) :
    M (Z * option error) :=
  match existing with
  | [] => mret (deleted, None)
  | sub :: rest =>
    if negb (ownCallback sub) || negb (twitchTargets sub id) then remove_each id rest deleted
    else
      r ← call (DeleteSub (sub_ID sub));
      match r with
      | inr _ => remove_each id rest (deleted + 1)
      | inl e => if is_status e 404 then remove_each id rest deleted
                 else mret (deleted, Some e)
      end
  end.

Definition removeTwitch (fuel : nat) (id : string) : M (Z * option error) :=
  l ← listTwitch fuel ("user_id=" +:+ id);
  match l with
  | inl e => mret (0, Some e)
  | inr existing => remove_each id existing 0
  end.

(** The loop of [ensureTwitchApp]: [true] when a live one at our callbacks was
    found; failed ones there are deleted. *)
Fixpoint app_existing (client : string) (existing : list twitchSubscription) : M (result bool) :=
  match existing with
  | [] => ok false
  | sub :: rest =>
    if negb (String.eqb (sub_Type sub) twitchAppType) ||
       negb (String.eqb (cond_get (sub_Condition sub) "client_id") client) ||
       negb (ownCallback sub)
    then app_existing client rest
    else if live sub then ok true
    else
      r ← call (DeleteSub (sub_ID sub));
      match r with
      | inl e => if is_status e 404 then app_existing client rest else throw e
      | inr _ => app_existing client rest
      end
  end.

Definition app_wanted (client : string) : twitchWanted :=
  TwitchWanted twitchAppType "1" {["client_id" := client]}.

Definition ensureTwitchApp (fuel : nat) : M (twitchReconcile * option error) :=
  match checkTwitchSecret with
  | Some e => mret (no_result, Some e)
  | None =>
    c ← ask η (Credentials "twitch");
    match c with
    | inl e => mret (no_result, Some e)
    | inr client =>
      l ← listTwitch fuel ("type=" +:+ twitchAppType);
      match l with
      | inl e => mret (no_result, Some e)
      | inr existing =>
        f ← app_existing client existing;
        match f with
        | inl e => mret (no_result, Some e)
        | inr true => mret (no_result, None)
        | inr false =>
          a ← call (CreateSub (app_wanted client) TwitchCallback TwitchSecret);
          match a with
          | inr _ => mret (add_created no_result, None)
          | inl e =>
            if is_status e 409 then mret (no_result, None)
            else if is_cost_limited e then mret (add_held no_result twitchAppType, None)
            else mret (no_result, Some e)
          end
        end
      end
    end
  end.
End Calls.

(** ** Users and the foreground subscribe *)

(** [Service.twitchUser]: exactly one user answers. *)
Definition get_user (token : string) (id : option string) : M (result twitchUser) :=
  _ ←? ask η (Credentials "twitch");
  us ←? request η Now Sleep http_date GET (Into (list twitchUser)) (ask η (Users token id));
  match us with
  | [u] => ok u
  | _ => throw (invalid "invalid Twitch channel")
  end.

(** [profile(data, p)], and [stringID]. *)
Definition profile (data : doc) (p : string) : doc :=
  match field data p with VMap m => m | _ => [] end.
Definition stringID (v : value) : string :=
  match v with
  | VString s => s
  | VInt z => pretty z
  | VFloat text => text
  | _ => ""
  end.
Definition linked_id (data : doc) : string := stringID (field (profile data "twitch") "id").

Definition profile_path (uid : string) : string := "profiles/" +:+ uid.
Definition channel_path (channel : string) : string := "channels/twitch:" +:+ channel.

(** The transaction of [subscribeTwitch]: whether the welcome is pending. *)
Definition activate_tx (uid channel : string) : M (result bool) :=
  data ←? db_ η (@DbOp) (TxGet (profile_path uid));
  if negb (String.eqb (linked_id data) channel) then
    throw (ErrCallable "permission-denied" "Twitch profile changed")
  else
    let first := is_nil (field data "lastActiveAt") in
    let updates := touch ++ (if first then [("welcomePendingChannel", VString channel)] else []) in
    let pending := if first then true
                   else match field data "welcomePendingChannel" with
                        | VString s => String.eqb s channel
                        | _ => false
                        end in
    exec η (@DbOp) (TxSet (profile_path uid) updates true) ;?
    exec η (@DbOp) (TxSet (channel_path channel) touch true) ;?
    ok pending.

Definition welcome_path (channel : string) (i : Z) : string :=
  channel_path channel +:+ "/messages/welcome-v1-" +:+ pretty i.
Definition welcome_text (login : string) (i : Z) : string :=
  if i =? 1 then "Welcome to RealtimeChat, @" +:+ login +:+ "! VoHiYo"
  else "Your chat will appear here, even if you close the app. Have a good stream!".
Definition welcome_doc (channel login : string) (expires : time) (i : Z) : doc :=
  [("channelId", VString ("twitch:" +:+ channel));
   ("annotations", VMap [("isAction", VBool false); ("isFirstTimeChatter", VBool false)]);
   ("author", VMap [("displayName", VString "muxfd"); ("userId", VString "158394109"); ("color", VString "")]);
   ("reply", VNull); ("timestamp", VServerTimestamp);
   ("tags", VMap [("user-id", VString "158394109"); ("room-id", VString "158394109");
                  ("display-name", VString "muxfd"); ("color", VString "");
                  ("username", VString "muxfd"); ("badges", VMap []); ("emotes-raw", VString "");
                  ("badges-raw", VString "")]);
   ("type", VString "message"); ("message", VString (welcome_text login i));
   ("expiresAt", VTime expires)].

(** One iteration of the loop of [welcome]. *)
Definition welcome_message (channel login : string) (i : Z) : M (result unit) :=
  now ← ask η Now;
  e ← db_ η (@DbOp) (Create (welcome_path channel i)
                       (welcome_doc channel login (now + ChatMessage.TTL) i));
  match e with
  | Some e => if decide (status_code (Some e) = AlreadyExists) then ok tt else throw e
  | None =>
    if i =? 1 then
      p ← ask η (Pause (3 * second));
      match p with Some e => throw e | None => ok tt end
    else ok tt
  end.

Definition welcome (uid channel login : string) : M (result unit) :=
  welcome_message channel login 1 ;?
  welcome_message channel login 2 ;?
  exec η (@DbOp) (Set_ (profile_path uid) [("welcomePendingChannel", VDelete)] true).

(** The work [subscribeTwitch] does under the broadcaster's lease. *)
Definition subscribe_owner (uid channel login : string) : M (result unit) :=
  t ← ask η (AccessToken uid "twitch");
  match t with
  | inl _ => throw (ErrCallable "failed-precondition" "reconnect Twitch before subscribing")
  | inr token =>
    current ←? get_user token None;
    if negb (String.eqb (user_ID current) channel) then
      throw (ErrCallable "permission-denied" "Twitch identity no longer matches profile")
    else match checkTwitchSecret with
    | Some e => throw e
    | None =>
      _ ← ask η (Enqueue channel);
      pending ←? RunTransaction η (@DbOp) (activate_tx uid channel);
      if pending then welcome uid channel login else ok tt
    end
  end.

Definition subscribeTwitch (uid channel : string) : M (result string) :=
  token ←? ask η (AppAccessToken "twitch");
  user ←? get_user token (Some channel);
  if negb (String.eqb (user_ID user) channel) || String.eqb (user_Login user) "" then
    throw (invalid "invalid Twitch channel")
  else
    exec η (@DbOp) (Set_ ("assignments/twitch:" +:+ user_Login user)
                      [("subscribedAt", VServerTimestamp)] false) ;?
    if String.eqb uid "" then ok (user_Login user)
    else
      d ← db_ η (@DbOp) (Get (profile_path uid));
      match d with
      | inl e => if decide (status_code (Some e) = NotFound) then ok (user_Login user) else throw e
      | inr data =>
        if negb (String.eqb (linked_id data) channel) then
          exec η (@DbOp) (Set_ (profile_path uid) touch true) ;? ok (user_Login user)
        else
          r ← locked η (@DbOp) ("twitch:" +:+ channel) "" [twitchReconcileLease]
                (Some foregroundLeaseWait) (subscribe_owner uid channel (user_Login user));
          match r with
          | inl e => throw (if is_busy e then
                              unavailable "Twitch subscriptions are busy; try again shortly" else e)
          | inr _ => ok (user_Login user)
          end
      end.

(** The loop of [twitchReauthorized] over the linked profiles. *)
Fixpoint any_reauthorized (id : string) (uids : list string) : M (result bool) :=
  match uids with
  | [] => ok false
  | uid :: rest =>
    t ← ask η (AccessToken uid "twitch");
    match t with
    | inl e => if is_no_token e then any_reauthorized id rest else throw e
    | inr token =>
      u ← get_user token None;
      match u with
      | inl e => if is_status e 401 then any_reauthorized id rest else throw e
      | inr u => if String.eqb (user_ID u) id then ok true else any_reauthorized id rest
      end
    end
  end.

(** Older profiles store the id as a number. *)
Definition profile_ids (id : string) : list value :=
  VString id :: match parse_int id with Some n => [VInt n] | None => [] end.

Definition twitchReauthorized (id : string) : M (result bool) :=
  docs ←? db_ η (@DbOp) (Query "profiles" [("twitch.id", "in", VList (profile_ids id))] 10);
  any_reauthorized id (docs.*1).

(** The job of a queued item under its lease (queue.go, process), made of the
    parts above: what Queue.job_work combines. *)
Definition leased_job (fuel : nat) (token ch : string) (j : Queue.twitchJob) : M Queue.run :=
  match j with
  | Queue.twitchRemoveJob =>
    a ← twitchReauthorized ch;
    match a with
    | inr false =>
      r ← removeTwitch (@q_call token) fuel ch;
      mret (Queue.job_work j a r (no_result, None) (no_result, None))
    | _ => mret (Queue.job_work j a (0, None) (no_result, None) (no_result, None))
    end
  | Queue.twitchAppJob =>
    r ← ensureTwitchApp (@q_call token) fuel;
    mret (Queue.job_work j (inr false) (0, None) r (no_result, None))
  | Queue.twitchReconcileJob =>
    r ← reconcileTwitch (@q_call token) fuel ch;
    mret (Queue.job_work j (inr false) (0, None) (no_result, None) r)
  end.
End Twitch.

(** ** What a trace says about subscriptions *)

(** The subscriptions a listing's answer carries. *)
Definition listing_of (e : ev eff) : list twitchSubscription :=
  match e with
  | Ev op a =>
    match op in eff A return A → list twitchSubscription with
    | EventSub _ c =>
      match c in tcall B return result (response B) → list twitchSubscription with
      | ListSubs _ _ => λ r, match classify GET (Into page) r with
                             | inr p => default [] (Data p)
                             | inl _ => []
                             end
      | _ => λ _, []
      end
    | _ => λ _, []
    end a
  end.

(** Everything listed so far, in the order it was listed. *)
Fixpoint listing (t : trace eff) : list twitchSubscription :=
  match t with
  | [] => []
  | e :: t => listing t ++ listing_of e
  end.

(** The id an effect deletes, and what an effect creates, where. *)
Definition deletion_of (e : ev eff) : option string :=
  match e with
  | Ev op _ => match op with EventSub _ (DeleteSub id) => Some id | _ => None end
  end.
Definition creation_of (e : ev eff) : option (twitchWanted * string) :=
  match e with
  | Ev op _ => match op with EventSub _ (CreateSub w cb _) => Some (w, cb) | _ => None end
  end.

(** Created, or already there: a 2xx or 409 answered the creation of [w]. *)
Definition created_of (e : ev eff) (w : twitchWanted) : bool :=
  match e with
  | Ev op a =>
    match op in eff A return A → bool with
    | EventSub _ c =>
      match c in tcall B return result (response B) → bool with
      | CreateSub w' _ _ => λ r,
          bool_decide (w' = w) &&
          match classify POST Discard r with inr _ => true | inl e => is_status e 409 end
      | _ => λ _, false
      end
    | _ => λ _, false
    end a
  end.

Definition mutates (e : ev eff) : Prop := is_Some (deletion_of e) ∨ is_Some (creation_of e).

(** An effect other than a request to /eventsub/subscriptions. *)
Definition other {A} (op : eff A) : bool := match op with EventSub _ _ => false | _ => true end.

Lemma other_listing A (op : eff A) a t : other op = true → listing (Ev op a :: t) = listing t.
Proof. destruct op; try done; cbn; intros _; apply app_nil_r. Qed.

(** [P] and [F] ignore such effects. *)
Definition quiet (P : trace eff → ev eff → Prop) (F : trace eff → Prop) : Prop :=
  ∀ A (op : eff A) a t, other op = true → F t → P t (Ev op a) ∧ F (Ev op a :: t).

(** The errors of a call that sends nothing. *)
Definition local_error (η : env eff) (e : error) : Prop :=
  e = ErrBudget ∨ ∃ t, η _ t (Credentials "twitch") = inl e.

Lemma runs_twitchOnce η P F token B (c : tcall B) Q :
  quiet P F →
  (∀ t a, F t → P t (Ev (EventSub token c) a) ∧
     Q (classify (tcall_method c) (tcall_target c) a) (Ev (EventSub token c) a :: t)) →
  (∀ e t, local_error η e → F t → Q (inl e) t) →
  runs P F (twitchOnce η token c) Q.
Proof.
  intros HF Hs Hl. unfold twitchOnce.
  apply runs_bindE with (λ r t, F t ∧ ∀ e, r = inl e → local_error η e).
  { apply runs_ask. intros t Ht. destruct (HF _ (Credentials "twitch") (η _ t (Credentials "twitch")) t); try done.
    split_and!; [done..|]. intros e He. right. by eexists. }
  { intros e t [Ht He]. apply Hl; [by apply He|done]. }
  intros cid. eapply runs_conseq with (F' := F); [|by intros t []|done]. unfold requestOnce.
  apply runs_bind with (λ a t, Q (classify (tcall_method c) (tcall_target c) a) t).
  { apply runs_ask. intros t Ht. by apply Hs. }
  intros r. eapply runs_bind with (λ _ t, Q (classify (tcall_method c) (tcall_target c) r) t).
  - destruct r; [by apply runs_ret | apply runs_modify_st].
  - intros _. by apply runs_ret.
Qed.

Lemma runs_q_call η P F token B (c : tcall B) Q :
  quiet P F →
  (∀ t a, F t → P t (Ev (EventSub token c) a) ∧
     Q (classify (tcall_method c) (tcall_target c) a) (Ev (EventSub token c) a :: t)) →
  (∀ e t, local_error η e → F t → Q (inl e) t) →
  runs P F (q_call η token c) Q.
Proof.
  intros HF Hs Hl. unfold q_call.
  apply runs_bind with (λ _ t, F t).
  { apply runs_ask. intros t Ht. by apply HF. }
  intros now. apply runs_bind with (λ _ t, F t); [apply runs_get_st|].
  intros q. case_match; [apply runs_ret; intros; by apply Hl; [left|] | by apply runs_twitchOnce].
Qed.

(** ** Listing *)

Lemma list_from_finishes (call : ∀ B, tcall B → M (world eff Queue.queue) (result B))
    (L : list string) :
  (∀ w filter after p, (call page (ListSubs filter after) w).1 = inr p → Cursor p ∈ "" :: L) →
  ∀ n filter after seen subs w,
    NoDup seen → seen ⊆ L → (length L < n + length seen)%nat →
    is_Some (list_from call n filter after seen subs w).1.
Proof.
  intros HL n. induction n as [|n IH]; intros filter after seen subs w Hnd Hsub Hn.
  { assert (length seen <= length L)%nat; [|lia].
    apply NoDup_incl_length; [by apply NoDup_ListNoDup|].
    intros x Hx. apply list_elem_of_In, Hsub, list_elem_of_In, Hx. }
  cbn [list_from]. rewrite M_bind_run.
  destruct (call page (ListSubs filter after) w) as [[e|p] w'] eqn:Ec; cbn; [by eexists|].
  destruct (Data p) as [data|]; [|by eexists].
  destruct (String.eqb_spec (Cursor p) ""); [by eexists|].
  case_bool_decide as Hin; [by eexists|].
  apply IH.
  - by constructor.
  - specialize (HL w filter after p). rewrite Ec in HL. specialize (HL eq_refl).
    intros x [->|Hx]%elem_of_cons; [|by apply Hsub].
    by apply elem_of_cons in HL as [?|?].
  - cbn. lia.
Qed.

(** A listing ends: when every cursor Twitch answers with is one of [L],
    [length L + 1] pages are enough, because a cursor that repeats stops the
    listing. *)
Theorem listing_terminates (call : ∀ B, tcall B → M (world eff Queue.queue) (result B))
    (L : list string) filter w :
  (∀ w filter after p, (call page (ListSubs filter after) w).1 = inr p → Cursor p ∈ "" :: L) →
  is_Some (list_from call (length L + 1) filter "" [] [] w).1.
Proof.
  intros HL. apply list_from_finishes with L; [done|constructor|set_solver|cbn; lia].
Qed.

Lemma quiet_listing P K l : quiet P K → quiet P (λ t, K t ∧ listing t = l).
Proof.
  intros H A op a t Ho [HK Hl]. destruct (H A op a t Ho HK). rewrite other_listing by done. done.
Qed.

Lemma quiet_and P K K' : quiet P K → stable K' → quiet P (λ t, K t ∧ K' t).
Proof. intros H Hs A op a t Ho [HK Hl]. destruct (H A op a t Ho HK). split_and!; auto. Qed.

(** A listing may run where [K] holds; it returns what the trace says. *)
Lemma runs_list_from η P K token fuel filter : ∀ after seen subs,
  quiet P K →
  (∀ t after a, K t → P t (Ev (EventSub token (ListSubs filter after)) a) ∧
                      K (Ev (EventSub token (ListSubs filter after)) a :: t)) →
  runs P (λ t, K t ∧ listing t = subs)
    (list_from (@q_call η token) fuel filter after seen subs)
    (λ r t, K t ∧ ∀ l, r = Some (inr l) → listing t = l).
Proof.
  induction fuel as [|fuel IH]; intros after seen subs HF HK; cbn [list_from].
  { apply runs_ret. naive_solver. }
  apply runs_bind with (λ r t, K t ∧ ∀ p, r = inr p → listing t = subs ++ default [] (Data p)).
  { apply runs_q_call; [by apply quiet_listing| |naive_solver].
    intros t a [Ht Hl]. destruct (HK t after a Ht) as [HP HK']. split_and!; [done..|].
    intros p Hp. cbn [tcall_method tcall_target] in Hp. cbn [listing listing_of]. by rewrite Hp, Hl. }
  intros [e|p]; [apply runs_ret; naive_solver|].
  destruct (Data p) as [data|] eqn:Ed; [|apply runs_ret; naive_solver]. cbn.
  case_match.
  { apply runs_ret. intros t [HKt Hl]. split; [done|]. intros l [= <-]. by rewrite (Hl p), Ed. }
  case_bool_decide; [apply runs_ret; naive_solver|].
  eapply runs_conseq; [by apply IH| |done]. intros t [HKt Hl]. split; [done|].
  by rewrite (Hl p), Ed.
Qed.

Lemma runs_listTwitch η P K token fuel filter :
  quiet P K →
  (∀ t after a, K t → P t (Ev (EventSub token (ListSubs filter after)) a) ∧
                      K (Ev (EventSub token (ListSubs filter after)) a :: t)) →
  runs P (λ t, K t ∧ listing t = []) (listTwitch (@q_call η token) fuel filter)
    (λ r t, K t ∧ ∀ l, r = inr l → listing t = l).
Proof.
  intros HF HK. unfold listTwitch. eapply runs_bind; [by apply runs_list_from|].
  intros r. apply runs_ret. intros t [HKt Hl]. split; [done|].
  intros l. destruct r as [[|]|]; cbn; naive_solver.
Qed.

(** ** Removing *)

(** In a removal, a deletion is of a listed subscription at our callbacks about
    the broadcaster, and nothing is created. *)
Definition removal_ok (id : string) (t : trace eff) (e : ev eff) : Prop :=
  (∀ sid, deletion_of e = Some sid →
     ∃ sub, sub ∈ listing t ∧ sub_ID sub = sid ∧ ownCallback sub = true ∧ twitchTargets sub id = true) ∧
  creation_of e = None.

Lemma other_removal_ok id A (op : eff A) a t : other op = true → removal_ok id t (Ev op a).
Proof. by destruct op. Qed.


Lemma runs_remove_each η id token l existing n :
  existing ⊆ l →
  runs (removal_ok id) (λ t, listing t = l)
    (remove_each (@q_call η token) id existing n) (λ _ _, True).
Proof.
  revert n. induction existing as [|sub rest IH]; intros n Hsub; cbn [remove_each].
  { by apply runs_ret. }
  assert (rest ⊆ l) by set_solver.
  destruct (negb (ownCallback sub) || negb (twitchTargets sub id)) eqn:Hs; [by apply IH|].
  apply orb_false_iff in Hs as [?%negb_false_iff ?%negb_false_iff].
  apply runs_bind with (λ _ t, listing t = l).
  { apply runs_q_call; [|intros t a Ht|done].
    - intros A op a t Ho Ht. rewrite other_listing by done.
      split; [by apply other_removal_ok|done].
    - cbn. rewrite app_nil_r. split; [|done]. split; [|done].
      cbn. intros sid [= <-]. exists sub. split_and!; try done. set_solver. }
  intros [e|u]; [|by apply IH].
  case_match; [by apply IH | by apply runs_ret].
Qed.

(** A removal deletes only subscriptions that this attempt listed, that are
    at this service's callbacks, and whose condition names the deauthorized
    broadcaster; it creates nothing. *)
Theorem removal_only_own η token fuel id q :
  justified (removal_ok id)
    (w_tr (removeTwitch (@q_call η token) fuel id (World [] q)).2).
Proof.
  assert (H : runs (removal_ok id) (λ t, True ∧ listing t = [])
                (removeTwitch (@q_call η token) fuel id) (λ _ _, True)).
  { unfold removeTwitch. eapply runs_bind.
    - apply runs_listTwitch; [|done].
      intros A op a t Ho _. split; [by apply other_removal_ok|done].
    - intros [e|existing]; [by apply runs_ret|].
      eapply runs_conseq; [by apply (runs_remove_each η id token existing)| |done].
      naive_solver. }
  apply H. cbn. done.
Qed.

(** ** Reconciling *)

Definition reconcile_ok (id : string) (t : trace eff) (e : ev eff) : Prop :=
  (∀ sid, deletion_of e = Some sid →
     ∃ w sub, w ∈ twitchConditions id ∧ sub ∈ listing t ∧ matches w sub = true ∧
              live sub = false ∧ sub_ID sub = sid) ∧
  (∀ w cb, creation_of e = Some (w, cb) →
     w ∈ twitchConditions id ∧ cb = TwitchCallback ∧
     (∀ sub, sub ∈ listing t → matches w sub = true → live sub = false) ∧
     (∀ e' cb', e' ∈ t → creation_of e' ≠ Some (w, cb'))) ∧
  (mutates e → ∀ w sub, w ∈ twitchConditions id → sub ∈ listing t →
     matches w sub = true → ownCallback sub = true).

Lemma other_reconcile_ok id A (op : eff A) a t : other op = true → reconcile_ok id t (Ev op a).
Proof.
  intros Ho. split_and!; destruct op; cbn; try done; intros [[? ?]|[? ?]]; done.
Qed.

(** No two wanted subscriptions are the same. *)
Lemma twitchConditions_NoDup id : NoDup (twitchConditions id).
Proof.
  apply (NoDup_fmap_1 (λ w, (w_Type w, bool_decide (is_Some (w_Condition w !! "to_broadcaster_user_id"))))).
  match goal with |- NoDup ?l => let l' := eval vm_compute in l in change (NoDup l') end.
  refine (bool_decide_unpack _ _). vm_compute. exact I.
Qed.

Lemma conflict_false id existing w sub :
  conflict id existing = false → w ∈ twitchConditions id → sub ∈ existing →
  matches w sub = true → ownCallback sub = true.
Proof.
  intros Hc Hw Hs Hm. destruct (ownCallback sub) eqn:Ho; [done|].
  assert (conflict id existing = true); [|congruence].
  apply existsb_exists. exists w. split; [by apply list_elem_of_In|].
  apply existsb_exists. exists sub. split; [by apply list_elem_of_In|]. by rewrite Hm, Ho.
Qed.

(** What holds while the wanted subscriptions in [rest] are still to do. *)
Definition progress (id : string) (l : list twitchSubscription) (rest : list twitchWanted)
    (t : trace eff) : Prop :=
  listing t = l ∧ ∀ e w cb, e ∈ t → creation_of e = Some (w, cb) → w ∉ rest.

Lemma progress_other id l rest A (op : eff A) a t :
  other op = true → progress id l rest t → progress id l rest (Ev op a :: t).
Proof.
  intros Ho [Hl Hp]. split; [by rewrite other_listing|].
  intros e w cb [->|He]%elem_of_cons; [by destruct op|by apply Hp].
Qed.

Lemma progress_quiet id l rest : quiet (reconcile_ok id) (progress id l rest).
Proof.
  intros A op a t Ho Hp. split; [by apply other_reconcile_ok|by apply progress_other].
Qed.

Lemma progress_weaken id l rest rest' t :
  rest' ⊆ rest → progress id l rest t → progress id l rest' t.
Proof. intros Hs [Hl Hp]. split; [done|]. intros e w cb He Hc Hin. by eapply Hp; eauto. Qed.

Section Reconcile.
Context (η : env eff) (secret id token : string) (l : list twitchSubscription).
Context (Hown : conflict id l = false).

Lemma runs_replace_failed K w rest existing :
  stable K → w ∈ twitchConditions id → existing ⊆ l →
  runs (reconcile_ok id) (λ t, progress id l rest t ∧ K t)
    (replace_failed (@q_call η token) w existing)
    (λ r t, (progress id l rest t ∧ K t) ∧
       (r = inr true → ∃ sub, sub ∈ existing ∧ matches w sub = true ∧ live sub = true) ∧
       (r = inr false → ∀ sub, sub ∈ existing → matches w sub = true → live sub = false)).
Proof.
  intros HK Hw. induction existing as [|sub ex IH]; intros Hsub; cbn [replace_failed].
  { apply runs_ret. intros t Ht. split_and!; [apply Ht..|done|]. intros _ ? ?%elem_of_nil. done. }
  assert (ex ⊆ l) by set_solver.
  assert (Hskip : matches w sub = false ∨ live sub = false →
    runs (reconcile_ok id) (λ t, progress id l rest t ∧ K t) (replace_failed (@q_call η token) w ex)
    (λ r t, (progress id l rest t ∧ K t) ∧
       (r = inr true → ∃ s, s ∈ sub :: ex ∧ matches w s = true ∧ live s = true) ∧
       (r = inr false → ∀ s, s ∈ sub :: ex → matches w s = true → live s = false))).
  { intros Hs. eapply runs_conseq; [by apply IH|done|]. intros r t (Hp & H1 & H2). split_and!; [apply Hp..| |].
    - intros Hr. destruct (H1 Hr) as (s & ? & ?). exists s. set_solver.
    - intros Hr s [->|Hin]%elem_of_cons Hm; [by destruct Hs as [Hs|Hs]; [congruence|]|by apply H2]. }
  destruct (matches w sub) eqn:Hm; cbn; [|by apply Hskip; left].
  destruct (live sub) eqn:Hlive.
  { apply runs_ret. intros t Ht. split_and!; [apply Ht..| |done]. intros _. exists sub. set_solver. }
  apply runs_bind with (λ _ t, progress id l rest t ∧ K t).
  { apply runs_q_call; [by apply quiet_and; [apply progress_quiet|]|intros t a [[Hl Hp] Hk]|done]. subst l. split.
    - split_and!; [|done|].
      + cbn. intros sid [= <-]. exists w, sub. split_and!; try done. set_solver.
      + intros _ w' s Hw' Hs Hm'. by eapply conflict_false.
    - split; [|by apply HK]. split; [apply app_nil_r|].
      intros e w' cb [->|He]%elem_of_cons Hc; [done|by eapply Hp]. }
  intros [e|u]; [|by apply Hskip; right].
  case_match; [by apply Hskip; right|by apply runs_ret].
Qed.

(** Every wanted subscription is accounted for. *)
Definition accounted (r : Queue.twitchReconcile) (t : trace eff) (w : twitchWanted) : Prop :=
  (∃ sub, sub ∈ l ∧ matches w sub = true ∧ live sub = true) ∨
  (∃ e, e ∈ t ∧ created_of e w = true) ∨
  w_Type w ∈ Queue.skipped r ++ Queue.held r.

Lemma after_create_mono t (a : result unit) r r' o :
  after_create t a r = (r', o) →
  Queue.skipped r ++ Queue.held r ⊆ Queue.skipped r' ++ Queue.held r'.
Proof. unfold after_create. repeat case_match; intros [= <- <-]; cbn; set_solver. Qed.

Lemma after_create_sent w (x : result (response unit)) r r' t :
  after_create (w_Type w) (classify POST Discard x) r = (r', None) →
  accounted r' (Ev (EventSub token (CreateSub w TwitchCallback secret)) x :: t) w.
Proof.
  intros H. assert (created_of (Ev (EventSub token (CreateSub w TwitchCallback secret)) x) w = true ∨
    w_Type w ∈ Queue.skipped r' ++ Queue.held r'); [|unfold accounted; set_solver].
  revert H. unfold after_create. cbn [created_of]. rewrite bool_decide_true by done.
  destruct (classify POST Discard x) as [e|u]; [|by left].
  repeat case_match; intros [= <-]; cbn; set_solver.
Qed.

(** Credentials come from the configuration: their error is not Twitch's. *)
Definition creds_ok : Prop :=
  ∀ t e, η _ t (Credentials "twitch") = inl e → as_http e = None ∧ is_cost_limited e = false.

Lemma after_create_local t e r r' :
  creds_ok → local_error η e → after_create t (inl e) r ≠ (r', None).
Proof.
  intros Hc He. assert (as_http e = None ∧ is_cost_limited e = false) as [H1 H2].
  { destruct He as [->|[t' He]]; [done|by eapply Hc]. }
  unfold after_create, is_status. by rewrite H1, H2.
Qed.

Lemma accounted_mono r r' t e w :
  accounted r t w → Queue.skipped r ++ Queue.held r ⊆ Queue.skipped r' ++ Queue.held r' →
  accounted r' (e :: t) w.
Proof. unfold accounted. set_solver. Qed.

Lemma runs_create_missing wanted : ∀ dn r,
  twitchConditions id = dn ++ wanted →
  runs (reconcile_ok id)
    (λ t, progress id l wanted t ∧ (creds_ok → ∀ w, w ∈ dn → accounted r t w))
    (create_missing secret (@q_call η token) l wanted r)
    (λ x t, listing t = l ∧ (creds_ok → x.2 = None → ∀ w, w ∈ twitchConditions id → accounted x.1 t w)).
Proof.
  induction wanted as [|w rest IH]; intros dn r Hall; cbn [create_missing].
  { apply runs_ret. intros t [[??] Hd]. split; [done|]. intros Hc _ w Hw. apply Hd; [done|].
    by rewrite Hall, app_nil_r in Hw. }
  assert (Hw : w ∈ twitchConditions id) by (rewrite Hall; set_solver).
  assert (Hnd := twitchConditions_NoDup id). rewrite Hall in Hnd.
  assert (Hwr : w ∉ rest) by (apply NoDup_app in Hnd as (_ & _ & Hnd); by inversion Hnd).
  assert (Hall' : twitchConditions id = (dn ++ [w]) ++ rest) by (by rewrite <-app_assoc).
  set (K := λ t, creds_ok → ∀ w, w ∈ dn → accounted r t w).
  assert (HK : stable K) by (intros e t Ht Hc w' Hw'; eapply accounted_mono; [by apply Ht|done]).
  eapply runs_bind; [by apply (runs_replace_failed K w (w :: rest) l)|].
  intros [e|[]].
  - apply runs_ret. intros t ((Hp & _) & _). split; [apply Hp|done].
  - eapply runs_conseq; [by apply (IH (dn ++ [w]) r)| |done]. intros t ((Hp & Hd) & Hf & _). split.
    + eapply progress_weaken; [|done]. set_solver.
    + intros Hc w' [Hin| ->%list_elem_of_singleton]%elem_of_app; [by apply Hd|by left; apply Hf].
  - apply runs_bind with (λ a t, progress id l rest t ∧
      ∀ r', creds_ok → after_create (w_Type w) a r = (r', None) → ∀ w', w' ∈ dn ++ [w] → accounted r' t w').
    + apply runs_q_call.
      * intros A op a t Ho ((Hp & Hk) & _ & Hf). destruct (progress_quiet id l (w :: rest) A op a t Ho Hp).
        split_and!; [done..|by apply HK|done|done].
      * intros t a (([Hl Hp] & Hk) & _ & Hf). split; [split_and!|split; [split|]].
        -- done.
        -- cbn. intros w' cb [= <- <-]. split_and!; [done|done|by rewrite Hl; apply Hf|].
           intros e' cb' He' Hc. eapply Hp; [done|done|set_solver].
        -- intros _ w' s Hw' Hs Hm'. rewrite Hl in Hs. by eapply conflict_false.
        -- cbn. by rewrite app_nil_r.
        -- intros e w' cb [->|He]%elem_of_cons Hc; cbn in Hc; [by simplify_eq|].
           intros Hin. eapply Hp; [done|done|set_solver].
        -- intros r' Hc Ha w' [Hin| ->%list_elem_of_singleton]%elem_of_app.
           ++ eapply accounted_mono; [by apply Hk|by eapply after_create_mono].
           ++ by eapply after_create_sent.
      * intros e t He (([Hl Hp] & Hk) & _). split.
        -- eapply progress_weaken; [|done]. set_solver.
        -- intros r' Hc Ha. by apply after_create_local in Ha.
    + intros a. destruct (after_create (w_Type w) a r) as [r' [e|]] eqn:Ea.
      { apply runs_ret. intros t [[Hl _] _]. by split. }
      eapply runs_conseq; [by apply (IH (dn ++ [w]) r')| |done].
      intros t [Hp Ha]. split; [done|]. intros Hc. by apply Ha.
Qed.
End Reconcile.

Lemma runs_reconcileTwitch η secret token fuel id :
  runs (reconcile_ok id) (λ t, t = [])
    (reconcileTwitch secret (@q_call η token) fuel id)
    (λ x t, creds_ok η → x.2 = None →
       ∀ w, w ∈ twitchConditions id → accounted (listing t) x.1 t w).
Proof.
  unfold reconcileTwitch. destruct (checkTwitchSecret secret); [by apply runs_ret|].
  set (K := λ t : trace eff, (∀ e, e ∈ t → creation_of e = None) ∧ True).
  apply runs_bind with (λ r t, K t ∧ ∀ l, r = inr l → listing t = l).
  { apply runs_conseq with (λ t, K t ∧ listing t = [])
      (λ r t, K t ∧ ∀ l, r = inr l → listing t = l); [|intros t ->|done].
    2: { split; [|done]. split; [|done]. by intros e ?%elem_of_nil. }
    apply runs_listTwitch.
    - intros A op a t Ho [Ht _]. split; [by apply other_reconcile_ok|]. split; [|done].
      intros e [->|He]%elem_of_cons; [by destruct op|by apply Ht].
    - intros t after a [Ht _]. split.
      + split_and!; [done|done|]. by intros [[? ?]|[? ?]].
      + split; [|done]. intros e [->|He]%elem_of_cons; [done|by apply Ht]. }
  intros [e|existing]; [by apply runs_ret|].
  destruct (conflict id existing) eqn:Hc; [by apply runs_ret|].
  eapply runs_conseq; [by apply (runs_create_missing η secret id token existing Hc _ [])| |].
  - intros t [[Hk _] Hl]. split; [|by intros ? ? ?%elem_of_nil]. split; [by apply Hl|].
    intros e w cb He Hcr. by rewrite (Hk e He) in Hcr.
  - cbn. intros x t [<- H]. done.
Qed.

(** C6. A reconcile mutates nothing if a listed subscription it wants is at a
    foreign callback. It deletes only failed subscriptions that it wants and
    listed, and creates at our callback only what it wants, once each, and only
    when no live one was listed. *)
Theorem reconcile_safe η secret token fuel id q :
  justified (reconcile_ok id)
    (w_tr (reconcileTwitch secret (@q_call η token) fuel id (World [] q)).2).
Proof. by apply (runs_reconcileTwitch η secret token fuel id (World [] q)). Qed.

(** A reconcile that returns no error accounts for every wanted
    subscription: a live one was listed, or it was created (or exists), or its
    type is reported as skipped or as held on the cost limit. *)
Theorem reconcile_complete η secret token fuel id q w :
  creds_ok η →
  let '(x, w') := reconcileTwitch secret (@q_call η token) fuel id (World [] q) in
  x.2 = None → w ∈ twitchConditions id → accounted (listing (w_tr w')) x.1 (w_tr w') w.
Proof.
  intros Hc. pose proof (runs_reconcileTwitch η secret token fuel id (World [] q)) as H.
  destruct (reconcileTwitch _ _ _ _ _) as [x w']. cbn in H. intros Hx.
  by apply H.
Qed.

(** ** The reserve of the rate limit *)

(** The headers a request's answer shows the queue. *)
Definition headers_of (e : ev eff) : option header :=
  match e with
  | Ev op a =>
    match op in eff A return A → option header with
    | EventSub _ _ => λ r, match r with inr r => Some (Header r) | inl _ => None end
    | _ => λ _, None
    end a
  end.

(** The queue's view of the bucket after a trace that began at [q]. *)
Fixpoint bucket (q : Queue.queue) (t : trace eff) : Queue.queue :=
  match t with
  | [] => q
  | e :: t => match headers_of e with
              | Some h => Queue.observe h (bucket q t)
              | None => bucket q t
              end
  end.

Definition is_request (e : ev eff) : Prop :=
  match e with Ev op _ => other op = false end.

(** A request is sent right after a clock read at which the bucket, as the
    answers so far show it, kept its reserve or had reset. *)
Definition reserve_ok (q : Queue.queue) (t : trace eff) (e : ev eff) : Prop :=
  is_request e →
  ∃ c now pre, t = Ev (Credentials "twitch") c :: Ev Now now :: pre ∧
    Queue.budgetWait (bucket q t) now <= 0.

Definition reserve_inv (q : Queue.queue) (w : world eff Queue.queue) : Prop :=
  justified (reserve_ok q) (w_tr w) ∧ w_st w = bucket q (w_tr w).

Lemma bucket_other q A (op : eff A) a t : other op = true → bucket q (Ev op a :: t) = bucket q t.
Proof. by destruct op. Qed.

Lemma keeps_other η q A (op : eff A) : other op = true → keeps (reserve_inv q) (ask η op).
Proof.
  intros Ho w [Hj Hb]. unfold ask, reserve_inv. cbn [fst snd w_tr w_st justified].
  rewrite bucket_other by done. split_and!; [|done..].
  intros H. cbn in H. congruence.
Qed.

Lemma keeps_q_call η q token B (c : tcall B) : keeps (reserve_inv q) (@q_call η token B c).
Proof.
  intros [t s] [Hj Hb]. cbn in Hj, Hb. subst s. unfold q_call.
  rewrite M_bind_run. cbn [ask fst snd w_tr w_st]. rewrite M_bind_run. cbn [get_st fst snd w_st].
  set (now := η time t Now). set (t1 := Ev Now now :: t).
  assert (H1 : reserve_inv q (World t1 (bucket q t))) by (by split).
  destruct (Z.ltb_spec 0 (Queue.budgetWait (bucket q t) now)) as [|Hw]; [done|].
  unfold twitchOnce, bindE. rewrite M_bind_run. cbn [ask fst snd w_tr w_st].
  destruct (η _ t1 (Credentials "twitch")) as [e|cid] eqn:Ec.
  { split; [|done]. cbn. split_and!; [by intros H|by intros H|done]. }
  unfold requestOnce. rewrite M_bind_run. cbn [ask fst snd w_tr w_st].
  set (t2 := Ev (Credentials "twitch") (inr cid) :: t1).
  assert (H2 : reserve_ok q t2 (Ev (EventSub token c) (η _ t2 (EventSub token c)))).
  { intros _. exists (inr cid), now, t. split; [done|]. done. }
  assert (H3 : justified (reserve_ok q) t2) by (by cbn; split_and!).
  destruct (η _ t2 (EventSub token c)) as [e|r]; done.
Qed.

#[export] Hint Resolve keeps_q_call : keeps.
#[export] Hint Extern 1 (keeps (reserve_inv _) (ask _ _)) => apply keeps_other; reflexivity : keeps.

Section Reserve.
Context (http_date : string → option time) (η : env eff) (secret token : string) (q : Queue.queue).
Local Abbreviation I := (reserve_inv q).

Lemma keeps_listTwitch fuel filter : keeps I (listTwitch (@q_call η token) fuel filter).
Proof.
  unfold listTwitch. apply keeps_bind; [|by keeps_tac].
  generalize (@nil string), (@nil twitchSubscription), "".
  induction fuel; intros; cbn [list_from]; keeps_tac.
Qed.

Lemma keeps_replace_failed w l : keeps I (replace_failed (@q_call η token) w l).
Proof. induction l; cbn [replace_failed]; unfold ok, throw; keeps_tac; done. Qed.

Lemma keeps_create_missing l wanted r :
  keeps I (create_missing secret (@q_call η token) l wanted r).
Proof.
  revert r. induction wanted; intros; cbn [create_missing]; keeps_tac;
    first [apply keeps_replace_failed | done].
Qed.

Lemma keeps_reconcile fuel id : keeps I (reconcileTwitch secret (@q_call η token) fuel id).
Proof.
  unfold reconcileTwitch. keeps_tac; [apply keeps_listTwitch|apply keeps_create_missing].
Qed.

Lemma keeps_remove_each id l n : keeps I (remove_each (@q_call η token) id l n).
Proof. revert n. induction l; intros; cbn [remove_each]; keeps_tac; auto. Qed.

Lemma keeps_remove fuel id : keeps I (removeTwitch (@q_call η token) fuel id).
Proof.
  unfold removeTwitch. keeps_tac; [apply keeps_listTwitch|apply keeps_remove_each].
Qed.

Lemma keeps_app_existing client l : keeps I (app_existing (@q_call η token) client l).
Proof. induction l; cbn [app_existing]; unfold ok, throw; keeps_tac; done. Qed.

Lemma keeps_app fuel : keeps I (ensureTwitchApp η secret (@q_call η token) fuel).
Proof.
  unfold ensureTwitchApp. keeps_tac; [apply keeps_listTwitch|apply keeps_app_existing].
Qed.

Lemma keeps_get_user tok id : keeps I (get_user http_date η tok id).
Proof.
  unfold get_user, bindE, throw, ok. keeps_tac.
  apply keeps_request; intros; by apply keeps_other.
Qed.

Lemma keeps_reauthorized id : keeps I (twitchReauthorized http_date η id).
Proof.
  unfold twitchReauthorized, bindE, db_. keeps_tac. generalize (l.*1).
  induction l0; cbn [any_reauthorized]; unfold ok, throw; keeps_tac;
    first [apply keeps_get_user | done].
Qed.
End Reserve.

(** The queue's jobs keep the reserve: each request of a job to
    /eventsub/subscriptions follows a clock read at which the rate-limit
    bucket, as the answers so far report it, was above its reserve or had
    reset. *)
Theorem reserve_kept http_date η secret fuel token ch j q :
  justified (reserve_ok q) (w_tr (leased_job http_date η secret fuel token ch j (World [] q)).2).
Proof.
  assert (H : keeps (reserve_inv q) (leased_job http_date η secret fuel token ch j)).
  { unfold leased_job. destruct j; keeps_tac;
      first [apply keeps_reconcile | apply keeps_reauthorized | apply keeps_remove | apply keeps_app]. }
  by apply (H (World [] q)).
Qed.

(** ** Subscribing *)

Definition user_answer (a : result (response (list twitchUser))) : result (list twitchUser) :=
  classify GET (Into (list twitchUser)) a.

(** The identity of [uid] is established as the broadcaster [channel]. *)
Definition verified (uid channel : string) (t : trace eff) : Prop :=
  (∃ d, Ev (DbOp (Get (profile_path uid))) (inr d) ∈ t ∧ linked_id d = channel) ∧
  (∃ token u a, Ev (AccessToken uid "twitch") (inr token) ∈ t ∧
     Ev (Users token None) a ∈ t ∧ user_answer a = inr [u] ∧ user_ID u = channel) ∧
  Ev (DbOp (Acquire ("twitch:" +:+ channel) "" [twitchReconcileLease] (Some foregroundLeaseWait)))
     None ∈ t.

(** The welcome messages are all there. *)
Definition welcomed (channel : string) (t : trace eff) : Prop :=
  ∀ i, i = 1 ∨ i = 2 → ∃ d a, Ev (DbOp (Create (welcome_path channel i) d)) a ∈ t ∧
    (a = None ∨ ∃ e, a = Some e ∧ status_code (Some e) = AlreadyExists).

(** What a subscribe may enqueue, and when it clears the pending welcome. *)
Definition enqueues (e : ev eff) : option string :=
  match e with Ev op _ => match op with Enqueue c => Some c | _ => None end end.
Definition clears (e : ev eff) : option string :=
  match e with
  | Ev op _ =>
    match op with
    | DbOp (Set_ p [("welcomePendingChannel", VDelete)] true) => Some p
    | _ => None
    end
  end.
Definition subscribe_ok (uid channel : string) (t : trace eff) (e : ev eff) : Prop :=
  (∀ c, enqueues e = Some c → c = channel ∧ verified uid channel t) ∧
  (∀ p, clears e = Some p → p = profile_path uid ∧ welcomed channel t).

Definition plain {A} (op : eff A) : Prop :=
  ∀ a, enqueues (Ev op a) = None ∧ clears (Ev op a) = None.

Lemma plain_ok uid channel A (op : eff A) a t : plain op → subscribe_ok uid channel t (Ev op a).
Proof. intros H. destruct (H a) as [H1 H2]. split; intros x; rewrite ?H1, ?H2; done. Qed.

Lemma elem_stable (e : ev eff) : stable (λ t, e ∈ t).
Proof. intros x t H. by right. Qed.

Section Subscribe.
Context (http_date : string → option time) (η : env eff) (secret uid channel : string).
Local Abbreviation P := (subscribe_ok uid channel).

(** An ordinary effect keeps what is stable, and its answer is on the trace. *)
Lemma runs_plain F A (op : eff A) :
  plain op → stable F →
  runs (S:=Queue.queue) P F (ask η op) (λ a t, F t ∧ Ev op a ∈ t).
Proof.
  intros Hp HF. apply runs_ask. intros t Ht. split; [by apply plain_ok|].
  split; [by apply HF|by left].
Qed.

Lemma runs_plain' F A (op : eff A) :
  plain op → stable F → runs (S:=Queue.queue) P F (ask η op) (λ _ t, F t).
Proof. intros. eapply runs_conseq; [by apply runs_plain|done|naive_solver]. Qed.

Lemma runs_plain_exec F (op : db (option error)) :
  plain (DbOp op) → stable F →
  runs (S:=Queue.queue) P F (exec η (@DbOp) op) (λ _ t, F t).
Proof.
  intros Hp HF. apply runs_exec; intros t; intros; (split; [by apply plain_ok|by apply HF]).
Qed.

Lemma runs_get_user F token id :
  stable F →
  runs (S:=Queue.queue) P F (get_user http_date η token id)
    (λ r t, F t ∧ ∀ u, r = inr u → ∃ a, Ev (Users token id) a ∈ t ∧ user_answer a = inr [u]).
Proof.
  intros HF. unfold get_user. apply runs_bindE with (λ _ t, F t); [by apply runs_plain'|done|].
  intros cid.
  apply runs_bindE with (λ r t, F t ∧ ∀ us, r = inr us →
    ∃ a, Ev (Users token id) a ∈ t ∧ user_answer a = inr us).
  - apply runs_request with (R := λ r t, F t ∧ ∀ us, r = inr us →
      ∃ a, Ev (Users token id) a ∈ t ∧ user_answer a = inr us); try done.
    + intros t Ht. split; intros; (split; [by apply plain_ok|by apply HF]).
    + eapply runs_conseq; [by apply runs_plain|done|]. intros a t [Ht He]. split; [done|].
      intros us Hu. by exists a.
    + by intros e e' h t _ [Ht _].
  - by intros e t [Ht _].
  - intros [|u [|u2 us2]]; apply runs_ret; intros t [Ht Hu]; (split; [done|]); try done.
    intros u' [= <-]. by apply Hu.
Qed.

Lemma runs_welcome_message F login i :
  stable F →
  runs (S:=Queue.queue) P F (welcome_message η channel login i)
    (λ r t, F t ∧ (r = inr tt → ∃ d a, Ev (DbOp (Create (welcome_path channel i) d)) a ∈ t ∧
       (a = None ∨ ∃ e, a = Some e ∧ status_code (Some e) = AlreadyExists))).
Proof.
  intros HF. unfold welcome_message. eapply runs_bind; [by apply runs_plain'|]. intros now.
  eapply runs_bind; [by apply (runs_plain _ _ (DbOp _))|]. cbn. intros [e|].
  - case_decide; apply runs_ret; intros t [Ht He]; (split; [done|]); [|done].
    intros _. eexists _, _. split; [done|]. right. by eexists.
  - destruct (i =? 1).
    + eapply runs_bind.
      { apply runs_plain'; [done|]. apply stable_and; [done|apply elem_stable]. }
      cbn. intros [e|]; apply runs_ret; intros t [Ht He]; (split; [done|]); [done|].
      intros _. eexists _, _. split; [done|]. by left.
    + apply runs_ret. intros t [Ht He]. split; [done|]. intros _. eexists _, _. split; [done|]. by left.
Qed.

Lemma runs_welcome login :
  runs (S:=Queue.queue) P (λ _, True) (welcome η uid channel login) (λ _ _, True).
Proof.
  unfold welcome. eapply runs_bindE; [by apply runs_welcome_message|done|].
  intros []. cbn.
  set (F := λ t : trace eff, ∃ d a, Ev (DbOp (Create (welcome_path channel 1) d)) a ∈ t ∧
       (a = None ∨ ∃ e, a = Some e ∧ status_code (Some e) = AlreadyExists)).
  apply runs_bindE with (λ r t, F t ∧ (r = inr tt → ∃ d a,
      Ev (DbOp (Create (welcome_path channel 2) d)) a ∈ t ∧
       (a = None ∨ ∃ e, a = Some e ∧ status_code (Some e) = AlreadyExists))).
  - apply runs_conseq with F (λ r t, F t ∧ (r = inr tt → ∃ d a,
      Ev (DbOp (Create (welcome_path channel 2) d)) a ∈ t ∧
       (a = None ∨ ∃ e, a = Some e ∧ status_code (Some e) = AlreadyExists)));
      [|intros t [_ H]; by apply H|done].
    apply runs_welcome_message. intros e t (d & a & He & Ha). exists d, a. split; [by right|done].
  - done.
  - intros []. apply runs_exec; intros t.
    + intros [H1 H2]. split; [|done]. split; [done|]. intros p [= <-]. split; [done|].
      intros i [->| ->]; [exact H1|by apply H2].
    + intros e [H1 H2]. split; [|done]. split; [done|]. intros p [= <-]. split; [done|].
      intros i [->| ->]; [exact H1|by apply H2].
Qed.

Lemma runs_activate :
  runs (S:=Queue.queue) P (λ _, True) (RunTransaction η (@DbOp) (activate_tx η uid channel)) (λ _ _, True).
Proof.
  apply runs_transaction with (R := λ _ _, True); try done.
  - unfold activate_tx. eapply runs_bindE; [by apply (runs_plain' _ _ (DbOp _))|done|].
    intros data. case_match; [by apply runs_ret|].
    eapply runs_bindE; [apply runs_plain_exec; [|done]|done|].
    + intros a. destruct (is_nil _); done.
    + intros ?. eapply runs_bindE; [by apply runs_plain_exec|done|]. intros ?. by apply runs_ret.
Qed.

Lemma runs_subscribe_owner login :
  runs (S:=Queue.queue) P
    (λ t, (∃ d, Ev (DbOp (Get (profile_path uid))) (inr d) ∈ t ∧ linked_id d = channel) ∧
       Ev (DbOp (Acquire ("twitch:" +:+ channel) "" [twitchReconcileLease] (Some foregroundLeaseWait)))
         None ∈ t)
    (subscribe_owner http_date η secret uid channel login) (λ _ _, True).
Proof.
  unfold subscribe_owner.
  eapply runs_bind.
  { apply runs_plain; [done|]. apply stable_and; [|apply elem_stable].
    intros e t (d & ? & ?). exists d. split; [by right|done]. }
  intros [e|token]; [by apply runs_ret|].
  eapply runs_bindE.
  { apply runs_get_user. repeat apply stable_and; try apply elem_stable.
    intros e t (d & ? & ?). exists d. split; [by right|done]. }
  { done. }
  intros u. destruct (String.eqb_spec (user_ID u) channel) as [Hu|]; cbn [negb]; [|by apply runs_ret].
  destruct (checkTwitchSecret secret); [by apply runs_ret|].
  apply runs_bind with (λ _ _, True).
  { apply runs_ask. intros t ((H1 & H2) & H3). split; [|done]. split; [|done].
    cbn. intros c [= <-]. split; [done|]. destruct H1 as [H1 H1'].
    destruct (H3 u eq_refl) as (a & Ha & Hua). split_and!; [done| |done].
    exists token, u, a. done. }
  intros ?. eapply runs_bindE; [apply runs_activate|done|].
  intros []; [apply runs_welcome|by apply runs_ret].
Qed.

Lemma runs_subscribeTwitch :
  runs (S:=Queue.queue) P (λ _, True) (subscribeTwitch http_date η secret uid channel) (λ _ _, True).
Proof.
  unfold subscribeTwitch. eapply runs_bindE; [by apply runs_plain'|done|].
  intros token. eapply runs_bindE; [by apply runs_get_user|done|].
  intros user. apply runs_conseq with (λ _, True) (λ _ _, True); [|done|done].
  case_match; [by apply runs_ret|].
  eapply runs_bindE; [by apply runs_plain_exec|done|]. intros ?.
  case_match; [by apply runs_ret|].
  eapply runs_bind; [by apply (runs_plain _ _ (DbOp _))|]. cbn. intros [e|data].
  { case_decide; by apply runs_ret. }
  destruct (String.eqb_spec (linked_id data) channel) as [Hd|]; cbn [negb].
  - apply runs_bind with (λ _ _, True); [|intros [e|[]]; by apply runs_ret].
    eapply runs_locked with (R := λ _ _, True); [..|apply runs_subscribe_owner|].
    + intros t [_ He]. split; [by apply plain_ok|]. split; [|by left].
      exists data. split; [by right|done].
    + intros t e _. split; [by apply plain_ok|done].
    + intros r t b _. split; [by apply plain_ok|done].
  - eapply runs_bindE; [apply runs_plain_exec|done|]; [done| |intros; by apply runs_ret].
    apply stable_and; [done|apply elem_stable].
Qed.
End Subscribe.

(** A foreground subscribe queues EventSub work only for the broadcaster
    asked for, under that broadcaster's lease, after both the caller's profile
    and the identity Twitch gives for the caller's stored grant named that
    broadcaster; and it clears a pending welcome only once both welcome
    messages were created or already existed. *)
Theorem subscribe_verified http_date η secret uid channel q :
  justified (subscribe_ok uid channel)
    (w_tr (subscribeTwitch http_date η secret uid channel (World [] q)).2).
Proof. by apply (runs_subscribeTwitch http_date η secret uid channel (World [] q)). Qed.

(** ** Witnesses *)

(** A Twitch with nothing listed, which answers every creation with 202 except
    polls (403), and plays fair on rate limits. *)
Definition ok_response {B} (b : B) : response B :=
  Response 202 (<["Ratelimit-Remaining" := "700"]> (<["Ratelimit-Reset" := "0"]> ∅)) false (Some b).
Definition fair_create (w : twitchWanted) : response unit :=
  if String.eqb (w_Type w) "channel.poll.begin" then Response 403 ∅ true None else ok_response tt.
Definition fair_env : env eff := λ A t op,
  match op in eff A return A with
  | Now => time_unix 1700000000 0
  | Sleep _ | Pause _ => None
  | AppAccessToken _ | AccessToken _ _ | Credentials _ => inr "id"
  | Users _ _ => inr (ok_response [])
  | EventSub _ c =>
    match c in tcall B return result (response B) with
    | ListSubs _ _ => inr (ok_response (Page (Some []) ""))
    | DeleteSub _ => inr (ok_response tt)
    | CreateSub w _ _ => inr (fair_create w)
    | TotalCost => inr (ok_response (0, 10000))
    end
  | Enqueue _ => tt
  | KickList _ _ => inr (ok_response None)
  | KickCreate _ _ _ => inr (ok_response tt)
  | DbOp op =>
    match op in db A return A with
    | Get _ | TxGet _ => inr []
    | Query _ _ _ => inr []
    | Set_ _ _ _ | Create _ _ | Update _ _ | Remove _ | TxSet _ _ _ | TxDelete _ | Commit
    | Acquire _ _ _ _ | Worked _ _ => None
    end
  end.

Definition raid_to (id : string) : twitchWanted :=
  TwitchWanted "channel.raid" "1" {["to_broadcaster_user_id" := id]}.

Lemma reconcile_complete_witness :
  let '(x, w') := reconcileTwitch "a long secret" (@q_call fair_env "t") 2 "123"
                    (World [] Queue.NewTwitchQueue) in
  x.1 = Queue.TwitchReconcile 26 ["channel.poll.begin"] [] ∧
  accounted (listing (w_tr w')) x.1 (w_tr w') (raid_to "123").
Proof.
  pose proof (reconcile_complete fair_env "a long secret" "t" 2 "123" Queue.NewTwitchQueue
    (raid_to "123")) as H.
  destruct (reconcileTwitch _ _ _ _ _) as [x w'] eqn:E.
  assert (E' : x = (Queue.TwitchReconcile 26 ["channel.poll.begin"] [], None)).
  { apply (f_equal fst) in E. cbn [fst] in E. rewrite <-E. vm_compute. reflexivity. }
  subst x. split; [reflexivity|]. apply H; [|reflexivity|].
  - intros t e He. discriminate He.
  - refine (bool_decide_unpack _ _). vm_compute. exact I.
Defined.

(** A server that always answers with the same cursor. *)
Definition paging_call : ∀ B, tcall B → M (world eff Queue.queue) (result B) := λ B c w,
  (match c in tcall B return result B with
   | ListSubs _ after => inr (Page (Some []) "a")
   | _ => inl (ErrMsg "unused")
   end, w).

Lemma listing_terminates_witness :
  is_Some (list_from paging_call (length ["a"] + 1) "user_id=1" "" [] [] (World [] Queue.NewTwitchQueue)).1.
Proof.
  apply listing_terminates. intros w f a p [= <-]. cbn [Cursor].
  right. left.
Defined.
