(* ===== verification/KickSubs.v ===== *)
(** * Kick event subscriptions and the callable subscribe

    Models agent/internal/subscriptions/kick.go (the events a channel needs,
    admission under a shared capacity, reconciliation) and the rest of
    service.go: Subscribe, touchKickProfile, SetRealTimeCashAddress. *)

From stdpp Require Import base gmap strings list pretty.
From Stdlib Require Import Ascii.
From S2P Require Import Prelude GoErr Effects Http Store SubsTypes.
From S2P Require Queue.
From S2P Require Import TwitchSubs.

Definition KickEvents : list KickEvent :=
  [KickEvent_ "chat.message.sent" 1; KickEvent_ "channel.followed" 1;
   KickEvent_ "channel.subscription.new" 1; KickEvent_ "channel.subscription.renewal" 1;
   KickEvent_ "channel.subscription.gifts" 1; KickEvent_ "kicks.gifted" 1;
   KickEvent_ "livestream.status.updated" 1; KickEvent_ "livestream.metadata.updated" 1;
   KickEvent_ "moderation.banned" 1; KickEvent_ "channel.reward.redemption.updated" 1].

Definition missingKick (existing : list kickSubscription) : list KickEvent :=
  filter (λ ev, existsb (λ sub, String.eqb (ks_Event sub) (ke_Name ev) &&
                                (ks_Version sub =? ke_Version ev)) existing = false) KickEvents.

#[global] Arguments missingKick : simpl never.

Definition activeCheck (data : doc) (now : time) : bool :=
  let checked := match field data "checkedAt" with VTime t => t | _ => zero_time end in
  let count := match field data "subscriptionIds" with VList l => length l | _ => 0%nat end in
  (length KickEvents <=? count)%nat && negb (time_is_zero checked) && negb (time_after checked now) &&
  (time_sub now checked <? hour).

Definition webhook_path (id : string) : string := "webhooks/kick:" +:+ id.
Definition ids_of (l : list kickSubscription) : value := VList (map (λ s, VString (ks_ID s)) l).
Definition kick_needs_chat (missing : list KickEvent) : bool :=
  existsb (λ ev, String.eqb (ke_Name ev) "chat.message.sent") missing.

(** The loop over the tracked webhooks: [count] and [alreadyTracked]. *)
Definition kick_count (docs : list (string * doc)) : Z :=
  Z.of_nat (length (filter (λ d, has_prefix d.1 "kick:" = true) docs)).
Definition kick_tracked (id : string) (docs : list (string * doc)) : bool :=
  existsb (λ d, has_prefix d.1 "kick:" && String.eqb d.1 ("kick:" +:+ id)) docs.

Section Kick.
Variable http_date : string → option time.
Variable η : env eff.
Variable TwitchSecret MaticWebhookID : string.
Variable KickChannelLimit : Z.
Local Abbreviation M := (M (world eff Queue.queue)).

Definition kick_limit : Z := if KickChannelLimit <=? 0 then 1000 else KickChannelLimit.

Definition listKick (id token : string) : M (result (list kickSubscription)) :=
  r ←? request η Now Sleep http_date GET (Into (option (list kickSubscription)))
         (ask η (KickList token id));
  match r with
  | None => throw (ErrMsg "Kick subscriptions response missing data")
  | Some l => ok l
  end.

(** The capacity check: nothing to do when chat is subscribed already. *)
Definition kick_admit (id : string) (missing : list KickEvent) : M (result unit) :=
  if kick_needs_chat missing then
    docs ←? db_ η (@DbOp) (Query "webhooks" [] 0);
    if (kick_limit <=? kick_count docs) && negb (kick_tracked id docs) then
      throw (ErrCallable "resource-exhausted" "Kick chat subscription capacity reached")
    else ok tt
  else ok tt.

Definition set_webhook (id : string) (ids : value) (checked : value) : db (option error) :=
  Set_ (webhook_path id)
    [("subscriptionIds", ids); ("lastActiveAt", VServerTimestamp); ("checkedAt", checked)] true.

(** The work under the "kick-capacity" lease. *)
Definition kick_create (id token : string) (existing : list kickSubscription)
    (missing : list KickEvent) : M (result unit) :=
  kick_admit id missing ;?
  exec η (@DbOp) (set_webhook id (ids_of existing) (VTime (time_unix 0 0))) ;?
  let number := default 0 (parse_uint 53 id) in
  request η Now Sleep http_date POST Discard (ask η (KickCreate token number missing)) ;?
  listed ←? listKick id token;
  let complete := bool_decide (missingKick listed = []) in
  exec η (@DbOp) (set_webhook id (ids_of listed)
                    (if complete then VServerTimestamp else VTime (time_unix 0 0))) ;?
  if complete then ok tt
  else throw (unavailable "Kick did not create all required event subscriptions; retry to reconcile").

(** [ensureKick] once the cached check did not apply. *)
Definition kick_reconcile (id : string) : M (result unit) :=
  token ←? ask η (AppAccessToken "kick");
  existing ←? listKick id token;
  let missing := missingKick existing in
  if bool_decide (missing = []) then
    exec η (@DbOp) (set_webhook id (ids_of existing) VServerTimestamp)
  else locked η (@DbOp) "kick-capacity" "" [] None (kick_create id token existing missing).

Definition ensureKick (id : string) : M (result unit) :=
  d ← db_ η (@DbOp) (Get (webhook_path id));
  match d with
  | inl e => if decide (status_code (Some e) = NotFound) then kick_reconcile id else throw e
  | inr data =>
    now ← ask η Now;
    if activeCheck data now then exec η (@DbOp) (Set_ (webhook_path id) touch true)
    else kick_reconcile id
  end.

(** [touchKickProfile]. *)
Definition touch_kick_tx (uid channel : string) : M (result unit) :=
  d ← db_ η (@DbOp) (TxGet (profile_path uid));
  match d with
  | inl e => if decide (status_code (Some e) = NotFound) then ok tt else throw e
  | inr data =>
    match field data "kick" with
    | VMap p =>
      exec η (@DbOp) (TxSet (profile_path uid) touch true) ;?
      if String.eqb (stringID (field p "id")) channel
      then exec η (@DbOp) (TxSet ("channels/kick:" +:+ channel) touch true)
      else ok tt
    | _ => ok tt
    end
  end.
Definition touchKickProfile (uid channel : string) : M (result unit) :=
  RunTransaction η (@DbOp) (touch_kick_tx uid channel).

(** [^UC[A-Za-z0-9_-]{22}$]. *)
Definition youtube_char (a : ascii) : bool :=
  is_upper a || is_lower a || is_digit a || Ascii.eqb a "_" || Ascii.eqb a "-".
Definition youtubeID (s : string) : bool :=
  has_prefix s "UC" && (String.length s =? 24)%nat && all_chars youtube_char (drop_str 2 s).

(** The decoded input of [Subscribe]: the channel is a JSON string, or a JSON
    number kept as its text, or neither; a body that does not decode is None. *)
Record subscribe_input := SubscribeInput { si_provider : string; si_channel : option string }.

(** The channel id a valid input names; Kick's is made canonical. *)
Definition valid_channel (provider channel : string) : result string :=
  if String.eqb provider "twitch" || String.eqb provider "kick" then
    if negb (all_digits channel) then inl (invalid "invalid channel")
    else if String.eqb provider "kick" then
      match parse_uint 53 channel with
      | Some n => if n =? 0 then inl (invalid "invalid channel") else inr (pretty n)
      | None => inl (invalid "invalid channel")
      end
    else inr channel
  else if String.eqb provider "youtube" then
    if youtubeID channel then inr channel else inl (invalid "invalid channel")
  else inl (invalid "invalid provider").

Definition Subscribe (uid : string) (input : option subscribe_input) : M (result string) :=
  match input with
  | None => throw (invalid "missing provider, channelId")
  | Some i =>
    channel ←? mret (valid_channel (si_provider i) (default "" (si_channel i)));
    if String.eqb (si_provider i) "youtube" then
      exec η (@DbOp) (Set_ ("assignments/youtube:" +:+ channel)
                        [("subscribedAt", VServerTimestamp)] false) ;? ok channel
    else if String.eqb (si_provider i) "twitch" then
      subscribeTwitch http_date η TwitchSecret uid channel
    else
      r ← locked η (@DbOp) ("kick:" +:+ channel) "" [] (Some foregroundLeaseWait) (ensureKick channel);
      match r with
      | inl e => throw (if is_busy e then
                          unavailable "Kick subscriptions are busy; try again shortly" else e)
      | inr _ =>
        if String.eqb uid "" then ok channel
        else touchKickProfile uid channel ;? ok channel
      end
  end.

(** Donation addresses. *)
Definition is_hex (a : ascii) : bool :=
  is_digit a || (let n := nat_of_ascii a in
                 ((97 <=? n) && (n <=? 102))%nat || ((65 <=? n) && (n <=? 70))%nat).
Definition validAddress (address : string) : bool :=
  has_prefix address "0x" && (String.length address =? 42)%nat && all_chars is_hex (drop_str 2 address).

(** [input] is the decoded address, None when the body does not decode. *)
Definition SetRealTimeCashAddress (uid : string) (input : option string) : M (result unit) :=
  if String.eqb uid "" then throw (ErrCallable "permission-denied" "missing auth")
  else match input with
  | Some address =>
    if negb (validAddress address) then throw (invalid "invalid donation address")
    else if String.eqb MaticWebhookID "" then
      throw (ErrCallable "failed-precondition" "donation registration is not configured")
    else exec η (@DbOp) (Set_ ("realtimecash/" +:+ uid)
           [("address", VString (to_lower address)); ("maticWebhookId", VString MaticWebhookID)] true)
  | None => throw (invalid "invalid donation address")
  end.
End Kick.

(** ** What a trace says about Kick *)

(** A creation: its events, and whether its answer may be retried. *)
Definition retryable {B} (m : method) (t : target B) (a : result (response B)) : bool :=
  match classify m t a with inl e => is_some (as_retry e) | inr _ => false end.
Definition kick_post_of (e : ev eff) : option (list KickEvent * bool) :=
  match e with
  | Ev op a =>
    match op in eff A return A → option (list KickEvent * bool) with
    | KickCreate _ _ evs => λ r, Some (evs, retryable POST Discard r)
    | _ => λ _, None
    end a
  end.
(** A write that marks a webhook document checked: its path and ids. *)
Definition marks (e : ev eff) : option (string * value) :=
  match e with
  | Ev op _ =>
    match op with
    | DbOp (Set_ p d _) =>
      match field d "checkedAt" with
      | VServerTimestamp => Some (p, field d "subscriptionIds")
      | _ => None
      end
    | _ => None
    end
  end.

(** Kick listed exactly [l] for [id]. *)
Definition kick_listed (id : string) (l : list kickSubscription) (t : trace eff) : Prop :=
  ∃ token a, Ev (KickList token id) a ∈ t ∧
    classify GET (Into (option (list kickSubscription))) a = inr (Some l).

Definition posts_retryable (t : trace eff) : Prop :=
  ∀ e evs r, e ∈ t → kick_post_of e = Some (evs, r) → r = true.

(** The webhooks were counted with room left, or with this channel among them,
    if the creation needs room; and [F] holds of what happened since. *)
Definition admitted (id : string) (limit : Z) (evs : list KickEvent) (F : trace eff → Prop) (t : trace eff) : Prop :=
  if kick_needs_chat evs then
    ∃ docs, (kick_count docs < limit ∨ kick_tracked id docs = true) ∧
      since (Ev (DbOp (Query "webhooks" [] 0)) (inr docs)) F t
  else F t.

(** The channel was recorded, not yet checked; [F] since. *)
Definition reserved (id : string) (F : trace eff → Prop) (t : trace eff) : Prop :=
  ∃ ids, since (Ev (DbOp (set_webhook id ids (VTime (time_unix 0 0)))) None) F t.

Definition capacity_lease : (trace eff → Prop) → trace eff → Prop := under (@DbOp) "kick-capacity" "" [] None.

(** A creation's place: admitted under the lease, then recorded. *)
Definition admission (id : string) (limit : Z) (evs : list KickEvent) (F : trace eff → Prop) : trace eff → Prop :=
  capacity_lease (admitted id limit evs (reserved id F)).
Definition kick_ok (id : string) (limit : Z) (t : trace eff) (e : ev eff) : Prop :=
  (∀ evs r, kick_post_of e = Some (evs, r) →
     admission id limit evs (λ _, True) t ∧ (∃ l, kick_listed id l t ∧ evs = missingKick l) ∧ posts_retryable t) ∧
  (∀ p ids, marks e = Some (p, ids) →
     p = webhook_path id ∧ ∃ l, kick_listed id l t ∧ missingKick l = [] ∧ ids = ids_of l).

(** The lease whose work an effect ends. *)
Definition ends_work (e : ev eff) : option string :=
  match e with Ev op _ => match op with DbOp (Worked key _) => Some key | _ => None end end.

(** Ordinary effects, and the facts they keep. *)
Definition plain (e : ev eff) : Prop :=
  kick_post_of e = None ∧ marks e = None ∧ ends_work e ≠ Some "kick-capacity".
Definition kick_plain {A} (op : eff A) : Prop := ∀ a, plain (Ev op a).
Definition keepable : (trace eff → Prop) → Prop := kept plain.

Lemma posts_keepable : keepable posts_retryable.
Proof.
  intros x t Hp H e evs r [->|He]%elem_of_cons Hr; [by rewrite (proj1 Hp) in Hr|by eapply H].
Qed.
Lemma kick_listed_stable id l : stable (kick_listed id l).
Proof. intros e t (token & a & He & Ha). exists token, a. split; [by right|done]. Qed.
Lemma admitted_frame K id limit evs : frame K (admitted id limit evs).
Proof. unfold admitted. destruct (kick_needs_chat evs); auto with effects. Qed.
Lemma reserved_frame K id : frame K (reserved id).
Proof. unfold reserved. auto with effects. Qed.

Definition leased (e : ev eff) : Prop := ends_work e ≠ Some "kick-capacity".
Lemma capacity_frame : frame leased capacity_lease.
Proof. apply frame_under. by intros o b H. Qed.
Lemma admission_frame id limit evs : frame leased (admission id limit evs).
Proof.
  apply (frame_comp _ capacity_lease); [apply capacity_frame|]. apply frame_comp; [apply admitted_frame|apply reserved_frame].
Qed.
Lemma plain_leased e : plain e → leased e.
Proof. by intros (_ & _ & H). Qed.
Lemma leased_plain X : frame leased X → frame plain X.
Proof. apply frame_fewer, plain_leased. Qed.
Hint Resolve posts_keepable kick_listed_stable : effects.

Section KickProof.
Context (http_date : string → option time) (η : env eff) (limit0 : Z) (id : string).
Local Abbreviation P := (kick_ok id (kick_limit limit0)).

Lemma kick_plain_ok t e : plain e → P t e.
Proof. intros (H1 & H2 & _). split; intros x y; rewrite ?H1, ?H2; done. Qed.

(** An ordinary effect, and what it adds to a place that is kept. *)
Lemma kruns_ask F A (op : eff A) :
  kick_plain op → keepable F → runs (S:=Queue.queue) P F (ask η op) (λ a t, F t ∧ Ev op a ∈ t).
Proof.
  intros Hp HF. apply runs_ask. intros t Ht. split; [by apply kick_plain_ok|].
  split; [by apply HF|by left].
Qed.

Lemma kruns_exec F (op : db (option error)) :
  kick_plain (DbOp op) → keepable F →
  runs (S:=Queue.queue) P F (exec η (@DbOp) op) (λ r t, F t ∧ (r = inr tt → Ev (DbOp op) None ∈ t)).
Proof.
  intros Hp HF. apply runs_exec; intros t; intros;
    (split; [by apply kick_plain_ok|split; [by apply HF|]]); intros; try done. by left.
Qed.
Lemma kruns_exec_in X F (op : db (option error)) :
  kick_plain (DbOp op) → frame plain X → keepable F →
  runs (S:=Queue.queue) P (λ t, X (λ _, True) t ∧ F t) (exec η (@DbOp) op)
    (λ r t, (r = inr tt → X (since (Ev (DbOp op) None) (λ _, True)) t) ∧ F t).
Proof.
  intros Hp HX HF. apply runs_exec; intros t; [|intros e]; intros [Hx Ht];
    (split; [by apply kick_plain_ok|split; [|by apply HF]]); [|done].
  intros _. apply (frame_next _ _ HX (λ _, True)); [done| |done]. intros u _. by apply since_here.
Qed.

Lemma kick_quiet F : keepable F → Http.quiet Now Sleep P F.
Proof. intros HF t Ht. split; intros; (split; [by apply kick_plain_ok|by apply HF]). Qed.

Lemma kruns_listKick F token :
  keepable F →
  runs (S:=Queue.queue) P F (listKick http_date η id token)
    (λ r t, F t ∧ ∀ l, r = inr l → kick_listed id l t).
Proof.
  intros HF. unfold listKick.
  apply runs_bindE with (λ r t, F t ∧ ∀ l, r = inr (Some l) → kick_listed id l t).
  - apply runs_request with (R := λ r t, F t ∧ ∀ l, r = inr (Some l) → kick_listed id l t); try done.
    + by apply kick_quiet.
    + eapply runs_conseq; [by apply kruns_ask|done|]. intros a t [Ht He]. split; [done|].
      intros l Hl. by exists token, a.
    + by intros e e' h t _ [Ht _].
  - by intros e t [Ht _].
  - intros [l|]; apply runs_ret; intros t [Ht Hl]; (split; [done|]); [|done].
    intros l' [= <-]. by apply Hl.
Qed.

Lemma kruns_admit X F missing :
  frame plain X → keepable F →
  runs (S:=Queue.queue) P (λ t, X (λ _, True) t ∧ F t) (kick_admit η limit0 id missing)
    (λ r t, (r = inr tt → X (admitted id (kick_limit limit0) missing (λ _, True)) t) ∧ F t).
Proof.
  intros HX HF. unfold kick_admit. destruct (kick_needs_chat missing) eqn:Hc.
  2:{ apply runs_ret. intros t [Hx Ht]. split; [|done]. intros _. eapply (frame_mono _ _ HX); [|exact Hx].
      intros u _. unfold admitted. by rewrite Hc. }
  apply runs_bindE with (λ docs t, (∀ d, docs = inr d → X (since (Ev (DbOp (Query "webhooks" [] 0)) (inr d)) (λ _, True)) t) ∧ F t).
  - apply runs_db. intros t a [Hx Ht]. split; [by apply kick_plain_ok|]. split; [|by apply HF].
    intros d ->. apply (frame_next _ _ HX (λ _, True)); [done| |done]. intros u _. by apply since_here.
  - by intros e t [_ Ht].
  - intros docs. cbn. destruct (_ && _) eqn:Hl; apply runs_ret; intros t [Hx Ht]; (split; [|done]); [done|].
    intros _. eapply (frame_mono _ _ HX); [|by apply Hx]. intros u Hu. unfold admitted. rewrite Hc.
    exists docs. split; [|done]. bools. destruct Hl; [by left|by right].
Qed.

(** Every event that is asked for was missing from a listing. *)
Definition wanted (evs : list KickEvent) (t : trace eff) : Prop := ∃ l, kick_listed id l t ∧ evs = missingKick l.
Lemma wanted_stable evs : stable (wanted evs).
Proof. unfold wanted. auto with effects. Qed.

(** The creating request, sent again only after a retryable answer. *)
Lemma kruns_post token n evs :
  runs (S:=Queue.queue) P (λ t, admission id (kick_limit limit0) evs (λ _, True) t ∧ wanted evs t ∧ posts_retryable t)
    (request η Now Sleep http_date POST Discard (ask η (KickCreate token n evs)))
    (λ _ _, True).
Proof.
  set (F := λ t, admission id (kick_limit limit0) evs (λ _, True) t ∧ wanted evs t ∧ posts_retryable t).
  assert (HF : keepable F).
  { apply kept_and; [apply frame_kept; [apply leased_plain, admission_frame|by intros e t]|].
    apply kept_and; [apply stable_kept, wanted_stable|apply posts_keepable]. }
  apply runs_request with (R := λ r t, is_some (match r with inl e => as_retry e | inr _ => None end) = true → F t);
    try done.
  - by apply kick_quiet.
  - apply runs_ask. intros t Ht. destruct Ht as (H1 & H2 & H3). split.
    + split; [|done]. cbn. by intros evs' r [= <- _].
    + intros Hr. split_and!; [|by apply wanted_stable|].
      * by eapply (frame_next leased); [apply admission_frame|done| |exact H1].
      * intros e evs' r [->|He]%elem_of_cons Hp; [|by eapply H3]. cbn in Hp. simplify_eq.
        unfold retryable. by case_match.
  - intros e e' h t He H. apply H. by rewrite He.
Qed.

Definition kick_complete (t : trace eff) : Prop := ∃ l, kick_listed id l t ∧ missingKick l = [].

Lemma kick_complete_stable : stable kick_complete.
Proof. intros e t (l & Hl & ?). exists l. split; [by apply kick_listed_stable|done]. Qed.

(** The write that marks the document checked after a complete listing. *)
Lemma kruns_mark l :
  missingKick l = [] →
  runs (S:=Queue.queue) P (kick_listed id l)
    (exec η (@DbOp) (set_webhook id (ids_of l) VServerTimestamp)) (λ _ t, kick_complete t).
Proof.
  intros Hm. assert (∀ a t, kick_listed id l t →
    P t (Ev (DbOp (set_webhook id (ids_of l) VServerTimestamp)) a) ∧
    kick_complete (Ev (DbOp (set_webhook id (ids_of l) VServerTimestamp)) a :: t)).
  { intros a t Hl. split.
    - split; [done|]. cbn. intros p ids [= <- <-]. split; [done|]. by exists l.
    - exists l. split; [by apply kick_listed_stable|done]. }
  apply runs_exec; auto.
Qed.

Lemma kruns_create token existing missing :
  runs (S:=Queue.queue) P (λ t, capacity_lease (λ _, True) t ∧ wanted missing t ∧ posts_retryable t)
    (kick_create http_date η limit0 id token existing missing)
    (λ r t, r = inr tt → kick_complete t).
Proof.
  set (F t := wanted missing t ∧ posts_retryable t).
  assert (HF : keepable F) by (apply kept_and; [apply stable_kept, wanted_stable|apply posts_keepable]).
  unfold kick_create.
  eapply runs_bindE; [apply kruns_admit; [apply leased_plain, capacity_frame|exact HF]|done|]. intros []. cbn.
  set (X := λ G, capacity_lease (admitted id (kick_limit limit0) missing G)).
  assert (HX : frame plain X) by (apply (frame_comp _ capacity_lease (admitted _ _ _)); [apply leased_plain, capacity_frame|apply admitted_frame]).
  eapply runs_conseq; [|intros t [Hx Ht]; exact (conj (Hx eq_refl : X _ t) Ht)|intros r t Hr; exact Hr].
  eapply runs_bindE; [by apply kruns_exec_in|done|]. intros [].
  apply runs_bindE with (λ _ _, True); [|done|].
  { eapply runs_conseq; [apply kruns_post| |done]. intros t [Hx Ht]. split; [|exact Ht].
    eapply (frame_mono _ _ HX); [|by apply Hx]. intros u Hu. by eexists. }
  intros _. eapply runs_bindE; [apply kruns_listKick, stable_kept, stable_const|done|].
  intros listed. destruct (bool_decide (missingKick listed = [])) eqn:Hc.
  - apply bool_decide_eq_true in Hc. eapply runs_bindE; [|done|].
    + eapply runs_conseq; [by apply (kruns_mark listed)| |done]. intros t [_ Hl]. by apply Hl.
    + intros []. cbn. apply runs_ret. done.
  - apply runs_bindE with (λ _ _, True); [|done|intros; by apply runs_ret].
    eapply runs_conseq; [apply kruns_exec with (F := λ _, True)|done|done]; [done|by intros].
Qed.

Lemma kruns_reconcile :
  runs (S:=Queue.queue) P posts_retryable (kick_reconcile http_date η limit0 id)
    (λ r t, r = inr tt → kick_complete t).
Proof.
  unfold kick_reconcile.
  eapply runs_bindE; [apply kruns_ask; [done|apply posts_keepable]|done|]. intros token. cbn.
  set (F t := posts_retryable t ∧ Ev (AppAccessToken "kick") (inr token) ∈ t).
  eapply runs_bindE; [apply (kruns_listKick F)|done|]; [apply kept_and; [apply posts_keepable|auto with effects]|]. intros existing.
  destruct (bool_decide (missingKick existing = [])) eqn:Hm.
  - apply bool_decide_eq_true in Hm. eapply runs_conseq; [by apply (kruns_mark existing)| |done]. intros t [_ Hl]. by apply Hl.
  - eapply runs_locked; [..|apply kruns_create|].
    + intros t [[Ht _] Hl]. split; [by apply kick_plain_ok|]. split_and!; [by apply under_here| |by apply posts_keepable].
      apply wanted_stable. exists existing. split; [by apply Hl|done].
    + intros t e _. split; [by apply kick_plain_ok|done].
    + intros r t b Hr. split; [by split|].
      destruct r as [e|[]], b; try done. intros _. by apply kick_complete_stable, Hr.
Qed.

Definition kick_cached (t : trace eff) : Prop :=
  ∃ d now, Ev (DbOp (Get (webhook_path id))) (inr d) ∈ t ∧ Ev Now now ∈ t ∧ activeCheck d now = true.

Lemma kruns_ensure :
  runs (S:=Queue.queue) P (λ t, t = []) (ensureKick http_date η limit0 id)
    (λ r t, r = inr tt → kick_complete t ∨ kick_cached t).
Proof.
  apply runs_conseq with posts_retryable (λ r t, r = inr tt → kick_complete t ∨ kick_cached t);
    [|intros t ->; by intros ? ? ? ?%elem_of_nil|done].
  unfold ensureKick. eapply runs_bind; [apply (kruns_ask _ _ (DbOp _)); [done|apply posts_keepable]|]. cbn.
  intros [e|data].
  { case_decide; [|by apply runs_ret].
    eapply runs_conseq; [apply kruns_reconcile|by intros t []|]. naive_solver. }
  eapply runs_bind; [apply kruns_ask; [done|apply kept_and; [apply posts_keepable|auto with effects]]|]. intros now. cbn.
  destruct (activeCheck data now) eqn:Ha.
  - eapply runs_conseq; [apply kruns_exec with (F := kick_cached)| |]; [done| | |].
    + apply stable_kept. intros e t (d & n & H1 & H2 & H3). exists d, n. split_and!; [by right|by right|done].
    + intros t [[_ H1] H2]. by exists data, now.
    + intros r t [Ht _] _. by right.
  - eapply runs_conseq; [apply kruns_reconcile|by intros t [[? _] _]|]. naive_solver.
Qed.
End KickProof.


(** When ensureKick reports success, Kick listed every event of the
    channel, or a document checked within the hour has as many ids as there are
    events. *)
Theorem kick_success http_date η limit0 id q :
  let '(r, w) := ensureKick http_date η limit0 id (World [] q) in
  r = inr tt → kick_complete id (w_tr w) ∨ kick_cached id (w_tr w).
Proof.
  pose proof (kruns_ensure http_date η limit0 id (World [] q)) as H.
  destruct (ensureKick _ _ _ _ _) as [r w]. cbn in H. by apply H.
Qed.

(** A Kick that has every event of the channel already. *)
Definition kick_env : env eff := λ A t op,
  match op in eff A return A with
  | KickList _ _ => inr (ok_response (Some (map (λ ev, KickSubscription "s" (ke_Name ev) (ke_Version ev)) KickEvents)))
  | op => fair_env _ t op
  end.

Lemma kick_success_witness :
  let '(r, w) := ensureKick (λ _, None) kick_env 0 "7" (World [] Queue.NewTwitchQueue) in
  r = inr tt ∧ (kick_complete "7" (w_tr w) ∨ kick_cached "7" (w_tr w)).
Proof.
  pose proof (kick_success (λ _, None) kick_env 0 "7" Queue.NewTwitchQueue) as H.
  destruct (ensureKick _ _ _ _ _) as [r w] eqn:E.
  assert (Hr : r = inr tt).
  { apply (f_equal fst) in E. cbn [fst] in E. rewrite <-E. vm_compute. reflexivity. }
  split; [exact Hr|]. apply H, Hr.
Defined.
