(* ===== verification/MigApi.v ===== *)
(** * The migration's Twitch API

    Models agent/internal/eventsubmigration/api.go and pacer.go: the pacing of
    requests against the shared rate limit, the request loop with its retries
    and its account of uncertain mutations, and List, Create, Delete. *)

From stdpp Require Import base gmap strings list.
From S2P Require Import Prelude GoErr Effects Http Json.

Definition LegacyCallback : string := "https://us-central1-rtchat-47692.cloudfunctions.net/eventsub".
Definition AliasCallback : string := "https://rtchat-api.rtirl.com/eventsub".
Definition TargetCallback : string := "https://rtchat-api.rtirl.com/twitch/eventsub".

(** A condition is the decoded JSON value, None when it does not decode. *)
Record Subscription := Subscription_ {
  ID : string;
  Status : string;
  Type_ : string;
  Version : string;
  Condition : option json;
  Cost : Z;
  Method : string;
  Callback : string
}.

#[export] Instance Subscription_eq_dec : EqDecision Subscription.
Proof. solve_decision. Defined.

Record Listing := Listing_ {
  Data : list Subscription;
  TotalCost : Z;
  MaxTotalCost : Z
}.

(** One page; its data is nil when the response has none. *)
Record listing_page := ListingPage {
  lp_data : option (list Subscription);
  lp_total : Z;
  lp_max : Z;
  lp_cursor : string
}.

(** What [client.Do] answers, with the message field of the body. *)
Record mresponse (B : Type) := MResponse { mr : response B; mr_message : string }.
Arguments MResponse {B}.
Arguments mr {B}.
Arguments mr_message {B}.

(** Requests to /eventsub/subscriptions. *)
Inductive mcall : Type → Type :=
  | MList (query after : string) : mcall listing_page
  | MCreate (source : Subscription) (callback secret : string) : mcall listing_page
  | MDelete (id : string) : mcall unit.

Definition mcall_method {B} (c : mcall B) : method :=
  match c with MList _ _ => GET | MCreate _ _ _ => POST | MDelete _ => DELETE end.
Definition mcall_target {B} (c : mcall B) : target B :=
  match c in mcall B return target B with
  | MList _ _ => Into listing_page
  | MCreate _ _ _ => Into listing_page
  | MDelete _ => Discard
  end.

(** Each entry's progress in the checkpoint (snapshot.go). *)
Record Progress := Progress_ {
  TargetID : string;
  Created : bool;
  DeletedOld : bool;
  RolledBack : bool;
  SourceDeleted : bool;
  RestoredID : string;
  Attempts : Z;
  LastError : string
}.
Definition no_progress : Progress := Progress_ "" false false false false "" 0 "".

#[export] Instance Progress_eq_dec : EqDecision Progress.
Proof. solve_decision. Defined.

(** Which context an effect consults: the run's, a lease's, or one that bounds
    a verification or a restore. *)
Inductive mctx := RunCtx | LeaseCtx | BoundedCtx.

Inductive meff : Type → Type :=
  | Now : meff time
  | Sleep (d : duration) : meff (option error)
  (* the context's deadline comes before a sleep of [d] would end *)
  | Outlasts (d : duration) : meff bool
  | CtxErr (c : mctx) : meff (option error)
  | Twitch (B : Type) (c : mcall B) : meff (result (mresponse B))
  | Save (id : string) (p : Progress) : meff (option error)
  | Lock (key : string) : meff (option error)
  (* what the lease's holder returns for the work's error *)
  | Unlock (key : string) (work : option error) : meff (option error).
Arguments Twitch {B}.

(** ** The pacer *)

Definition maxReserveHold : duration := 2 * minute.

Record Pacer := Pacer_ {
  Interval : duration;
  Reserve : Z;
  p_next : time;
  known : bool;
  remaining : Z;
  reset : time
}.

Definition NewPacer (perMinute reserve : Z) : Pacer :=
  Pacer_ (if 0 <? perMinute then Z.quot minute perMinute else 0) reserve zero_time false 0 zero_time.

(** The mutable state of a migration: a pacer if one is set, the last reported
    cost, and the checkpoint's entries. *)
Record mstate := MState {
  pacer : option Pacer;
  cost_known : bool;
  cost_total : Z;
  cost_max : Z;
  entries : gmap string Progress
}.
Definition set_pacer (p : Pacer) (s : mstate) : mstate :=
  MState (Some p) (cost_known s) (cost_total s) (cost_max s) (entries s).
Definition set_cost (total max_ : Z) (s : mstate) : mstate :=
  MState (pacer s) true total max_ (entries s).
Definition set_entry (id : string) (p : Progress) (s : mstate) : mstate :=
  MState (pacer s) (cost_known s) (cost_total s) (cost_max s) (<[id := p]> (entries s)).

Definition set_next (p : Pacer) (t : time) : Pacer :=
  Pacer_ (Interval p) (Reserve p) t (known p) (remaining p) (reset p).
Definition forget (p : Pacer) : Pacer :=
  Pacer_ (Interval p) (Reserve p) (p_next p) false (remaining p) (reset p).

(** [holdLocked], at its clock read. *)
Definition hold_at (p : Pacer) (now : time) : duration :=
  if negb (known p) || (Reserve p <=? remaining p) then 0
  else
    let d := wrap64 (time_sub (reset p) now + second) in
    if d <=? 0 then 0 else if maxReserveHold <? d then maxReserveHold else d.

Definition observe (h : header) (p : Pacer) : Pacer :=
  match parse_int (header_get h "Ratelimit-Remaining") with
  | None => p
  | Some n =>
    match parse_int (header_get h "Ratelimit-Reset") with
    | None => p
    | Some r => Pacer_ (Interval p) (Reserve p) (p_next p) true n (time_unix r 0)
    end
  end.

Section Api.
Variable http_date : string → option time.
Variable η : env meff.
Local Abbreviation M := (M (world meff mstate)).

(** [holdLocked]: the clock is read only when the bucket is low. *)
Definition holdLocked (p : Pacer) : M duration :=
  if negb (known p) || (Reserve p <=? remaining p) then mret 0
  else now ← ask η Now; mret (hold_at p now).

(** [holdIfLowLocked], returning the pacer it leaves. *)
Definition holdIfLow (p : Pacer) : M (result Pacer) :=
  d ← holdLocked p;
  let after_hold : M (result Pacer) :=
    mret (inr (if known p && (remaining p <? Reserve p) then forget p else p)) in
  if 0 <? d then
    short ← ask η (Outlasts d);
    if (short : bool) then ok p
    else
      e ← ask η (Sleep d);
      match e with Some e => throw e | None => after_hold end
  else after_hold.

Definition pacer_Hold : M (result unit) :=
  s ← get_st;
  match pacer s with
  | None => ok tt
  | Some p =>
    r ← holdIfLow p;
    match r with
    | inl e => throw e
    | inr p => _ ← modify_st (set_pacer p); ok tt
    end
  end.

Definition pacer_Throttled : M bool :=
  s ← get_st;
  match pacer s with
  | None => mret false
  | Some p => d ← holdLocked p; mret (0 <? d)
  end.

Definition pacer_Wait : M (result unit) :=
  s ← get_st;
  match pacer s with
  | None => ok tt
  | Some p =>
    r ← holdIfLow p;
    match r with
    | inl e => throw e
    | inr p =>
      _ ← modify_st (set_pacer p);
      now ← ask η Now;
      (if time_after (p_next p) now then
         e ← ask η (Sleep (time_sub (p_next p) now));
         match e with
         | Some e => throw e
         | None => now ← ask η Now; _ ← modify_st (set_pacer (set_next p (now + Interval p))); ok tt
         end
       else _ ← modify_st (set_pacer (set_next p (now + Interval p))); ok tt)
    end
  end.

Definition pacer_Observe (h : header) : M unit :=
  modify_st (λ s, match pacer s with Some p => set_pacer (observe h p) s | None => s end).

(** ** Requests *)

(** [strings.Contains]. *)
Fixpoint contains_str (s sub : string) : bool :=
  has_prefix s sub ||
  match s with EmptyString => false | String _ s' => contains_str s' sub end.

Definition costLimited {B} (r : mresponse B) : bool :=
  let message := to_lower (mr_message r) in
  contains_str message "subscription limit" || contains_str message "cost" ||
  match parse_int (header_get (Header (mr r)) "Ratelimit-Remaining") with
  | Some n => 0 <? n
  | None => false
  end.

Definition failure (uncertain : bool) (e : error) : error :=
  if uncertain then ErrUncertain e else e.

(** The loop of [API.request] from attempt [attempt], [n] attempts left. *)
Fixpoint mrequest_from {B} (n : nat) (attempt : Z) (uncertain : bool) (c : mcall B) : M (result B) :=
  match n with
  | O => throw (failure uncertain (ErrMsg "retries exhausted calling Twitch EventSub"))
  | S n =>
    w ← pacer_Wait;
    match w with
    | inl e => throw (failure uncertain e)
    | inr _ =>
      r ← ask η (Twitch c);
      let m := mcall_method c in
      match r with
      | inl _ =>
        let uncertain := uncertain || negb (bool_decide (m = GET)) in
        ce ← ask η (CtxErr LeaseCtx);
        if bool_decide (m = POST) || (attempt =? 3) || is_some ce
        then throw (failure uncertain (ErrMsg "transport failure calling Twitch EventSub"))
        else
          e ← ask η (Sleep (Z.shiftl 1 attempt * second));
          match e with
          | Some e => throw (failure uncertain e)
          | None => mrequest_from n (attempt + 1) uncertain c
          end
      | inr r =>
        pacer_Observe (Header (mr r)) ;;
        let code := StatusCode (mr r) in
        match response_err (mr r) with
        | None => mret (decode (mcall_target c) (mr r))
        | Some e =>
          if (code =? 404) && bool_decide (m = DELETE) then
            match c in mcall B return M (result B) with
            | MDelete _ => ok tt
            | _ => throw (ErrMsg "unreachable")
            end
          else if (code =? 429) && bool_decide (m = POST) && costLimited r then
            throw (failure uncertain (ErrWrap "(HTTP 429)" ErrCostLimit))
          else
            let uncertain := uncertain || (negb (bool_decide (m = GET)) && (500 <=? code)) in
            if (attempt <? 3) && ((code =? 429) || ((500 <=? code) && negb (bool_decide (m = POST)))) then
              delay ← RetryDelay η Now http_date (Header (mr r)) attempt;
              if 30 * second <? delay then throw (failure uncertain e)
              else
                se ← ask η (Sleep delay);
                match se with
                | Some se => throw (failure uncertain se)
                | None => mrequest_from n (attempt + 1) uncertain c
                end
            else throw (failure uncertain e)
        end
      end
    end
  end.

Definition mrequest {B} (c : mcall B) : M (result B) := mrequest_from 4 0 false c.

(** Add the subscriptions of a page that were not listed before. *)
Definition add_page (all data : list Subscription) : list Subscription :=
  foldl (λ all sub, if bool_decide (ID sub ∈ map ID all) then all else all ++ [sub]) all data.

Definition empty_listing : Listing := Listing_ [] 0 0.

(** The loop of [API.List]: what was listed, the error that ended it, and the
    "after" that it leaves in the caller's query, which it sets page by page. *)
Fixpoint list_pages (fuel : nat) (query after : string) (seen : list string) (all : Listing) :
    M (Listing * option error * string) :=
  match fuel with
  | O => mret (all, Some (ErrMsg "fuel"), after)
  | S fuel =>
    r ← mrequest (MList query after);
    match r with
    | inl e => mret (all, Some e, after)
    | inr p =>
      match lp_data p with
      | None => mret (all, Some (ErrMsg "missing data in Twitch subscriptions response"), after)
      | Some data =>
        let all := Listing_ (add_page (Data all) data) (lp_total p) (lp_max p) in
        modify_st (set_cost (lp_total p) (lp_max p)) ;;
        if String.eqb (lp_cursor p) "" then mret (all, None, after)
        else if bool_decide (lp_cursor p ∈ seen) then
          mret (all, Some (ErrMsg "repeated pagination cursor in Twitch subscriptions response"), after)
        else list_pages fuel query (lp_cursor p) (lp_cursor p :: seen) all
      end
    end
  end.

(** A query is its filter and its "after", which is empty at first. *)
Definition List (fuel : nat) (query after : string) : M (Listing * option error * string) :=
  list_pages fuel query after [] empty_listing.

Definition Create (source : Subscription) (callback secret : string) : M (result Subscription) :=
  p ←? mrequest (MCreate source callback secret);
  match lp_data p with
  | Some [sub] => ok sub
  | _ => throw (ErrMsg "expected one subscription in Twitch creation response")
  end.

Definition Delete (id : string) : M (result unit) := mrequest (MDelete id).
End Api.

(** ** Reasoning *)

(** Effects that neither mutate nor record anything. *)
Definition quiet_op {A} (op : meff A) : bool :=
  match op with Now | Sleep _ | Outlasts _ | CtxErr _ => true | _ => false end.

Definition calm (P : trace meff → ev meff → Prop) (F : trace meff → Prop) : Prop :=
  ∀ A (op : meff A) a t, quiet_op op = true → F t → P t (Ev op a) ∧ F (Ev op a :: t).

Section Rules.
Context (http_date : string → option time) (η : env meff).
Context (P : trace meff → ev meff → Prop).

Lemma runs_quiet F A (op : meff A) :
  quiet_op op = true → calm P F → runs (S:=mstate) P F (ask η op) (λ _ t, F t).
Proof. intros Hq HF. apply runs_ask. intros t Ht. by apply HF. Qed.

Lemma calm_quiet F : calm P F → Http.quiet Now Sleep P F.
Proof. intros HF t Ht. split; intros; by apply HF. Qed.

Lemma runs_holdLocked F p : calm P F → runs P F (holdLocked η p) (λ _ t, F t).
Proof.
  intros HF. unfold holdLocked. case_match; [by apply runs_ret|].
  eapply runs_bind; [by apply runs_quiet|]. intros. by apply runs_ret.
Qed.

Lemma runs_holdIfLow F p : calm P F → runs P F (holdIfLow η p) (λ _ t, F t).
Proof.
  intros HF. unfold holdIfLow. eapply runs_bind; [by apply runs_holdLocked|]. intros d. cbn.
  case_match; [|by apply runs_ret].
  eapply runs_bind; [by apply runs_quiet|]. intros []; [by apply runs_ret|].
  eapply runs_bind; [by apply runs_quiet|]. intros []; by apply runs_ret.
Qed.

Lemma runs_set_ok F (f : mstate → mstate) :
  runs P F (_ ← modify_st f; ok tt) (λ (_ : result unit) t, F t).
Proof. eapply runs_bind; [apply runs_modify_st|]. intros. by apply runs_ret. Qed.

Lemma runs_pacer_Wait F : calm P F → runs P F (pacer_Wait η) (λ _ t, F t).
Proof.
  intros HF. unfold pacer_Wait. eapply runs_bind; [apply runs_get_st|]. intros s. cbn.
  destruct (pacer s) as [p|]; [|by apply runs_ret].
  eapply runs_bind; [by apply runs_holdIfLow|]. intros [e|p']; [by apply runs_ret|].
  eapply runs_bind; [apply runs_modify_st|]. intros ?.
  eapply runs_bind; [by apply runs_quiet|]. intros now. cbn.
  case_match; [|apply runs_set_ok].
  eapply runs_bind; [by apply runs_quiet|]. intros [e|]; [by apply runs_ret|].
  eapply runs_bind; [by apply runs_quiet|]. intros n. apply runs_set_ok.
Qed.

Lemma runs_pacer_Hold F : calm P F → runs P F (pacer_Hold η) (λ _ t, F t).
Proof.
  intros HF. unfold pacer_Hold. eapply runs_bind; [apply runs_get_st|]. intros s. cbn.
  destruct (pacer s) as [p|]; [|by apply runs_ret].
  eapply runs_bind; [by apply runs_holdIfLow|]. intros [e|p']; [by apply runs_ret|]. apply runs_set_ok.
Qed.

Lemma runs_pacer_Throttled F : calm P F → runs P F (pacer_Throttled η) (λ _ t, F t).
Proof.
  intros HF. unfold pacer_Throttled. eapply runs_bind; [apply runs_get_st|]. intros s. cbn.
  destruct (pacer s) as [p|]; [|by apply runs_ret].
  eapply runs_bind; [by apply runs_holdLocked|]. intros d. by apply runs_ret.
Qed.

(** What one answer of a request means: the request ends with an error or a
    result, or it is sent again. *)
Definition answer_result {B} (c : mcall B) (a : result (mresponse B)) (r : result B) : Prop :=
  ∃ x, a = inr x ∧
    (response_err (mr x) = None ∧ r = decode (mcall_target c) (mr x) ∨
     StatusCode (mr x) = 404 ∧ mcall_method c = DELETE ∧ is_Some (response_err (mr x)) ∧ ∃ b, r = inr b).

(** An answer after which a mutation may have happened. *)
Definition ambiguous {B} (c : mcall B) (a : result (mresponse B)) : bool :=
  negb (bool_decide (mcall_method c = GET)) &&
  match a with inl _ => true | inr x => (500 <=? StatusCode (mr x)) end.

(** An answer that says that the request succeeded. *)
Definition succeeded {B} (a : result (mresponse B)) : bool :=
  match a with inl _ => false | inr x => negb (is_some (response_err (mr x))) end.

(** An answer after which the request may be sent again. *)
Definition resendable {B} (c : mcall B) (a : result (mresponse B)) : bool :=
  match a with
  | inl _ => negb (bool_decide (mcall_method c = POST))
  | inr x => is_some (response_err (mr x)) &&
             ((StatusCode (mr x) =? 429) ||
              ((500 <=? StatusCode (mr x)) && negb (bool_decide (mcall_method c = POST))))
  end.

(** A deletion of something that is gone succeeds. *)
Lemma runs_delete_404 {B} (c : mcall B) x e (R : trace meff → Prop) (Q : result B → trace meff → Prop) :
  (StatusCode (mr x) =? 404) && bool_decide (mcall_method c = DELETE) = true →
  response_err (mr x) = Some e →
  (∀ t, R t → ∀ r, answer_result c (inr x) r → Q r t) →
  runs (S:=mstate) P R
    match c in mcall B return M (world meff mstate) (result B) with
    | MDelete _ => ok tt
    | _ => throw (ErrMsg "unreachable")
    end Q.
Proof.
  intros [Hc%Z.eqb_eq Hm%bool_decide_eq_true]%andb_true_iff He HR. destruct c; try done.
  apply runs_ret. intros t Ht. apply (HR t Ht). exists x. split; [done|]. right. eauto 10.
Qed.

(** The rule of the request loop: [F u] holds before a send and [G u] after
    an answer that is not a success, [u] telling whether an ambiguous answer
    came; [Q] at the end. *)
Lemma runs_mrequest_from {B} (F G : bool → trace meff → Prop) Q (c : mcall B) :
  (∀ u, calm P (F u)) → (∀ u, calm P (G u)) →
  (∀ u t, F u t → G u t) →
  (∀ u e t, G u t → Q (inl (failure u e)) t) →
  (∀ u t a, F u t →
     P t (Ev (Twitch c) a) ∧
     (succeeded a = false → G (u || ambiguous c a) (Ev (Twitch c) a :: t)) ∧
     (resendable c a = true → F (u || ambiguous c a) (Ev (Twitch c) a :: t)) ∧
     (∀ r, answer_result c a r → Q r (Ev (Twitch c) a :: t))) →
  ∀ n attempt u, runs P (F u) (mrequest_from http_date η n attempt u c) Q.
Proof.
  intros HF HG HFG HGQ Hs n. induction n as [|n IH]; intros attempt u; cbn [mrequest_from].
  { apply runs_ret. intros t Ht. by apply HGQ, HFG. }
  eapply runs_bind; [by apply runs_pacer_Wait|]. intros [e|?]; cbn.
  { apply runs_ret. intros t Ht. by apply HGQ, HFG. }
  apply runs_bind with (λ a t, (succeeded a = false → G (u || ambiguous c a) t) ∧
    (resendable c a = true → F (u || ambiguous c a) t) ∧ (∀ r, answer_result c a r → Q r t)).
  { apply runs_ask. intros t Ht. by apply Hs. }
  intros [e|x].
  - (* no answer *)
    set (u' := u || ambiguous c (inl e)).
    replace (u || negb (bool_decide (mcall_method c = GET))) with u'
      by (unfold u', ambiguous; by rewrite andb_true_r).
    destruct (bool_decide (mcall_method c = POST)) eqn:Hp.
    + apply runs_conseq with (G u') Q; [|naive_solver|done].
      eapply runs_bind; [by apply runs_quiet|]. intros ce. cbn. apply runs_ret. intros. by apply HGQ.
    + apply runs_conseq with (F u') Q; [|intros t (_ & H & _); apply H; cbn; by rewrite Hp|done].
      eapply runs_bind; [by apply runs_quiet|]. intros ce. cbn [orb].
      case_match; [apply runs_ret; intros; by apply HGQ, HFG|].
      eapply runs_bind; [by apply runs_quiet|]. intros [se|]; [apply runs_ret; intros; by apply HGQ, HFG|].
      apply IH.
  - eapply runs_bind; [apply runs_modify_st|]. intros ?.
    destruct (response_err (mr x)) as [e|] eqn:He.
    2: { apply runs_ret. intros t (_ & _ & H). apply H. exists x. auto. }
    destruct ((StatusCode (mr x) =? 404) && bool_decide (mcall_method c = DELETE)) eqn:H404.
    { apply runs_delete_404 with x e; [done..|]. by intros t (_ & _ & H). }
    assert (Hs0 : succeeded (inr x) = false) by (cbn; by rewrite He).
    destruct ((StatusCode (mr x) =? 429) && _ && _) eqn:H429.
    { apply runs_ret. intros t (HGt & _). specialize (HGt Hs0). apply andb_true_iff in H429 as [[H429 _]%andb_true_iff _].
      apply Z.eqb_eq in H429. unfold ambiguous in HGt.
      rewrite H429, andb_false_r, orb_false_r in HGt. by apply HGQ. }
    set (u' := u || (negb (bool_decide (mcall_method c = GET)) && (500 <=? StatusCode (mr x)))).
    change (u || ambiguous c (inr x)) with u'.
    destruct (_ && ((StatusCode (mr x) =? 429) || _)) eqn:Hr.
    + apply runs_conseq with (F u') Q; [| |done].
      2: { intros t (_ & H & _). apply H. cbn. rewrite He. cbn. by apply andb_true_iff in Hr as [_ Hr]. }
      eapply runs_bind; [apply (runs_RetryDelay η Now Sleep), calm_quiet; by auto|]. intros d. cbn.
      case_match; [apply runs_ret; intros; by apply HGQ, HFG|].
      eapply runs_bind; [by apply runs_quiet|]. intros [se|]; [apply runs_ret; intros; by apply HGQ, HFG|].
      apply IH.
    + apply runs_ret. intros t (HGt & _). by apply HGQ, HGt.
Qed.
End Rules.

(** ** Uncertain mutations *)

(** The method of a request on the trace, and the status of its answer. *)
Definition status_of (e : ev meff) : option (method * option Z) :=
  match e with
  | Ev op a =>
    match op in meff A return A → option (method * option Z) with
    | Twitch c => λ r, Some (mcall_method c,
                             match r with inl _ => None | inr x => Some (StatusCode (mr x)) end)
    | _ => λ _, None
    end a
  end.

(** The error of a result. *)
Definition err_of {A} (r : result A) : option error := match r with inl e => Some e | inr _ => None end.
(** A request that was answered with a success is settled: the error of what
    the body decodes to. *)
Definition settled_as (e : ev meff) : option (option error) :=
  match e with
  | Ev op a =>
    match op in meff A return A → option (option error) with
    | Twitch c => λ r, match r with
                       | inl _ => None
                       | inr x => match response_err (mr x) with
                                  | None => Some (err_of (decode (mcall_target c) (mr x)))
                                  | Some _ => None
                                  end
                       end
    | _ => λ _, None
    end a
  end.

(** Some mutation on the trace may have happened without saying so. *)
Definition has_ambiguous (t : trace meff) : Prop :=
  ∃ e m x, e ∈ t ∧ status_of e = Some (m, x) ∧ m ≠ GET ∧
    match x with None => True | Some s => 500 <= s end.

(** A creation is sent only when every earlier one was refused with a 429. *)
Definition creation_ok (t : trace meff) (e : ev meff) : Prop :=
  ∀ x, status_of e = Some (POST, x) →
  ∀ e' x', e' ∈ t → status_of e' = Some (POST, x') → x' = Some 429.

Lemma quiet_status A (op : meff A) a : quiet_op op = true → status_of (Ev op a) = None.
Proof. by destruct op. Qed.

Lemma ambiguous_cons B (c : mcall B) a t :
  has_ambiguous (Ev (Twitch c) a :: t) → has_ambiguous t ∨ ambiguous c a = true.
Proof.
  intros (e & m & x & [->|He]%elem_of_cons & Hs & Hm & Hx).
  - right. cbn in Hs. simplify_eq. unfold ambiguous. rewrite bool_decide_false by done. cbn.
    destruct a; [done|]. by apply Z.leb_le.
  - left. by exists e, m, x.
Qed.

Lemma decode_delete B (c : mcall B) x e :
  mcall_method c = DELETE → inl e ≠ decode (mcall_target c) x.
Proof. by destruct c. Qed.

Section Uncertain.
Context (http_date : string → option time) (η : env meff) {B : Type} (c : mcall B).

(** Nothing was answered with a success. *)
Definition open_ (t : trace meff) : Prop := ∀ e, e ∈ t → settled_as e = None.
Definition between (u : bool) (t : trace meff) : Prop :=
  (∀ e m x, e ∈ t → status_of e = Some (m, x) → m = mcall_method c) ∧
  (has_ambiguous t → u = true) ∧
  (∀ e x, e ∈ t → status_of e = Some (POST, x) → x = Some 429) ∧ open_ t.
Definition answered (u : bool) (t : trace meff) : Prop := (has_ambiguous t → u = true) ∧ open_ t.
Definition reported (r : result B) (t : trace meff) : Prop :=
  (∀ e, r = inl e → has_ambiguous t → is_uncertain e = true) ∧
  (∀ e d, e ∈ t → settled_as e = Some d → err_of r = d).

Lemma ambiguous_quiet A (op : meff A) a t :
  quiet_op op = true → has_ambiguous (Ev op a :: t) → has_ambiguous t.
Proof.
  intros Hq (e & m & x & [->|He]%elem_of_cons & Hs & Hm & Hx).
  - by rewrite quiet_status in Hs.
  - by exists e, m, x.
Qed.

Lemma open_quiet A (op : meff A) a t : quiet_op op = true → open_ t → open_ (Ev op a :: t).
Proof.
  intros Hq Ht x [->|Hx]%elem_of_cons; [by destruct op|by apply Ht].
Qed.

Lemma open_cons a t : succeeded a = false → open_ t → open_ (Ev (Twitch c) a :: t).
Proof.
  intros Ha Ht x [->|Hx]%elem_of_cons; [|by apply Ht]. destruct a as [|y]; [done|]. cbn in Ha |- *. by destruct (response_err (mr y)).
Qed.

Lemma answered_calm u : calm creation_ok (answered u).
Proof.
  intros A op a t Hq [Ht Ho]. split.
  - intros x Hx. by rewrite quiet_status in Hx.
  - split; [|by apply open_quiet]. intros Ha. by apply Ht, (ambiguous_quiet A op a).
Qed.

Lemma between_calm u : calm creation_ok (between u).
Proof.
  intros A op a t Hq (H1 & H2 & H3 & H4). split; [by apply (answered_calm u)|]. split_and!.
  - intros e m x [->|He]%elem_of_cons Hs; [by rewrite quiet_status in Hs|by eapply H1].
  - intros Ha. by apply H2, (ambiguous_quiet A op a).
  - intros e x [->|He]%elem_of_cons Hs; [by rewrite quiet_status in Hs|by eapply H3].
  - by apply open_quiet.
Qed.

Lemma between_not_ambiguous u t : between u t → mcall_method c = POST → ¬ has_ambiguous t.
Proof.
  intros (H1 & H2 & H3 & _) Hp (e & m & x & He & Hs & Hm & Hx).
  rewrite (H1 _ _ _ He Hs), Hp in Hs. rewrite (H3 _ _ He Hs) in Hx. done.
Qed.

(** Decoding fails only for requests that were never ambiguous. *)
Lemma answer_reported u t a r :
  between u t → answer_result c a r → reported r (Ev (Twitch c) a :: t).
Proof.
  intros Hb (x & -> & Hr). split.
  - intros e -> Ha. destruct Hr as [[Hn Hd]|(_ & _ & _ & b & Hd)]; [|done].
    assert (Hc : ¬ ambiguous c (inr x) = true).
    { intros [_ Hs%Z.leb_le]%andb_true_iff. unfold response_err in Hn.
      destruct (Z.leb_spec 300 (StatusCode (mr x))); [|lia]. by rewrite orb_true_r in Hn. }
    apply ambiguous_cons in Ha as [Ha|Ha]; [|done].
    exfalso. destruct (mcall_method c) eqn:Hm.
    + destruct Ha as (e' & m & y & He & Hs & Hm' & _). destruct Hb as (H1 & _).
      rewrite (H1 _ _ _ He Hs) in Hm'. done.
    + by apply (between_not_ambiguous u t).
    + by apply decode_delete in Hd.
  - intros y d [->|Hy]%elem_of_cons Hn.
    + cbn in Hn. destruct Hr as [[He ->]|(_ & _ & [e He] & _)]; rewrite He in Hn; by simplify_eq.
    + destruct Hb as (_ & _ & _ & Ho). apply Ho in Hy. by rewrite Hy in Hn.
Qed.

Lemma runs_mrequest_reported :
  runs creation_ok (between false) (mrequest http_date η c) reported.
Proof.
  apply (runs_mrequest_from http_date η creation_ok between answered).
  - apply between_calm.
  - apply answered_calm.
  - by intros u t (_ & H & _ & Ho).
  - intros u e t [Ht Ho]. split; [intros e' [= <-] Ha; by rewrite (Ht Ha)|].
    intros x d Hx Hn. apply Ho in Hx. by rewrite Hx in Hn.
  - intros u t a Hb. destruct Hb as (H1 & H2 & H3 & H4). split_and!.
    + intros x Hx e' x' He' Hs'. by eapply H3.
    + intros Hsu. split; [|by apply open_cons].
      intros [Ha|Ha]%ambiguous_cons; [rewrite H2 by done; done|by rewrite Ha, orb_true_r].
    + intros Hr. split_and!.
      * intros e m x [->|He]%elem_of_cons Hs; [cbn in Hs; by simplify_eq|by eapply H1].
      * intros [Ha|Ha]%ambiguous_cons; [rewrite H2 by done; done|by rewrite Ha, orb_true_r].
      * intros e x [->|He]%elem_of_cons Hs; [|by eapply H3]. cbn in Hs. simplify_eq.
        unfold resendable in Hr. destruct a as [?|y]; rewrite bool_decide_true in Hr by done; [done|].
        apply andb_true_iff in Hr as [_ Hr]. rewrite andb_false_r, orb_false_r in Hr.
        by apply Z.eqb_eq in Hr as ->.
      * apply open_cons; [|done]. destruct a as [|y]; [done|]. cbn in Hr |- *.
        by apply andb_true_iff in Hr as [-> _].
    + intros r Hr. by apply (answer_reported u).
Qed.
End Uncertain.

(** C11. One request of the migration never hides a mutation that the provider
    may still be acting on: if any of its attempts got no answer or a 5xx, an
    error it returns is uncertain. An attempt that was answered with a success
    is settled: the request's error is then that of decoding its body, a plain
    error, also when that is a creation whose body does not decode. And a
    creation is sent again only after a 429. *)
Theorem uncertainty_reported http_date η B (c : mcall B) s :
  let '(r, w) := mrequest http_date η c (World [] s) in
  justified creation_ok (w_tr w) ∧
  (∀ e, r = inl e → has_ambiguous (w_tr w) → is_uncertain e = true) ∧
  (∀ e d, e ∈ w_tr w → settled_as e = Some d → err_of r = d).
Proof.
  pose proof (runs_mrequest_reported http_date η c (World [] s)) as H.
  destruct (mrequest http_date η c (World [] s)) as [r w]. cbn in H. apply H.
  split; [done|]. split_and!.
  - by intros e m x ?%elem_of_nil.
  - by intros (e & m & x & ?%elem_of_nil & _).
  - by intros e x ?%elem_of_nil.
  - by intros a ?%elem_of_nil.
Qed.

(** ** Spacing of requests *)

Lemma hold_at_bounds p now : 0 <= hold_at p now <= maxReserveHold.
Proof.
  unfold hold_at, maxReserveHold, minute, second. case_match; [lia|].
  repeat case_match; bools; lia.
Qed.

Lemma holdIfLow_next η p w p' w' :
  holdIfLow η p w = (inr p', w') → p_next p' = p_next p ∧ Interval p' = Interval p.
Proof.
  unfold holdIfLow, holdLocked. destruct (negb (known p) || _).
  - rewrite M_bind_run. cbn. intros [= <- <-]. by case_match.
  - rewrite !M_bind_run. cbn. case_match; [|intros [= <- <-]; by case_match].
    rewrite M_bind_run. cbn. case_match; [intros [= <- <-]; done|].
    rewrite M_bind_run. cbn. case_match; [done|]. intros [= <- <-]. by case_match.
Qed.

(** The clock says at least as much as was slept. *)
Definition honest_sleep (η : env meff) : Prop :=
  ∀ t n0 d, n0 + d <= η time (Ev (Sleep d) None :: Ev Now n0 :: t) Now.

(** Requests are spaced: [Wait] lets a request go no earlier than the time
    the one before it set, and sets the next one's an interval after this one's,
    provided sleeping takes as long as asked and no wait overflows a duration;
    and a hold for the shared bucket lasts at most two minutes. *)
Theorem pacer_spacing η p s t now0 :
  pacer s = Some p → honest_sleep η →
  (∀ t, p_next p - η time t Now <= max_int64) →
  (let '(r, w) := pacer_Wait η (World t s) in
   r = inr tt → ∃ p' sent rest,
     w_tr w = Ev Now sent :: rest ∧ p_next p <= sent ∧
     pacer (w_st w) = Some p' ∧ p_next p' = sent + Interval p ∧ Interval p' = Interval p) ∧
  0 <= hold_at p now0 <= maxReserveHold.
Proof.
  intros Hp Hh Hb. split; [|apply hold_at_bounds].
  destruct (pacer_Wait η (World t s)) as [r w] eqn:E. revert E. unfold pacer_Wait.
  rewrite M_bind_run. cbn. rewrite Hp, M_bind_run.
  destruct (holdIfLow η p (World t s)) as [[e|p1] w1] eqn:E1; cbn; [by intros [= <- <-]|].
  apply holdIfLow_next in E1 as [Hn Hi]. destruct w1 as [t1 s1].
  unfold ask. rewrite !M_bind_run. cbn. set (n0 := η Z t1 Now).
  destruct (time_after (p_next p1) n0) eqn:Ha.
  - rewrite M_bind_run. cbn. set (d := time_sub (p_next p1) n0).
    destruct (η _ (Ev Now n0 :: t1) (Sleep d)) as [e|] eqn:Es; [by intros [= <- <-]|].
    rewrite M_bind_run. cbn. rewrite M_bind_run. cbn. intros [= <- <-] _.
    eexists _, _, _. split; [done|]. split; [|split; [done|cbn; by rewrite Hi]].
    etrans; [|apply Hh]. unfold d, time_after in *. apply Z.ltb_lt in Ha.
    specialize (Hb t1). fold n0 in Hb. rewrite Hn in *.
    rewrite time_sub_exact; [lia|]. unfold in_int64, min_int64, max_int64 in *.
    apply andb_true_iff. split; apply Z.leb_le; lia.
  - rewrite M_bind_run. cbn. intros [= <- <-] _. eexists _, _, _. split; [done|].
    unfold time_after in Ha. apply Z.ltb_ge in Ha. rewrite Hn in Ha. cbn. rewrite Hi. auto.
Qed.

(** A clock that starts at zero and moves on by every sleep. *)
Definition now_of (e : ev meff) : Z :=
  match e with
  | Ev op a => match op in meff A return A → Z with Now => λ n, n | _ => λ _, 0 end a
  end.
Definition clock (t : trace meff) : Z :=
  match t with
  | Ev op _ :: e :: _ => match op with Sleep d => Z.max 0 (now_of e + d) | _ => 0 end
  | _ => 0
  end.
Definition sleepy_env : env meff := λ A t op,
  match op in meff A return A with
  | Now => clock t
  | Sleep _ | CtxErr _ | Save _ _ | Lock _ | Unlock _ _ => None
  | Outlasts _ => false
  | Twitch _ => inl (ErrMsg "offline")
  end.
Definition paced : Pacer := Pacer_ second 100 second false 0 zero_time.
Definition paced_state : mstate := MState (Some paced) false 0 0 ∅.

Lemma pacer_spacing_witness :
  ∃ p' sent rest, w_tr (pacer_Wait sleepy_env (World [] paced_state)).2 = Ev Now sent :: rest ∧
    p_next paced <= sent ∧ pacer (w_st (pacer_Wait sleepy_env (World [] paced_state)).2) = Some p' ∧
    p_next p' = sent + Interval paced.
Proof.
  destruct (pacer_spacing sleepy_env paced paced_state [] 0) as [H _].
  - reflexivity.
  - intros t n0 d. cbn. lia.
  - intros t. cbn. unfold max_int64, clock, second. repeat case_match; lia.
  - assert (Hr : (pacer_Wait sleepy_env (World [] paced_state)).1 = inr tt) by reflexivity.
    destruct (pacer_Wait sleepy_env (World [] paced_state)) as [r w].
    destruct (H Hr) as (p' & sent & rest & H1 & H2 & H3 & H4 & _). exists p', sent, rest. auto.
Defined.

Lemma uncertainty_reported_witness :
  ∃ e, (mrequest (λ _, None) sleepy_env (MDelete "1") (World [] paced_state)).1 = inl e ∧
       is_uncertain e = true.
Proof.
  pose proof (uncertainty_reported (λ _, None) sleepy_env unit (MDelete "1") paced_state) as H.
  assert (Hr : (mrequest (λ _, None) sleepy_env (MDelete "1") (World [] paced_state)).1 =
    inl (ErrUncertain (ErrMsg "transport failure calling Twitch EventSub"))) by (vm_compute; reflexivity).
  assert (Hs : existsb (λ e, bool_decide (status_of e = Some (DELETE, None)))
    (w_tr (mrequest (λ _, None) sleepy_env (MDelete "1") (World [] paced_state)).2) = true)
    by (vm_compute; reflexivity).
  destruct (mrequest (λ _, None) sleepy_env (MDelete "1") (World [] paced_state)) as [r w].
  cbn in Hr, Hs. eexists. split; [exact Hr|]. apply (proj1 (proj2 H) _ Hr).
  apply existsb_exists in Hs as (e & He%list_elem_of_In & Hd%bool_decide_eq_true).
  exists e, DELETE, None. auto.
Defined.
