(* ===== verification/Journal.v ===== *)
(** * The migration's checkpoint

    Models agent/internal/eventsubmigration/journal.go and the checkpoint part
    of snapshot.go: the state file, the append-only journal, loading both,
    compacting, and what a crash at any point leaves on disk. A file holds what
    it decodes to: the state file a checkpoint, the journal its lines, [None]
    for a line that does not decode. *)

From stdpp Require Import base gmap strings list.
From S2P Require Import Prelude GoErr MigApi.

Record journalLine := JournalLine {
  jl_hash : string;
  jl_id : string;
  jl_progress : option Progress
}.

Record Checkpoint := Checkpoint_ {
  SnapshotHash : string;
  Entries : option (gmap string Progress)   (* nil when the file has none *)
}.

(** The two files: absent, or what they hold. *)
Record disk := Disk {
  state_file : option (option Checkpoint);
  journal_file : option (list (option journalLine))
}.

(** [ReadCheckpoint], [hash] being the snapshot's. *)
Definition ReadCheckpoint (hash : string) (d : disk) : result (gmap string Progress) :=
  match state_file d with
  | None => inr ∅
  | Some None => inl (ErrMsg "unexpected end of JSON input")
  | Some (Some c) =>
    match Entries c with
    | Some m => if String.eqb (SnapshotHash c) hash then inr m
                else inl (ErrMsg "checkpoint does not belong to this snapshot")
    | None => inl (ErrMsg "checkpoint does not belong to this snapshot")
    end
  end.

Definition corrupt : error := ErrMsg "checkpoint journal is corrupt".

(** The loop of [LoadCheckpoint] over the journal's lines. *)
Fixpoint replay (hash : string) (first pending : bool) (lines : list (option journalLine))
    (m : gmap string Progress) : result (gmap string Progress) :=
  match lines with
  | [] => inr m
  | line :: lines =>
    if pending then inl corrupt
    else match line with
    | None => replay hash false true lines m
    | Some l =>
      if first then
        if String.eqb (jl_hash l) hash then replay hash false false lines m
        else inl (ErrMsg "checkpoint journal does not belong to this snapshot")
      else if String.eqb (jl_id l) "" then inl corrupt
      else match jl_progress l with
           | None => inl corrupt
           | Some p => replay hash false false lines (<[jl_id l := p]> m)
           end
    end
  end.

Definition LoadCheckpoint (hash : string) (d : disk) : result (gmap string Progress) :=
  match ReadCheckpoint hash d with
  | inl e => inl e
  | inr m => match journal_file d with
             | None => inr m
             | Some lines => replay hash true false lines m
             end
  end.

(** [WriteCheckpoint] replaces the state file by a rename. *)
Definition WriteCheckpoint (hash : string) (m : gmap string Progress) (d : disk) : disk :=
  Disk (Some (Some (Checkpoint_ hash (Some m)))) (journal_file d).

(** [CompactCheckpoint] removes the journal after the state file is written. *)
Definition remove_journal (d : disk) : disk := Disk (state_file d) None.
Definition CompactCheckpoint (hash : string) (m : gmap string Progress) (d : disk) : disk :=
  remove_journal (WriteCheckpoint hash m d).

(** [OpenJournal] creates the file, then writes its header when it is empty. *)
Definition create_journal (d : disk) : disk :=
  Disk (state_file d) (Some (default [] (journal_file d))).
Definition append_line (line : option journalLine) (d : disk) : disk :=
  Disk (state_file d) (Some (default [] (journal_file d) ++ [line])).
Definition header_line (hash : string) : journalLine := JournalLine hash "" None.
Definition entry_line (id : string) (p : Progress) : journalLine := JournalLine "" id (Some p).
Definition OpenJournal (hash : string) (d : disk) : disk :=
  let d := create_journal d in
  match journal_file d with
  | Some [] => append_line (Some (header_line hash)) d
  | _ => d
  end.

(** [Journal.Append]. *)
Definition Append (id : string) (p : Progress) (d : disk) : disk := append_line (Some (entry_line id p)) d.

(** ** Runs and crashes

    A run loads the checkpoint, compacts it, opens the journal and appends;
    it may stop anywhere, also halfway through writing a line. *)
Inductive phase :=
  | Stopped
  | Loaded (m : gmap string Progress)
  | Compacted (m : gmap string Progress)
  | Created (m : gmap string Progress)
  | Open (m : gmap string Progress).

Record jstate := JState {
  files : disk;
  proc : phase;
  acked : gmap string Progress      (* what runs were told is recorded *)
}.

Section Durable.
Variable hash : string.

Inductive jstep : jstate → jstate → Prop :=
  | j_load d m a :
      LoadCheckpoint hash d = inr m → jstep (JState d Stopped a) (JState d (Loaded m) m)
  | j_write d m a :
      jstep (JState d (Loaded m) a) (JState (WriteCheckpoint hash m d) (Loaded m) a)
  | j_compact d m a :
      state_file d = state_file (WriteCheckpoint hash m d) →
      jstep (JState d (Loaded m) a) (JState (remove_journal d) (Compacted m) a)
  | j_create d m a :
      jstep (JState d (Compacted m) a) (JState (create_journal d) (Created m) a)
  | j_header d m a :
      jstep (JState d (Created m) a) (JState (append_line (Some (header_line hash)) d) (Open m) a)
  | j_append d m a id p :
      id ≠ "" → jstep (JState d (Open m) a) (JState (Append id p d) (Open (<[id := p]> m)) (<[id := p]> a))
  | j_crash d ph a : jstep (JState d ph a) (JState d Stopped a)
  (* a write that reached the disk in part, or whole, without being told *)
  | j_torn_header d m a : jstep (JState d (Created m) a) (JState (append_line None d) Stopped a)
  | j_torn d m a : jstep (JState d (Open m) a) (JState (append_line None d) Stopped a)
  | j_untold d m a id p :
      id ≠ "" → jstep (JState d (Open m) a) (JState (Append id p d) Stopped a).

Definition jinit : jstate := JState (Disk None None) Stopped ∅.

Inductive jreachable : jstate → Prop :=
  | jreach_init : jreachable jinit
  | jreach_step s s' : jreachable s → jstep s s' → jreachable s'.

(** Replaying entry lines. *)
Definition apply_lines (l : list (string * Progress)) (m : gmap string Progress) : gmap string Progress :=
  foldl (λ m p, <[p.1 := p.2]> m) m l.

Lemma apply_lines_snoc l id p m : apply_lines (l ++ [(id, p)]) m = <[id := p]> (apply_lines l m).
Proof. unfold apply_lines. by rewrite foldl_app. Qed.

Lemma apply_lines_lookup l m k :
  apply_lines l m !! k = match apply_lines l ∅ !! k with Some p => Some p | None => m !! k end.
Proof.
  induction l as [|[id p] l IH] using rev_ind; [cbn; by rewrite lookup_empty|].
  rewrite !apply_lines_snoc. destruct (decide (id = k)) as [->|].
  - by rewrite !lookup_insert_eq.
  - by rewrite !lookup_insert_ne.
Qed.

(** Replaying a journal onto its own result changes nothing. *)
Lemma apply_lines_idem l m : apply_lines l (apply_lines l m) = apply_lines l m.
Proof.
  apply map_eq. intros k. rewrite (apply_lines_lookup l (apply_lines l m)), !(apply_lines_lookup l m).
  by destruct (apply_lines l ∅ !! k).
Qed.

Definition lines_of (l : list (string * Progress)) : list (option journalLine) :=
  map (λ p, Some (entry_line p.1 p.2)) l.

Lemma replay_lines l torn m :
  Forall (λ p, p.1 ≠ "") l →
  replay hash false false (lines_of l ++ (if torn : bool then [None] else [])) m = inr (apply_lines l m).
Proof.
  intros Hl. revert m. induction Hl as [|[id p] l Hid _ IH]; intros m; [by destruct torn|].
  cbn. destruct (String.eqb_spec id ""); [done|]. apply IH.
Qed.

(** The shapes of a journal: none, empty, a torn header, or a header with
    entries and perhaps a torn last line. *)
Inductive journal_ok : option (list (option journalLine)) → list (string * Progress) → bool → Prop :=
  | jo_none : journal_ok None [] false
  | jo_empty : journal_ok (Some []) [] false
  | jo_torn_header : journal_ok (Some [None]) [] true
  | jo_lines l torn :
      Forall (λ p, p.1 ≠ "") l →
      journal_ok (Some (Some (header_line hash) :: lines_of l ++ (if torn : bool then [None] else []))) l torn.

Lemma load_ok d m l torn :
  ReadCheckpoint hash d = inr m → journal_ok (journal_file d) l torn →
  LoadCheckpoint hash d = inr (apply_lines l m).
Proof.
  intros Hr Hj. unfold LoadCheckpoint. rewrite Hr. destruct Hj; [done..|].
  cbn. rewrite String.eqb_refl. by apply replay_lines.
Qed.

(** At most the entry whose write was not acknowledged may be ahead. *)
Definition close (c a : gmap string Progress) : Prop := c = a ∨ ∃ id p, c = <[id := p]> a.

Definition phase_ok (d : disk) (ph : phase) (a : gmap string Progress)
    (m0 : gmap string Progress) (l : list (string * Progress)) (torn : bool) : Prop :=
  match ph with
  | Stopped => close (apply_lines l m0) a
  | Loaded m => m = apply_lines l m0 ∧ a = m
  | Compacted m => journal_file d = None ∧ m = m0 ∧ a = m
  | Created m => journal_file d = Some [] ∧ m = m0 ∧ a = m
  | Open m => torn = false ∧ journal_file d = Some (Some (header_line hash) :: lines_of l) ∧
              m = apply_lines l m0 ∧ a = m
  end.

Definition jinv (s : jstate) : Prop :=
  ∃ m0 l torn, ReadCheckpoint hash (files s) = inr m0 ∧ journal_ok (journal_file (files s)) l torn ∧
    phase_ok (files s) (proc s) (acked s) m0 l torn.

Lemma read_written m d : ReadCheckpoint hash (WriteCheckpoint hash m d) = inr m.
Proof. cbn. by rewrite String.eqb_refl. Qed.

Lemma journal_ok_inv j l torn hd l' :
  journal_ok j l torn → j = Some (Some hd :: lines_of l') → torn = false → Forall (λ p, p.1 ≠ "") l.
Proof. intros [] Hj Ht; try done. Qed.

Lemma append_journal d l :
  journal_file d = Some (Some (header_line hash) :: lines_of l) →
  ∀ id p, journal_file (Append id p d) =
    Some (Some (header_line hash) :: lines_of (l ++ [(id, p)])).
Proof. intros Hj id p. cbn. rewrite Hj. cbn. unfold lines_of. by rewrite map_app. Qed.

Lemma lines_shape l torn :
  Forall (λ p, p.1 ≠ "") l →
  journal_ok (Some (Some (header_line hash) :: lines_of l ++ (if torn : bool then [None] else []))) l torn.
Proof. apply jo_lines. Qed.

Lemma jstep_inv s s' : jinv s → jstep s s' → jinv s'.
Proof.
  intros (m0 & l & torn & Hr & Hj & Hp) Hs. destruct Hs; cbn in *.
  - (* load *) rewrite (load_ok _ _ _ _ Hr Hj) in H. simplify_eq. exists m0, l, torn. done.
  - destruct Hp as [-> ->]. exists (apply_lines l m0), l, torn. cbn. rewrite String.eqb_refl.
    split_and!; try done. by rewrite apply_lines_idem.
  - destruct Hp as [-> ->]. exists (apply_lines l m0), [], false. unfold ReadCheckpoint. cbn.
    rewrite H. cbn. rewrite String.eqb_refl. split_and!; try done; constructor.
  - destruct Hp as (Hn & -> & ->). exists m0, [], false. cbn. rewrite Hn.
    split_and!; try done; constructor.
  - destruct Hp as (Hn & -> & ->). exists m0, [], false. cbn. rewrite Hn.
    split_and!; try done. by apply (jo_lines [] false).
  - destruct Hp as (-> & Hn & -> & ->). pose proof (journal_ok_inv _ _ _ _ _ Hj Hn eq_refl) as Hf.
    exists m0, (l ++ [(id, p)]), false. cbn [files journal_file]. rewrite (append_journal d l Hn).
    split_and!; try done; rewrite ?apply_lines_snoc; try done.
    + rewrite <-(app_nil_r (lines_of (l ++ [(id, p)]))). apply (jo_lines (l ++ [(id, p)]) false).
      apply Forall_app; split; [done|by constructor].
    + cbn [proc acked phase_ok]. rewrite (append_journal d l Hn), apply_lines_snoc. done.
  - (* crash *) exists m0, l, torn. split_and!; [done|done|].
    destruct ph; cbn in *; [done|left..]; destruct Hp as (Hp1 & Hp2); subst; try done.
    + destruct Hp2 as [-> ->]. rewrite Hp1 in Hj. by inversion Hj.
    + destruct Hp2 as [-> ->]. rewrite Hp1 in Hj. by inversion Hj.
    + by destruct Hp2 as (_ & -> & ->).
  - destruct Hp as (Hn & -> & ->). exists m0, [], true. cbn. rewrite Hn. split_and!; [done|constructor|by left].
  - destruct Hp as (-> & Hn & -> & ->). pose proof (journal_ok_inv _ _ _ _ _ Hj Hn eq_refl) as Hf.
    exists m0, l, true. cbn. rewrite Hn. split_and!; [done|by apply (jo_lines l true)|by left].
  - destruct Hp as (-> & Hn & -> & ->). pose proof (journal_ok_inv _ _ _ _ _ Hj Hn eq_refl) as Hf.
    exists m0, (l ++ [(id, p)]), false. cbn [files journal_file proc acked phase_ok].
    rewrite (append_journal d l Hn). split_and!; [done| |].
    + rewrite <-(app_nil_r (lines_of (l ++ [(id, p)]))). apply (jo_lines (l ++ [(id, p)]) false).
      apply Forall_app; split; [done|by constructor].
    + right. exists id, p. apply apply_lines_snoc.
Qed.

Lemma jreachable_inv s : jreachable s → jinv s.
Proof.
  induction 1 as [|s s' _ IH Hs]; [|by eapply jstep_inv].
  exists ∅, [], false. split_and!; [done|constructor|by left].
Qed.

(** C12. The checkpoint is durable: wherever runs stop, including halfway
    through writing a line or between writing the state file and removing the
    journal, loading it again succeeds and gives every acknowledged progress;
    at most one entry, whose write was not acknowledged, may be newer. *)
Theorem checkpoint_durable s :
  jreachable s →
  ∃ c, LoadCheckpoint hash (files s) = inr c ∧ close c (acked s).
Proof.
  intros (m0 & l & torn & Hr & Hj & Hp)%jreachable_inv. exists (apply_lines l m0).
  split; [by eapply load_ok|]. destruct (proc s); cbn in Hp.
  - done.
  - destruct Hp as [-> ->]. by left.
  - destruct Hp as (Hn & -> & ->). rewrite Hn in Hj. inversion Hj. by left.
  - destruct Hp as (Hn & -> & ->). rewrite Hn in Hj. inversion Hj. by left.
  - destruct Hp as (_ & _ & -> & ->). by left.
Qed.
End Durable.

(** A run that recorded one deletion and was killed writing the next line. *)
Definition deleted_old : Progress := Progress_ "t" true true false false "" 0 "".
Definition torn_disk : disk :=
  append_line None (Append "s1" deleted_old
    (OpenJournal "h" (CompactCheckpoint "h" ∅ (Disk None None)))).

Lemma torn_reachable : jreachable "h" (JState torn_disk Stopped (<["s1" := deleted_old]> ∅)).
Proof.
  eapply jreach_step; [|apply (j_torn "h" _ (<["s1" := deleted_old]> ∅))].
  eapply jreach_step; [|by apply (j_append "h" _ ∅ _ "s1" deleted_old)].
  eapply jreach_step; [|apply (j_header "h" _ ∅)].
  eapply jreach_step; [|apply (j_create "h" _ ∅)].
  eapply jreach_step; [|by apply (j_compact "h" (WriteCheckpoint "h" ∅ (Disk None None)) ∅)].
  eapply jreach_step; [|apply (j_write "h" (Disk None None) ∅)].
  eapply jreach_step; [apply jreach_init|]. by apply j_load.
Qed.

Lemma checkpoint_durable_witness :
  ∃ c, LoadCheckpoint "h" torn_disk = inr c ∧ close c (<["s1" := deleted_old]> ∅).
Proof. exact (checkpoint_durable "h" _ torn_reachable). Defined.
