(* ===== verification/MigPlan.v ===== *)
(** * What a migration moves, and in which order

    Models the pure parts of agent/internal/eventsubmigration: the snapshot
    and its validation (snapshot.go), eligibility, grouping by broadcaster and
    ordering, and how subscriptions are compared and found (migrate.go). *)

From stdpp Require Import base gmap strings list sorting.
From S2P Require Import Prelude Sorting GoErr Json MigApi.

Record Snapshot := Snapshot_ {
  Schema : Z;
  ClientID : string;
  LegacyCallbacks : string * string;
  S_TargetCallback : string;
  Subscriptions : list Subscription
}.

Definition is_object (c : option json) : bool :=
  match c with Some (JObj _) => true | _ => false end.

(** The loop of [Validate] with the ids seen so far. *)
Fixpoint validate_subs (ids : list string) (l : list Subscription) : option error :=
  match l with
  | [] => None
  | sub :: l =>
    if String.eqb (ID sub) "" || bool_decide (ID sub ∈ ids) || String.eqb (Type_ sub) "" ||
       String.eqb (Version sub) ""
    then Some (ErrMsg "invalid or duplicate snapshot subscription")
    else if negb (is_object (Condition sub)) then Some (ErrMsg "invalid subscription condition")
    else validate_subs (ID sub :: ids) l
  end.

Definition Validate (s : Snapshot) (clientID : string) : option error :=
  if negb (Schema s =? 1) || negb (String.eqb (ClientID s) clientID) ||
     negb (bool_decide (LegacyCallbacks s = (LegacyCallback, AliasCallback))) ||
     negb (String.eqb (S_TargetCallback s) TargetCallback)
  then Some (ErrMsg "snapshot identity, schema, or callback allowlist does not match")
  else validate_subs [] (Subscriptions s).

Definition active (status : string) : bool :=
  String.eqb status "enabled" || String.eqb status "webhook_callback_verification_pending".

Definition Eligible (sub : Subscription) : bool :=
  String.eqb (Method sub) "webhook" &&
  (String.eqb (Callback sub) LegacyCallback || String.eqb (Callback sub) AliasCallback) &&
  active (Status sub).

Definition Planned (s : Snapshot) : list Subscription :=
  filter (λ sub, Eligible sub = true) (Subscriptions s).

(** The first user a condition names. *)
Definition conditionUser (sub : Subscription) : string :=
  match Condition sub with
  | Some (JObj l) =>
    foldr (λ key rest, match member key l with
                       | Some (JStr id) => if String.eqb id "" then rest else id
                       | _ => rest
                       end) ""
      ["broadcaster_user_id"; "to_broadcaster_user_id"; "from_broadcaster_user_id"; "user_id";
       "moderator_user_id"]
  | _ => ""
  end.

Definition query (sub : Subscription) : string :=
  let id := conditionUser sub in
  if String.eqb id "" then "type=" +:+ Type_ sub else "user_id=" +:+ id.

Record Group := Group_ {
  Key : string;
  Broadcaster : string;
  LastActive : time;
  g_subs : list Subscription
}.

Definition group_key (sub : Subscription) : string :=
  let user := conditionUser sub in
  if String.eqb user "" then "twitch-eventsub-" +:+ ID sub else "twitch:" +:+ user.

(** One iteration of the grouping loop of [Order]. *)
Fixpoint add_to_groups (activity : gmap string time) (sub : Subscription) (gs : list Group) : list Group :=
  match gs with
  | [] =>
    let user := conditionUser sub in
    [Group_ (group_key sub) user
       (if String.eqb user "" then zero_time else default zero_time (activity !! user)) [sub]]
  | g :: gs =>
    if String.eqb (Key g) (group_key sub)
    then Group_ (Key g) (Broadcaster g) (LastActive g) (g_subs g ++ [sub]) :: gs
    else g :: add_to_groups activity sub gs
  end.

Definition sub_less (a b : Subscription) : bool := String.ltb (ID a) (ID b).
Definition group_less (a b : Group) : bool :=
  if negb (time_equal (LastActive a) (LastActive b)) then time_after (LastActive a) (LastActive b)
  else if negb (Bool.eqb (String.eqb (Broadcaster a) "") (String.eqb (Broadcaster b) ""))
  then String.eqb (Broadcaster b) ""
  else String.ltb (Key a) (Key b).

Definition sort_group (g : Group) : Group :=
  Group_ (Key g) (Broadcaster g) (LastActive g) (sort_by sub_less (g_subs g)).

Definition Order (s : Snapshot) (activity : gmap string time) : list Group :=
  let groups := foldl (λ gs sub, add_to_groups activity sub gs) [] (Planned s) in
  sort_by group_less (map sort_group groups).

(** ** Comparing subscriptions *)

(** The bytes a condition is compared by; nil when it does not decode. *)
Definition canonical (c : option json) : option json := normalize <$> c.

Definition same (a b : Subscription) : bool :=
  String.eqb (Type_ a) (Type_ b) && String.eqb (Version a) (Version b) &&
  bool_decide (canonical (Condition a) = canonical (Condition b)).

Definition matches (sub wanted : Subscription) (callback : string) : bool :=
  same sub wanted && String.eqb (Method sub) "webhook" && String.eqb (Callback sub) callback.

(** An enabled match, else the last pending one. *)
Fixpoint find_from (pending : option Subscription) (l : list Subscription) (wanted : Subscription)
    (callback : string) : option Subscription :=
  match l with
  | [] => pending
  | sub :: l =>
    if negb (matches sub wanted callback) then find_from pending l wanted callback
    else if String.eqb (Status sub) "enabled" then Some sub
    else if String.eqb (Status sub) "webhook_callback_verification_pending"
    then find_from (Some sub) l wanted callback
    else find_from pending l wanted callback
  end.
Definition find := find_from None.

Fixpoint byID (l : list Subscription) (id : string) : option Subscription :=
  match l with
  | [] => None
  | sub :: l => if String.eqb (ID sub) id then Some sub else byID l id
  end.

Definition roomAfterSwap (total max_ freed : Z) : bool :=
  let needed := if freed <? 1 then 1 else freed in
  (max_ <=? 0) || (wrap64 (total - freed + needed) <=? max_).

(** ** Lemmas *)

Lemma same_spec a b :
  same a b = true ↔ Type_ a = Type_ b ∧ Version a = Version b ∧
                    canonical (Condition a) = canonical (Condition b).
Proof. unfold same. rewrite !andb_true_iff, !String.eqb_eq, bool_decide_eq_true. naive_solver. Qed.

Lemma matches_spec a b cb :
  matches a b cb = true ↔ same a b = true ∧ Method a = "webhook" ∧ Callback a = cb.
Proof. unfold matches. rewrite !andb_true_iff, !String.eqb_eq. naive_solver. Qed.

Lemma matches_trans a b c cb cb' :
  matches a b cb = true → matches b c cb' = true → matches a c cb = true.
Proof. rewrite !matches_spec, !same_spec. naive_solver congruence. Qed.

Lemma find_from_spec p l wanted cb sub :
  find_from p l wanted cb = Some sub →
  p = Some sub ∨ sub ∈ l ∧ matches sub wanted cb = true ∧ active (Status sub) = true.
Proof.
  revert p. induction l as [|x l IH]; intros p; cbn; [by left|].
  destruct (matches x wanted cb) eqn:Hm; cbn; [|intros [?|?]%IH; [by left|right; set_solver]].
  destruct (String.eqb_spec (Status x) "enabled") as [He|].
  { intros [= <-]. right. split_and!; [by left|done|]. unfold active. by rewrite He. }
  destruct (String.eqb_spec (Status x) "webhook_callback_verification_pending") as [He|].
  - intros [[= <-]|?]%IH; right; [|set_solver]. split_and!; [by left|done|]. unfold active. by rewrite He.
  - intros [?|?]%IH; [by left|right; set_solver].
Qed.

Lemma find_spec l wanted cb sub :
  find l wanted cb = Some sub → sub ∈ l ∧ matches sub wanted cb = true ∧ active (Status sub) = true.
Proof. intros [?|?]%find_from_spec; done. Qed.

Lemma byID_spec l id sub : byID l id = Some sub → sub ∈ l ∧ ID sub = id.
Proof.
  induction l as [|x l IH]; cbn; [done|]. destruct (String.eqb_spec (ID x) id).
  - intros [= <-]. split; [by left|done].
  - intros [? ?]%IH. split; [by right|done].
Qed.

(** ** The order *)

Definition all_subs (gs : list Group) : list Subscription := gs ≫= g_subs.

Lemma add_to_groups_perm activity sub gs : all_subs (add_to_groups activity sub gs) ≡ₚ sub :: all_subs gs.
Proof.
  unfold all_subs. induction gs as [|g gs IH]; cbn; [done|]. case_match; cbn.
  - rewrite <-app_assoc. cbn. by rewrite Permutation_middle.
  - rewrite IH. by rewrite Permutation_middle.
Qed.

Lemma grouped_perm activity l gs :
  all_subs (foldl (λ gs sub, add_to_groups activity sub gs) gs l) ≡ₚ l ++ all_subs gs.
Proof.
  revert gs. induction l as [|sub l IH]; intros gs; cbn; [done|].
  rewrite IH, add_to_groups_perm. by rewrite Permutation_middle.
Qed.

Lemma add_keys activity sub gs k : k ∈ map Key (add_to_groups activity sub gs) ↔ k = group_key sub ∨ k ∈ map Key gs.
Proof.
  induction gs as [|g gs IH]; cbn; [set_solver|]. destruct (String.eqb_spec (Key g) (group_key sub)); cbn; set_solver.
Qed.

(** The key tells the user. *)
Lemma group_key_user a b : group_key a = group_key b → conditionUser a = conditionUser b.
Proof.
  unfold group_key. intros H.
  destruct (String.eqb_spec (conditionUser a) "") as [Ha|], (String.eqb_spec (conditionUser b) "") as [Hb|];
    [congruence|done|done|]. by apply (app_str_inj "twitch:") in H.
Qed.

(** [group_less] by the rank of a group. *)
Definition no_user (g : Group) : bool := String.eqb (Broadcaster g) "".
Lemma group_less_iff a b :
  group_less a b = true ↔
  LastActive b < LastActive a ∨ LastActive a = LastActive b ∧
  (no_user a = false ∧ no_user b = true ∨ no_user a = no_user b ∧ String.ltb (Key a) (Key b) = true).
Proof.
  unfold group_less, time_equal, time_after. fold (no_user a) (no_user b).
  destruct (Z.eqb_spec (LastActive a) (LastActive b)) as [He|He]; cbn.
  - destruct (no_user a), (no_user b); cbn; intuition (congruence || lia).
  - rewrite Z.ltb_lt. intuition lia.
Qed.

Lemma group_less_asym a b : group_less a b = true → group_less b a = false.
Proof.
  rewrite group_less_iff. intros H. apply not_true_iff_false. rewrite group_less_iff.
  intros H'. destruct H as [?|(? & [[? ?]|[? Hk]])], H' as [?|(? & [[? ?]|[? Hk']])]; try lia; try congruence.
  apply string_ltb_asym in Hk. congruence.
Qed.

Lemma group_less_neg a b :
  group_less b a = false ↔
  LastActive b < LastActive a ∨ LastActive a = LastActive b ∧
  (no_user a = false ∧ no_user b = true ∨ no_user a = no_user b ∧ String.ltb (Key b) (Key a) = false).
Proof.
  unfold group_less, time_equal, time_after. fold (no_user a) (no_user b).
  destruct (Z.eqb_spec (LastActive b) (LastActive a)) as [He|He]; cbn.
  - destruct (no_user a), (no_user b); cbn; intuition (congruence || lia).
  - rewrite Z.ltb_ge. intuition lia.
Qed.

Lemma group_less_trans a b c :
  group_less b a = false → group_less c b = false → group_less c a = false.
Proof.
  rewrite !group_less_neg. intros [?|(E1 & H1)] [?|(E2 & H2)]; [left; lia..|].
  right. split; [lia|]. destruct H1 as [[? ?]|[? K1]], H2 as [[? ?]|[? K2]].
  - congruence.
  - left. split; congruence.
  - left. split; congruence.
  - right. split; [congruence|]. by eapply string_geb_trans.
Qed.

(** A group holds at least one subscription. *)
Definition group_ok (g : Group) : Prop :=
  g_subs g ≠ [] ∧
  Forall (λ sub, group_key sub = Key g ∧ conditionUser sub = Broadcaster g) (g_subs g).

Lemma add_groups_ok activity sub gs :
  Forall group_ok gs → NoDup (map Key gs) →
  Forall group_ok (add_to_groups activity sub gs) ∧ NoDup (map Key (add_to_groups activity sub gs)).
Proof.
  intros Hf Hn. induction gs as [|g gs IH]; cbn.
  { split; [repeat constructor; done|]. by repeat constructor; set_solver. }
  apply Forall_cons in Hf as [Hg Hf]. cbn in Hn. apply NoDup_cons in Hn as [Hk Hn].
  destruct (IH Hf Hn) as [IH1 IH2].
  destruct (String.eqb_spec (Key g) (group_key sub)) as [He|He]; cbn.
  - split; [|by constructor]. constructor; [|done]. destruct Hg as [Hne Hg]. split; [cbn; by destruct (g_subs g)|].
    cbn. apply Forall_app. split; [done|]. constructor; [|done]. split; [done|].
    destruct (g_subs g) as [|x l]; [done|]. apply Forall_cons in Hg as [[Hx <-] _].
    apply group_key_user. congruence.
  - split; [by constructor|]. constructor; [|done]. rewrite add_keys. naive_solver.
Qed.

Lemma grouped_ok activity l gs :
  Forall group_ok gs → NoDup (map Key gs) →
  let gs' := foldl (λ gs sub, add_to_groups activity sub gs) gs l in
  Forall group_ok gs' ∧ NoDup (map Key gs').
Proof.
  revert gs. induction l as [|sub l IH]; intros gs Hf Hn; cbn; [done|].
  destruct (add_groups_ok activity sub gs Hf Hn). by apply IH.
Qed.

Lemma sort_group_ok g : group_ok g → group_ok (sort_group g).
Proof.
  intros [Hn Hf]. split; cbn.
  - intros H. pose proof (sort_by_perm sub_less (g_subs g)) as Hp. rewrite H in Hp.
    by apply Permutation_nil_l in Hp.
  - by rewrite sort_by_perm.
Qed.

Lemma order_perm s activity : all_subs (Order s activity) ≡ₚ Planned s.
Proof.
  unfold Order. set (gs := foldl _ [] (Planned s)).
  unfold all_subs. rewrite (sort_by_perm group_less (map sort_group gs)).
  etrans; [|etrans; [apply (grouped_perm activity (Planned s) [])|]].
  - fold gs. clear. unfold all_subs. induction gs as [|g gs IH]; cbn; [done|].
    by rewrite IH, sort_by_perm.
  - by rewrite app_nil_r.
Qed.

(** The order of a migration: every planned subscription is in exactly one
    group, exactly once; a group holds the subscriptions of one broadcaster (or
    one without a user) under one key, in order of their ids; groups come most
    recently active first, then those with a user, then by key. *)
Theorem order_partitions s activity :
  all_subs (Order s activity) ≡ₚ Planned s ∧
  Forall group_ok (Order s activity) ∧
  NoDup (map Key (Order s activity)) ∧
  StronglySorted (λ a b, group_less b a = false) (Order s activity) ∧
  Forall (λ g, StronglySorted (λ a b, sub_less b a = false) (g_subs g)) (Order s activity).
Proof.
  split; [apply order_perm|]. unfold Order. set (gs := foldl _ [] (Planned s)).
  assert (Hg : Forall group_ok gs ∧ NoDup (map Key gs)) by (apply grouped_ok; constructor).
  destruct Hg as [Hg1 Hg2]. pose proof (sort_by_perm group_less (map sort_group gs)) as Hp. split_and!.
  - rewrite Hp. apply Forall_map. eapply Forall_impl; [done|]. intros g. apply sort_group_ok.
  - rewrite Hp, map_map. done.
  - apply sort_by_sorted; [apply group_less_asym|apply group_less_trans].
  - rewrite Hp. apply Forall_map, Forall_forall. intros g _. cbn.
    apply sort_by_sorted; [intros ? ?; apply string_ltb_asym|intros ? ? ?; apply string_geb_trans].
Qed.
