(* ===== verification/Migrate.v ===== *)
(** * Moving subscriptions

    Models agent/internal/eventsubmigration/migrate.go: finding or creating a
    replacement, waiting for it to be enabled, deleting the source, the
    break-before-make at the cost cap and its restore, rollback, one chunk of a
    broadcaster's work under a lease, and Run. Reads of a context's error are
    effects; polling loops take fuel, and a poll that runs out is a failed
    verification, which retains the source. *)

From stdpp Require Import base gmap strings list.
From S2P Require Import Prelude GoErr Effects Http Json MigApi MigPlan.

(** The settings of a Migrator. *)
Record config := Config {
  c_snapshot : Snapshot;
  c_clientID : string;
  c_hash_ok : bool;          (* the checkpoint's hash is the snapshot's *)
  c_secret : string;
  c_restoreSecret : string;
  c_activity : gmap string time;
  c_maxAttempts : Z;
  c_retryFailed : bool;
  c_chunkSize : Z;
  c_chunkBudget : duration;
  c_pollInterval : duration;
  c_fuel : nat               (* pages of a listing, polls of a verification *)
}.

Record chunk := Chunk {
  rest : list Subscription;
  start : time;
  work : Z;
  migrated : Z;
  failed : Z;
  costBlocked : Z;
  interrupted : bool;
  fatal_err : option error;
  uncertain_err : option error
}.
Definition new_chunk (l : list Subscription) : chunk := Chunk l zero_time 0 0 0 0 false None None.

Record Summary := Summary_ {
  s_Planned : Z; s_Migrated : Z; s_AlreadyDone : Z; s_Failed : Z; s_SkippedFailed : Z;
  s_CostBlocked : Z; s_Remaining : Z
}.

(** [fatal]: a failed checkpoint write or a rejected token. *)
Definition fatal (e : error) : bool := is_checkpoint e || is_status e 401.

Definition set_rest (l : list Subscription) (o : chunk) : chunk :=
  Chunk l (start o) (work o) (migrated o) (failed o) (costBlocked o) (interrupted o) (fatal_err o) (uncertain_err o).
Definition set_start (t : time) (o : chunk) : chunk :=
  Chunk (rest o) t (work o) (migrated o) (failed o) (costBlocked o) (interrupted o) (fatal_err o) (uncertain_err o).
Definition add_work (n : Z) (o : chunk) : chunk :=
  Chunk (rest o) (start o) (work o + n) (migrated o) (failed o) (costBlocked o) (interrupted o) (fatal_err o) (uncertain_err o).
Definition set_interrupted (o : chunk) : chunk :=
  Chunk (rest o) (start o) (work o) (migrated o) (failed o) (costBlocked o) true (fatal_err o) (uncertain_err o).
Definition set_fatal (e : error) (o : chunk) : chunk :=
  Chunk (rest o) (start o) (work o) (migrated o) (failed o) (costBlocked o) (interrupted o) (Some e) (uncertain_err o).
Definition set_uncertain (e : error) (o : chunk) : chunk :=
  Chunk (rest o) (start o) (work o) (migrated o) (failed o) (costBlocked o) true (fatal_err o) (Some e).
Definition add_migrated (o : chunk) : chunk :=
  Chunk (rest o) (start o) (work o) (migrated o + 1) (failed o) (costBlocked o) (interrupted o) (fatal_err o) (uncertain_err o).
Definition add_failed (o : chunk) : chunk :=
  Chunk (rest o) (start o) (work o) (migrated o) (failed o + 1) (costBlocked o) (interrupted o) (fatal_err o) (uncertain_err o).
Definition add_costBlocked (o : chunk) : chunk :=
  Chunk (rest o) (start o) (work o) (migrated o) (failed o) (costBlocked o + 1) (interrupted o) (fatal_err o) (uncertain_err o).

Definition stopped (o : chunk) : bool := is_some (fatal_err o) || interrupted o.

(** Field updates of a Progress. *)
Definition with_target (p : Progress) (id : string) (created : bool) : Progress :=
  Progress_ id created (DeletedOld p) (RolledBack p) (SourceDeleted p) (RestoredID p) (Attempts p) (LastError p).
Definition with_deletedOld (p : Progress) : Progress :=
  Progress_ (TargetID p) (Created p) true (RolledBack p) false (RestoredID p) (Attempts p) "".
Definition with_sourceDeleted (p : Progress) (b : bool) : Progress :=
  Progress_ (TargetID p) (Created p) (DeletedOld p) (RolledBack p) b (RestoredID p) (Attempts p) (LastError p).
Definition with_restored (p : Progress) (id : string) : Progress :=
  Progress_ (TargetID p) (Created p) (DeletedOld p) (RolledBack p) false id (Attempts p) (LastError p).
Definition with_rolledBack (p : Progress) : Progress :=
  Progress_ (TargetID p) (Created p) (DeletedOld p) true (SourceDeleted p) (RestoredID p) (Attempts p) (LastError p).
Definition with_failure (p : Progress) (text : string) : Progress :=
  Progress_ (TargetID p) (Created p) (DeletedOld p) (RolledBack p) (SourceDeleted p) (RestoredID p)
    (Attempts p + 1) text.
Definition with_cost (s : Subscription) (c : Z) : Subscription :=
  Subscription_ (ID s) (Status s) (Type_ s) (Version s) (Condition s) c (Method s) (Callback s).

Section Migrate.
Variable http_date : string → option time.
(** [err.Error()]. *)
Variable error_text : error → string.
Variable η : env meff.
Variable cfg : config.
Local Abbreviation M := (M (world meff mstate)).

(** A listing whose query is used once. *)
Definition list_ (q : string) : M (Listing * option error) :=
  l ← List http_date η (c_fuel cfg) q ""; mret l.1.
(** The same where an error ends the caller. *)
Definition listE (q : string) : M (result Listing) :=
  l ← list_ q; mret (match l.2 with Some e => inl e | None => inr l.1 end).
Definition create (source : Subscription) (cb secret : string) : M (result Subscription) :=
  Create http_date η source cb secret.
Definition delete_ (id : string) : M (result unit) := Delete http_date η id.

Definition originalID (id : string) : bool := existsb (λ s, String.eqb (ID s) id) (Subscriptions (c_snapshot cfg)).

Definition progress_of (id : string) : M Progress :=
  s ← get_st; mret (default no_progress (entries s !! id)).

Definition save (id : string) (p : Progress) : M (result unit) :=
  modify_st (set_entry id p) ;;
  e ← ask η (Save id p);
  match e with Some e => throw (ErrCheckpoint e) | None => ok tt end.

Definition liveID (source : Subscription) : M string :=
  p ← progress_of (ID source);
  mret (if String.eqb (RestoredID p) "" then ID source else RestoredID p).

(** ** Replacements *)

Definition duplicates (source : Subscription) (l : list Subscription) : Z :=
  Z.of_nat (length (filter (λ sub, String.eqb (Type_ sub) (Type_ source) &&
    bool_decide (canonical (Condition sub) = canonical (Condition source)) && active (Status sub) = true) l)).

(** What was found or created, and whether it was created. *)
Definition replacement (source : Subscription) (cb secret : string) (listing : Listing) :
    M (result (Subscription * bool)) :=
  match find (Data listing) source cb with
  | Some existing => ok (existing, false)
  | None =>
    if 3 <=? duplicates source (Data listing) then
      throw (ErrMsg "three-per-type/condition limit has no temporary slot; source retained")
    else if (0 <? Cost source) && (0 <? MaxTotalCost listing) &&
            (MaxTotalCost listing <? wrap64 (TotalCost listing + Cost source)) then
      throw (ErrWrap "insufficient temporary cost headroom; source retained" ErrCostLimit)
    else
      r ← create source cb secret;
      match r with
      | inl e =>
        if is_status e 409 then
          l ←? listE (query source);
          match find (Data l) source cb with
          | Some target => ok (target, false)
          | None => throw (ErrMsg "409 without matching destination subscription; source retained")
          end
        else throw e
      | inr created =>
        if String.eqb (ID created) "" || negb (matches created source cb) || negb (active (Status created))
        then throw (ErrMsg "creation response does not match intended replacement; source retained")
        else ok (created, true)
      end
  end.

Definition poll_interval : duration := if c_pollInterval cfg <=? 0 then second else c_pollInterval cfg.

(** [enabled]: poll one subscription until it is enabled. *)
Fixpoint enabled (fuel : nat) (wanted : Subscription) (cb : string) : M (result unit) :=
  match fuel with
  | O => throw (ErrMsg "replacement did not become enabled: fuel")
  | S fuel =>
    l ← list_ ("subscription_id=" +:+ ID wanted);
    match l.2 with
    | Some e => throw (ErrWrap "replacement verification failed" e)
    | None =>
      let again :=
        e ← ask η (Sleep poll_interval);
        match e with
        | Some e => throw (ErrWrap "replacement did not become enabled" e)
        | None => enabled fuel wanted cb
        end in
      match byID (Data l.1) (ID wanted) with
      | Some current =>
        if negb (matches current wanted cb) then throw (ErrMsg "replacement identity changed")
        else if String.eqb (Status current) "enabled" then ok tt
        else if negb (active (Status current)) then throw (ErrMsg "replacement status")
        else again
      | None => again
      end
    end
  end.

(** ** Forward *)

(** [prepare]: the replacement, or None for break-before-make. *)
Definition prepare (source : Subscription) (listing : Listing) : M (result (option Subscription)) :=
  progress ← progress_of (ID source);
  live ← liveID source;
  let current := byID (Data listing) live in
  if match current with Some c => negb (matches c source (Callback source)) | None => false end then
    throw (ErrMsg "source no longer matches backed-up descriptor")
  else match find (Data listing) source TargetCallback with
  | Some existing =>
    save (ID source) (with_target progress (ID existing) (Created progress || negb (originalID (ID existing)))) ;?
    ok (Some existing)
  | None =>
    if SourceDeleted progress && negb (is_some current) then ok None
    else
      let cost := match current with Some c => Cost c | None => Cost source end in
      st ← get_st;
      let total := if cost_known st then cost_total st else TotalCost listing in
      let max_ := if cost_known st then cost_max st else MaxTotalCost listing in
      if (0 <? cost) && (0 <? max_) && (max_ <? wrap64 (total + cost)) then
        if is_some current && negb (roomAfterSwap total max_ cost) then throw ErrCostBlocked
        else ok None
      else
        r ← replacement (with_cost source cost) TargetCallback (c_secret cfg)
              (Listing_ (Data listing) total max_);
        match r with
        | inl e => if is_cost_limit e then ok None else throw e
        | inr (target, created) =>
          s ← save (ID source) (with_target progress (ID target)
                (Created progress || created || negb (originalID (ID target))));
          match s with
          | inl e => throw (ErrWrap "replacement exists but checkpoint failed; source retained" e)
          | inr _ => ok (Some target)
          end
        end
  end.

(** A target while it is verified: unresolved, enabled, or failed. *)
Inductive verdict := Waiting | Enabled | Failed (e : error).

(** One target against one listing. *)
Definition judge (l : list Subscription) (target : Subscription) (v : verdict) : verdict :=
  match v with
  | Waiting =>
    match byID l (ID target) with
    | None => Waiting
    | Some current =>
      if negb (matches current target TargetCallback) then
        Failed (ErrMsg "replacement identity changed; source retained")
      else if String.eqb (Status current) "enabled" then Enabled
      else if negb (active (Status current)) then Failed (ErrMsg "replacement status; source retained")
      else Waiting
    end
  | _ => v
  end.

(** The failures when polling ends: those still waiting fail with [e]. *)
Definition close_verdicts (e : error) (vs : list verdict) : list (option error) :=
  map (λ v, match v with Waiting => Some e | Enabled => None | Failed e => Some e end) vs.

Definition is_waiting (v : verdict) : bool := match v with Waiting => true | _ => false end.

(** The polls share one query: a poll starts where the one before it ended. *)
Fixpoint await_from (fuel : nat) (q after : string) (targets : list Subscription) (vs : list verdict) :
    M (Listing * list (option error)) :=
  match fuel with
  | O => mret (empty_listing, map (λ _, Some (ErrMsg "fuel")) vs)
  | S fuel =>
    r ← List http_date η (c_fuel cfg) q after;
    let '(l, err, after) := r in
    match err with
    | Some e => mret (l, close_verdicts (ErrWrap "replacement verification failed; source retained" e) vs)
    | None =>
      let vs := zip_with (judge (Data l)) targets vs in
      if negb (existsb is_waiting vs) then mret (l, close_verdicts (ErrMsg "unreachable") vs)
      else
        e ← ask η (Sleep poll_interval);
        match e with
        | Some e => mret (l, close_verdicts (ErrWrap "replacement did not become enabled; source retained" e) vs)
        | None => await_from fuel q after targets vs
        end
    end
  end.

Definition awaitEnabled (q : string) (targets : list Subscription) : M (Listing * list (option error)) :=
  await_from (c_fuel cfg) q "" targets (map (λ _, Waiting) targets).

Definition deleteSource (source : Subscription) (live : Listing) : M (result unit) :=
  id ← liveID source;
  r ← match byID (Data live) id with
      | Some current =>
        if negb (matches current source (Callback source)) then throw (ErrMsg "source changed before deletion")
        else delete_ id
      | None => ok tt
      end;
  match r with
  | inl e => throw e
  | inr _ =>
    progress ← progress_of (ID source);
    save (ID source) (with_deletedOld progress)
  end.

(** [restore]: a subscription deleted for a replacement that failed. *)
Definition restore (source : Subscription) (cb failedID : string) (cause : error) : M (result unit) :=
  if fatal cause then throw cause
  else
    (if String.eqb failedID "" then ok tt else delete_ failedID) ≫= λ _,
    r ← create source cb (c_restoreSecret cfg);
    let r := match r with
             | inr restored => if String.eqb (ID restored) "" || negb (matches restored source cb)
                               then inl (ErrMsg "restore response does not match") else inr restored
             | inl e => inl e
             end in
    match r with
    | inl _ => throw (ErrWrap "replacement failed after deleting the subscription, and recreating it failed; resume will retry" cause)
    | inr restored =>
      progress ← progress_of (ID source);
      s ← save (ID source) (with_restored progress (ID restored));
      match s with
      | inl e => throw e
      | inr _ => throw (ErrWrap "replacement failed after deleting the subscription; recreated it" cause)
      end
    end.

(** The deletion of [breakBeforeMake]: checkpointed first. The progress it
    leaves. *)
Definition break_source (source : Subscription) (id : string) (live : Listing) (progress : Progress) :
    M (result Progress) :=
  match byID (Data live) id with
  | Some current =>
    if negb (matches current source (Callback source)) then throw (ErrMsg "source changed before deletion")
    else if negb (roomAfterSwap (TotalCost live) (MaxTotalCost live) (Cost current)) then throw ErrCostBlocked
    else
      let progress := with_sourceDeleted progress true in
      save (ID source) progress ;?
      delete_ id ;?
      ok progress
  | None => ok progress
  end.

Definition breakBeforeMake (source : Subscription) : M (result unit) :=
  progress ← progress_of (ID source);
  id ← liveID source;
  live ←? listE ("subscription_id=" +:+ id);
  progress ←? break_source source id live progress;
  r ← create source TargetCallback (c_secret cfg);
  let r := match r with
           | inr created =>
             if String.eqb (ID created) "" || negb (matches created source TargetCallback) ||
                negb (active (Status created))
             then inl (ErrMsg "creation response does not match intended replacement") else inr created
           | inl e => inl e
           end in
  match r with
  | inl e => restore source (Callback source) "" e
  | inr created =>
    let progress := with_target progress (ID created) true in
    save (ID source) progress ;?
    v ← enabled (c_fuel cfg) created TargetCallback;
    match v with
    | inl e => restore source (Callback source) (ID created) e
    | inr _ => save (ID source) (with_deletedOld progress)
    end
  end.

(** ** One lease's work *)

Definition budget : duration := if 0 <? c_chunkBudget cfg then c_chunkBudget cfg else 15 * second.
Definition chunk_size : Z := if c_chunkSize cfg <=? 0 then 15 else c_chunkSize cfg.

Definition chunkFull (out : chunk) (allowed : Z) : M bool :=
  if (0 <? allowed) && (allowed <=? work out) then mret true
  else if work out <=? 0 then mret false
  else if chunk_size <=? work out then mret true
  else
    now ← ask η Now;
    if budget <? time_sub now (start out) then mret true else pacer_Throttled η.

(** [settle]: one subscription's outcome. *)
Definition settle (out : chunk) (source : Subscription) (err : option error) : M chunk :=
  match err with
  | None => mret (add_migrated out)
  | Some err =>
    if is_cost_blocked err then mret (add_costBlocked out)
    else
      ce ← ask η (CtxErr RunCtx);
      match ce with
      | Some ce => mret (set_fatal ce out)
      | None =>
        if fatal err then mret (set_fatal err out)
        else
          progress ← progress_of (ID source);
          s ← save (ID source) (with_failure progress (error_text err));
          match s with
          | inl e => mret (set_fatal e out)
          | inr _ =>
            let out := add_failed out in
            let out := if is_uncertain err then set_uncertain err out else out in
            le ← ask η (CtxErr LeaseCtx);
            mret (if is_some le then set_interrupted out else out)
          end
      end
  end.

(** The first loop of [forwardChunk]: what is left, the moves and the swaps. *)
Fixpoint prepare_each (subs : list Subscription) (listing : Listing) (allowed : Z) (out : chunk)
    (moves : list (Subscription * Subscription)) (swaps : list Subscription) :
    M (chunk * list (Subscription * Subscription) * list Subscription) :=
  match subs with
  | [] => mret (set_rest [] out, moves, swaps)
  | source :: rest =>
    full ← (if stopped out then mret true else chunkFull out allowed);
    if (full : bool) then mret (set_rest subs out, moves, swaps)
    else
      r ← prepare source listing;
      let out := if match r with inl e => is_cost_blocked e | inr _ => false end then out else add_work 1 out in
      match r with
      | inl e => out ← settle out source (Some e); prepare_each rest listing allowed out moves swaps
      | inr None => prepare_each rest listing allowed out moves (swaps ++ [source])
      | inr (Some target) => prepare_each rest listing allowed out (moves ++ [(source, target)]) swaps
      end
  end.

(** Deleting the sources of verified moves; [false] when a fatal error stops. *)
Fixpoint finish_moves (moves : list (Subscription * Subscription)) (failures : list (option error))
    (live : Listing) (out : chunk) : M (chunk * bool) :=
  match moves with
  | [] => mret (out, true)
  | (source, target) :: moves =>
    e ← match failures with
        | Some e :: _ => mret (Some e)
        | _ => r ← deleteSource source live; mret (err_of r)
        end;
    out ← settle out source e;
    if is_some (fatal_err out) then mret (out, false)
    else finish_moves moves (drop 1 failures) live out
  end.

Fixpoint fail_moves (moves : list (Subscription * Subscription)) (e : error) (out : chunk) : M chunk :=
  match moves with
  | [] => mret out
  | (source, _) :: moves => out ← settle out source (Some e); fail_moves moves e out
  end.

(** The last loop: break-before-make, [first] for its first turn. *)
Fixpoint swap_each (swaps : list Subscription) (first : bool) (out : chunk) : M chunk :=
  match swaps with
  | [] => mret out
  | source :: rest_ =>
    late ← (if stopped out then mret true
            else if first then mret false
            else now ← ask η Now; mret (wrap64 (2 * budget) <? time_sub now (start out)));
    if (late : bool) then
      mret (add_work (- Z.of_nat (length swaps)) (set_rest (swaps ++ rest out) out))
    else
      r ← breakBeforeMake source;
      out ← settle out source (err_of r);
      swap_each rest_ false out
  end.

Definition forwardChunk (subs : list Subscription) (allowed : Z) : M chunk :=
  now ← ask η Now;
  let out := set_start now (new_chunk subs) in
  match subs with
  | [] => mret out
  | first :: others =>
    l ← list_ (query first);
    match l.2 with
    | Some e =>
      let out := add_work 1 (set_rest others out) in
      out ← settle out first (Some e);
      mret (set_interrupted out)
    | None =>
      p ← prepare_each subs l.1 allowed out [] [];
      let '(out, moves, swaps) := p in
      if is_some (fatal_err out) then mret out
      else
        le ← ask η (CtxErr LeaseCtx);
        r ← match moves, le with
            | _ :: _, None =>
              a ← awaitEnabled (query first) (map snd moves);
              finish_moves moves a.2 a.1 out
            | _, _ =>
              out ← fail_moves moves (ErrWrap "lease expired before verification; source retained"
                                        (default ErrCanceled le)) out;
              mret (out, true)
            end;
        let '(out, continue) := r in
        if (continue : bool) then swap_each swaps true out else mret out
    end
  end.

(** ** Rollback *)

Definition owned (l : list Subscription) (source : Subscription) : list Subscription :=
  filter (λ sub, matches sub source TargetCallback && negb (originalID (ID sub)) = true) l.

Definition deleteOwned (sub source : Subscription) : M (result unit) :=
  live ←? listE ("subscription_id=" +:+ ID sub);
  match byID (Data live) (ID sub) with
  | None => ok tt
  | Some current =>
    if negb (matches current source TargetCallback) then throw (ErrMsg "rollback source identity changed")
    else delete_ (ID sub)
  end.

Fixpoint delete_owned (subs : list Subscription) (source : Subscription) : M (result unit) :=
  match subs with
  | [] => ok tt
  | sub :: subs => deleteOwned sub source ;? delete_owned subs source
  end.

Definition rollbackBreakFirst (source : Subscription) (listing : Listing) (own : list Subscription) :
    M (result unit) :=
  if bool_decide (length own = 0%nat) then
    throw (ErrWrap "no cost headroom and no migration-owned replacement to free it; legacy not restored" ErrCostLimit)
  else
    let freed := foldl (λ n sub, wrap64 (n + Cost sub)) 0 own in
    if (0 <? MaxTotalCost listing) && (MaxTotalCost listing <? wrap64 (TotalCost listing - freed + 1))
    then throw ErrCostBlocked
    else
      progress ← progress_of (ID source);
      save (ID source) (with_sourceDeleted progress true) ;?
      delete_owned own source ;?
      r ← create source (Callback source) (c_secret cfg);
      let r := match r with
               | inr created => if String.eqb (ID created) "" || negb (matches created source (Callback source))
                                then inl (ErrMsg "creation response does not match intended legacy subscription")
                                else inr created
               | inl e => inl e
               end in
      match r with
      | inl e => restore source TargetCallback "" e
      | inr created =>
        v ← enabled (c_fuel cfg) created (Callback source);
        match v with
        | inl e => restore source TargetCallback (ID created) e
        | inr _ =>
          progress ← progress_of (ID source);
          save (ID source) (with_rolledBack (with_sourceDeleted progress false))
        end
      end.

Definition rollback (source : Subscription) : M (result unit) :=
  listing ←? listE (query source);
  progress ← progress_of (ID source);
  let own := owned (Data listing) source in
  if negb (Created progress) && negb (DeletedOld progress) && negb (SourceDeleted progress) &&
     bool_decide (length own = 0%nat)
  then save (ID source) (with_rolledBack progress)
  else
    r ← replacement source (Callback source) (c_secret cfg) listing;
    match r with
    | inl e => if is_cost_limit e then rollbackBreakFirst source listing own else throw e
    | inr (destination, _) =>
      enabled (c_fuel cfg) destination (Callback source) ;?
      delete_owned own source ;?
      progress ← progress_of (ID source);
      save (ID source) (with_rolledBack progress)
    end.

Fixpoint rollback_each (subs : list Subscription) (allowed : Z) (out : chunk) : M chunk :=
  match subs with
  | [] => mret (set_rest [] out)
  | source :: rest =>
    full ← (if stopped out then mret true else chunkFull out allowed);
    if (full : bool) then mret (set_rest subs out)
    else
      r ← rollback source;
      let out := if match r with inl e => is_cost_blocked e | inr _ => false end then out else add_work 1 out in
      out ← settle out source (err_of r);
      rollback_each rest allowed out
  end.

Definition rollbackChunk (subs : list Subscription) (allowed : Z) : M chunk :=
  now ← ask η Now;
  rollback_each subs allowed (set_start now (new_chunk subs)).

(** ** Run *)

Definition done (p : Progress) (rb : bool) : bool := if rb then RolledBack p else DeletedOld p.
Definition max_attempts : Z := if c_maxAttempts cfg <=? 0 then 3 else c_maxAttempts cfg.
Definition skip (p : Progress) : bool := negb (c_retryFailed cfg) && (max_attempts <=? Attempts p).

(** The entries of a source in the checkpoint. *)
Definition entry (s : mstate) (source : Subscription) : Progress :=
  default no_progress (entries s !! ID source).

Definition pending_of (rb : bool) (g : Group) (s : mstate) : list Subscription :=
  filter (λ source, negb (done (entry s source) rb) && negb (skip (entry s source)) = true) (g_subs g).

Definition count (f : Subscription → bool) (l : list Subscription) : Z :=
  Z.of_nat (length (filter (λ x, f x = true) l)).

Definition add_chunk (out : chunk) (sum : Summary) : Summary :=
  Summary_ (s_Planned sum) (s_Migrated sum + migrated out) (s_AlreadyDone sum) (s_Failed sum + failed out)
    (s_SkippedFailed sum) (s_CostBlocked sum + costBlocked out) (s_Remaining sum).

(** The two loops of [Run]: each turn opens the next group, or does one lease's
    work on the current one. [None] when the fuel runs out. *)
Fixpoint run_loop (fuel : nat) (limit : Z) (rb : bool) (group : Group) (pending : list Subscription)
    (queue : list Group) (sum : Summary) : M (option (Summary * option error)) :=
  match fuel with
  | O => mret None
  | S fuel =>
    match pending with
    | [] =>
      match queue with
      | [] => mret (Some (sum, None))
      | g :: queue =>
        s ← get_st; run_loop fuel limit rb g (pending_of rb g s) queue sum
      end
    | _ :: _ =>
      let allowed := if 0 <? limit then limit - s_Migrated sum - s_Failed sum else 0 in
      if (0 <? limit) && (allowed <=? 0) then mret (Some (sum, None))
      else
        h ← pacer_Hold η;
        match h with
        | inl e => mret (Some (sum, Some e))
        | inr _ =>
          a ← ask η (Lock (Key group));
          match a with
          | Some e =>
            ce ← ask η (CtxErr RunCtx);
            mret (Some (sum, Some (match ce with Some c => c | None => ErrWrap "broadcaster lease" e end)))
          | None =>
            out ← (if rb then rollbackChunk pending allowed else forwardChunk pending allowed);
            _ ← ask η (Unlock (Key group)
                         (match fatal_err out with Some e => Some e | None => uncertain_err out end));
            let sum := add_chunk out sum in
            match fatal_err out with
            | Some e => mret (Some (sum, Some e))
            | None =>
              ce ← ask η (CtxErr RunCtx);
              match ce with
              | Some c => mret (Some (sum, Some c))
              | None =>
                if bool_decide (length (rest out) = length pending) then
                  mret (Some (sum, Some (ErrMsg "no progress under broadcaster lease")))
                else
                  if interrupted out then
                    let queue := match rest out with
                                 | [] => queue
                                 | left_ => queue ++ [Group_ (Key group) (Broadcaster group) (LastActive group) left_]
                                 end in
                    run_loop fuel limit rb group [] queue sum
                  else run_loop fuel limit rb group (rest out) queue sum
              end
            end
          end
        end
    end
  end.

Definition secret_ok (s : string) : bool :=
  (10 <=? String.length s)%nat && (String.length s <=? 100)%nat.

Definition no_summary : Summary := Summary_ 0 0 0 0 0 0 0.
Definition first_group : Group := Group_ "" "" zero_time [].

Definition with_remaining (n : Z) (sum : Summary) : Summary :=
  Summary_ (s_Planned sum) (s_Migrated sum) (s_AlreadyDone sum) (s_Failed sum) (s_SkippedFailed sum)
    (s_CostBlocked sum) n.

(** The sources before the first one that was rolled back. *)
Fixpoint before_rolled_back (s : mstate) (l : list Subscription) : list Subscription :=
  match l with
  | [] => []
  | source :: l => if RolledBack (entry s source) then [] else source :: before_rolled_back s l
  end.

(** The summary before any work: [counted] are the sources looked at. *)
Definition first_summary (s : mstate) (rb : bool) (planned counted : list Subscription) : Summary :=
  Summary_ (Z.of_nat (length planned)) 0
    (count (λ source, done (entry s source) rb) counted) 0
    (count (λ source, negb (done (entry s source) rb) && skip (entry s source)) counted) 0 0.

(** Enough turns for every group and every planned subscription. *)
Definition run_fuel : nat :=
  2 * length (Planned (c_snapshot cfg)) + length (Order (c_snapshot cfg) (c_activity cfg)) + 1.

Definition Run (limit : Z) (rb : bool) : M (option (Summary * option error)) :=
  match Validate (c_snapshot cfg) (c_clientID cfg) with
  | Some e => mret (Some (no_summary, Some e))
  | None =>
    if negb (c_hash_ok cfg) then
      mret (Some (no_summary, Some (ErrMsg "durable checkpoint and distributed lock are required")))
    else if negb (secret_ok (c_secret cfg)) || negb (secret_ok (c_restoreSecret cfg)) then
      mret (Some (no_summary, Some (ErrMsg "callback signing secrets must contain 10 to 100 bytes")))
    else if limit <? 0 then
      mret (Some (no_summary, Some (ErrMsg "batch limit must not be negative")))
    else
      s ← get_st;
      let planned := Planned (c_snapshot cfg) in
      if negb rb && existsb (λ source, RolledBack (entry s source)) planned then
        mret (Some (first_summary s rb planned (before_rolled_back s planned),
                    Some (ErrMsg "snapshot has rolled-back entries; take a new snapshot before another forward migration")))
      else
        let sum := first_summary s rb planned planned in
        r ← run_loop run_fuel limit rb first_group [] (Order (c_snapshot cfg) (c_activity cfg)) sum;
        s ← get_st;
        let remaining := count (λ source, negb (done (entry s source) rb)) planned in
        mret ((λ '(sum, e), (with_remaining remaining sum, e)) <$> r)
  end.

(** [VerifyCompleted]: the audit of checkpointed destinations. *)
Definition VerifyCompleted (s : mstate) (live : list Subscription) : option error :=
  if existsb (λ source,
       let p := entry s source in
       DeletedOld p && negb (RolledBack p) &&
       match byID (reverse live) (TargetID p) with
       | Some target => negb (matches target source TargetCallback) || negb (String.eqb (Status target) "enabled")
       | None => true
       end) (Planned (c_snapshot cfg))
  then Some (ErrMsg "completed destination is missing, changed, or not enabled; do not retire legacy receiver")
  else None.
End Migrate.
