(* ===== verification/MigSafe.v ===== *)
(** * What a migration deletes, and that it ends

    The safety of the operations of Migrate.v: when a subscription may be
    deleted, forward and in a rollback; and that Run returns. *)

From stdpp Require Import base gmap strings list.
From S2P Require Import Prelude GoErr Effects Http Json MigApi MigPlan Migrate.

(** ** What a trace says *)

(** The subscriptions of a listing's successful answer. *)
Definition listed_in (e : ev meff) : list Subscription :=
  match e with
  | Ev op a =>
    match op in meff A return A → list Subscription with
    | Twitch c =>
      match c in mcall B return result (mresponse B) → list Subscription with
      | MList _ _ => λ r, match r with
                          | inr x => match response_err (mr x), Body (mr x) with
                                     | None, Some p => default [] (lp_data p)
                                     | _, _ => []
                                     end
                          | inl _ => []
                          end
      | _ => λ _, []
      end
    | _ => λ _, []
    end a
  end.
(** What a creation made, for what. *)
Definition created_in (e : ev meff) : option (Subscription * string * Subscription) :=
  match e with
  | Ev op a =>
    match op in meff A return A → option (Subscription * string * Subscription) with
    | Twitch c =>
      match c in mcall B return result (mresponse B) → option (Subscription * string * Subscription) with
      | MCreate source cb _ => λ r,
          match r with
          | inr x => match response_err (mr x), Body (mr x) with
                     | None, Some (ListingPage (Some [sub]) _ _ _) => Some (source, cb, sub)
                     | _, _ => None
                     end
          | inl _ => None
          end
      | _ => λ _, None
      end
    | _ => λ _, None
    end a
  end.
Definition deletes (e : ev meff) : option string :=
  match e with Ev op _ => match op with Twitch (MDelete id) => Some id | _ => None end end.

Definition listed (t : trace meff) (sub : Subscription) : Prop := ∃ e, e ∈ t ∧ sub ∈ listed_in e.
Definition created (t : trace meff) (source : Subscription) (cb : string) (sub : Subscription) : Prop :=
  ∃ e, e ∈ t ∧ created_in e = Some (source, cb, sub).
Definition saved (t : trace meff) (id : string) (p : Progress) : Prop := Ev (Save id p) None ∈ t.

Lemma listed_stable sub : stable (λ t, listed t sub).
Proof. intros x t (e & ? & ?). exists e. split; [by right|done]. Qed.
Lemma created_stable source cb sub : stable (λ t, created t source cb sub).
Proof. intros x t (e & ? & ?). exists e. split; [by right|done]. Qed.
Lemma saved_stable id p : stable (λ t, saved t id p).
Proof. intros x t H. by right. Qed.
Lemma and_stable (F G : trace meff → Prop) : stable F → stable G → stable (λ t, F t ∧ G t).
Proof. intros HF HG e t [? ?]. split; [by apply HF|by apply HG]. Qed.
Lemma or_stable (F G : trace meff → Prop) : stable F → stable G → stable (λ t, F t ∨ G t).
Proof. intros HF HG e t [?|?]; [left; by apply HF|right; by apply HG]. Qed.
Lemma ex_stable {A} (F : A → trace meff → Prop) : (∀ a, stable (F a)) → stable (λ t, ∃ a, F a t).
Proof. intros HF e t [a Ha]. exists a. by apply HF. Qed.
Lemma all_stable {A} (F : A → trace meff → Prop) : (∀ a, stable (F a)) → stable (λ t, ∀ a, F a t).
Proof. intros HF e t Ha a. by apply HF. Qed.
Lemma const_stable (X : Prop) : stable (λ _ : trace meff, X).
Proof. by intros e t. Qed.

Ltac stab :=
  repeat lazymatch goal with
  | H : stable ?F |- stable ?F => exact H
  | |- stable (λ t, listed t _) => apply listed_stable
  | |- stable (λ t, created t _ _ _) => apply created_stable
  | |- stable (λ t, saved t _ _) => apply saved_stable
  | |- stable (λ t, _ ∧ _) => apply and_stable
  | |- stable (λ t, _ ∨ _) => apply or_stable
  | |- stable (λ t, ∃ a, _) => refine (ex_stable _ _); intros ?
  | |- stable (λ t, ∀ a, _) => refine (all_stable _ _); intros ?
  | |- stable (λ t, ?G t) => is_var G; change (stable G)
  | |- stable (λ t, _) => exact (const_stable _)
  end.

(** ** Programs that only mutate where they may

    [J t id] is the permission to delete [id] after [t]. *)
Section Rules.
Context (http_date : string → option time) (error_text : error → string) (η : env meff) (cfg : config).
Context (J : trace meff → string → Prop).
Definition allowed_by (t : trace meff) (e : ev meff) : Prop := ∀ id, deletes e = Some id → J t id.
Local Abbreviation P := allowed_by.

(** [m] runs where the stable fact [F] holds, and [Q] is stable too. *)
Lemma sruns_ask F A (op : meff A) :
  (∀ a, deletes (Ev op a) = None) → stable F →
  runs (S:=mstate) P F (ask η op) (λ a t, F t ∧ Ev op a ∈ t).
Proof.
  intros Hd HF. apply runs_ask. intros t Ht. split; [intros id Hid; by rewrite Hd in Hid|].
  split; [by apply HF|by left].
Qed.

Lemma calm_stable F : stable F → calm P F.
Proof.
  intros HF A op a t Hq Ht. split; [intros id Hid; by destruct op|by apply HF].
Qed.

(** A request that is not a deletion: its result is its answer's. *)
Lemma sruns_mrequest F B (c : mcall B) :
  (∀ a, deletes (Ev (Twitch c) a) = None) → stable F →
  runs (S:=mstate) P F (mrequest http_date η c)
    (λ r t, F t ∧ ∀ b, r = inr b → mcall_method c ≠ DELETE →
       ∃ x, Ev (Twitch c) (inr x) ∈ t ∧ response_err (mr x) = None ∧
            decode (mcall_target c) (mr x) = inr b).
Proof.
  intros Hd HF. apply (runs_mrequest_from http_date η P (λ _, F) (λ _, F)).
  - intros _. by apply calm_stable.
  - intros _. by apply calm_stable.
  - done.
  - intros u e t Ht. split; [done|]. intros b Hb. done.
  - intros u t a Ht. split_and!; [|intros _; by apply HF|intros _; by apply HF|].
    + intros id Hid. by rewrite Hd in Hid.
    + intros r (x & -> & Hr). split; [by apply HF|]. intros b -> Hm.
      destruct Hr as [[Hn Hb]|(_ & Hdel & _)]; [|done].
      exists x. split_and!; [by left|done|done].
Qed.

Lemma sruns_delete F id :
  stable F → (∀ t, F t → J t id) →
  runs (S:=mstate) P F (delete_ http_date η id) (λ _ t, F t).
Proof.
  intros HF HJ. unfold delete_, Delete. eapply (runs_mrequest_from http_date η P (λ _, F) (λ _, F)).
  - intros _. by apply calm_stable.
  - intros _. by apply calm_stable.
  - done.
  - done.
  - intros u t a Ht. split_and!; [|intros _; by apply HF|intros _; by apply HF|].
    + intros id' [= <-]. by apply HJ.
    + intros r _. by apply HF.
Qed.

Lemma sruns_create F source cb secret :
  stable F →
  runs (S:=mstate) P F (create http_date η source cb secret)
    (λ r t, F t ∧ ∀ sub, r = inr sub → created t source cb sub).
Proof.
  intros HF. unfold create, Create. eapply runs_bindE; [by apply sruns_mrequest| |].
  { intros e t [Ht _]. done. }
  intros p. cbn. destruct (lp_data p) as [[|sub [|]]|] eqn:Hp; apply runs_ret; intros t [Ht Hx];
    (split; [done|]); try done.
  intros sub' [= <-]. destruct (Hx p eq_refl) as (x & He & Hn & Hb); [done|].
  eexists. split; [exact He|]. cbn in *. rewrite Hn. destruct (Body (mr x)) as [p'|]; [|done].
  simplify_eq. destruct p; cbn in *. by subst.
Qed.

Lemma add_page_elem all data sub : sub ∈ add_page all data → sub ∈ all ∨ sub ∈ data.
Proof.
  unfold add_page. revert all. induction data as [|x data IH]; intros all; cbn; [by left|].
  intros [H|H]%IH; [|by right; right]. case_bool_decide; [by left|].
  apply elem_of_app in H as [?| ->%list_elem_of_singleton]; [by left|by right; left].
Qed.

Lemma sruns_List F q after :
  stable F →
  runs (S:=mstate) P F (List http_date η (c_fuel cfg) q after)
    (λ l t, F t ∧ ∀ sub, sub ∈ Data l.1.1 → listed t sub).
Proof.
  intros HF. unfold List.
  assert (H : ∀ fuel after seen all, runs (S:=mstate) P
    (λ t, F t ∧ ∀ sub, sub ∈ Data all → listed t sub)
    (list_pages http_date η fuel q after seen all) (λ l t, F t ∧ ∀ sub, sub ∈ Data l.1.1 → listed t sub)).
  { intros fuel. induction fuel as [|fuel IH]; intros after' seen all; cbn [list_pages]; [by apply runs_ret|].
    eapply runs_bind; [apply sruns_mrequest; [done|stab]|]. intros [e|p]; [by apply runs_ret; intros t [? _]|].
    destruct (lp_data p) as [data|] eqn:Hd; [|by apply runs_ret; intros t [? _]].
    eapply runs_bind; [apply runs_modify_st|]. intros ?.
    apply runs_conseq with (λ t, F t ∧ ∀ sub, sub ∈ add_page (Data all) data → listed t sub)
      (λ l t, F t ∧ ∀ sub, sub ∈ Data l.1.1 → listed t sub); [| |done].
    - case_match; [by apply runs_ret|]. case_bool_decide; [by apply runs_ret|]. apply (IH _ _ (Listing_ (add_page (Data all) data) (lp_total p) (lp_max p))).
    - intros t [[Ht Ha] Hx]. split; [done|]. intros sub [Hs|Hs]%add_page_elem; [by apply Ha|].
      destruct (Hx p eq_refl) as (x & He & Hn & Hb); [done|]. eexists. split; [exact He|].
      cbn in *. rewrite Hn. destruct (Body (mr x)); [|done]. simplify_eq. by rewrite Hd. }
  eapply runs_conseq; [apply H| |done]. intros t Ht. split; [done|]. by intros sub ?%elem_of_nil.
Qed.

Lemma sruns_list F q :
  stable F →
  runs (S:=mstate) P F (list_ http_date η cfg q)
    (λ l t, F t ∧ ∀ sub, sub ∈ Data l.1 → listed t sub).
Proof. intros HF. eapply runs_bind; [by apply sruns_List|]. intros l. by apply runs_ret. Qed.

Lemma sruns_listE F q :
  stable F →
  runs (S:=mstate) P F (listE http_date η cfg q)
    (λ r t, F t ∧ ∀ l sub, r = inr l → sub ∈ Data l → listed t sub).
Proof.
  intros HF. unfold listE. eapply runs_bind; [by apply sruns_list|]. intros [l [e|]]; apply runs_ret; cbn;
    intros t [Ht Hl]; (split; [done|]); intros; simplify_eq. by apply Hl.
Qed.

Lemma sruns_progress F id : runs (S:=mstate) P F (progress_of id) (λ _ t, F t).
Proof. eapply runs_bind; [apply runs_get_st|]. intros. by apply runs_ret. Qed.
Lemma sruns_liveID F source : runs (S:=mstate) P F (liveID source) (λ _ t, F t).
Proof. eapply runs_bind; [apply sruns_progress|]. intros. by apply runs_ret. Qed.

Lemma sruns_save F id p :
  stable F →
  runs (S:=mstate) P F (save η id p) (λ r t, F t ∧ (r = inr tt → saved t id p)).
Proof.
  intros HF. unfold save. eapply runs_bind; [apply runs_modify_st|]. intros ?.
  eapply runs_bind; [by apply sruns_ask|]. intros [e|]; apply runs_ret; intros t [Ht Hs]; by split.
Qed.
End Rules.

(** ** Forward *)

(** [source]'s replacement was seen enabled. *)
Definition target_enabled (t : trace meff) (source : Subscription) : Prop :=
  ∃ tgt, listed t tgt ∧ matches tgt source TargetCallback = true ∧ Status tgt = "enabled".

(** When a forward migration of [srcs] may delete [id]: it is the listed source
    (or what stands in for it), unchanged, and its replacement was seen enabled
    or its deletion is checkpointed; or it is a replacement just created. *)
Definition move_ok (srcs : list Subscription) (t : trace meff) (id : string) : Prop :=
  ∃ source, source ∈ srcs ∧
    ((∃ cur, listed t cur ∧ ID cur = id ∧ matches cur source (Callback source) = true ∧
       (target_enabled t source ∨ ∃ p, saved t (ID source) p ∧ SourceDeleted p = true)) ∨
     (∃ new, created t source TargetCallback new ∧ ID new = id ∧
       matches new source TargetCallback = true)).

Lemma target_enabled_stable source : stable (λ t, target_enabled t source).
Proof. unfold target_enabled. stab. Qed.

Lemma matches_with_cost a source c cb : matches a (with_cost source c) cb = matches a source cb.
Proof. done. Qed.

(** Also what depends on verified targets. *)
Ltac stab' :=
  repeat first
    [ progress stab
    | apply target_enabled_stable
    | apply Forall2_stable; intros ? ? ].

Section Forward.
Context (http_date : string → option time) (error_text : error → string) (η : env meff) (cfg : config).
Context (J : trace meff → string → Prop).
Local Abbreviation P := (allowed_by J).

Lemma sruns_replacement F source cb secret l :
  stable F →
  runs (S:=mstate) P F (replacement http_date η cfg source cb secret l)
    (λ r t, F t ∧ ∀ x, r = inr x → matches x.1 source cb = true).
Proof.
  intros HF. unfold replacement. destruct (find (Data l) source cb) as [ex|] eqn:Hf.
  { apply runs_ret. intros t Ht. split; [done|]. intros x [= <-]. by apply find_spec in Hf as (_ & ? & _). }
  case_match; [by apply runs_ret|]. case_match; [by apply runs_ret|].
  eapply runs_bind; [by apply sruns_create|]. intros [e|new].
  - case_match; [|by apply runs_ret; intros t [? _]].
    eapply runs_bindE.
    { eapply runs_conseq; [by apply (sruns_listE http_date η cfg J F)|by intros t []|done]. }
    { by intros e' t [? _]. }
    intros l'. cbn. destruct (find (Data l') source cb) as [ex|] eqn:Hf'; apply runs_ret; intros t [Ht _];
      (split; [done|]); [|done].
    intros x [= <-]. by apply find_spec in Hf' as (_ & ? & _).
  - destruct (_ || _) eqn:Hc; apply runs_ret; intros t [Ht _]; (split; [done|]); [done|].
    intros x [= <-]. bools. tauto.
Qed.

Lemma sruns_prepare F source l :
  stable F →
  runs (S:=mstate) P F (prepare http_date η cfg source l)
    (λ r t, F t ∧ ∀ target, r = inr (Some target) → matches target source TargetCallback = true).
Proof.
  intros HF. unfold prepare.
  eapply runs_bind; [apply sruns_progress|]. intros progress.
  eapply runs_bind; [apply sruns_liveID|]. intros live. cbn.
  destruct (match byID (Data l) live with
            | Some c => negb (matches c source (Callback source)) | None => false end); [by apply runs_ret|].
  destruct (find (Data l) source TargetCallback) as [ex|] eqn:Hf.
  { eapply runs_bindE; [by apply sruns_save|by intros e t [? _]|]. intros []. apply runs_ret.
    intros t [Ht _]. split; [done|]. intros target [= <-]. by apply find_spec in Hf as (_ & ? & _). }
  destruct (SourceDeleted progress && _); [by apply runs_ret|].
  eapply runs_bind; [apply runs_get_st|]. intros st. cbn.
  destruct ((0 <? _) && (0 <? _) && _); [destruct (_ && negb (roomAfterSwap _ _ _)); by apply runs_ret|].
  eapply runs_bind; [by apply sruns_replacement|]. intros [e|[target new]].
  { destruct (is_cost_limit e); apply runs_ret; intros t [Ht _]; by split. }
  apply runs_conseq with (λ t, F t ∧ matches target source TargetCallback = true)
    (λ r t, F t ∧ ∀ target, r = inr (Some target) → matches target source TargetCallback = true);
    [|intros t [Ht Hm]; split; [done|]; by apply (Hm (target, new))|done].
  eapply runs_bind; [apply sruns_save; stab|].
  intros [e|[]]; apply runs_ret; intros t [[Ht Hm] _]; (split; [done|]); [done|].
  by intros target' [= <-].
Qed.

Lemma sruns_enabled F fuel wanted cb :
  stable F → runs (S:=mstate) P F (enabled http_date η cfg fuel wanted cb)
    (λ r t, F t ∧ (r = inr tt → ∃ cur, listed t cur ∧ ID cur = ID wanted ∧
                                  matches cur wanted cb = true ∧ Status cur = "enabled")).
Proof.
  intros HF. induction fuel as [|fuel IH]; cbn [enabled]; [by apply runs_ret|].
  eapply runs_bind; [by apply sruns_list|]. intros [l [e|]]; cbn; [by apply runs_ret; intros t [? _]|].
  assert (Hagain : runs (S:=mstate) P (λ t, F t ∧ ∀ sub, sub ∈ Data l → listed t sub)
    (ask η (Sleep (poll_interval cfg)) ≫= λ e, match e with
        | Some e => throw (ErrWrap "replacement did not become enabled" e)
        | None => enabled http_date η cfg fuel wanted cb
        end)
    (λ r t, F t ∧ (r = inr tt → ∃ cur, listed t cur ∧ ID cur = ID wanted ∧
                                  matches cur wanted cb = true ∧ Status cur = "enabled"))).
  { apply runs_conseq with F (λ r t, F t ∧ (r = inr tt → ∃ cur, listed t cur ∧ ID cur = ID wanted ∧
       matches cur wanted cb = true ∧ Status cur = "enabled")); [|by intros t []|done].
    eapply runs_bind; [by apply sruns_ask|]. intros [e|]; [by apply runs_ret; intros t [? _]|].
    eapply runs_conseq; [apply IH|by intros t []|done]. }
  destruct (byID (Data l) (ID wanted)) as [cur|] eqn:Hb; [|exact Hagain].
  apply byID_spec in Hb as [Hin Hid].
  destruct (matches cur wanted cb) eqn:Hm; cbn; [|by apply runs_ret; intros t [? _]].
  destruct (String.eqb_spec (Status cur) "enabled") as [He|].
  { apply runs_ret. intros t [Ht Hl]. split; [done|]. intros _. exists cur. auto. }
  case_match; [by apply runs_ret; intros t [? _]|exact Hagain].
Qed.

(** A target that was judged enabled was listed enabled. *)
Definition verdict_ok (t : trace meff) (target : Subscription) (v : verdict) : Prop :=
  v = Enabled → target_enabled t target.
Definition failure_ok (t : trace meff) (target : Subscription) (f : option error) : Prop :=
  f = None → target_enabled t target.

Lemma verdict_ok_stable a b : stable (λ t, verdict_ok t a b).
Proof. intros e t H Hv. by apply target_enabled_stable, H. Qed.

Lemma judge_ok t l targets vs :
  (∀ sub, sub ∈ l → listed t sub) →
  Forall2 (verdict_ok t) targets vs → Forall2 (verdict_ok t) targets (zip_with (judge l) targets vs).
Proof.
  intros Hl. induction 1 as [|target v targets vs Hv _ IH]; cbn; [constructor|]. constructor; [|done].
  intros Hj. destruct v; cbn in Hj; [|by apply Hv|done].
  destruct (byID l (ID target)) as [cur|] eqn:Hb; [|done]. apply byID_spec in Hb as [Hin Hid].
  destruct (matches cur target TargetCallback) eqn:Hm; cbn in Hj; [|done].
  destruct (String.eqb_spec (Status cur) "enabled") as [He|]; [|by case_match].
  exists cur. auto.
Qed.

Lemma close_ok t e targets vs :
  Forall2 (verdict_ok t) targets vs → Forall2 (failure_ok t) targets (close_verdicts e vs).
Proof.
  induction 1 as [|target v targets vs Hv _ IH]; cbn; [constructor|]. constructor; [|done].
  intros Hf. destruct v; [done|by apply Hv|done].
Qed.

Lemma sruns_await F fuel q after targets vs :
  stable F →
  runs (S:=mstate) P (λ t, F t ∧ Forall2 (verdict_ok t) targets vs)
    (await_from http_date η cfg fuel q after targets vs)
    (λ r t, F t ∧ (∀ sub, sub ∈ Data r.1 → listed t sub) ∧ Forall2 (failure_ok t) targets r.2).
Proof.
  intros HF. revert after vs. induction fuel as [|fuel IH]; intros after vs; cbn [await_from].
  { apply runs_ret. intros t [Ht Hv]. split_and!; [done|by intros ? ?%elem_of_nil|].
    cbn. induction Hv; cbn; constructor; [by intros ?|done]. }
  set (G := λ t, F t ∧ Forall2 (verdict_ok t) targets vs).
  assert (HG : stable G) by (apply and_stable; [done|]; apply Forall2_stable, verdict_ok_stable).
  eapply runs_bind; [by apply (sruns_List http_date η cfg J G)|]. intros [[l [e|]] after']; cbn.
  { apply runs_ret. intros t [[Ht Hv] Hl]. split_and!; [done|done|by apply close_ok]. }
  apply runs_conseq with (λ t, (F t ∧ Forall2 (verdict_ok t) targets (zip_with (judge (Data l)) targets vs)) ∧
      ∀ sub, sub ∈ Data l → listed t sub)
    (λ r t, F t ∧ (∀ sub, sub ∈ Data r.1 → listed t sub) ∧ Forall2 (failure_ok t) targets r.2);
    [|intros t [[Ht Hv] Hl]; split_and!; [done|by apply judge_ok|done]|done].
  case_match; [apply runs_ret; intros t [[Ht Hv] Hl]; split_and!; [done|done|by apply close_ok]|].
  eapply runs_bind.
  { apply sruns_ask; [done|]. apply and_stable; [apply and_stable; [done|]; apply Forall2_stable, verdict_ok_stable|stab]. }
  intros [e|].
  - apply runs_ret. intros t [[[Ht Hv] Hl] _]. split_and!; [done|done|by apply close_ok].
  - eapply runs_conseq; [apply IH| |done]. by intros t [[[Ht Hv] Hl] _].
Qed.

Lemma sruns_awaitEnabled F q targets :
  stable F →
  runs (S:=mstate) P F (awaitEnabled http_date η cfg q targets)
    (λ r t, F t ∧ (∀ sub, sub ∈ Data r.1 → listed t sub) ∧ Forall2 (failure_ok t) targets r.2).
Proof.
  intros HF. eapply runs_conseq; [by apply sruns_await| |done]. intros t Ht. split; [done|].
  induction targets; cbn; constructor; [by intros ?|done].
Qed.
End Forward.

#[local] Arguments settle : simpl never.
#[local] Arguments prepare_each : simpl never.
#[local] Arguments finish_moves : simpl never.
#[local] Arguments fail_moves : simpl never.
#[local] Arguments swap_each : simpl never.
#[local] Arguments breakBeforeMake : simpl never.
#[local] Arguments deleteSource : simpl never.

Section Settle.
Context (http_date : string → option time) (error_text : error → string) (η : env meff) (cfg : config).
Context (J : trace meff → string → Prop).
Local Abbreviation P := (allowed_by J).

(** Drop what is not needed after a step. *)
Lemma runs_weaken {A} F G (m : M (world meff mstate) A) Q :
  runs P F m Q → (∀ t, G t → F t) → runs P G m Q.
Proof. intros H HG. eapply runs_conseq; [apply H|done|done]. Qed.

Lemma runs_weaken_pure {A} F (X : Prop) G (m : M (world meff mstate) A) Q :
  (∀ t, G t → F t ∧ X) → (X → runs P F m Q) → runs P G m Q.
Proof. intros HG H w [Hj Hg]. destruct (HG _ Hg) as [Hf Hx]. by apply (H Hx). Qed.

Lemma sruns_ask' F A (op : meff A) :
  (∀ a, deletes (Ev op a) = None) → stable F → runs (S:=mstate) P F (ask η op) (λ _ t, F t).
Proof. intros Hd HF. eapply runs_conseq; [by apply sruns_ask|done|by intros a t []]. Qed.
Lemma sruns_save' F id p : stable F → runs (S:=mstate) P F (save η id p) (λ _ t, F t).
Proof. intros HF. eapply runs_conseq; [by apply sruns_save|done|by intros a t []]. Qed.
Lemma sruns_create' F source cb secret :
  stable F → runs (S:=mstate) P F (create http_date η source cb secret) (λ _ t, F t).
Proof. intros HF. eapply runs_conseq; [by apply sruns_create|done|by intros a t []]. Qed.

Lemma sruns_chunkFull F out allowed : stable F → runs P F (chunkFull η cfg out allowed) (λ _ t, F t).
Proof.
  intros HF. unfold chunkFull. repeat (case_match; [by apply runs_ret|]).
  eapply runs_bind; [by apply sruns_ask'|]. intros now. cbn.
  case_match; [by apply runs_ret|]. by apply runs_pacer_Throttled, calm_stable.
Qed.

Lemma sruns_settle F out source err :
  stable F → runs P F (settle error_text η out source err) (λ _ t, F t).
Proof.
  intros HF. unfold settle. destruct err as [err|]; [|by apply runs_ret].
  case_match; [by apply runs_ret|].
  eapply runs_bind; [by apply sruns_ask'|]. intros [ce|]; [by apply runs_ret|].
  case_match; [by apply runs_ret|].
  eapply runs_bind; [apply sruns_progress|]. intros progress.
  eapply runs_bind; [by apply sruns_save'|]. intros [e|?]; [by apply runs_ret|]. cbn.
  eapply runs_bind; [by apply sruns_ask'|]. intros le. by apply runs_ret.
Qed.

(** The cleanup of [restore] deletes what was created. *)
Lemma sruns_restore F source cb failedID cause :
  stable F → (failedID ≠ "" → ∀ t, F t → J t failedID) →
  runs (S:=mstate) P F (restore http_date η cfg source cb failedID cause) (λ _ t, F t).
Proof.
  intros HF Hj. unfold restore. case_match; [by apply runs_ret|].
  apply runs_bind with (λ _ t, F t).
  { destruct (String.eqb_spec failedID ""); [by apply runs_ret|]. apply sruns_delete; auto. }
  intros ?. eapply runs_bind; [by apply sruns_create'|]. intros r. cbn.
  destruct (match r with inl e => inl e | inr x => _ end) as [e|restored]; [by apply runs_ret|].
  eapply runs_bind; [apply sruns_progress|]. intros p.
  eapply runs_bind; [by apply sruns_save'|]. intros [e|?]; by apply runs_ret.
Qed.

Definition good_move (srcs : list Subscription) (mv : Subscription * Subscription) : Prop :=
  mv.1 ∈ srcs ∧ matches mv.2 mv.1 TargetCallback = true.

Lemma sruns_prepare_each srcs F subs l allowed : ∀ out moves swaps,
  stable F → Forall (good_move srcs) moves → Forall (.∈ srcs) swaps → Forall (.∈ srcs) subs →
  runs P F (prepare_each http_date error_text η cfg subs l allowed out moves swaps)
    (λ r t, F t ∧ Forall (good_move srcs) r.1.2 ∧ Forall (.∈ srcs) r.2).
Proof.
  induction subs as [|source subs IH]; intros out moves swaps HF Hm Hs Hsub; cbn [prepare_each].
  { by apply runs_ret. }
  apply Forall_cons in Hsub as [Hin Hsub].
  apply runs_bind with (λ _ t, F t).
  { case_match; [by apply runs_ret|by apply sruns_chunkFull]. }
  intros []; [by apply runs_ret|].
  eapply runs_bind; [by apply sruns_prepare|]. intros [e|[target|]]; cbn.
  - apply runs_bind with (λ _ t, F t); [apply runs_weaken with F; [by apply sruns_settle|by intros t []]|].
    intros out'. by apply IH.
  - apply runs_weaken_pure with F (matches target source TargetCallback = true).
    { intros t [Ht H]. split; [done|by apply H]. }
    intros Ht. apply IH; try done. apply Forall_app; split; [done|]. by repeat constructor.
  - apply runs_weaken with F; [|by intros t []]. apply IH; try done.
    apply Forall_app; split; [done|by constructor].
Qed.
End Settle.

Section Deletions.
Context (http_date : string → option time) (error_text : error → string) (η : env meff) (cfg : config).
Context (srcs : list Subscription).
Local Abbreviation P := (allowed_by (move_ok srcs)).

Lemma sruns_deleteSource F source live :
  stable F → source ∈ srcs →
  runs (S:=mstate) P (λ t, F t ∧ (∀ sub, sub ∈ Data live → listed t sub) ∧ target_enabled t source)
    (deleteSource http_date η source live) (λ _ t, F t).
Proof.
  intros HF Hin.
  set (G := λ t, F t ∧ (∀ sub, sub ∈ Data live → listed t sub) ∧ target_enabled t source).
  assert (HG : stable G) by (unfold G; stab').
  unfold deleteSource. eapply runs_bind; [apply sruns_liveID|]. intros id. cbn.
  apply runs_bind with (λ _ t, F t).
  - destruct (byID (Data live) id) as [cur|] eqn:Hb; [|by apply runs_ret; intros t [? _]].
    apply byID_spec in Hb as [Hcur Hid].
    destruct (matches cur source (Callback source)) eqn:Hm; cbn; [|by apply runs_ret; intros t [? _]].
    eapply runs_conseq; [apply (sruns_delete http_date η _ G)|done|by intros ? t []]; [done|].
    intros t (_ & Hl & Ht). exists source. split; [done|]. left. exists cur. auto.
  - intros [e|?]; [by apply runs_ret|]. eapply runs_bind; [apply sruns_progress|]. intros p.
    by apply sruns_save'.
Qed.

Lemma sruns_break_source F source id live progress :
  stable F → source ∈ srcs →
  runs (S:=mstate) P (λ t, F t ∧ ∀ sub, sub ∈ Data live → listed t sub)
    (break_source http_date η source id live progress) (λ _ t, F t).
Proof.
  intros HF Hin. unfold break_source.
  destruct (byID (Data live) id) as [cur|] eqn:Hb; [|by apply runs_ret; intros t []].
  apply byID_spec in Hb as [Hcur Hid].
  destruct (matches cur source (Callback source)) eqn:Hm; cbn; [|by apply runs_ret; intros t []].
  case_match; [by apply runs_ret; intros t []|].
  set (p := with_sourceDeleted progress true).
  eapply runs_bindE; [apply sruns_save; stab|by intros e t [[? _] _]|]. intros []. cbn.
  set (G := λ t, (F t ∧ ∀ sub, sub ∈ Data live → listed t sub) ∧ saved t (ID source) p).
  assert (HG : stable G) by (unfold G; stab).
  apply runs_bindE with (λ _ t, G t).
  - apply runs_weaken with G; [apply (sruns_delete http_date η _ G); [done|]|].
    + intros t [[_ Hl] Hs]. exists source. split; [done|]. left. exists cur. split_and!; auto.
      right. exists p. auto.
    + intros t [Ht Hs]. split; [done|by apply Hs].
  - by intros e t [[? _] _].
  - intros ?. apply runs_ret. by intros t [[? _] _].
Qed.

Lemma sruns_breakBeforeMake F source :
  stable F → source ∈ srcs →
  runs (S:=mstate) P F (breakBeforeMake http_date η cfg source) (λ _ t, F t).
Proof.
  intros HF Hin. unfold breakBeforeMake.
  eapply runs_bind; [apply sruns_progress|]. intros progress.
  eapply runs_bind; [apply sruns_liveID|]. intros id. cbn.
  eapply runs_bindE; [by apply sruns_listE|by intros e t [? _]|]. intros live. cbn.
  apply runs_bindE with (λ _ t, F t).
  { eapply runs_weaken; [by apply (sruns_break_source F)|]. intros t [Ht Hl]. split; [done|]. eauto. }
  { done. }
  intros progress'. cbn. eapply runs_bind; [by apply sruns_create|]. intros r. cbn.
  destruct r as [e|new].
  { apply runs_weaken with F; [|by intros t []]. by apply sruns_restore. }
  destruct (_ || _) eqn:Hc.
  { apply runs_weaken with F; [|by intros t []]. by apply sruns_restore. }
  apply orb_false_iff in Hc as [[_ Hm%negb_false_iff]%orb_false_iff _].
  set (G := λ t, F t ∧ created t source TargetCallback new).
  assert (HG : stable G) by (unfold G; stab).
  apply runs_conseq with G (λ _ t, G t); [|by intros t [Ht H]; split; [|apply H]|by intros ? t []].
  eapply runs_bindE; [by apply sruns_save'|done|]. intros ?.
  eapply runs_bind; [by apply sruns_enabled|]. intros [e|?].
  - apply runs_weaken with G; [|by intros t []]. apply sruns_restore; [done|].
    intros _ t [_ Ht]. exists source. split; [done|]. right. exists new. auto.
  - apply runs_weaken with G; [|by intros t []]. by apply sruns_save'.
Qed.

(** What verification established about each move. *)
Definition move_verified (t : trace meff) (mv : Subscription * Subscription) (f : option error) : Prop :=
  f = None → target_enabled t mv.1.

Lemma move_verified_stable mv f : stable (λ t, move_verified t mv f).
Proof. intros e t H Hf. by apply target_enabled_stable, H. Qed.

Lemma sruns_finish_moves F live moves : ∀ failures out,
  stable F → Forall (good_move srcs) moves →
  runs P (λ t, F t ∧ (∀ sub, sub ∈ Data live → listed t sub) ∧ Forall2 (move_verified t) moves failures)
    (finish_moves http_date error_text η moves failures live out) (λ _ t, F t).
Proof.
  induction moves as [|[source target] moves IH]; intros failures out HF Hg; cbn [finish_moves].
  { apply runs_ret. by intros t []. }
  apply Forall_cons in Hg as [[Hin _] Hg]. cbn in Hin.
  set (G := λ t, F t ∧ (∀ sub, sub ∈ Data live → listed t sub) ∧ Forall2 (move_verified t) moves (drop 1 failures)).
  assert (HG : stable G).
  { unfold G. stab. apply Forall2_stable. intros. apply move_verified_stable. }
  apply runs_bind with (λ _ t, G t).
  - destruct failures as [|f failures].
    { intros w [_ (_ & _ & H)]. inversion H. }
    cbn [drop]. unfold G. cbn [drop]. destruct f as [e|].
    + apply runs_ret. intros t (Ht & Hl & Hf). by inversion Hf; simplify_eq.
    + eapply runs_bind with (λ _ t, G t); [|intros r; by apply runs_ret].
      eapply runs_weaken; [by apply (sruns_deleteSource G)|].
      intros t (Ht & Hl & Hf). inversion Hf as [|?? ?? Hv Hr]; simplify_eq. split_and!; [done|done|].
      by apply Hv.
  - intros e. eapply runs_bind; [by apply sruns_settle|]. intros out'. cbn.
    case_match; [apply runs_ret; by intros t []|by apply IH].
Qed.

Lemma sruns_fail_moves F moves e : ∀ out,
  stable F → runs P F (fail_moves error_text η moves e out) (λ _ t, F t).
Proof.
  induction moves as [|[source target] moves IH]; intros out HF; cbn [fail_moves]; [by apply runs_ret|].
  eapply runs_bind; [by apply sruns_settle|]. intros. by apply IH.
Qed.

Lemma sruns_swap_each F swaps : ∀ first out,
  stable F → Forall (.∈ srcs) swaps →
  runs P F (swap_each http_date error_text η cfg swaps first out) (λ _ t, F t).
Proof.
  induction swaps as [|source swaps IH]; intros first out HF Hs; cbn [swap_each]; [by apply runs_ret|].
  apply Forall_cons in Hs as [Hin Hs].
  apply runs_bind with (λ _ t, F t).
  { repeat (case_match; [by apply runs_ret|]). eapply runs_bind; [by apply sruns_ask'|].
    intros. by apply runs_ret. }
  intros []; [by apply runs_ret|].
  eapply runs_bind; [by apply sruns_breakBeforeMake|]. intros r.
  eapply runs_bind; [by apply sruns_settle|]. intros. by apply IH.
Qed.

Lemma sruns_forwardChunk F subs allowed :
  stable F → Forall (.∈ srcs) subs →
  runs P F (forwardChunk http_date error_text η cfg subs allowed) (λ _ t, F t).
Proof.
  intros HF Hs. unfold forwardChunk. eapply runs_bind; [by apply sruns_ask'|]. intros now. cbn.
  destruct subs as [|first others]; [by apply runs_ret|].
  eapply runs_bind; [by apply sruns_list|]. intros [l [e|]]; cbn.
  { apply runs_weaken with F; [|by intros t []]. eapply runs_bind; [by apply sruns_settle|].
    intros. by apply runs_ret. }
  apply runs_weaken with F; [|by intros t []].
  eapply runs_bind; [by apply (sruns_prepare_each _ _ _ _ _ srcs)|]. intros [[out moves] swaps]. cbn.
  apply runs_weaken_pure with F (Forall (good_move srcs) moves ∧ Forall (.∈ srcs) swaps); [naive_solver|].
  intros [Hm Hw]. case_match; [by apply runs_ret|].
  eapply runs_bind; [by apply sruns_ask'|]. intros le. cbn.
  apply runs_bind with (λ _ t, F t).
  - assert (Hfail : ∀ e, runs (S:=mstate) P F
      (fail_moves error_text η moves e out ≫= λ out, mret (out, true)) (λ _ t, F t)).
    { intros e. eapply runs_bind; [by apply sruns_fail_moves|]. intros. by apply runs_ret. }
    destruct moves as [|mv moves], le; try apply Hfail.
    eapply runs_bind; [by apply sruns_awaitEnabled|]. intros [live failures].
    eapply runs_weaken; [by apply (sruns_finish_moves F)|]. cbn [fst snd].
    intros t (Ht & Hl & Hf). split_and!; [done|done|].
    clear - Hf Hm. revert failures Hf. generalize (mv :: moves), Hm. clear.
    intros moves Hm. induction Hm as [|[s tg] moves [Hin Hmt] _ IH]; intros failures Hf; cbn in Hf;
      inversion Hf as [|?? ?? Hv Hr]; simplify_eq; constructor; [|by apply IH].
    intros Hn. destruct (Hv Hn) as (x & Hx & Hmx & He). exists x. split_and!; [done| |done].
    by eapply matches_trans.
  - intros [out' []]; [by apply sruns_swap_each|by apply runs_ret].
Qed.
End Deletions.

(** ** Rollback *)

(** When a rollback of [srcs] may delete [id]: it is a listed replacement that
    the snapshot did not have, and its legacy subscription was seen enabled or
    its deletion is checkpointed; or it is a legacy subscription just created. *)
Definition rollback_ok (cfg : config) (srcs : list Subscription) (t : trace meff) (id : string) : Prop :=
  ∃ source, source ∈ srcs ∧
    ((∃ cur, listed t cur ∧ ID cur = id ∧ matches cur source TargetCallback = true ∧
       originalID cfg id = false ∧
       ((∃ dst, listed t dst ∧ matches dst source (Callback source) = true ∧ Status dst = "enabled") ∨
        ∃ p, saved t (ID source) p ∧ SourceDeleted p = true)) ∨
     (∃ new, created t source (Callback source) new ∧ ID new = id ∧
       matches new source (Callback source) = true)).

Section Rollback.
Context (http_date : string → option time) (error_text : error → string) (η : env meff) (cfg : config).
Context (srcs : list Subscription).
Local Abbreviation P := (allowed_by (rollback_ok cfg srcs)).

(** The legacy subscription is back, or its loss is recorded. *)
Definition legacy_safe (source : Subscription) (t : trace meff) : Prop :=
  (∃ dst, listed t dst ∧ matches dst source (Callback source) = true ∧ Status dst = "enabled") ∨
  ∃ p, saved t (ID source) p ∧ SourceDeleted p = true.

Lemma legacy_safe_stable source : stable (legacy_safe source).
Proof. unfold legacy_safe. stab. Qed.

Lemma sruns_delete_owned F own source :
  stable F → source ∈ srcs → (∀ t, F t → legacy_safe source t) →
  Forall (λ sub, originalID cfg (ID sub) = false) own →
  runs (S:=mstate) P F (delete_owned http_date η cfg own source) (λ _ t, F t).
Proof.
  intros HF Hin HL Ho. induction Ho as [|sub own Hsub _ IH]; cbn [delete_owned]; [by apply runs_ret|].
  apply runs_bindE with (λ _ t, F t); [|done|intros ?; apply IH].
  unfold deleteOwned. eapply runs_bindE; [by apply sruns_listE|by intros e t []|]. intros live. cbn.
  destruct (byID (Data live) (ID sub)) as [cur|] eqn:Hb; [|by apply runs_ret; intros t []].
  apply byID_spec in Hb as [Hcur Hid].
  destruct (matches cur source TargetCallback) eqn:Hm; cbn; [|by apply runs_ret; intros t []].
  set (G := λ t, F t ∧ ∀ l s, inr live = inr l → s ∈ Data l → listed t s).
  assert (HG : stable G) by (unfold G; stab).
  eapply runs_conseq; [apply (sruns_delete http_date η _ G)|done|by intros ? t []]; [done|].
  intros t [Ht Hl]. exists source. split; [done|]. left. exists cur. split_and!; eauto. by apply HL.
Qed.

Lemma owned_ok l source : Forall (λ sub, originalID cfg (ID sub) = false) (owned cfg l source).
Proof.
  unfold owned. apply Forall_forall. intros sub [Hs _]%list_elem_of_filter.
  apply andb_true_iff in Hs as [_ Hs]. by apply negb_true_iff in Hs.
Qed.

Lemma sruns_rollbackBreakFirst F source listing own :
  stable F → source ∈ srcs → Forall (λ sub, originalID cfg (ID sub) = false) own →
  runs (S:=mstate) P F (rollbackBreakFirst http_date η cfg source listing own) (λ _ t, F t).
Proof.
  intros HF Hin Ho. unfold rollbackBreakFirst.
  case_match; [by apply runs_ret|]. case_match; [by apply runs_ret|].
  eapply runs_bind; [apply sruns_progress|]. intros progress. cbn.
  set (p := with_sourceDeleted progress true).
  eapply runs_bindE; [by apply sruns_save|by intros e t []|]. intros []. cbn.
  set (G := λ t, F t ∧ saved t (ID source) p).
  assert (HG : stable G) by (unfold G; stab).
  apply runs_conseq with G (λ _ t, G t); [|by intros t [? Hx]; split; [|apply Hx]|by intros ? t []].
  apply runs_bindE with (λ _ t, G t); [|done|].
  { apply sruns_delete_owned; try done. intros t [_ Hs]. right. by exists p. }
  intros ?. eapply runs_bind; [by apply sruns_create|]. intros [e|new]; cbn.
  { apply runs_weaken with G; [|by intros t []]. by apply sruns_restore. }
  destruct (_ || _) eqn:Hc.
  { apply runs_weaken with G; [|by intros t []]. by apply sruns_restore. }
  apply orb_false_iff in Hc as [_ Hm%negb_false_iff].
  set (K := λ t, G t ∧ created t source (Callback source) new).
  assert (HK : stable K) by (unfold K; stab).
  apply runs_conseq with K (λ _ t, K t); [|by intros t [Ht Hx]; split; [|apply Hx]|by intros ? t []].
  eapply runs_bind; [by apply sruns_enabled|]. intros [e|?].
  - apply runs_weaken with K; [|by intros t []]. apply sruns_restore; [done|].
    intros _ t [_ Ht]. exists source. split; [done|]. right. exists new. auto.
  - apply runs_weaken with K; [|by intros t []].
    eapply runs_bind; [apply sruns_progress|]. intros. by apply sruns_save'.
Qed.

Lemma sruns_rollback F source :
  stable F → source ∈ srcs →
  runs (S:=mstate) P F (rollback http_date η cfg source) (λ _ t, F t).
Proof.
  intros HF Hin. unfold rollback.
  eapply runs_bindE; [by apply sruns_listE|by intros e t []|]. intros listing. cbn.
  apply runs_weaken with F; [|by intros t []].
  eapply runs_bind; [apply sruns_progress|]. intros progress. cbn.
  case_match; [by apply sruns_save'|].
  eapply runs_bind; [by apply sruns_replacement|]. intros [e|[dst b]]; cbn.
  { apply runs_weaken with F; [|by intros t []]. destruct (is_cost_limit e); [|by apply runs_ret].
    apply sruns_rollbackBreakFirst; [done..|]. apply owned_ok. }
  apply runs_weaken_pure with F (matches dst source (Callback source) = true).
  { intros t [Ht H']. split; [done|]. by apply (H' (dst, b)). }
  intros Hm. eapply runs_bindE; [by apply sruns_enabled|by intros e t []|]. intros []. cbn.
  set (G := λ t, F t ∧ legacy_safe source t).
  assert (HG : stable G) by (apply and_stable; [done|apply legacy_safe_stable]).
  apply runs_conseq with G (λ _ t, G t); [| |by intros ? t []].
  - apply runs_bindE with (λ _ t, G t); [|done|].
    { apply sruns_delete_owned; [done|done|by intros t []|apply owned_ok]. }
    intros ?. eapply runs_bind; [apply sruns_progress|]. intros. by apply sruns_save'.
  - intros t [Ht Hx]. split; [done|]. destruct (Hx eq_refl) as (cur & Hl & _ & Hmc & He).
    left. exists cur. split_and!; [done| |done]. by eapply matches_trans.
Qed.

Lemma sruns_rollback_each F subs allowed : ∀ out,
  stable F → Forall (.∈ srcs) subs →
  runs P F (rollback_each http_date error_text η cfg subs allowed out) (λ _ t, F t).
Proof.
  induction subs as [|source subs IH]; intros out HF Hs; cbn [rollback_each]; [by apply runs_ret|].
  apply Forall_cons in Hs as [Hin Hs].
  apply runs_bind with (λ _ t, F t).
  { case_match; [by apply runs_ret|by apply sruns_chunkFull]. }
  intros []; [by apply runs_ret|].
  eapply runs_bind; [by apply sruns_rollback|]. intros r. cbn.
  eapply runs_bind; [by apply sruns_settle|]. intros. by apply IH.
Qed.

Lemma sruns_rollbackChunk F subs allowed :
  stable F → Forall (.∈ srcs) subs →
  runs P F (rollbackChunk http_date error_text η cfg subs allowed) (λ _ t, F t).
Proof.
  intros HF Hs. unfold rollbackChunk. eapply runs_bind; [by apply sruns_ask'|]. intros.
  by apply sruns_rollback_each.
Qed.
End Rollback.

(** ** What a lease's work leaves *)

Section Rest.
Context (http_date : string → option time) (error_text : error → string) (η : env meff) (cfg : config).

Lemma settle_rest out source err :
  returns (settle error_text η out source err) (λ o, rest o = rest out).
Proof.
  unfold settle. destruct err as [err|]; [|by apply returns_ret].
  case_match; [by apply returns_ret|]. apply returns_bind'. intros [ce|]; [by apply returns_ret|].
  case_match; [by apply returns_ret|]. apply returns_bind'. intros p. apply returns_bind'.
  intros [e|?]; [by apply returns_ret|]. apply returns_bind'. intros le. apply returns_ret.
  by repeat case_match.
Qed.

Lemma prepare_each_rest subs l allowed : ∀ out moves swaps,
  returns (prepare_each http_date error_text η cfg subs l allowed out moves swaps)
    (λ r, (length (rest r.1.1) + length r.2 <= length swaps + length subs)%nat ∧
          Forall (λ x, x ∈ swaps ∨ x ∈ subs) r.2 ∧ Forall (.∈ subs) (rest r.1.1)).
Proof.
  induction subs as [|source subs IH]; intros out moves swaps; cbn [prepare_each].
  { apply returns_ret. cbn. split_and!; [lia| |done]. apply Forall_forall. auto. }
  apply returns_bind'. intros [].
  { apply returns_ret. cbn. split_and!; [lia|apply Forall_forall; auto|by apply Forall_forall]. }
  assert (Hc : ∀ (r : chunk * list (Subscription * Subscription) * list Subscription) sw,
    (length (rest r.1.1) + length r.2 <= length sw + length subs)%nat ∧
    Forall (λ x, x ∈ sw ∨ x ∈ subs) r.2 ∧ Forall (.∈ subs) (rest r.1.1) →
    (length sw <= S (length swaps))%nat → (∀ x, x ∈ sw → x ∈ swaps ∨ x = source) →
    (length (rest r.1.1) + length r.2 <= length swaps + S (length subs))%nat ∧
    Forall (λ x, x ∈ swaps ∨ x ∈ source :: subs) r.2 ∧ Forall (.∈ source :: subs) (rest r.1.1)).
  { intros r sw (H1 & H2 & H3) Hl Hsw. split_and!; [lia| |].
    - eapply Forall_impl; [exact H2|]. intros x [[?| ->]%Hsw|?]; [by left|right; by left|right; by right].
    - eapply Forall_impl; [exact H3|]. intros x ?. by right. }
  apply returns_bind'. intros [e|[target|]].
  - apply returns_bind'. intros out'. eapply returns_impl; [apply IH|]. intros r Hr.
    apply (Hc r swaps Hr); [lia|auto].
  - eapply returns_impl; [apply IH|]. intros r Hr. apply (Hc r swaps Hr); [lia|auto].
  - eapply returns_impl; [apply IH|]. intros r Hr. apply (Hc r _ Hr); [rewrite length_app; cbn; lia|].
    intros x [?| ->%list_elem_of_singleton]%elem_of_app; auto.
Qed.

Lemma finish_moves_rest live moves : ∀ failures out,
  returns (finish_moves http_date error_text η moves failures live out) (λ r, rest r.1 = rest out).
Proof.
  induction moves as [|[source target] moves IH]; intros failures out; cbn [finish_moves]; [by apply returns_ret|].
  apply returns_bind'. intros e. eapply returns_bind; [apply settle_rest|]. intros out' Ho.
  case_match; [by apply returns_ret|]. rewrite <-Ho. apply IH.
Qed.

Lemma fail_moves_rest moves e : ∀ out,
  returns (fail_moves error_text η moves e out) (λ o, rest o = rest out).
Proof.
  induction moves as [|[source target] moves IH]; intros out; cbn [fail_moves]; [by apply returns_ret|].
  eapply returns_bind; [apply settle_rest|]. intros out' <-. apply IH.
Qed.

Lemma swap_each_rest swaps : ∀ first out,
  returns (swap_each http_date error_text η cfg swaps first out)
    (λ o, (length (rest o) <= length swaps + length (rest out))%nat ∧
          Forall (λ x, x ∈ swaps ∨ x ∈ rest out) (rest o)).
Proof.
  induction swaps as [|source swaps IH]; intros first out; cbn [swap_each].
  { apply returns_ret. split; [done|]. apply Forall_forall. auto. }
  apply returns_bind'. intros [].
  { apply returns_ret. cbn. rewrite length_app. split; [lia|]. apply Forall_forall. set_solver. }
  apply returns_bind'. intros r. eapply returns_bind; [apply settle_rest|]. intros out' Ho.
  eapply returns_impl; [apply IH|]. cbn. intros o [H1 H2]. rewrite Ho in *. split; [lia|].
  eapply Forall_impl; [exact H2|]. set_solver.
Qed.

(** What is left of a lease's work was given to it, and is no more than it. *)
Definition left_of (subs : list Subscription) (o : chunk) : Prop :=
  (length (rest o) <= length subs)%nat ∧ Forall (.∈ subs) (rest o).

Lemma forwardChunk_rest subs allowed :
  returns (forwardChunk http_date error_text η cfg subs allowed) (left_of subs).
Proof.
  unfold forwardChunk. apply returns_bind'. intros now.
  destruct subs as [|first others]; [apply returns_ret; by split|].
  apply returns_bind'. intros [l [e|]]; cbn.
  { eapply returns_bind; [apply settle_rest|]. intros out Ho. apply returns_ret.
    unfold left_of. cbn. rewrite Ho. cbn. split; [lia|]. apply Forall_forall. set_solver. }
  eapply returns_bind; [apply prepare_each_rest|]. intros [[out moves] swaps] (H1 & H2 & H3).
  cbn [fst snd length] in *.
  assert (Hout : ∀ o, rest o = rest out → left_of (first :: others) o).
  { intros o Ho. unfold left_of. rewrite Ho. cbn [length] in *. split; [lia|done]. }
  case_match; [by apply returns_ret, Hout|].
  apply returns_bind'. intros le. apply returns_bind with (λ r : chunk * bool, rest r.1 = rest out).
  - assert (Hfail : ∀ e, returns
      (fail_moves error_text η moves e out ≫= λ out, mret (out, true)) (λ r : chunk * bool, rest r.1 = rest out)).
    { intros e. eapply returns_bind; [apply fail_moves_rest|]. intros. by apply returns_ret. }
    destruct moves, le; try apply Hfail. apply returns_bind'. intros a. apply finish_moves_rest.
  - intros [out' []] Ho; cbn in Ho; [|by apply returns_ret, Hout].
    eapply returns_impl; [apply swap_each_rest|]. intros o [Hl Hf]. rewrite Ho in *. split; [cbn in *; lia|].
    eapply Forall_impl; [exact Hf|]. intros x [Hx|Hx].
    + rewrite Forall_forall in H2. destruct (H2 x Hx) as [?%elem_of_nil|?]; done.
    + rewrite Forall_forall in H3. by apply H3.
Qed.

Lemma rollbackChunk_rest subs allowed :
  returns (rollbackChunk http_date error_text η cfg subs allowed) (left_of subs).
Proof.
  unfold rollbackChunk. apply returns_bind'. intros now. generalize (set_start now (new_chunk subs)).
  induction subs as [|source subs IH]; intros out; cbn [rollback_each]; [by apply returns_ret|].
  apply returns_bind'. intros [].
  { apply returns_ret. split; [done|]. cbn. by apply Forall_forall. }
  apply returns_bind'. intros r. apply returns_bind'. intros out'.
  eapply returns_impl; [apply IH|]. intros o [H1 H2]. split; [cbn; lia|].
  eapply Forall_impl; [exact H2|]. intros x ?. by right.
Qed.
End Rest.

(** ** Run *)

#[local] Arguments forwardChunk : simpl never.
#[local] Arguments rollbackChunk : simpl never.

Section Run.
Context (http_date : string → option time) (error_text : error → string) (η : env meff) (cfg : config).

(** What a run may delete. *)
Definition run_ok (srcs : list Subscription) (rb : bool) (t : trace meff) (id : string) : Prop :=
  if rb then rollback_ok cfg srcs t id else move_ok srcs t id.

Lemma pending_of_in rb g s : Forall (.∈ g_subs g) (pending_of cfg rb g s).
Proof. apply Forall_forall. by intros x [_ ?]%list_elem_of_filter. Qed.

Lemma sruns_chunk F srcs rb subs allowed :
  stable F → Forall (.∈ srcs) subs →
  runs (allowed_by (run_ok srcs rb)) F
    (if rb then rollbackChunk http_date error_text η cfg subs allowed
     else forwardChunk http_date error_text η cfg subs allowed)
    (λ o t, F t ∧ left_of subs o).
Proof.
  intros HF Hs. destruct rb.
  - apply runs_returns; [by apply sruns_rollbackChunk|apply rollbackChunk_rest].
  - apply runs_returns; [by apply sruns_forwardChunk|apply forwardChunk_rest].
Qed.

Lemma sruns_run_loop F srcs rb limit fuel : ∀ group pending queue sum,
  stable F → Forall (.∈ srcs) pending → Forall (λ g, Forall (.∈ srcs) (g_subs g)) queue →
  runs (allowed_by (run_ok srcs rb)) F
    (run_loop http_date error_text η cfg fuel limit rb group pending queue sum) (λ _ t, F t).
Proof.
  induction fuel as [|fuel IH]; intros group pending queue sum HF Hp Hq; cbn [run_loop]; [by apply runs_ret|].
  destruct pending as [|x pending].
  - destruct queue as [|g queue]; [by apply runs_ret|]. apply Forall_cons in Hq as [Hg Hq].
    eapply runs_bind; [apply runs_get_st|]. intros s. apply IH; [done| |done].
    eapply Forall_impl; [apply pending_of_in|]. intros y Hy. rewrite Forall_forall in Hg. auto.
  - case_match; [by apply runs_ret|].
    eapply runs_bind; [by apply runs_pacer_Hold, calm_stable|]. intros [e|?]; [by apply runs_ret|].
    eapply runs_bind; [by apply sruns_ask'|]. intros [e|].
    { eapply runs_bind; [by apply sruns_ask'|]. intros ce. by apply runs_ret. }
    eapply runs_bind; [by apply sruns_chunk|]. intros out.
    apply runs_weaken_pure with F (left_of (x :: pending) out); [done|]. intros [_ Hl].
    assert (Hr : Forall (.∈ srcs) (rest out)).
    { eapply Forall_impl; [exact Hl|]. intros y Hy. rewrite Forall_forall in Hp. auto. }
    eapply runs_bind; [by apply sruns_ask'|]. intros ?.
    destruct (fatal_err out); [by apply runs_ret|].
    eapply runs_bind; [by apply sruns_ask'|]. intros [ce|]; [by apply runs_ret|].
    case_bool_decide; [by apply runs_ret|].
    destruct (interrupted out); [|by apply IH].
    apply IH; [done|done|]. destruct (rest out); [done|]. apply Forall_app. split; [done|by constructor; [exact Hr|constructor]].
Qed.

Lemma order_in : Forall (λ g, Forall (.∈ Planned (c_snapshot cfg)) (g_subs g))
  (Order (c_snapshot cfg) (c_activity cfg)).
Proof.
  apply Forall_forall. intros g Hg. apply Forall_forall. intros x Hx.
  rewrite <-(order_perm (c_snapshot cfg) (c_activity cfg)). unfold all_subs.
  apply list_elem_of_bind. by exists g.
Qed.

(** Each turn makes this smaller. *)
Definition turns (pending : list Subscription) (queue : list Group) : nat :=
  2 * (length pending + length (all_subs queue)) + length queue.

Lemma run_loop_returns rb limit fuel : ∀ group pending queue sum,
  (turns pending queue < fuel)%nat →
  returns (run_loop http_date error_text η cfg fuel limit rb group pending queue sum) is_Some.
Proof.
  induction fuel as [|fuel IH]; intros group pending queue sum Hf; [lia|]. cbn [run_loop].
  unfold turns in Hf. destruct pending as [|x pending].
  - destruct queue as [|g queue]; [by apply returns_ret|].
    apply returns_bind'. intros s. apply IH. unfold turns, pending_of.
    unfold all_subs in *. cbn in Hf. rewrite length_app in Hf.
    pose proof (length_filter (λ source, negb (done (entry s source) rb) && negb (skip cfg (entry s source)) = true) (g_subs g)).
    lia.
  - case_match; [by apply returns_ret|].
    apply returns_bind'. intros [e|?]; [by apply returns_ret|].
    apply returns_bind'. intros [e|]; [apply returns_bind'; intros; by apply returns_ret|].
    apply returns_bind with (left_of (x :: pending)).
    { destruct rb; [apply rollbackChunk_rest|apply forwardChunk_rest]. }
    intros out [Hl _]. apply returns_bind'. intros ?.
    destruct (fatal_err out); [by apply returns_ret|].
    apply returns_bind'. intros [ce|]; [by apply returns_ret|].
    case_bool_decide as Hne; [by apply returns_ret|].
    destruct (interrupted out); apply IH; unfold turns; cbn [length] in *; [|lia].
    destruct (rest out) as [|y l] eqn:Er; [cbn; lia|].
    unfold all_subs in *. rewrite bind_app, !length_app. cbn. rewrite app_nil_r. cbn in *. lia.
Qed.
End Run.

Lemma sruns_Run http_date error_text η cfg limit rb :
  runs (allowed_by (run_ok cfg (Planned (c_snapshot cfg)) rb)) (λ _, True)
    (Run http_date error_text η cfg limit rb) (λ _ _, True).
Proof.
  unfold Run. repeat (case_match; [by apply runs_ret|]).
  eapply runs_bind; [apply runs_get_st|]. intros st. case_match; [by apply runs_ret|].
  eapply runs_bind; [apply sruns_run_loop; [done|done|apply order_in]|]. intros r.
  eapply runs_bind; [apply runs_get_st|]. intros st'. by apply runs_ret.
Qed.

(** C9. A migration deletes a legacy subscription only when it was listed
    unchanged and either its replacement was listed enabled before, or the
    deletion was recorded durably before (break-before-make at the cost cap);
    the only other deletion is of a replacement it just created. A rollback
    deletes replacements under the mirrored condition, and never one that the
    snapshot already had. *)
Theorem run_safe http_date error_text η cfg limit rb s :
  justified (allowed_by (run_ok cfg (Planned (c_snapshot cfg)) rb))
    (w_tr (Run http_date error_text η cfg limit rb (World [] s)).2).
Proof. by apply (sruns_Run http_date error_text η cfg limit rb (World [] s)). Qed.

(** C10. Run returns: its loops end within [run_fuel] turns, one per group, one
    per lease and one per requeued group, whatever Twitch, the leases and the
    clock do. *)
Theorem run_returns http_date error_text η cfg limit rb w :
  is_Some (Run http_date error_text η cfg limit rb w).1.
Proof.
  assert (H : returns (Run http_date error_text η cfg limit rb) is_Some); [|apply H].
  unfold Run. repeat (case_match; [by apply returns_ret|]).
  apply returns_bind'. intros st. case_match; [by apply returns_ret|].
  eapply returns_bind.
  - apply run_loop_returns. unfold turns, run_fuel. rewrite (order_perm (c_snapshot cfg) (c_activity cfg)).
    cbn. lia.
  - intros r [x ->]. apply returns_bind'. intros st'. apply returns_ret. by destruct x.
Qed.

(** ** A listing that fails while targets are verified

    Two sources of one broadcaster. Their replacements are created; the first
    poll finds one of them enabled and the other pending; the second poll fails. *)

Definition source_a : Subscription :=
  Subscription_ "a" "enabled" "stream.online" "1" (Some (JObj [("broadcaster_user_id", JStr "7")])) 0
    "webhook" LegacyCallback.
Definition source_b : Subscription :=
  Subscription_ "b" "enabled" "stream.offline" "1" (Some (JObj [("broadcaster_user_id", JStr "7")])) 0
    "webhook" LegacyCallback.
Definition target_of (s : Subscription) (status : string) : Subscription :=
  Subscription_ ("new-" +:+ ID s) status (Type_ s) (Version s) (Condition s) (Cost s) "webhook" TargetCallback.

Definition is_list (e : ev meff) : bool :=
  match e with Ev op _ => match op with Twitch (MList _ _) => true | _ => false end end.

Definition answer {B} (b : B) : result (mresponse B) := inr (MResponse (Response 200 ∅ false (Some b)) "").
Definition listing_env : env meff := λ A t op,
  match op in meff A return A with
  | Now => time_unix 1700000000 0
  | Sleep _ | CtxErr _ | Save _ _ | Lock _ | Unlock _ _ => None
  | Outlasts _ => false
  | Twitch c =>
    match c in mcall B return result (mresponse B) with
    | MList _ _ =>
      match length (filter (λ e, is_list e = true) t) with
      | O => answer (ListingPage (Some [source_a; source_b]) 0 10000 "")
      | S O => answer (ListingPage (Some [source_a; source_b; target_of source_a "enabled";
                 target_of source_b "webhook_callback_verification_pending"]) 0 10000 "")
      | _ => inr (MResponse (Response 400 ∅ false None) "")
      end
    | MCreate s _ _ =>
      answer (ListingPage (Some [target_of s "webhook_callback_verification_pending"]) 0 10000 "")
    | MDelete _ => answer tt
    end
  end.

Definition two_sources : config :=
  Config (Snapshot_ 1 "client" (LegacyCallback, AliasCallback) TargetCallback [source_a; source_b])
    "client" true "a long secret" "another secret" ∅ 3 false 0 0 0 5.
Definition fresh_state : mstate := MState None false 0 0 ∅.

(** Run migrates [n] sources: the first is recorded as deleted, although
    nothing was deleted and the source was listed. *)
Definition deletion_skipped (η : env meff) (n : Z) : Prop :=
  let '(r, w) := Run (λ _, None) (λ _, "") η two_sources 0 false (World [] fresh_state) in
  (∃ sum, r = Some (sum, None) ∧ s_Migrated sum = n) ∧
  DeletedOld (entry (w_st w) source_a) = true ∧
  (∀ e, e ∈ w_tr w → deletes e = None) ∧
  listed (w_tr w) source_a.
Definition skips_deletion (η : env meff) (n : Z) : bool :=
  let '(r, w) := Run (λ _, None) (λ _, "") η two_sources 0 false (World [] fresh_state) in
  bool_decide ((λ x, (s_Migrated x.1, is_some x.2)) <$> r = Some (n, false)) &&
  DeletedOld (entry (w_st w) source_a) &&
  forallb (λ e, negb (is_some (deletes e))) (w_tr w) &&
  existsb (λ e, bool_decide (source_a ∈ listed_in e)) (w_tr w).

Lemma skips_deletion_spec η n : skips_deletion η n = true → deletion_skipped η n.
Proof.
  unfold skips_deletion, deletion_skipped. destruct (Run _ _ η two_sources 0 false _) as [r w].
  intros [[[H1%bool_decide_eq_true H2]%andb_true_iff H3]%andb_true_iff H4]%andb_true_iff. split_and!.
  - destruct r as [[sum [e|]]|]; cbn in H1; simplify_eq. by exists sum.
  - done.
  - intros e He. rewrite forallb_forall in H3. specialize (H3 e). rewrite list_elem_of_In in He.
    specialize (H3 He). by destruct (deletes e).
  - apply existsb_exists in H4 as (e & He & Hd%bool_decide_eq_true). exists e.
    split; [by apply list_elem_of_In|done].
Qed.

(** A source can be recorded as deleted without being deleted: when a
    listing fails while replacements are verified, the sources whose
    replacement was already seen enabled are looked up in that failed listing,
    found absent, and checkpointed as deleted, although the last listing still
    had them enabled at the legacy callback. *)
Theorem recorded_without_deletion : deletion_skipped listing_env 1.
Proof. apply skips_deletion_spec. vm_compute. reflexivity. Qed.

(** Nothing fails, but the broadcaster's listing has two pages, the sources on
    the first: [List] leaves its cursor in the query that the polls share. *)
Definition paged_env : env meff := λ A t op,
  match op in meff A return A with
  | @Twitch B c =>
    match c in mcall B return result (mresponse B) with
    | MList _ after =>
      let status := if (4 <=? length (filter (λ e, is_list e = true) t))%nat then "enabled"
                    else "webhook_callback_verification_pending" in
      let made := existsb (λ e, bool_decide (is_Some (created_in e))) t in
      if String.eqb after "" then answer (ListingPage (Some [source_a; source_b]) 0 10000 "next")
      else answer (ListingPage (Some (if made then [target_of source_a status; target_of source_b status] else [])) 0 10000 "")
    | MCreate s cb secret => listing_env _ t (Twitch (MCreate s cb secret))
    | MDelete id => answer tt
    end
  | op => listing_env _ t op
  end.

(** So a migration whose replacements are not all enabled at the first poll
    judges the sources by a listing without its first page: it checkpoints
    sources as deleted that it never deleted. *)
Theorem recorded_without_first_page : deletion_skipped paged_env 2.
Proof. apply skips_deletion_spec. vm_compute. reflexivity. Qed.
