(* ===== verification/MigMain.v ===== *)
(** * The migration command

    Models agent/cmd/migrate-eventsub/main.go: the options, and the command
    that composes the migrator of Migrate.v with its snapshot, checkpoint,
    credentials and locks: a dry run by default, and an audit at the end. Files,
    secrets and Firestore are effects; the text of the output is left out, a
    line holds what it prints (but for the costs that a snapshot records, which
    are only printed). *)

From stdpp Require Import base gmap strings list.
From Stdlib Require Import Ascii.
From S2P Require Import Prelude GoErr Json Effects Http Store MigApi MigPlan Migrate MigSafe.
From S2P Require Jobs UrlParse.

(** ** Options *)

Record options := Options {
  project : string; backup : string;
  apply_ : bool; resume : bool; rollback_ : bool; verify : bool; retry : bool; all_ : bool;
  o_limit : Z; rate : Z; reserve : Z; maxAttempts : Z;
  timeout : duration
}.
Definition defaults : options :=
  Options "rtchat-47692" "eventsub-migration.json" false false false false false false 20 150 200 3 (30 * minute).

(** What a flag sets. *)
Inductive flag :=
  | BoolFlag (f : bool → options)
  | StringFlag (f : string → options)
  | IntFlag (f : Z → options)
  | DurationFlag (f : duration → options).

Definition flag_named (o : options) (name : string) : option flag :=
  let '(Options p b a r k v t l n x y m d) := o in
  if String.eqb name "project" then Some (StringFlag (λ p, Options p b a r k v t l n x y m d))
  else if String.eqb name "backup" then Some (StringFlag (λ b, Options p b a r k v t l n x y m d))
  else if String.eqb name "apply" then Some (BoolFlag (λ a, Options p b a r k v t l n x y m d))
  else if String.eqb name "resume" then Some (BoolFlag (λ r, Options p b a r k v t l n x y m d))
  else if String.eqb name "rollback" then Some (BoolFlag (λ k, Options p b a r k v t l n x y m d))
  else if String.eqb name "limit" then Some (IntFlag (λ n, Options p b a r k v t l n x y m d))
  else if String.eqb name "all" then Some (BoolFlag (λ l, Options p b a r k v t l n x y m d))
  else if String.eqb name "rate" then Some (IntFlag (λ x, Options p b a r k v t l n x y m d))
  else if String.eqb name "reserve" then Some (IntFlag (λ y, Options p b a r k v t l n x y m d))
  else if String.eqb name "max-attempts" then Some (IntFlag (λ m, Options p b a r k v t l n x y m d))
  else if String.eqb name "retry-failed" then Some (BoolFlag (λ t, Options p b a r k v t l n x y m d))
  else if String.eqb name "verify" then Some (BoolFlag (λ v, Options p b a r k v t l n x y m d))
  else if String.eqb name "timeout" then Some (DurationFlag (λ d, Options p b a r k v t l n x y m d))
  else None.

(** [strconv.ParseBool]. *)
Definition parse_bool (s : string) : option bool :=
  if existsb (String.eqb s) ["1"; "t"; "T"; "TRUE"; "true"; "True"] then Some true
  else if existsb (String.eqb s) ["0"; "f"; "F"; "FALSE"; "false"; "False"] then Some false else None.

Definition ErrHelp : error := ErrMsg "flag: help requested".

Section Parse.
(** [strconv.ParseInt] with base 0, and [time.ParseDuration]. *)
Variables (ParseInt : string → option Z) (ParseDuration : string → option duration).

Definition set_flag (f : flag) (v : string) : option options :=
  match f with
  | BoolFlag f => f <$> parse_bool v
  | StringFlag f => Some (f v)
  | IntFlag f => f <$> ParseInt v
  | DurationFlag f => f <$> ParseDuration v
  end.

(** [flags.Parse]: the options, and the arguments that are left. *)
Fixpoint parse_flags (o : options) (args : list string) : result (options * list string) :=
  match args with
  | [] => inr (o, [])
  | s :: rest =>
    if (String.length s <? 2)%nat || negb (has_prefix s "-") then inr (o, args)
    else if String.eqb s "--" then inr (o, rest)
    else
      let name := drop_str (if has_prefix s "--" then 2 else 1) s in
      if String.eqb name "" || has_prefix name "-" || has_prefix name "=" then inl (ErrMsg "bad flag syntax")
      else
        let '(name, v) := UrlParse.cut "=" name in
        match flag_named o name with
        | None => inl (if String.eqb name "help" || String.eqb name "h" then ErrHelp
                       else ErrMsg ("flag provided but not defined: -" +:+ name))
        | Some f =>
          let set v rest := match set_flag f v with
                            | Some o => parse_flags o rest
                            | None => inl (ErrMsg ("invalid value for flag -" +:+ name))
                            end in
          match f, v, rest with
          | BoolFlag _, None, _ => set "true" rest
          | _, Some v, _ => set v rest
          | _, None, v :: rest => set v rest
          | _, None, [] => inl (ErrMsg ("flag needs an argument: -" +:+ name))
          end
        end
  end.

Definition parse (args : list string) : result options :=
  match parse_flags defaults args with
  | inl e => inl e
  | inr (Options p b a r k v t l n x y m d, left_) =>
    let n := if l then 0 else n in
    if negb (bool_decide (left_ = [])) || String.eqb b "" || String.eqb p "" || (n <? 0) || (d <=? 0) || (168 * hour <? d) ||
       (x <? 1) || (800 <? x) || (y <? 0) || (m <? 1)
    then inl (ErrMsg "invalid arguments")
    else if negb (String.eqb p "rtchat-47692") then
      inl (ErrMsg "shared provider credentials are scoped to rtchat-47692; refusing another project")
    else if k && negb r then inl (ErrMsg "--rollback requires --resume and the original backup")
    else inr (Options p b a r k v t l n x y m d)
  end.
End Parse.

(** ** The command *)

(** What the command prints. *)
Inductive line :=
  | LBackup (planned paid preexisting : Z)
  | LDryRun (rb : bool) (limit rate : Z)
  | LListed (sub : Subscription) (g : Group)
  | LCounts (done failed listed : Z)
  | LSummary (s : Summary)
  | LRemaining (rb : bool) (n : Z) (l : Listing).

Inductive zeff : Type → Type :=
  | ZMig {A} (op : meff A) : zeff A
  | ZCredentials : zeff (result (string * string))           (* the client id and the legacy secret *)
  | ZToken : zeff (result string)
  | ZReadSnapshot (path : string) : zeff (result Snapshot)
  | ZWriteSnapshot (path : string) (s : Snapshot) : zeff (option error)
  | ZLockFile (path : string) : zeff (option error)
  | ZLoadCheckpoint (state journal : string) (s : Snapshot) : zeff (result (gmap string Progress))
  | ZConnect : zeff (option error)                           (* a Firestore client *)
  | ZGetAll (refs : list string) : zeff (result (list (option doc)))
  | ZSecret : zeff (result string)                           (* the agent's signing secret *)
  | ZCompact (state journal : string) (entries : gmap string Progress) : zeff (option error)
  | ZOpenJournal (journal : string) (entries : gmap string Progress) : zeff (option error)
  | ZPrint (l : line) : zeff unit.

Definition lift_ev : ev meff → ev zeff := embedded_ev (@ZMig).
(** Part of the migrator, whose effects continue the command's. *)
Definition migrator {A} (η : env zeff) (m : env meff → M (world meff mstate) A) : M (world zeff mstate) A :=
  embedded (@ZMig) id (λ s _, s) η m.

Definition snapshot_of (clientID : string) (l : Listing) : Snapshot :=
  Snapshot_ 1 clientID (LegacyCallback, AliasCallback) TargetCallback (Data l).

(** The broadcasters of a plan, in order. *)
Definition broadcasters (s : Snapshot) : list string :=
  foldl (λ ids g, if String.eqb (Broadcaster g) "" || existsb (String.eqb (Broadcaster g)) ids then ids
                  else ids ++ [Broadcaster g]) [] (Order s ∅).
Definition channel_ref (id : string) : string := "channels/twitch:" +:+ id.
(** The activity that the documents of [ids] record. *)
Definition add_activity (m : gmap string time) (ids : list string) (docs : list (option doc)) : gmap string time :=
  foldl (λ m p, match p.2 with
                | Some d => match field d "lastActiveAt" with VTime t => <[p.1 := t]> m | _ => m end
                | None => m
                end) m (zip ids docs).

Definition paid (s : Snapshot) : Z := Migrate.count (λ sub, 0 <? Cost sub) (Planned s).
Definition preexisting (s : Snapshot) : Z :=
  Migrate.count (λ sub, String.eqb (Method sub) "webhook" && String.eqb (Callback sub) TargetCallback && active (Status sub))
    (Subscriptions s).

(** What a dry run lists, and its counts: complete, given up, listed. *)
Definition dry_step (o : options) (entries : gmap string Progress) (acc : list line * (Z * Z * Z)) (x : Group * Subscription) :
    list line * (Z * Z * Z) :=
  let '(lines, (done, failed, listed)) := acc in
  let progress := default no_progress (entries !! ID x.2) in
  if Migrate.done progress (rollback_ o) then (lines, (done + 1, failed, listed))
  else if (maxAttempts o <=? Attempts progress) && negb (retry o) then (lines, (done, failed + 1, listed))
  else if (o_limit o =? 0) || (listed <? o_limit o) then (lines ++ [LListed x.2 x.1], (done, failed, listed + 1))
  else (lines, (done, failed, listed)).
Definition dry_run (o : options) (s : Snapshot) (activity : gmap string time) (entries : gmap string Progress) : list line :=
  let '(lines, (done, failed, listed)) :=
    foldl (dry_step o entries) ([], (0, 0, 0)) (Order s activity ≫= λ g, map (λ sub, (g, sub)) (g_subs g)) in
  lines ++ [LCounts done failed listed].

Section Command.
(** [http.ParseTime] and the text of an error. *)
Variables (http_date : string → option time) (error_text : error → string).
Variables (ParseInt : string → option Z) (ParseDuration : string → option duration).
Variable η : env zeff.
(** Pages of a listing and polls of a verification. *)
Variable fuel : nat.
Local Abbreviation M := (M (world zeff mstate)).

Definition exec_ (op : zeff (option error)) : M (result unit) :=
  e ← ask η op; match e with Some e => throw e | None => ok tt end.
Definition wrap {A} (msg : string) (m : M (result A)) : M (result A) :=
  r ← m; mret (match r with inl e => inl (ErrWrap msg e) | inr a => inr a end).
Fixpoint print_all (l : list line) : M unit :=
  match l with [] => mret tt | x :: l => ask η (ZPrint x) ;; print_all l end.

(** [deps.LoadAPI]: the client id and the legacy secret. *)
Definition LoadAPI : M (result (string * string)) :=
  credentials ←? wrap "load Twitch credentials" (ask η ZCredentials);
  token ←? wrap "obtain Twitch app token" (ask η ZToken);
  ok credentials.

Definition listing : M (result Listing) :=
  l ← migrator η (λ η, List http_date η fuel "" "");
  match l.1.2 with Some e => throw e | None => ok l.1.1 end.

(** The snapshot that is resumed, or a new one that is written first. *)
Definition take_snapshot (o : options) (clientID : string) : M (result Snapshot) :=
  if resume o then ask η (ZReadSnapshot (backup o))
  else
    l ←? listing;
    let s := snapshot_of clientID l in
    wrap "write immutable backup" (exec_ (ZWriteSnapshot (backup o) s)) ;?
    ok s.

Fixpoint activity_from (m : gmap string time) (batches : list (list string)) : M (result (gmap string time)) :=
  match batches with
  | [] => ok m
  | ids :: batches =>
    docs ←? ask η (ZGetAll (map channel_ref ids));
    activity_from (add_activity m ids docs) batches
  end.
Definition lastActive (ids : list string) : M (result (gmap string time)) := activity_from ∅ (Jobs.chunks 300 ids).
(** [deps.Activity]. *)
Definition Activity (ids : list string) : M (result (gmap string time)) := exec_ ZConnect ;? lastActive ids.

Definition config_of (o : options) (s : Snapshot) (clientID dedicated legacySecret : string) (activity : gmap string time) : config :=
  let '(secret, restoreSecret) := if rollback_ o then (legacySecret, dedicated) else (dedicated, legacySecret) in
  Config s clientID true secret restoreSecret activity (maxAttempts o) (retry o) 0 0 0 fuel.

(** The audit after a run. *)
Definition audit (o : options) (cfg : config) : M (result unit) :=
  current ←? listing;
  st ← get_st;
  match (if rollback_ o then None else VerifyCompleted cfg st (Data current)) with
  | Some e => throw e
  | None => ask η (ZPrint (LRemaining (rollback_ o) (Migrate.count Eligible (Data current)) current)) ;; ok tt
  end.

Definition perform (o : options) (cfg : config) : M (result unit) :=
  r ← migrator η (λ η, Run http_date error_text η cfg (o_limit o) (rollback_ o));
  let '(summary, err) := default (no_summary, Some (ErrMsg "unreachable")) r in
  ask η (ZPrint (LSummary summary)) ;;
  match err with
  | Some e => throw e
  | None => if verify o then audit o cfg else ok tt
  end.

Definition state_path (o : options) : string := backup o +:+ ".state.json".
Definition journal_path (o : options) : string := backup o +:+ ".journal.jsonl".
Definition lock_path (o : options) : string := backup o +:+ ".lock".

Definition set_entries (m : gmap string Progress) (st : mstate) : mstate :=
  MState (pacer st) (cost_known st) (cost_total st) (cost_max st) m.

Definition apply_plan (o : options) (s : Snapshot) (clientID legacySecret : string)
    (checkpoint : gmap string Progress) (activity : gmap string time) : M (result unit) :=
  dedicated ←? wrap "load dedicated EventSub signing secret" (ask η ZSecret);
  exec_ ZConnect ;?
  exec_ (ZCompact (state_path o) (journal_path o) checkpoint) ;?
  exec_ (ZOpenJournal (journal_path o) checkpoint) ;?
  modify_st (set_entries checkpoint) ;;
  perform o (config_of o s clientID dedicated legacySecret activity).

(** [runWith] once the snapshot is at hand. *)
Definition with_snapshot (o : options) (clientID legacySecret : string) (s : Snapshot) : M (result unit) :=
  match Validate s clientID with
  | Some e => throw e
  | None =>
    (if apply_ o then exec_ (ZLockFile (lock_path o)) else ok tt) ;?
    checkpoint ←? ask η (ZLoadCheckpoint (state_path o) (journal_path o) s);
    activity ←? wrap "read broadcaster activity for ordering" (Activity (broadcasters s));
    ask η (ZPrint (LBackup (Z.of_nat (length (Planned s))) (paid s) (preexisting s))) ;;
    if apply_ o then apply_plan o s clientID legacySecret checkpoint activity
    else
      ask η (ZPrint (LDryRun (rollback_ o) (o_limit o) (rate o))) ;;
      print_all (dry_run o s activity checkpoint) ;; ok tt
  end.

Definition runWith (args : list string) : M (result unit) :=
  match parse ParseInt ParseDuration args with
  | inl e => throw e
  | inr o =>
    credentials ←? LoadAPI;
    put_st (MState (Some (NewPacer (rate o) (reserve o))) false 0 0 ∅) ;;
    s ←? take_snapshot o credentials.1;
    with_snapshot o credentials.1 credentials.2 s
  end.
End Command.

(** ** What the command may change *)

(** What the trace holds of the migrator. *)
Definition migration_event (e : ev zeff) : option (ev meff) :=
  match e with
  | Ev op a => match op in zeff A return A → option (ev meff) with
               | ZMig op => λ a, Some (Ev op a)
               | _ => λ _, None
               end a
  end.
Definition migration_trace (t : trace zeff) : trace meff := omap migration_event t.

Definition mutates (e : ev meff) : bool :=
  match e with Ev op _ => match op with Twitch (MList _ _) => false | Twitch _ => true | _ => false end end.

Lemma migration_lift t t' : migration_trace (map lift_ev t ++ t') = t ++ migration_trace t'.
Proof. apply embedded_projected. by intros [A op a]. Qed.

(** [s] is the plan of [o]: validated, and on disk. *)
Definition planned_from (o : options) (s : Snapshot) (t : trace zeff) : Prop :=
  ∃ clientID secret, Ev ZCredentials (inr (clientID, secret)) ∈ t ∧ Validate s clientID = None ∧
    if resume o then Ev (ZReadSnapshot (backup o)) (inr s) ∈ t
    else Ev (ZWriteSnapshot (backup o) s) None ∈ t.
Definition loaded (o : options) (s : Snapshot) (m : gmap string Progress) (t : trace zeff) : Prop :=
  planned_from o s t ∧ Ev (ZLoadCheckpoint (state_path o) (journal_path o) s) (inr m) ∈ t.
Definition locked (o : options) (t : trace zeff) : Prop := Ev (ZLockFile (lock_path o)) None ∈ t.
Definition compacted (o : options) (m : gmap string Progress) (t : trace zeff) : Prop :=
  Ev (ZCompact (state_path o) (journal_path o) m) None ∈ t.
Definition journalled (o : options) (m : gmap string Progress) (t : trace zeff) : Prop :=
  Ev (ZOpenJournal (journal_path o) m) None ∈ t.

(** What one effect needs, [parsed] being what the arguments give. *)
Definition command_allows (parsed : result options) (t : trace zeff) (e : ev zeff) : Prop :=
  match e with
  | Ev op a =>
    match op in zeff A return A → Prop with
    | ZMig op => λ a, mutates (Ev op a) = true →
        ∃ o s m, parsed = inr o ∧ apply_ o = true ∧ locked o t ∧ loaded o s m t ∧ compacted o m t ∧ journalled o m t ∧
          ∀ id, deletes (Ev op a) = Some id →
            ∃ cfg, c_snapshot cfg = s ∧ run_ok cfg (Planned s) (rollback_ o) (migration_trace t) id
    | ZWriteSnapshot path _ => λ _, ∃ o, parsed = inr o ∧ resume o = false ∧ path = backup o
    | ZLoadCheckpoint _ _ s => λ _, ∃ o, parsed = inr o ∧ planned_from o s t ∧ (apply_ o = true → locked o t)
    | ZSecret | ZLockFile _ => λ _, ∃ o, parsed = inr o ∧ apply_ o = true
    | ZCompact state journal m => λ _, ∃ o s, parsed = inr o ∧ apply_ o = true ∧ locked o t ∧ loaded o s m t ∧
        state = state_path o ∧ journal = journal_path o
    | ZOpenJournal journal m => λ _, ∃ o, parsed = inr o ∧ apply_ o = true ∧ compacted o m t ∧ journal = journal_path o
    | _ => λ _, True
    end a
  end.

Lemma planned_stable o s : stable (planned_from o s).
Proof. intros e t (c & k & Hc & Hv & Hs). exists c, k. split_and!; [by right|done|]. destruct (resume o); by right. Qed.
Lemma loaded_stable o s m : stable (loaded o s m).
Proof. intros e t [Hp Hl]. split; [by apply planned_stable|by right]. Qed.

Lemma run_ok_mono cfg srcs rb (t t' : trace meff) id :
  t ⊆ t' → run_ok cfg srcs rb t id → run_ok cfg srcs rb t' id.
Proof.
  intros Ht. assert (Hl : ∀ s, listed t s → listed t' s) by (intros s (e & ? & ?); exists e; auto).
  assert (Hc : ∀ s c n, created t s c n → created t' s c n) by (intros s c n (e & ? & ?); exists e; auto).
  assert (Hs : ∀ i p, saved t i p → saved t' i p) by (intros i p; apply Ht).
  destruct rb; intros (src & Hin & Hw); exists src; (split; [done|]).
  - destruct Hw as [(cur & ? & ? & ? & ? & Hd)|(n & ? & ?)]; [left; exists cur|right; exists n; auto].
    split_and!; [auto..|]. destruct Hd as [(d & ? & ?)|(p & ? & ?)]; [left; exists d|right; exists p]; auto.
  - destruct Hw as [(cur & ? & ? & ? & Hd)|(n & ? & ?)]; [left; exists cur|right; exists n; auto].
    split_and!; [auto..|]. destruct Hd as [(d & ? & ?)|(p & ? & ?)]; [left; exists d|right; exists p]; auto.
Qed.

(** Embedding a program of the migrator. *)
Lemma runs_migrator {A} η (m : env meff → M (world meff mstate) A) P (P' : trace meff → ev meff → Prop) (F : trace zeff → Prop) :
  stable F → (∀ t u e, F t → P' u e → P (map lift_ev u ++ t) (lift_ev e)) →
  (∀ η', runs P' (λ _, True) (m η') (λ _ _, True)) →
  runs P F (migrator η m) (λ _ t, F t).
Proof. intros HF HP Hm. apply (runs_embedded _ _ _ η m P P' F HF HP). intros η' s. by apply (Hm η' (World [] s)). Qed.

(** A listing only reads. *)
Lemma runs_List http_date η fuel q after :
  runs (λ _ e, mutates e = false) (λ _, True) (List http_date η fuel q after) (λ _ _, True).
Proof.
  unfold List. generalize (@nil string), empty_listing. revert after. induction fuel as [|fuel IH]; intros after seen all;
    cbn [list_pages]; [by apply runs_ret|].
  eapply runs_bind with (λ _ _, True).
  { apply (runs_mrequest_from http_date η _ (λ _ _, True) (λ _ _, True)); try done; intros u A op a t Hq _; split; [|done|..]; try by destruct op. }
  intros [e|p]; [by apply runs_ret|]. destruct (lp_data p); [|by apply runs_ret].
  eapply runs_bind; [apply runs_modify_st|]. intros ?. repeat (case_match; [by apply runs_ret|]). apply IH.
Qed.

Section Safe.
Context (http_date : string → option time) (error_text : error → string).
Context (η : env zeff) (fuel : nat) (parsed : result options).
Local Abbreviation P := (command_allows parsed).
(** [m] gives [G] of its result, and keeps [F]. *)
Local Abbreviation gives F m G := (runs (S:=mstate) P F m (λ r t, F t ∧ ∀ a, r = inr a → G a t)).

Lemma gives_then {A B} F (m : M (world zeff mstate) (result A)) G (k : A → M (world zeff mstate) (result B)) :
  gives F m G → (∀ a, runs P (λ t, F t ∧ G a t) (k a) (λ _ _, True)) → runs P F (bindE m k) (λ _ _, True).
Proof.
  intros Hm Hk. eapply runs_bindE; [exact Hm|done|]. intros a.
  eapply runs_conseq; [apply Hk| |done]. intros t [Ht Ha]. split; [done|by apply Ha].
Qed.

Lemma gives_wrap {A} F msg (m : M (world zeff mstate) (result A)) G : gives F m G → gives F (wrap msg m) G.
Proof.
  intros Hm. eapply runs_bind; [exact Hm|]. intros r. apply runs_ret. intros t [Ht Ha]. split; [done|].
  intros a Hr. apply Ha. by destruct r; simplify_eq.
Qed.

Lemma gives_weaken {A} F (m : M (world zeff mstate) (result A)) (G G' : A → trace zeff → Prop) :
  gives F m G → (∀ a t, G a t → G' a t) → gives F m G'.
Proof. intros Hm HG. eapply runs_conseq; [exact Hm|done|]. intros r t [Ht Ha]. split; [done|]. intros a Hr. by apply HG, Ha. Qed.

(** An effect that is allowed. *)
Lemma gives_ask {A} F (op : zeff (result A)) :
  stable F → (∀ t a, F t → P t (Ev op a)) → gives F (ask η op) (λ a t, Ev op (inr a) ∈ t).
Proof.
  intros HF HP. apply runs_ask. intros t Ht. split; [by apply HP|]. split; [by apply HF|]. intros a <-. by left.
Qed.

Lemma gives_exec F (op : zeff (option error)) :
  stable F → (∀ t a, F t → P t (Ev op a)) → gives F (exec_ η op) (λ _ t, Ev op None ∈ t).
Proof.
  intros HF HP. apply runs_ask_bind with (λ a t, F t ∧ Ev op a ∈ t).
  - intros t a Ht. split; [by apply HP|]. split; [by apply HF|by left].
  - intros [e|]; apply runs_ret; intros t [Ht Ha]; split; [done|done|done|]. by intros a _.
Qed.

Lemma runs_print F l : stable F → runs (S:=mstate) P F (ask η (ZPrint l)) (λ _ t, F t).
Proof. intros HF. apply runs_ask. intros t Ht. split; [done|by apply HF]. Qed.

Lemma runs_print_all F l : stable F → runs (S:=mstate) P F (print_all η l) (λ _ t, F t).
Proof.
  intros HF. induction l as [|x l IH]; cbn [print_all]; [by apply runs_ret|].
  eapply runs_bind; [by apply runs_print|]. intros ?. apply IH.
Qed.

Lemma gives_listing F : stable F → gives F (listing http_date η fuel) (λ _ _, True).
Proof.
  intros HF. apply runs_bind with (λ _ t, F t).
  - apply runs_migrator with (λ _ e, mutates e = false); [done| |intros; apply runs_List].
    intros t u [A op a] Ht He. cbn in *. by rewrite He.
  - intros l. destruct l.1.2; apply runs_ret; by intros.
Qed.

Lemma gives_LoadAPI F : stable F → gives F (LoadAPI η) (λ c t, Ev ZCredentials (inr c) ∈ t).
Proof.
  intros HF. eapply runs_bindE; [by apply gives_wrap, gives_ask|by intros e t [? _]|]. intros c.
  set (F' := λ t, F t ∧ Ev ZCredentials (inr c) ∈ t).
  assert (HF' : stable F') by (unfold F'; auto with effects).
  apply runs_conseq with F' (λ r t, F' t ∧ ∀ a, r = inr a → a = c).
  - eapply runs_bindE; [by apply gives_wrap, (gives_ask F')|by intros e t [? _]|].
    intros x. apply runs_ret. intros t [? _]. split; [done|]. by intros a [= <-].
  - intros t [Ht Hc]. split; [done|by apply Hc].
  - intros r t [[Ht Hc] Hr]. split; [done|]. by intros a ->%Hr.
Qed.

(** The snapshot that is used was read, or is on disk. *)
Lemma gives_snapshot F o clientID :
  stable F → (∀ t, F t → parsed = inr o) →
  gives F (take_snapshot http_date η fuel o clientID)
    (λ s t, if resume o then Ev (ZReadSnapshot (backup o)) (inr s) ∈ t else Ev (ZWriteSnapshot (backup o) s) None ∈ t).
Proof.
  intros HF Ho. unfold take_snapshot. destruct (resume o) eqn:Hres; [by apply gives_ask|].
  eapply runs_bindE; [by apply gives_listing|by intros e t [? _]|]. intros l. cbn.
  eapply runs_bindE.
  { apply gives_wrap, (gives_exec (λ t, F t ∧ ∀ a, inr l = inr a → True)); [auto with effects|].
    intros t a [Ht _]. exists o. split_and!; [by eapply Ho|done|done]. }
  { by intros e t [[? _] _]. }
  intros []. apply runs_ret. intros t [[Ht _] Hw]. split; [done|]. intros a [= <-]. by apply (Hw tt).
Qed.

Lemma gives_Activity F ids : stable F → gives F (Activity η ids) (λ _ _, True).
Proof.
  intros HF. unfold Activity, lastActive. eapply runs_bindE; [by apply gives_exec|by intros e t [? _]|]. intros [].
  apply runs_conseq with F (λ r t, F t ∧ ∀ a, r = inr a → True); [|by intros t []|done].
  generalize (∅ : gmap string time). induction (Jobs.chunks 300 ids) as [|b bs IH]; intros m; cbn [activity_from]; [by apply runs_ret|].
  eapply runs_bindE; [by apply gives_ask|by intros e t [? _]|]. intros docs.
  eapply runs_conseq; [apply IH|by intros t []|done].
Qed.

Section Plan.
Context (o : options) (s : Snapshot) (m : gmap string Progress).
Context (Ho : parsed = inr o) (Ha : apply_ o = true).

(** Everything that must be in place before the provider is changed. *)
Definition in_place (t : trace zeff) : Prop := locked o t ∧ loaded o s m t ∧ compacted o m t ∧ journalled o m t.
Lemma in_place_stable : stable in_place.
Proof. intros e t (? & ? & ? & ?). split_and!; [by right|by apply loaded_stable|by right|by right]. Qed.

Lemma runs_Run cfg (Hs : c_snapshot cfg = s) :
  runs P in_place (migrator η (λ η, Run http_date error_text η cfg (o_limit o) (rollback_ o))) (λ _ t, in_place t).
Proof.
  apply runs_migrator with (allowed_by (run_ok cfg (Planned (c_snapshot cfg)) (rollback_ o)));
    [apply in_place_stable| |intros; apply sruns_Run].
  intros t u [A op a] Ht He Hm. exists o, s, m.
  destruct (stable_suffix _ t (map lift_ev u ++ t) in_place_stable) as (? & ? & ? & ?); [by eexists|done|].
  split_and!; [done..|]. intros id Hid. exists cfg. split; [done|]. rewrite Hs in He.
  eapply run_ok_mono; [|by apply He]. rewrite migration_lift. apply list_subseteq_app_l. done.
Qed.

Lemma runs_audit cfg F : stable F → runs P F (audit http_date η fuel o cfg) (λ _ _, True).
Proof.
  intros HF. unfold audit. eapply gives_then; [by apply gives_listing|]. intros l.
  eapply runs_bind; [apply runs_get_st|]. intros st. case_match; [by apply runs_ret|].
  eapply runs_bind; [apply runs_print; auto with effects|]. intros ?. by apply runs_ret.
Qed.

Lemma runs_perform cfg (Hs : c_snapshot cfg = s) :
  runs P in_place (perform http_date error_text η fuel o cfg) (λ _ _, True).
Proof.
  unfold perform. eapply runs_bind; [by apply runs_Run|]. intros r. destruct (default _ r) as [sum err].
  eapply runs_bind; [apply runs_print, in_place_stable|]. intros ?.
  destruct err; [by apply runs_ret|]. destruct (verify o); [|by apply runs_ret]. apply runs_audit, in_place_stable.
Qed.

Lemma runs_apply_plan clientID legacySecret activity :
  runs P (λ t, locked o t ∧ loaded o s m t)
    (apply_plan http_date error_text η fuel o s clientID legacySecret m activity) (λ _ _, True).
Proof.
  set (F := λ t, locked o t ∧ loaded o s m t).
  assert (HF : stable F) by (intros e t [??]; split; [by right|by apply loaded_stable]).
  unfold apply_plan. eapply gives_then.
  { apply gives_wrap, (gives_ask F); [done|]. intros t a _. by exists o. }
  intros dedicated. eapply gives_then with (G := λ _ _, True).
  { eapply gives_weaken; [by apply gives_exec; [auto with effects|]|done]. }
  intros []. eapply gives_then.
  { apply gives_exec; [auto with effects|]. intros t a [[[Hl Hd] _] _]. by exists o, s. }
  intros []. eapply gives_then.
  { apply gives_exec; [auto with effects|]. intros t a [_ Hc]. by exists o. }
  intros []. eapply runs_bind; [apply runs_modify_st|]. intros ?.
  eapply runs_conseq; [apply runs_perform; by unfold config_of; destruct (rollback_ o)| |done].
  intros t [[[[[? ?] _] _] ?] ?]. by split_and!.
Qed.
End Plan.

Lemma runs_with_snapshot o clientID legacySecret s (Ho : parsed = inr o) :
  runs P (λ t, Ev ZCredentials (inr (clientID, legacySecret)) ∈ t ∧
      if resume o then Ev (ZReadSnapshot (backup o)) (inr s) ∈ t else Ev (ZWriteSnapshot (backup o) s) None ∈ t)
    (with_snapshot http_date error_text η fuel o clientID legacySecret s) (λ _ _, True).
Proof.
  unfold with_snapshot. destruct (Validate s clientID) eqn:Hv; [by apply runs_ret|].
  apply runs_conseq with (planned_from o s) (λ _ _, True); [|intros t []; exists clientID, legacySecret; by split_and!|done].
  eapply gives_then with (G := λ _ t, apply_ o = true → locked o t).
  { destruct (apply_ o) eqn:Ha.
    - eapply gives_weaken; [apply gives_exec; [apply planned_stable|intros t a _; by exists o]|]. by intros.
    - apply runs_ret. by intros t. }
  intros []. set (F := λ t, planned_from o s t ∧ (apply_ o = true → locked o t)).
  assert (HF : stable F).
  { intros e t [Hp Hl]. split; [by apply planned_stable|]. intros Ha. right. by apply Hl. }
  eapply gives_then.
  { apply (gives_ask F); [done|]. intros t a [Hp Hl]. by exists o. }
  intros m. set (G := λ t, (apply_ o = true → locked o t) ∧ loaded o s m t).
  assert (HG : stable G).
  { intros e t [Hl Hd]. split; [|by apply loaded_stable]. intros Ha. right. by apply Hl. }
  apply runs_conseq with G (λ _ _, True); [|intros t [[? ?] ?]; by split_and!|done].
  eapply gives_then; [by apply gives_wrap, gives_Activity|]. intros activity.
  apply runs_conseq with G (λ _ _, True); [|by intros t []|done].
  eapply runs_bind; [by apply runs_print|]. intros ?. destruct (apply_ o) eqn:Ha.
  - eapply runs_conseq; [by apply runs_apply_plan| |done]. intros t [Hl Hd]. split; [by apply Hl|done].
  - eapply runs_bind; [by apply runs_print|]. intros ?.
    eapply runs_bind; [by apply runs_print_all|]. intros ?. by apply runs_ret.
Qed.
End Safe.

(** C13. The migration command changes the provider only when its arguments ask
    for it and everything is in place: every creation or deletion comes after
    --apply was parsed, the lock file was taken, the validated snapshot was read
    or durably written, and its checkpoint was loaded, compacted and its journal
    opened; every deletion is one that the snapshot's plan permits (as in
    MigSafe). Without --apply nothing is locked, compacted or changed, and with
    --resume no snapshot is overwritten. *)
Theorem migrate_command http_date error_text ParseInt ParseDuration η fuel args s0 :
  justified (command_allows (parse ParseInt ParseDuration args))
    (w_tr (runWith http_date error_text ParseInt ParseDuration η fuel args (World [] s0)).2).
Proof.
  set (parsed := parse ParseInt ParseDuration args).
  assert (H : runs (command_allows parsed) (λ _, True)
    (runWith http_date error_text ParseInt ParseDuration η fuel args) (λ _ _, True)); [|by apply (H (World [] s0))].
  unfold runWith. fold parsed. destruct parsed as [e|o] eqn:Ho; [by apply runs_ret|].
  eapply gives_then; [by apply gives_LoadAPI|]. intros [clientID secret].
  eapply runs_bind; [apply runs_put_st|]. intros ?.
  eapply gives_then; [apply gives_snapshot; auto with effects|]. intros s.
  eapply runs_conseq; [by apply runs_with_snapshot| |done]. by intros t [[_ ?] ?].
Qed.

(** ** Runs *)

Definition decimal (s : string) : option Z := parse_int s.
Definition no_durations (s : string) : option duration := None.
Local Abbreviation parse_ := (parse decimal no_durations).

Example parse_default : parse_ [] = inr defaults.
Proof. reflexivity. Qed.
Example parse_all : o_limit <$> ((λ r, match r with inr o => Some o | inl _ => None end) (parse_ ["-apply"; "--limit"; "7"; "-all"])) = Some 0.
Proof. reflexivity. Qed.
Example parse_bool_value :
  (λ r, match r with inr o => Some (apply_ o, resume o) | inl _ => None end) (parse_ ["--apply=false"; "-resume=T"]) = Some (false, true).
Proof. reflexivity. Qed.
Example parse_refused :
  map parse_ [["-rollback"]; ["-rate"; "801"]; ["apply"]; ["-backup="]; ["-h"]; ["-project"; "other"]; ["-limit"]] =
  [inl (ErrMsg "--rollback requires --resume and the original backup"); inl (ErrMsg "invalid arguments");
   inl (ErrMsg "invalid arguments"); inl (ErrMsg "invalid arguments"); inl ErrHelp;
   inl (ErrMsg "shared provider credentials are scoped to rtchat-47692; refusing another project");
   inl (ErrMsg "flag needs an argument: -limit")].
Proof. reflexivity. Qed.

(** A listing of two sources; replacements are enabled at once. *)
Definition is_creation (e : ev meff) : bool :=
  match e with Ev op _ => match op with Twitch (MCreate _ _ _) => true | _ => false end end.
Definition healthy : env zeff := λ A t op,
  match op in zeff A return A with
  | ZMig op =>
    match op in meff A return A with
    | Now => time_unix 1700000000 0
    | Sleep _ | CtxErr _ | Save _ _ | Lock _ | Unlock _ _ => None
    | Outlasts _ => false
    | Twitch c =>
      match c in mcall B return result (mresponse B) with
      | MList _ _ =>
        answer (ListingPage (Some ([source_a; source_b] ++
          if existsb is_creation (migration_trace t) then [target_of source_a "enabled"; target_of source_b "enabled"] else []))
          0 10000 "")
      | MCreate s _ _ => answer (ListingPage (Some [target_of s "webhook_callback_verification_pending"]) 0 10000 "")
      | MDelete _ => answer tt
      end
    end
  | ZCredentials => inr ("client", "a legacy secret")
  | ZToken => inr "token"
  | ZReadSnapshot _ => inl (ErrMsg "no such file")
  | ZWriteSnapshot _ _ | ZLockFile _ | ZConnect | ZCompact _ _ _ | ZOpenJournal _ _ => None
  | ZLoadCheckpoint _ _ _ => inr ∅
  | ZGetAll refs => inr (map (λ _, None) refs)
  | ZSecret => inr "a dedicated secret"
  | ZPrint _ => tt
  end.

Definition run_healthy (args : list string) : result unit * list (option string) :=
  let '(r, w) := runWith (λ _, None) (λ _, "") decimal no_durations healthy 5 args (World [] fresh_state) in
  (r, rev (omap (λ e, if mutates e then Some (deletes e) else None) (migration_trace (w_tr w)))).

Example healthy_dry_run : run_healthy ["-all"] = (inr tt, []).
Proof. vm_compute. reflexivity. Qed.
Example healthy_apply :
  run_healthy ["-apply"; "-all"; "-verify"] = (inr tt, [None; None; Some "a"; Some "b"]).
Proof. vm_compute. reflexivity. Qed.
Example healthy_no_backup : (run_healthy ["-apply"; "-resume"]).2 = [].
Proof. vm_compute. reflexivity. Qed.
