(* ===== verification/Reporting.v ===== *)
(** * Error reports

    observability/reporting.go: the zap core that turns an entry at Warn or
    above into a Google Error Reporting event, written once for any core that
    it wraps, and the writer that gives net/http's own log to it. *)

From stdpp Require Import base gmap strings list pretty.
From S2P Require Import Prelude GoErr Json JsonText Text.

(** ** Errors, as far as a report reads them

    What Error() gives, the stack when it is a [*PanicError], and what it
    wraps: by Unwrap, one error or several. *)
Inductive go_error := GoError (text : string) (panic : option string) (wraps : list go_error).

Definition error_text (e : go_error) : string := match e with GoError t _ _ => t end.
(** [CapturePanic]: [text] is the value as [%v] prints it. *)
Definition CapturePanic (text stack : string) : go_error := GoError ("panic: " +:+ text) (Some stack) [].

(** [errors.As] with a [*PanicError]: the error itself, then what it wraps, in
    depth. *)
Fixpoint as_panic (e : go_error) : option string :=
  match e with
  | GoError _ (Some stack) _ => Some stack
  | GoError _ None wraps =>
    (fix go (l : list go_error) : option string :=
       match l with
       | [] => None
       | e :: l => match as_panic e with Some s => Some s | None => go l end
       end) wraps
  end.

(** ** Entries and fields of zap *)

Inductive level := DebugLevel | InfoLevel | WarnLevel | ErrorLevel | DPanicLevel | PanicLevel | FatalLevel.
Definition level_rank (l : level) : Z :=
  match l with
  | DebugLevel => -1 | InfoLevel => 0 | WarnLevel => 1 | ErrorLevel => 2
  | DPanicLevel => 3 | PanicLevel => 4 | FatalLevel => 5
  end.

(** [EncodeLevel] of main.go: the severity that Cloud Logging reads. *)
Definition EncodeLevel (l : level) : string :=
  match l with
  | DebugLevel => "DEBUG" | InfoLevel => "INFO" | WarnLevel => "WARNING" | ErrorLevel => "ERROR"
  | DPanicLevel => "CRITICAL" | PanicLevel => "ALERT" | FatalLevel => "EMERGENCY"
  end.

(** The interface of a field: an error, a document, or something else. *)
Inductive iface := IError (e : go_error) | IDoc (j : json) | INone.
Inductive field_type := StringType | Int64Type | ErrorType | ReflectType | OtherType.
Record Field := MkField {
  f_key : string; f_type : field_type; f_integer : Z; f_string : string; f_interface : iface;
}.
Definition zap_String (k v : string) : Field := MkField k StringType 0 v INone.
Definition zap_Int (k : string) (n : Z) : Field := MkField k Int64Type n "" INone.
Definition zap_Error (e : go_error) : Field := MkField "error" ErrorType 0 "" (IError e).
Definition zap_Any (k : string) (j : json) : Field := MkField k ReflectType 0 "" (IDoc j).

Record Entry := MkEntry {
  e_level : level; e_message : string; e_stack : string;
  e_file : string; e_line : Z; e_function : string;
}.

(** A [zapcore.Core]: where it writes is [W]; an error is a write that failed. *)
Record Core (C W : Type) := MkCore {
  Enabled : C → level → bool;
  With : C → list Field → C;
  Write : C → Entry → list Field → W → W * option error;
}.
Arguments MkCore {C W}.
Arguments Enabled {C W}.
Arguments With {C W}.
Arguments Write {C W}.

(** ** The report *)

Definition Version : string := "development".

(** The method, the path and the status: the last field of each key. *)
Definition request_of (all : list Field) : string * string * Z :=
  fold_left (λ acc f, let '(m, p, s) := acc in
    if String.eqb (f_key f) "method" then (f_string f, p, s)
    else if String.eqb (f_key f) "path" then (m, f_string f, s)
    else if String.eqb (f_key f) "status" then (m, p, f_integer f)
    else acc) all ("", "", 0).

(** The loop over the fields: the message and the stack. *)
Definition add_cause (acc : string * string) (f : Field) : string * string :=
  let '(message, stack) := acc in
  let '(message, stack) :=
    match f_type f, f_interface f with
    | ErrorType, IError e =>
      (message +:+ ": " +:+ error_text e, default stack (as_panic e))
    | _, _ => (message, stack)
    end in
  (message, if String.eqb (f_key f) "crash_stack" then f_string f else stack).

Definition headline (message method path : string) (status : Z) : string :=
  if String.eqb message "http request" && negb (String.eqb method "") && negb (String.eqb path "") && negb (status =? 0)
  then "HTTP " +:+ method +:+ " " +:+ path +:+ " returned " +:+ pretty status
  else message.

Definition event_type : string := "type.googleapis.com/google.devtools.clouderrorreporting.v1beta1.ReportedErrorEvent".
Definition service_context : json := JObj [("service", JStr "rtchat-agent"); ("version", JStr Version)].
Definition error_context (e : Entry) (method path : string) (status : Z) : json :=
  JObj (("reportLocation", JObj [("filePath", JStr (e_file e)); ("lineNumber", JNum (pretty (e_line e)));
           ("functionName", JStr (e_function e))]) ::
    if negb (String.eqb method "") && negb (String.eqb path "")
    then [("httpRequest", JObj [("method", JStr method); ("url", JStr path); ("responseStatusCode", JNum (pretty status))])]
    else []).

Definition newline : string := String (Ascii.ascii_of_nat 10) "".

(** The fields of the event: [context] those given to With, [fields] the
    entry's own. *)
Definition report_fields (context : list Field) (e : Entry) (fields : list Field) : list Field :=
  let all := context ++ fields in
  let '(method, path, status) := request_of all in
  let '(message, stack) := fold_left add_cause all (headline (e_message e) method path status, e_stack e) in
  filter (λ f, f_key f ≠ "crash_stack") fields ++
  [zap_String "@type" event_type;
   zap_Any "serviceContext" service_context;
   zap_String "stack_trace" (TrimSpace (message +:+ newline +:+ stack));
   zap_Any "context" (error_context e method path status)].

Section Reporting.
Context {C W : Type} (inner : Core C W).

(** A [reportingCore]: the core it wraps and the fields given to With. *)
Definition reportingCore : Type := C * list Field.
Definition report_Enabled (c : reportingCore) (l : level) : bool := Enabled inner c.1 l.
Definition report_With (c : reportingCore) (fields : list Field) : reportingCore :=
  (With inner c.1 fields, c.2 ++ fields).
Definition report_Write (c : reportingCore) (e : Entry) (fields : list Field) (w : W) : W * option error :=
  if level_rank (e_level e) <? level_rank WarnLevel then Write inner c.1 e fields w
  else Write inner c.1 e (report_fields c.2 e fields) w.
Definition reporting : Core reportingCore W := MkCore report_Enabled report_With report_Write.
Definition Wrap (c : C) : reportingCore := (c, []).
End Reporting.

(** A zap logger on one core: Check, then Write. The caller and the stack are
    the logger's to fill in. *)
Definition Check_entry {C W} (core : Core C W) (c : C) (e : Entry) : bool := Enabled core c (e_level e).
Definition log {C W} (core : Core C W) (c : C) (e : Entry) (fields : list Field) (w : W) : W * option error :=
  if Check_entry core c e then Write core c e fields w else (w, None).

(** [HTTPLogWriter.Write]: the entry carries the logger's caller and stack. *)
Definition HTTPLogWriter_Write {C W} (core : Core C W) (c : C) (at_ : Entry) (p : string) (w : W) : Z * W :=
  let e := MkEntry ErrorLevel "HTTP server error" (e_stack at_) (e_file at_) (e_line at_) (e_function at_) in
  (Z.of_nat (String.length p), (log core c e [zap_String "crash_stack" (TrimSpace p)] w).1).

(** ** What a report says, without the loops *)

(** The value of the last field with a key. *)
Definition last_of {A} (key : string) (get : Field → A) (zero : A) (all : list Field) : A :=
  default zero (get <$> last (filter (λ f, f_key f = key) all)).
(** The error a field carries. *)
Definition field_error (f : Field) : option go_error :=
  match f_type f, f_interface f with ErrorType, IError e => Some e | _, _ => None end.
(** The stack a field brings: its own when it is the crash stack, else that of
    the panic behind its error. *)
Definition field_stack (f : Field) : option string :=
  if String.eqb (f_key f) "crash_stack" then Some (f_string f) else field_error f ≫= as_panic.
Definition causes (all : list Field) : string :=
  foldr (λ e s, ": " +:+ error_text e +:+ s) "" (omap field_error all).
Definition reported_stack (e : Entry) (all : list Field) : string :=
  default (e_stack e) (last (omap field_stack all)).

Lemma last_default_cons {A} (d x : A) (l : list A) : default d (last (x :: l)) = default x (last l).
Proof. rewrite last_cons. by destruct (last l). Qed.

Lemma add_cause_fold all m s :
  fold_left add_cause all (m, s) =
  (m +:+ causes all, default s (last (omap field_stack all))).
Proof.
  revert m s. induction all as [|f all IH]; intros m s; [by rewrite app_str_empty|].
  assert (add_cause (m, s) f =
    (m +:+ foldr (λ e s, ": " +:+ error_text e +:+ s) "" (option_list (field_error f)), default s (field_stack f))) as E.
  { unfold add_cause, field_stack, field_error.
    destruct (f_type f), (f_interface f); cbn; rewrite ?app_str_empty; by destruct (String.eqb _ _). }
  cbn [fold_left]. rewrite E, IH. f_equal.
  - unfold causes. cbn. destruct (field_error f) as [e|]; cbn; [|by rewrite app_str_empty].
    by rewrite !app_str_assoc.
  - cbn. destruct (field_stack f) as [st|]; [by rewrite last_default_cons|done].
Qed.

Lemma request_of_fold all m p s :
  fold_left (λ acc f, let '(m, p, s) := acc in
    if String.eqb (f_key f) "method" then (f_string f, p, s)
    else if String.eqb (f_key f) "path" then (m, f_string f, s)
    else if String.eqb (f_key f) "status" then (m, p, f_integer f)
    else acc) all (m, p, s) =
  (last_of "method" f_string m all, last_of "path" f_string p all, last_of "status" f_integer s all).
Proof.
  revert m p s. induction all as [|f all IH]; intros m p s; [done|]. cbn [fold_left].
  unfold last_of in *.
  destruct (String.eqb_spec (f_key f) "method") as [E|E1]; [|destruct (String.eqb_spec (f_key f) "path") as [E|E2];
    [|destruct (String.eqb_spec (f_key f) "status") as [E|E3]]];
    rewrite IH, !filter_cons; repeat case_decide; try congruence; rewrite ?last_cons;
    by repeat match goal with |- context [last ?l] => destruct (last l) end.
Qed.

Section Reports.
Context {C W : Type} (inner : Core C W).

(** The core after calls of With. *)
Definition withs {C} (core : Core C W) (c : C) (fss : list (list Field)) : C := fold_left (With core) fss c.
Lemma withs_reporting fss c : ∀ ctx,
  withs (reporting inner) (c, ctx) fss = (withs inner c fss, ctx ++ concat fss).
Proof.
  revert c. induction fss as [|fs fss IH]; intros c ctx; cbn; [by rewrite app_nil_r|].
  etrans; [apply IH|]. by rewrite <-app_assoc.
Qed.

(** What reaches the wrapped core: below Warn, the entry as it is; from
    Warn on, the same entry (the message that metrics count is not changed) with
    its fields less the crash stack, and the four fields of an error event. The
    stack trace starts with the message, or the request and its status where
    they are known, followed by each error in the order given, to With first;
    the stack is the last one a field brings, of a crash or of the panic behind
    an error, and the entry's own if none does. *)
Theorem report_written c fss e fields w :
  let core := withs (reporting inner) (Wrap c) fss in
  let all := concat fss ++ fields in
  let method := last_of "method" f_string "" all in
  let path := last_of "path" f_string "" all in
  let status := last_of "status" f_integer 0 all in
  Write (reporting inner) core e fields w =
  Write inner (withs inner c fss) e
    (if level_rank (e_level e) <? level_rank WarnLevel then fields
     else filter (λ f, f_key f ≠ "crash_stack") fields ++
       [zap_String "@type" event_type;
        zap_Any "serviceContext" service_context;
        zap_String "stack_trace"
          (TrimSpace (headline (e_message e) method path status +:+ causes all +:+ newline +:+ reported_stack e all));
        zap_Any "context" (error_context e method path status)]) w.
Proof.
  cbn zeta. unfold Wrap. rewrite withs_reporting. cbn [app]. cbn [Write reporting]. unfold report_Write. cbn [fst snd].
  destruct (_ <? _); [done|]. f_equal. unfold report_fields, request_of.
  rewrite request_of_fold, add_cause_fold. by rewrite app_str_assoc.
Qed.
End Reports.

(** ** Errors that wrap a panic *)

Inductive panicked : go_error → string → Prop :=
  | panicked_here t s l : panicked (GoError t (Some s) l) s
  | panicked_in t l e s : e ∈ l → panicked e s → panicked (GoError t None l) s.

Section GoErrorInd.
Context (P : go_error → Prop) (H : ∀ t p l, Forall P l → P (GoError t p l)).
Fixpoint go_error_ind' (e : go_error) : P e :=
  match e with
  | GoError t p l => H t p l ((fix go (l : list go_error) : Forall P l :=
      match l with [] => Forall_nil_2 _ | e :: l => Forall_cons_2 _ _ _ (go_error_ind' e) (go l) end) l)
  end.
End GoErrorInd.

(** The stack that is reported is that of a panic behind the error, and there
    is one whenever the error wraps a panic at any depth. *)
Lemma as_panic_spec e :
  (∀ s, as_panic e = Some s → panicked e s) ∧ (as_panic e = None → ∀ s, ¬ panicked e s).
Proof.
  induction e as [t [s|] l IH] using go_error_ind'.
  - split; [intros s' [= <-]; constructor|done].
  - cbn. split.
    + intros s. induction IH as [|e l [He _] _ IHl]; [done|]. destruct (as_panic e) as [s'|].
      * intros [= ->]. eapply panicked_in; [apply list_elem_of_here|by apply He].
      * intros Hs. apply IHl in Hs. inversion Hs; subst. eapply panicked_in; [by apply list_elem_of_further|done].
    + intros Hn s Hs. inversion Hs as [|? ? e ? Hin He]; subst. clear Hs. revert Hn Hin.
      induction IH as [|e' l [_ He'] _ IHl]; [by intros _ ?%elem_of_nil|]. destruct (as_panic e'); [done|].
      intros Hn [->|?]%elem_of_cons; [by eapply He'|by apply IHl].
Qed.

(** ** Examples: the cases of the repository's tests *)

(** A core that keeps what it writes. *)
Definition memory : Core (list Field) (list (Entry * list Field)) :=
  MkCore (λ _ _, true) (λ c fs, c ++ fs) (λ c e fs w, (w ++ [(e, c ++ fs)], None)).

Definition stack_of (w : list (Entry * list Field)) : list string :=
  omap (λ ef, f_string <$> find (λ f, String.eqb (f_key f) "stack_trace") ef.2) w.
Definition at_stack (l : level) (m stack : string) : Entry := MkEntry l m stack "kick.go" 361 "webhook.serve".
Definition kick_core := withs (reporting memory) (Wrap []) [[zap_String "method" "POST"; zap_String "path" "/kick/webhook"]].

Example report_route :
  stack_of (log (reporting memory) kick_core (at_stack ErrorLevel "http request" "goroutine 1")
    [zap_Int "status" 500; zap_Error (GoError "context canceled" None [])] []).1 =
  ["HTTP POST /kick/webhook returned 500: context canceled" +:+ newline +:+ "goroutine 1"].
Proof. vm_compute. reflexivity. Qed.
Example report_panic :
  stack_of (log (reporting memory) (Wrap []) (at_stack WarnLevel "handler failed" "goroutine 1")
    [zap_Error (GoError "serve: panic: boom" None [CapturePanic "boom" "panicOrigin"])] []).1 =
  ["handler failed: serve: panic: boom" +:+ newline +:+ "panicOrigin"].
Proof. vm_compute. reflexivity. Qed.
Example report_http_panic :
  let '(n, w) := HTTPLogWriter_Write (reporting memory) (Wrap []) (at_stack ErrorLevel "" "goroutine 1")
    ("http: panic serving" +:+ newline) [] in
  n = 20 ∧ stack_of w = ["HTTP server error" +:+ newline +:+ "http: panic serving"] ∧
  map f_key (concat (map snd w)) = ["@type"; "serviceContext"; "stack_trace"; "context"].
Proof. vm_compute. done. Qed.
Example report_info :
  (log (reporting memory) (Wrap []) (at_stack InfoLevel "http request" "") [zap_Int "status" 500] []).1 =
  [(at_stack InfoLevel "http request" "", [zap_Int "status" 500])].
Proof. vm_compute. reflexivity. Qed.
