(* ===== verification/Supervisor.v ===== *)
(** * The supervisor

    observability/supervisor.go: the agent run as a worker process whose crash
    dump comes back through a pipe. First the descriptor the worker is handed
    and how it finds it; then Supervise as a state machine: its own goroutine,
    the one that reads the pipe, the one that forwards a shutdown, and the
    worker, which writes, closes its end and exits when it likes. *)

From stdpp Require Import base gmap strings list relations pretty.
From Stdlib Require Import Ascii Lia.
From S2P Require Import Prelude GoErr.

(** ** The worker's descriptor *)

Definition crashFD : string := "RTCHAT_CRASH_FD".

(** What a descriptor refers to. *)
Inductive file := PipeReader | PipeWriter | OtherFile (name : string).

#[export] Instance file_eq_dec : EqDecision file.
Proof. solve_decision. Defined.

(** The fields of an [exec.Cmd] that matter; an [Env] of [nil] inherits. *)
Record Cmd := { Args : list string; ExtraFiles : list file; Env : option (list string) }.

(** What Supervise does to the command before it starts it. *)
Definition with_crash_output (environ : list string) (c : Cmd) : Cmd :=
  let extra := ExtraFiles c ++ [PipeWriter] in
  let env := default environ (Env c) in
  {| Args := Args c;
     ExtraFiles := extra;
     Env := Some (filter (λ item, has_prefix item (crashFD +:+ "=") = false) env ++
                  [crashFD +:+ "=" +:+ pretty (Z.of_nat (length extra) + 2)]) |}.

(** A process: its environment, its descriptors, and where the runtime writes
    a crash besides standard error, a duplicate of its own. *)
Record process := Process {
  p_env : list string;
  p_files : gmap Z file;
  p_crash : option file;
}.

(** os/exec: entry [i] of [ExtraFiles] becomes descriptor [3 + i]; the pipe's
    ends are closed on exec otherwise. *)
Definition child_files (std : file * file * file) (extra : list file) : gmap Z file :=
  let '(i, o, e) := std in
  map_seqZ 0 ([i; o; e] ++ extra).
Definition exec (environ : list string) (std : file * file * file) (c : Cmd) : process :=
  Process (default environ (Env c)) (child_files std (ExtraFiles c)) None.

(** [os.Getenv]: os/exec hands down the last value of a key. *)
Definition Getenv (key : string) (env : list string) : string :=
  default "" (last (omap (λ item,
    if has_prefix item (key +:+ "=") then Some (trim_prefix item (key +:+ "=")) else None) env)).

(** [os.NewFile] is [nil] below zero, which stops the output. *)
Definition InstallCrashOutput (p : process) : option error * process :=
  let value := Getenv crashFD (p_env p) in
  if String.eqb value "" then (None, p)
  else
    match parse_int value with
    | None => (Some (ErrMsg "strconv.Atoi: parsing"), p)
    | Some fd =>
      if fd <? 0 then (None, Process (p_env p) (p_files p) None)
      else
        match p_files p !! fd with
        | None => (Some (ErrMsg "bad file descriptor"), p)
        | Some f => (None, Process (p_env p) (delete fd (p_files p)) (Some f))
        end
    end.

(** main() with [--supervise]: the same program, without the flag. *)
Definition supervised (args : list string) : option Cmd :=
  match args with
  | name :: flag :: rest =>
    if String.eqb flag "--supervise" then Some {| Args := name :: rest; ExtraFiles := []; Env := None |} else None
  | _ => None
  end.

(** ** The machine *)

Definition bytes := list ascii.

(** [128*1024] *)
Definition crash_limit : nat := Z.to_nat 131072.
#[global] Opaque crash_limit.

Inductive log :=
  | LogPipe (e : error)        (* create crash pipe *)
  | LogStart (e : error)       (* start agent worker *)
  | LogCrashed (stack : bytes) (* agent worker crashed *)
  | LogExited (e : error).     (* agent worker exited unexpectedly *)

(** What cmd.Wait reports is the worker's to choose. *)
Inductive worker := NotStarted | Running | Exited (err : option error).

(** Where Supervise itself is: before the call named. *)
Inductive main_pc :=
  | AtPipe | AtStart | AtClose | AtGo | AtWait
  | AtDone (err : option error) | AtReceive (err : option error)
  | Returned (code : Z).

(** The goroutine that reads: io.ReadAll, io.Copy, the send. *)
Inductive reader_pc :=
  | NoReader | Reading (data : bytes) | Discarding (data : bytes) | Sending (data : bytes) | ReaderEnded.

(** The goroutine that waits for the context or for [done]. *)
Inductive forwarder_pc := NoForwarder | Forwarding | ForwarderEnded.

(** [pipe] is what was written and not read yet; [parent_end] and [worker_end]
    say who still holds its writing end; [output] is the channel of one slot;
    [written] and [terms] record what the worker wrote and was sent. *)
Record sup := Sup {
  main : main_pc;
  work : worker;
  reader : reader_pc;
  forwarder : forwarder_pc;
  pipe : bytes;
  parent_end : bool;
  worker_end : bool;
  output : option bytes;
  done_closed : bool;
  cancelled : bool;
  logs : list log;
  written : bytes;
  terms : nat;
}.

Definition start : sup :=
  Sup AtPipe NotStarted NoReader NoForwarder [] false false None false false [] [] 0.

Definition to (m : main_pc) (s : sup) : sup :=
  Sup m (work s) (reader s) (forwarder s) (pipe s) (parent_end s) (worker_end s) (output s)
    (done_closed s) (cancelled s) (logs s) (written s) (terms s).
Definition with_worker (w : worker) (e : bool) (s : sup) : sup :=
  Sup (main s) w (reader s) (forwarder s) (pipe s) (parent_end s) e (output s)
    (done_closed s) (cancelled s) (logs s) (written s) (terms s).
Definition with_reader (r : reader_pc) (p : bytes) (s : sup) : sup :=
  Sup (main s) (work s) r (forwarder s) p (parent_end s) (worker_end s) (output s)
    (done_closed s) (cancelled s) (logs s) (written s) (terms s).
Definition with_forwarder (f : forwarder_pc) (t : nat) (s : sup) : sup :=
  Sup (main s) (work s) (reader s) f (pipe s) (parent_end s) (worker_end s) (output s)
    (done_closed s) (cancelled s) (logs s) (written s) t.
Definition with_parent_end (b : bool) (s : sup) : sup :=
  Sup (main s) (work s) (reader s) (forwarder s) (pipe s) b (worker_end s) (output s)
    (done_closed s) (cancelled s) (logs s) (written s) (terms s).
Definition with_output (o : option bytes) (s : sup) : sup :=
  Sup (main s) (work s) (reader s) (forwarder s) (pipe s) (parent_end s) (worker_end s) o
    (done_closed s) (cancelled s) (logs s) (written s) (terms s).
Definition with_done (s : sup) : sup :=
  Sup (main s) (work s) (reader s) (forwarder s) (pipe s) (parent_end s) (worker_end s) (output s)
    true (cancelled s) (logs s) (written s) (terms s).
Definition with_cancelled (s : sup) : sup :=
  Sup (main s) (work s) (reader s) (forwarder s) (pipe s) (parent_end s) (worker_end s) (output s)
    (done_closed s) true (logs s) (written s) (terms s).
Definition with_logs (l : list log) (s : sup) : sup :=
  Sup (main s) (work s) (reader s) (forwarder s) (pipe s) (parent_end s) (worker_end s) (output s)
    (done_closed s) (cancelled s) (logs s ++ l) (written s) (terms s).
Definition with_written (b : bytes) (s : sup) : sup :=
  Sup (main s) (work s) (reader s) (forwarder s) (pipe s ++ b) (parent_end s) (worker_end s) (output s)
    (done_closed s) (cancelled s) (logs s) (written s ++ b) (terms s).

Inductive label :=
  (* Supervise *)
  | Pipe (e : option error) | Start (e : option error) | CloseWriter | Go | Wait | CloseDone | Receive
  (* the reader *)
  | Read (n : nat) | Limit | ReadEOF | ReadClosed | Discard (n : nat) | DiscardEnd | Send
  (* the forwarder *)
  | Term | ForwardDone
  (* the worker and the context *)
  | Write (b : bytes) | WorkerClose | Exit (e : option error) | Cancel.

(** What Supervise logs once the worker is gone. *)
Definition exit_logs (stack : bytes) (err : option error) : list log :=
  if bool_decide (stack ≠ []) then [LogCrashed stack]
  else match err with Some e => [LogExited e] | None => [] end.
Definition exit_code (err : option error) : Z := match err with Some _ => 1 | None => 0 end.

(** Nobody can write to the pipe any more. *)
Definition no_writer (s : sup) : bool := negb (parent_end s) && negb (worker_end s).
(** The deferred reader.Close has run. *)
Definition returned (s : sup) : bool := match main s with Returned _ => true | _ => false end.

(** Case analysis on what a step tests. *)
Ltac step_cases H :=
  repeat match type of H with
  | match ?x with _ => _ end = Some _ => destruct x eqn:?; try discriminate H
  end; injection H as <-;
  repeat match goal with
  | H : bool_decide _ = true |- _ => apply bool_decide_eq_true in H
  | H : _ && _ = true |- _ => apply andb_true_iff in H as [? ?]
  end.
(** Close what the facts in sight decide. *)
Ltac by_facts := solve [done | tauto | intuition congruence | intuition lia].

Section Supervise.
(** How much the operating system's pipe holds (64 KiB on Linux). *)
Context (capacity : nat).

Definition step (l : label) (s : sup) : option sup :=
  match l, main s, reader s, forwarder s, work s with
  (* Supervise *)
  | Pipe (Some e), AtPipe, _, _, _ => Some (to (Returned 1) (with_logs [LogPipe e] s))
  | Pipe None, AtPipe, _, _, _ => Some (to AtStart (with_parent_end true (with_reader (Reading []) [] s)))
  | Start (Some e), AtStart, _, _, _ =>
    Some (to (Returned 1) (with_logs [LogStart e] (with_parent_end false s)))
  | Start None, AtStart, _, _, _ => Some (to AtClose (with_worker Running true s))
  | CloseWriter, AtClose, _, _, _ => Some (to AtGo (with_parent_end false s))
  | Go, AtGo, _, _, _ => Some (to AtWait (with_forwarder Forwarding (terms s) s))
  | Wait, AtWait, _, _, Exited err => Some (to (AtDone err) s)
  | CloseDone, AtDone err, _, _, _ => Some (to (AtReceive err) (with_done s))
  | Receive, AtReceive err, _, _, _ =>
    match output s with
    | Some stack => Some (to (Returned (exit_code err)) (with_logs (exit_logs stack err) (with_output None s)))
    | None => None
    end
  (* the reader: io.ReadAll(io.LimitReader(reader, 128*1024)) *)
  | Read n, _, Reading data, _, _ =>
    if bool_decide (0 < n ∧ n ≤ length (pipe s) ∧ length data + n ≤ crash_limit)%nat
    then Some (with_reader (Reading (data ++ take n (pipe s))) (drop n (pipe s)) s) else None
  | Limit, _, Reading data, _, _ =>
    if bool_decide (length data = crash_limit) then Some (with_reader (Discarding data) (pipe s) s) else None
  | ReadEOF, _, Reading data, _, _ =>
    if bool_decide (pipe s = []) && no_writer s then Some (with_reader (Discarding data) [] s) else None
  | ReadClosed, _, Reading data, _, _ =>
    if returned s then Some (with_reader (Discarding data) (pipe s) s) else None
  (* io.Copy(io.Discard, reader) *)
  | Discard n, _, Discarding data, _, _ =>
    if bool_decide (0 < n ∧ n ≤ length (pipe s))%nat
    then Some (with_reader (Discarding data) (drop n (pipe s)) s) else None
  | DiscardEnd, _, Discarding data, _, _ =>
    if bool_decide (pipe s = []) && no_writer s || returned s
    then Some (with_reader (Sending data) (pipe s) s) else None
  | Send, _, Sending data, _, _ =>
    match output s with
    | None => Some (with_output (Some data) (with_reader ReaderEnded (pipe s) s))
    | Some _ => None
    end
  (* the forwarder: either case of the select when both are ready *)
  | Term, _, _, Forwarding, _ =>
    if cancelled s then Some (with_forwarder ForwarderEnded (S (terms s)) s) else None
  | ForwardDone, _, _, Forwarding, _ =>
    if done_closed s then Some (with_forwarder ForwarderEnded (terms s) s) else None
  (* the worker and the context *)
  | Write b, _, _, _, Running =>
    if worker_end s && bool_decide (b ≠ [] ∧ length (pipe s) + length b ≤ capacity)%nat
    then Some (with_written b s) else None
  | WorkerClose, _, _, _, Running => if worker_end s then Some (with_worker Running false s) else None
  | Exit err, _, _, _, Running => Some (with_worker (Exited err) false s)
  | Cancel, _, _, _, _ => if cancelled s then None else Some (with_cancelled s)
  | _, _, _, _, _ => None
  end.

Definition steps (s s' : sup) : Prop := ∃ l, step l s = Some s'.
Definition reachable (s : sup) : Prop := rtc steps start s.

Definition by_reader (l : label) : bool :=
  match l with Read _ | Limit | ReadEOF | ReadClosed | Discard _ | DiscardEnd | Send => true | _ => false end.
(** What neither the worker nor the context decides. *)
Definition by_supervisor (l : label) : bool :=
  match l with Write _ | WorkerClose | Exit _ | Cancel => false | _ => true end.
Definition reader_steps (s s' : sup) : Prop := ∃ l, by_reader l = true ∧ step l s = Some s'.
Definition supervisor_steps (s s' : sup) : Prop := ∃ l, by_supervisor l = true ∧ step l s = Some s'.

(** The worker is gone, or never was. *)
Definition settled (s : sup) : Prop := (∃ err, work s = Exited err) ∨ returned s = true.
(** Supervise has returned and its goroutines are gone. *)
Definition finished (s : sup) : Prop :=
  returned s = true ∧ (reader s = NoReader ∨ reader s = ReaderEnded) ∧
  (forwarder s = NoForwarder ∨ forwarder s = ForwarderEnded).

(** *** The invariant *)

Definition dump (s : sup) : bytes := take crash_limit (written s).

(** Supervise's own progress and the worker's. *)
Definition main_ok (s : sup) : Prop :=
  match main s with
  | AtPipe | AtStart => work s = NotStarted ∧ logs s = []
  | AtClose | AtGo | AtWait => work s ≠ NotStarted ∧ logs s = []
  | AtDone err | AtReceive err => work s = Exited err ∧ logs s = []
  | Returned c =>
    (∃ err, work s = Exited err ∧ c = exit_code err ∧ logs s = exit_logs (dump s) err) ∨
    (work s = NotStarted ∧ c = 1 ∧ ∃ e, logs s = [LogPipe e] ∨ logs s = [LogStart e])
  end.

Definition ends_ok (s : sup) : Prop :=
  (parent_end s = true ↔ main s = AtStart ∨ main s = AtClose) ∧
  (worker_end s = true → work s = Running) ∧
  (work s = NotStarted → written s = [] ∧ pipe s = []) ∧
  (done_closed s = true ↔ match main s with AtReceive _ => True | Returned _ => work s ≠ NotStarted | _ => False end).

(** What is read is what was written, up to the limit. *)
Definition drained (s : sup) : Prop := pipe s = [] ∧ no_writer s = true.
Definition reader_ok (s : sup) : Prop :=
  match reader s with
  | NoReader => main s = AtPipe ∨ (work s = NotStarted ∧ returned s = true)
  | Reading d => written s = d ++ pipe s ∧ (length d ≤ crash_limit)%nat ∧ main s ≠ AtPipe
  | Discarding d => d = dump s ∧ (length d = crash_limit ∨ no_writer s = true) ∧ main s ≠ AtPipe
  | Sending d => d = dump s ∧ no_writer s = true ∧ pipe s = [] ∧ main s ≠ AtPipe
  | ReaderEnded => no_writer s = true ∧ pipe s = [] ∧ main s ≠ AtPipe
  end.

Definition output_ok (s : sup) : Prop :=
  match output s with
  | Some d => d = dump s ∧ reader s = ReaderEnded
  | None => reader s = ReaderEnded → returned s = true
  end ∧ (returned s = true → work s ≠ NotStarted → reader s = ReaderEnded ∧ output s = None).

Definition forwarder_ok (s : sup) : Prop :=
  match forwarder s with
  | NoForwarder => terms s = 0%nat ∧
    match main s with
    | AtPipe | AtStart | AtClose | AtGo => True | Returned _ => work s = NotStarted | _ => False
    end
  | Forwarding => terms s = 0%nat ∧
    match main s with AtPipe | AtStart | AtClose | AtGo => False | Returned _ => work s ≠ NotStarted | _ => True end
  | ForwarderEnded => (terms s ≤ 1)%nat ∧ (0 < terms s → cancelled s = true)%nat ∧
    match main s with AtPipe | AtStart | AtClose | AtGo => False | Returned _ => work s ≠ NotStarted | _ => True end
  end.

Definition inv (s : sup) : Prop := main_ok s ∧ ends_ok s ∧ reader_ok s ∧ output_ok s ∧ forwarder_ok s.

Lemma inv_start : inv start.
Proof. by repeat split; cbn; try tauto; try (intros; discriminate); intuition congruence. Qed.

(** Where the worker runs, and what is left when Supervise is back early. *)
Lemma inv_running s : inv s → work s = Running → main s = AtClose ∨ main s = AtGo ∨ main s = AtWait.
Proof.
  intros (Hm & _) Hw. unfold main_ok in Hm. rewrite Hw in Hm.
  destruct (main s); try tauto; [naive_solver..|destruct Hm as [(? & ? & _)|[? _]]; discriminate].
Qed.
Lemma inv_returned s :
  inv s → returned s = true → reader s ≠ ReaderEnded →
  work s = NotStarted ∧ written s = [] ∧ pipe s = [] ∧ no_writer s = true.
Proof.
  intros (_ & (Hp & Hw & Hn & _) & _ & [_ Ho] & _) Hret Hr.
  assert (work s = NotStarted) as E by (destruct (work s); [done|..]; destruct Ho; done).
  destruct (Hn E) as [-> ->]. split_and!; [done..|]. unfold no_writer, returned in *.
  destruct (main s), (parent_end s), (worker_end s), (work s); intuition discriminate.
Qed.

Lemma dump_full (d p : bytes) :
  (length d ≤ crash_limit)%nat → (length d = crash_limit ∨ p = []) → take crash_limit (d ++ p) = d.
Proof. intros Hd [Hl| ->]; [rewrite <-Hl; apply take_app_length|rewrite app_nil_r; by apply take_ge]. Qed.

Lemma dump_more (d wr b : bytes) :
  d = take crash_limit wr → length d = crash_limit → d = take crash_limit (wr ++ b).
Proof. intros -> Hl. rewrite length_take in Hl. rewrite take_app_le by lia. done. Qed.

Ltac unfold_inv :=
  unfold inv, main_ok, ends_ok, reader_ok, output_ok, forwarder_ok, dump, no_writer, returned in *; cbn in *.


(** Supervise and its forwarder. *)
Lemma inv_step_main l s s' :
  by_supervisor l = true → by_reader l = false → step l s = Some s' → inv s → inv s'.
Proof.
  intros Hl Hl' Hs (Hm & He & Hr & Ho & Hf). destruct s as [m w r f p pe we o d c lg wr t].
  destruct l; try discriminate; cbn in Hs; step_cases Hs; unfold_inv; try simplify_eq; cbn in *.
  all: split_and!; try by_facts.
  all: try (destruct f; by_facts).
  all: try (destruct r; by_facts).
  all: try (destruct o; by_facts).
  all: try (destruct o, r; by_facts).
  all: try (destruct r, we; cbn in *; by_facts).
  all: try (destruct r, pe, we; cbn in *; by_facts).
  - right. destruct Hm as [-> ->]. by eauto.
  - right. destruct Hm as [-> ->]. by eauto.
  - destruct Hm as [-> ->], Ho as [[-> _] _]. left. by eexists.
Qed.

(** The reader. *)
Lemma inv_step_reader l s s' : by_reader l = true → step l s = Some s' → inv s → inv s'.
Proof.
  intros Hl Hs Hi. pose proof (inv_returned s Hi) as Hret. destruct Hi as (Hm & He & Hr & Ho & Hf).
  destruct s as [m w r f p pe we o d c lg wr t].
  destruct l; try discriminate; cbn in Hs; step_cases Hs; unfold_inv; try simplify_eq; cbn in *.
  all: split_and!; try by_facts.
  all: try (destruct o; by_facts).
  - destruct He as (_ & _ & Hn & _). intros [-> ->]%Hn. by rewrite drop_nil.
  - rewrite <-app_assoc, take_drop. tauto.
  - rewrite length_app, length_take. lia.
  - destruct Hr as (-> & ? & ?). rewrite dump_full; auto.
  - destruct Hr as (-> & ? & ?). rewrite dump_full; auto.
  - destruct Hret as (_ & -> & -> & _), Hr as (Hr & _ & _); [done..|]. by destruct data.
  - destruct He as (_ & _ & Hn & _). intros [-> ->]%Hn. by rewrite drop_nil.
  - apply orb_true_iff in Heqb as [[_ ?]%andb_true_iff|?]; [done|by apply Hret].
  - apply orb_true_iff in Heqb as [[?%bool_decide_eq_true _]%andb_true_iff|?]; [done|by apply Hret].
Qed.

(** The worker and the context. *)
Lemma inv_step_world l s s' : by_supervisor l = false → step l s = Some s' → inv s → inv s'.
Proof.
  intros Hl Hs Hi. pose proof (inv_running s Hi) as Hrun. destruct Hi as (Hm & He & Hr & Ho & Hf).
  destruct s as [m w r f p pe we o d c lg wr t].
  destruct l; try discriminate; cbn in Hs; step_cases Hs; unfold_inv; try simplify_eq; cbn in *.
  all: try (destruct Hrun as [->|[->| ->]]; [done|..]).
  all: split_and!; try by_facts.
  all: try (destruct f; by_facts).
  all: try (destruct r, pe; cbn in *; by_facts).
  all: try (destruct o, r, pe; cbn in *; by_facts).
  all: destruct r; try by_facts; try (destruct pe; by_facts).
  all: try (destruct Hr as (-> & ? & ?); rewrite <-app_assoc; by_facts).
  all: destruct Hr as (Hd & [Hf'|?] & ?); [|by destruct pe]; split_and!; [by apply dump_more|by left|done].
Qed.

Lemma reachable_inv s : reachable s → inv s.
Proof.
  intros H. apply (rtc_ind_r (R:=steps) inv start); [apply inv_start| |done].
  intros s1 s2 _ [l Hl] Hi. destruct (by_supervisor l) eqn:Hb; [|by eapply inv_step_world].
  destruct (by_reader l) eqn:Hr; [by eapply inv_step_reader|by eapply inv_step_main].
Qed.

End Supervise.
