(* ===== verification/SupervisorEnds.v ===== *)
(** * The supervisor: what it promises

    That Supervise returns once the worker is gone and leaves no goroutine,
    that the worker can always write its crash dump, and that what is logged
    and returned is what happened to the worker. *)

From stdpp Require Import base gmap strings list relations pretty.
From Stdlib Require Import Ascii Lia.
From S2P Require Import Prelude GoErr JsonText Supervisor.

(** What every step keeps and makes smaller ends. *)
Lemma sn_measure {A} (R : relation A) (P : A → Prop) (f : A → nat) :
  (∀ x y, P x → R x y → P y ∧ (f y < f x)%nat) → ∀ x, P x → sn R x.
Proof.
  intros HR x. induction x as [x IH] using (well_founded_ind (well_founded_ltof A f)). intros Hx.
  constructor. intros y [Hy Hlt]%HR; [|done]. by apply IH.
Qed.

Section Ends.
Context (capacity : nat).
Local Abbreviation step := (step capacity).
Local Abbreviation steps := (steps capacity).
Local Abbreviation reachable := (reachable capacity).
Local Abbreviation reader_steps := (reader_steps capacity).
Local Abbreviation supervisor_steps := (supervisor_steps capacity).

Definition main_rank (m : main_pc) : nat :=
  match m with
  | AtPipe => 8 | AtStart => 7 | AtClose => 6 | AtGo => 5 | AtWait => 3
  | AtDone _ => 2 | AtReceive _ => 1 | Returned _ => 0
  end.
Definition reader_rank (r : reader_pc) : nat :=
  match r with Reading _ => 3 | Discarding _ => 2 | Sending _ => 1 | NoReader | ReaderEnded => 0 end.
Definition measure (s : sup) : nat :=
  main_rank (main s) + reader_rank (reader s) + length (pipe s) +
  match forwarder s with Forwarding => 1 | _ => 0 end + if cancelled s then 0 else 1.

Lemma settled_facts s :
  inv s → settled s →
  main s ≠ AtPipe ∧ main s ≠ AtStart ∧ work s ≠ Running ∧ (main s = AtGo → forwarder s = NoForwarder).
Proof.
  intros Hi Hset. pose proof (inv_running s Hi) as Hrun. destruct Hi as (Hm & _ & _ & _ & Hf).
  unfold settled, returned, main_ok, forwarder_ok in *. split_and!; intros E; rewrite ?E in *.
  - destruct Hset as [[? E']|?]; [|done]. rewrite E' in Hm. naive_solver.
  - destruct Hset as [[? E']|?]; [|done]. rewrite E' in Hm. naive_solver.
  - destruct Hset as [[? E']|Hret]; [done|]. destruct Hrun as [E'|[E'|E']]; [done|..]; by rewrite E' in Hret.
  - destruct (forwarder s); naive_solver.
Qed.

Lemma settled_step l s s' :
  inv s → settled s → step l s = Some s' → settled s' ∧ (measure s' < measure s)%nat.
Proof.
  intros Hi Hset Hs. destruct (settled_facts s Hi Hset) as (Hp & Ha & Hw & Hgo). clear Hi.
  unfold settled, measure, returned in *. destruct s as [m w r f p pe we o d c lg wr t].
  destruct l; cbn in Hs; step_cases Hs; cbn in *; try done; (split; [by_facts|]);
    rewrite ?length_drop; try (rewrite (Hgo eq_refl)); cbn; lia.
Qed.

(** Something to read, or nobody to write it, or a closed pipe: the reader has
    a step. *)
Lemma reader_progress s :
  inv s → pipe s ≠ [] ∨ no_writer s = true ∨ returned s = true →
  reader s = NoReader ∨ reader s = ReaderEnded ∨ ∃ l s', by_reader l = true ∧ step l s = Some s'.
Proof.
  intros (_ & _ & Hr & Ho & _) Hp. unfold reader_ok, output_ok, Supervisor.step in *.
  destruct (reader s) as [|data|data|data|] eqn:Er; [by left| | | |by right; left]; right; right.
  - destruct (pipe s) as [|a p] eqn:Ep.
    + destruct Hp as [?|[Hn|Hn]]; [done| |].
      * exists ReadEOF. rewrite Hn. by eexists.
      * exists ReadClosed. rewrite Hn. by eexists.
    + destruct (decide (length data = crash_limit)) as [Hl|Hl].
      * exists Limit. rewrite bool_decide_true by done. by eexists.
      * exists (Read 1). rewrite bool_decide_true by (cbn; lia). by eexists.
  - destruct (pipe s) as [|a p] eqn:Ep.
    + exists DiscardEnd. destruct Hp as [?|[Hn|Hn]]; [done|..]; rewrite Hn, ?orb_true_r; by eexists.
    + exists (Discard 1). rewrite bool_decide_true by (cbn; lia). by eexists.
  - exists Send. destruct (output s); [by destruct Ho as [[_ ?] _]|by eexists].
Qed.

Lemma reader_by_supervisor l : by_reader l = true → by_supervisor l = true.
Proof. by destruct l. Qed.

Lemma supervisor_progress s :
  inv s → settled s → finished s ∨ ∃ l s', by_supervisor l = true ∧ step l s = Some s'.
Proof.
  intros Hi Hset. destruct (settled_facts s Hi Hset) as (Hp & Ha & Hw & _).
  pose proof (reader_progress s Hi) as Hread. destruct Hi as (Hm & (Hpe & Hwe & _ & Hd) & Hr & [Ho _] & Hf).
  assert (main s ≠ AtClose → no_writer s = true) as Hnw.
  { intros E. unfold no_writer. destruct (parent_end s), (worker_end s); naive_solver. }
  assert ((∃ l s', by_reader l = true ∧ step l s = Some s') →
    ∃ l s', by_supervisor l = true ∧ step l s = Some s') as Hrs.
  { intros (l & s' & Hl & ?). exists l, s'. split; [by apply reader_by_supervisor|done]. }
  unfold main_ok, finished, reader_ok, forwarder_ok, returned in *.
  destruct (main s) as [| | | | |err|err|code] eqn:Em; try done.
  - right. exists CloseWriter. cbn. rewrite Em. by eexists.
  - right. exists Go. cbn. rewrite Em. by eexists.
  - destruct (work s) as [| |err] eqn:Ew; [naive_solver|done|]. right. exists Wait. cbn. rewrite Em, Ew. by eexists.
  - right. exists CloseDone. cbn. rewrite Em. by eexists.
  - right. destruct (output s) as [d|] eqn:Eo; [exists Receive; cbn; rewrite Em, Eo; by eexists|].
    apply Hrs. destruct Hread as [E|[E|?]]; [right; left; by apply Hnw| | |done]; rewrite E in *.
    + destruct Hr as [?|[? ?]]; done.
    + by specialize (Ho eq_refl).
  - destruct Hread as [E|[E|?]]; [by right; right| | |right; by apply Hrs].
    all: destruct (forwarder s) eqn:Ef; [left; by eauto| |left; by eauto]; right; exists ForwardDone; cbn;
      rewrite Ef, (proj2 Hd) by apply Hf; by eexists.
Qed.

Lemma reachable_step s s' : reachable s → steps s s' → reachable s'.
Proof. apply rtc_r. Qed.

Lemma settled_steps s s' : reachable s ∧ settled s → steps s s' → reachable s' ∧ settled s'.
Proof.
  intros [Hs Hset] [l Hl]. split; [by eapply reachable_step; [|eexists]|].
  eapply settled_step; [by eapply reachable_inv|done..].
Qed.

(** C37. Supervise returns: once the worker is gone, or could not be started,
    whatever the goroutines and the context do from there on ends after
    finitely many steps, and it can only end with Supervise returned and
    neither of its goroutines left behind. *)
Theorem supervise_returns s :
  reachable s → settled s →
  sn steps s ∧
  ∀ s', rtc steps s s' → (∀ s'', ¬ supervisor_steps s' s'') → finished s'.
Proof.
  intros Hs Hset. split.
  - apply (sn_measure _ (λ s, reachable s ∧ settled s) measure); [|done].
    intros x y Hx Hxy. split; [by eapply settled_steps|]. destruct Hx as [Hx Hsx], Hxy as [l Hl].
    eapply settled_step; [by eapply reachable_inv|done..].
  - intros s' Hr Hstuck.
    assert (reachable s' ∧ settled s') as [Hs' Hset'].
    { clear Hstuck. induction Hr as [|x y z Hxy _ IH]; [done|]. apply IH; by eapply settled_steps. }
    destruct (supervisor_progress s') as [?|(l & s'' & ? & ?)]; [by eapply reachable_inv|done..|].
    exfalso. eapply (Hstuck s''). by exists l.
Qed.

(** ** The worker writes *)

Lemma reader_step_frees l s s' :
  by_reader l = true → step l s = Some s' →
  (reader_rank (reader s') + length (pipe s') < reader_rank (reader s) + length (pipe s))%nat ∧
  work s' = work s ∧ worker_end s' = worker_end s.
Proof.
  intros Hl Hs. destruct s as [m w r f p pe we o d c lg wr t].
  destruct l; try discriminate; cbn in Hs; step_cases Hs; cbn; rewrite ?length_drop; (split; [lia|done]).
Qed.

(** A crash dump never blocks the worker: while it holds the pipe, the
    reader can only stop, after finitely many steps of its own, with the pipe
    empty, so that the worker can write on, whatever it has written before. *)
Theorem worker_never_blocks s :
  (0 < capacity)%nat → reachable s → work s = Running → worker_end s = true →
  sn reader_steps s ∧
  ∀ s', rtc reader_steps s s' → (∀ s'', ¬ reader_steps s' s'') →
    pipe s' = [] ∧ ∀ a, is_Some (step (Write [a]) s').
Proof.
  intros Hcap Hs Hw He. split.
  - apply (sn_measure _ (λ _, True) (λ s, (reader_rank (reader s) + length (pipe s))%nat)); [|done].
    intros x y _ (l & Hl & Hxy). split; [done|]. by eapply reader_step_frees.
  - intros s' Hr Hstuck.
    assert (reachable s' ∧ work s' = Running ∧ worker_end s' = true) as (Hs' & Hw' & He').
    { clear Hstuck. induction Hr as [|x y z (l & Hl & Hxy) _ IH]; [done|].
      destruct (reader_step_frees _ _ _ Hl Hxy) as (_ & E1 & E2).
      apply IH; [by eapply reachable_step; [|eexists]|congruence..]. }
    apply reachable_inv in Hs'. assert (pipe s' = []) as Hp.
    { destruct (decide (pipe s' = [])) as [|Hp]; [done|exfalso].
      destruct (reader_progress s' Hs') as [E|[E|(l & s'' & ? & ?)]]; [by left| | |by apply (Hstuck s''); exists l].
      all: pose proof (inv_running s' Hs' Hw'); destruct Hs' as (Hm & _ & Hrd & _);
        unfold reader_ok, no_writer in Hrd; rewrite E in Hrd.
      - intuition congruence.
      - rewrite He', andb_false_r in Hrd. by destruct Hrd. }
    split; [done|]. intros a. cbn. rewrite Hw', He', Hp. cbn.
    destruct (main s'), (reader s'), (forwarder s'); rewrite bool_decide_true by (split; [done|cbn; lia]); by eexists.
Qed.

(** ** What is reported *)

Lemma take_limit {A} (x : A) l : take crash_limit (x :: l) = x :: take (crash_limit - 1) l.
Proof.
  assert (0 < crash_limit)%nat as H by (apply Nat.ltb_lt; vm_compute; reflexivity).
  by destruct crash_limit as [|n]; [lia|]; rewrite Nat.sub_1_r.
Qed.

(** C38. What Supervise returns and logs is what happened to the worker: 0 when
    it exited well and 1 otherwise; one entry at most, the first 128 KiB of all
    the worker wrote to the pipe when it wrote anything, else how it ended; and
    1 with one entry when it was never started. The worker is sent SIGTERM at
    most once, and only after the context was cancelled. *)
Theorem crash_reported s c :
  reachable s → main s = Returned c →
  ((∃ err, work s = Exited err ∧ (c = 0 ∧ err = None ∨ c = 1 ∧ err ≠ None) ∧
      (written s ≠ [] → logs s = [LogCrashed (take crash_limit (written s))]) ∧
      (written s = [] → logs s = match err with Some e => [LogExited e] | None => [] end)) ∨
   (work s = NotStarted ∧ written s = [] ∧ c = 1 ∧ ∃ e, logs s = [LogPipe e] ∨ logs s = [LogStart e])) ∧
  (terms s ≤ 1)%nat ∧ (terms s = 1%nat → cancelled s = true).
Proof.
  intros (Hm & (_ & _ & Hn & _) & _ & _ & Hf)%reachable_inv Hc. split.
  - unfold main_ok in Hm. rewrite Hc in Hm. destruct Hm as [(err & Hw & -> & ->)|(Hw & ? & ?)]; [left|right; by destruct (Hn Hw)].
    exists err. split; [done|]. split; [by destruct err; [right|left]|]. unfold exit_logs, dump. split; intros E.
    + rewrite bool_decide_true; [done|]. destruct (written s); [done|]. by rewrite take_limit.
    + by rewrite E, take_nil.
  - unfold forwarder_ok in Hf. destruct (forwarder s), Hf as [Ht Hf]; [split; lia..|].
    split; [done|]. intros E. apply Hf. lia.
Qed.
End Ends.

(** ** Witnesses: a worker that crashes, one that is told to stop, and one that
    cannot be started *)

Fixpoint run (capacity : nat) (ls : list label) (s : sup) : option sup :=
  match ls with [] => Some s | l :: ls => step capacity l s ≫= run capacity ls end.
Lemma run_reachable capacity ls s : run capacity ls start = Some s → reachable capacity s.
Proof.
  unfold reachable. generalize start. induction ls as [|l ls IH]; intros s0; cbn; [intros [= ->]; done|].
  destruct (step capacity l s0) as [s1|] eqn:E; [|done]. cbn. intros H.
  eapply rtc_l; [by exists l|]. by apply IH.
Qed.

Definition crash_text : bytes := String.list_ascii_of_string "panic!".
Definition crashing : list label :=
  [Pipe None; Start None; Write (take 4 crash_text); CloseWriter; Read 3; Go; Read 1; Write (drop 4 crash_text);
   Exit (Some (ErrMsg "exit status 2"))].
Definition crashed : list label :=
  crashing ++ [Wait; Read 2; ReadEOF; CloseDone; DiscardEnd; ForwardDone; Send; Receive].
Definition stopping : list label :=
  [Pipe None; Start None; CloseWriter; Go; Cancel; Term; Exit None; ReadEOF; DiscardEnd; Send; Wait; CloseDone; Receive].

Example crashed_logs :
  (λ s, (main s, logs s, reader s, forwarder s)) <$> run 4 crashed start =
  Some (Returned 1, [LogCrashed crash_text], ReaderEnded, ForwarderEnded).
Proof. vm_compute. reflexivity. Qed.
Example stopped_quietly :
  (λ s, (main s, logs s, terms s)) <$> run 4 stopping start = Some (Returned 0, [], 1%nat).
Proof. vm_compute. reflexivity. Qed.
Example not_started :
  (λ s, (main s, logs s)) <$> run 4 [Pipe None; Start (Some ErrBudget); ReadClosed; DiscardEnd; Send] start =
  Some (Returned 1, [LogStart ErrBudget]).
Proof. vm_compute. reflexivity. Qed.
(** A full pipe, then not. *)
Example full_pipe :
  step 4 (Write ["!"%char]) <$> run 4 [Pipe None; Start None; Write (take 4 crash_text)] start = Some None.
Proof. vm_compute. reflexivity. Qed.

Lemma supervise_returns_witness :
  ∃ s, run 4 crashing start = Some s ∧ reachable 4 s ∧ settled s ∧ sn (steps 4) s.
Proof.
  destruct (run 4 crashing start) as [s|] eqn:E; [|vm_compute in E; discriminate].
  exists s. assert (reachable 4 s) as Hr by (by eapply run_reachable).
  assert (settled s) as Hset.
  { left. exists (Some (ErrMsg "exit status 2")). apply (f_equal (fmap work)) in E. vm_compute in E. by injection E. }
  split_and!; [done..|]. by apply supervise_returns.
Defined.

Lemma worker_never_blocks_witness :
  ∃ s, run 4 [Pipe None; Start None; Write (take 4 crash_text)] start = Some s ∧ sn (reader_steps 4) s.
Proof.
  destruct (run 4 _ start) as [s|] eqn:E; [|vm_compute in E; discriminate].
  exists s. split; [done|]. apply worker_never_blocks; [lia|by eapply run_reachable|..];
    [apply (f_equal (fmap work)) in E|apply (f_equal (fmap worker_end)) in E]; vm_compute in E; by injection E.
Defined.

Lemma crash_reported_witness :
  ∃ s, run 4 crashed start = Some s ∧ (terms s ≤ 1)%nat.
Proof.
  destruct (run 4 crashed start) as [s|] eqn:E; [|vm_compute in E; discriminate].
  exists s. split; [done|]. apply (crash_reported 4 s 1); [by eapply run_reachable|].
  apply (f_equal (fmap main)) in E. vm_compute in E. by injection E.
Defined.

(** ** The descriptor *)

Lemma pretty_char x : (x < 10)%N → is_digit (pretty_N_char x) = true ∧ digit_value (pretty_N_char x) = Z.of_N x.
Proof.
  intros H. assert (x = 0 ∨ x = 1 ∨ x = 2 ∨ x = 3 ∨ x = 4 ∨ x = 5 ∨ x = 6 ∨ x = 7 ∨ x = 8 ∨ x = 9)%N as Hx by lia.
  by repeat destruct Hx as [->|Hx]; try subst.
Qed.
Lemma pretty_go_value x acc : digits_value 0 (pretty_N_go x acc) = digits_value (Z.of_N x) acc.
Proof.
  revert acc. induction x as [x IH] using (well_founded_ind N.lt_wf_0). intros acc.
  assert (x = 0 ∨ 0 < x)%N as [->|Hx] by lia; [done|].
  rewrite pretty_N_go_step by done. rewrite IH by by apply N.div_lt. cbn [digits_value].
  destruct (pretty_char (x mod 10)) as [_ ->]; [by apply N.mod_lt|]. f_equal.
  pose proof (N.div_mod x 10). lia.
Qed.
Lemma pretty_go_chars x acc : all_chars is_digit (pretty_N_go x acc) = all_chars is_digit acc.
Proof.
  revert acc. induction x as [x IH] using (well_founded_ind N.lt_wf_0). intros acc.
  assert (x = 0 ∨ 0 < x)%N as [->|Hx] by lia; [done|].
  rewrite pretty_N_go_step by done. rewrite IH by by apply N.div_lt. cbn [all_chars].
  by destruct (pretty_char (x mod 10)) as [-> _]; [by apply N.mod_lt|].
Qed.

(** [strconv.Atoi] of what [fmt] prints for [%d]. *)
Lemma parse_int_pretty n : 0 < n <= max_int64 → parse_int (pretty n) = Some n.
Proof.
  intros Hn. destruct n as [|p|]; [lia| |lia].
  change (pretty (Z.pos p)) with (pretty_N_go (N.pos p) "").
  assert (digits_value 0 (pretty_N_go (N.pos p) "") = Z.pos p) as Hv by by rewrite pretty_go_value.
  assert (all_chars is_digit (pretty_N_go (N.pos p) "") = true) as Hc by by rewrite pretty_go_chars.
  destruct (pretty_N_go (N.pos p) "") as [|a s]; [done|]. unfold parse_int.
  assert (is_digit a = true) as Ha by (cbn in Hc; by destruct (is_digit a)).
  assert (Ascii.eqb a "-" = false ∧ Ascii.eqb a "+" = false) as [-> ->].
  { split; apply Ascii.eqb_neq; intros ->; discriminate. }
  cbn -[digits_value all_digits in_int64]. unfold all_digits. rewrite Hc, Hv. cbn -[in_int64].
  unfold in_int64, min_int64. rewrite !(proj2 (Z.leb_le _ _)) by lia. done.
Qed.

Lemma Getenv_last key value env :
  key ≠ "" → Getenv key (filter (λ i, has_prefix i (key +:+ "=") = false) env ++ [key +:+ "=" +:+ value]) = value.
Proof.
  intros Hk. unfold Getenv. rewrite omap_app. cbn.
  assert (key +:+ "=" +:+ value = (key +:+ "=") +:+ value) as -> by (symmetry; apply app_str_assoc).
  rewrite has_prefix_app. cbn. rewrite last_snoc. cbn.
  unfold trim_prefix. by rewrite has_prefix_app, drop_str_app.
Qed.

Lemma install_found p fd f :
  Getenv crashFD (p_env p) = pretty fd → 0 < fd <= max_int64 → p_files p !! fd = Some f →
  InstallCrashOutput p = (None, Process (p_env p) (delete fd (p_files p)) (Some f)).
Proof.
  intros He Hfd Hf. pose proof (parse_int_pretty fd Hfd) as Hp. unfold InstallCrashOutput. rewrite He, Hp.
  destruct (String.eqb_spec (pretty fd) "") as [E|_]; [by rewrite E in Hp|].
  rewrite (proj2 (Z.ltb_ge fd 0)) by lia. by rewrite Hf.
Qed.

(** The worker finds its end of the pipe: started with the command that
    Supervise prepares, whatever the environment and the files it was given,
    InstallCrashOutput succeeds, the runtime's crash output is the pipe, and no
    descriptor of the worker besides the runtime's own refers to it, so that
    the supervisor sees the end of the pipe when the worker ends. *)
Theorem crash_output_installed env environ std c :
  Z.of_nat (length (ExtraFiles c)) + 3 <= max_int64 →
  let p := exec env std (with_crash_output environ c) in
  (InstallCrashOutput p).1 = None ∧
  p_crash (InstallCrashOutput p).2 = Some PipeWriter ∧
  (PipeWriter ∉ [std.1.1; std.1.2; std.2] ++ ExtraFiles c →
   ∀ fd, p_files (InstallCrashOutput p).2 !! fd ≠ Some PipeWriter).
Proof.
  intros Hlen. destruct std as [[i o] e]. cbn zeta.
  set (fd := Z.of_nat (length (ExtraFiles c)) + 3). set (files := [i; o; e] ++ ExtraFiles c).
  rewrite (install_found _ fd PipeWriter).
  - cbn [fst snd p_crash p_files exec with_crash_output ExtraFiles]. split_and!; [done..|]. intros Hnew fd' Hfd.
    apply lookup_delete_Some in Hfd as [Hne Hfd].
    change (child_files _ _) with (map_seqZ (M:=gmap Z file) 0 (files ++ [PipeWriter])) in Hfd.
    apply lookup_map_seqZ_Some in Hfd as [Hpos Hfd]. rewrite Z.sub_0_r in Hfd.
    apply lookup_app_Some in Hfd as [Hfd|[Hge Hfd]]; [by apply Hnew, list_elem_of_lookup; eexists|].
    apply list_lookup_singleton_Some in Hfd as [Hfd _]. unfold files in *. cbn in *. lia.
  - cbn [p_env exec with_crash_output Env default]. etrans; [by apply Getenv_last|]. f_equal.
    rewrite length_app. cbn [length]. lia.
  - lia.
  - cbn [p_files exec with_crash_output ExtraFiles].
    change (child_files _ _) with (map_seqZ (M:=gmap Z file) 0 (files ++ [PipeWriter])).
    apply lookup_map_seqZ_Some. split; [lia|]. apply list_lookup_middle. unfold files. cbn. lia.
Qed.

Definition inherited : list string := ["HOME=/"; crashFD +:+ "=9"; "PORT=80"].
Definition sample_cmd : Cmd := {| Args := ["agent"]; ExtraFiles := [OtherFile "socket"]; Env := None |}.
Definition sample_worker : process :=
  exec [] (OtherFile "in", OtherFile "out", OtherFile "err") (with_crash_output inherited sample_cmd).

Example sample_env : p_env sample_worker = ["HOME=/"; "PORT=80"; "RTCHAT_CRASH_FD=4"].
Proof. vm_compute. reflexivity. Qed.

Lemma crash_output_installed_witness : p_crash (InstallCrashOutput sample_worker).2 = Some PipeWriter.
Proof.
  apply (crash_output_installed [] inherited (OtherFile "in", OtherFile "out", OtherFile "err") sample_cmd).
  vm_compute. discriminate.
Defined.

Example supervised_flag :
  supervised ["agent"; "--supervise"; "--region"] = Some {| Args := ["agent"; "--region"]; ExtraFiles := []; Env := None |}
  ∧ supervised ["agent"] = None.
Proof. by split. Qed.
